(** * Core data structures of the key/value store: dict, sds, zipmap

    A shallow embedding of [dict.c] / [dict.h], [sds.c] / [sds.h] and
    [zipmap.c], and the properties of the specification that concern them.

    Conventions of the embedding (an LP64 host, as the sources assume when
    they test [LONG_MAX == LLONG_MAX]):
    - [unsigned long], [size_t], [uint64_t] are integers in [0, 2^64) and
      their arithmetic wraps ([wrap64]); [unsigned int] wraps at 2^32;
    - [int], [long], [long long] overflow is undefined behaviour in C and is
      reported as [UB], except in [dictFingerprint], whose hash relies on
      two's complement wrap-around ([swrap64]);
    - an array is a list, a NULL-terminated chain of entries is a list, and
      reading or writing outside an array is [UB];
    - [assert] failing is [AssertFail];
    - a loop that is not structurally recursive runs on fuel, [OutOfFuel]
      being the (never reached) end of the fuel. *)

From Stdlib Require Import ZArith Lia List Bool Znumtheory.
From stdpp Require Import base list.
Import ListNotations.
Local Open Scope Z_scope.

(** ** Outcomes of a C function *)

Inductive outcome (A : Type) : Type :=
| Ret (a : A)
| AssertFail
| UB
| OutOfFuel.
Arguments Ret {A} a.
Arguments AssertFail {A}.
Arguments UB {A}.
Arguments OutOfFuel {A}.

Definition obind {A B : Type} (m : outcome A) (k : A -> outcome B) : outcome B :=
  match m with
  | Ret a => k a
  | AssertFail => AssertFail
  | UB => UB
  | OutOfFuel => OutOfFuel
  end.

Notation "x <- m ;; k" := (obind m (fun x => k))
  (at level 100, m at next level, right associativity).

(** ** Machine integers *)

Definition wrap64 (x : Z) : Z := x mod 2^64.
Definition wrap32 (x : Z) : Z := x mod 2^32.
Definition wrap8 (x : Z) : Z := x mod 2^8.
(** two's complement reading of the low 64 bits *)
Definition swrap64 (x : Z) : Z := (x + 2^63) mod 2^64 - 2^63.

Definition INT_MAX : Z := 2^31 - 1.
Definition INT_MIN : Z := - 2^31.
Definition LONG_MAX : Z := 2^63 - 1.

(** [a[i]] for a C index held in a [Z] *)
Definition zlookup {A : Type} (l : list A) (i : Z) : option A :=
  if i <? 0 then None else l !! Z.to_nat i.
(** [a[i] = x] *)
Definition zupdate {A : Type} (l : list A) (i : Z) (x : A) : list A :=
  <[Z.to_nat i := x]> l.

(** ** dict.h *)

Module Dict.

Definition DICT_OK : Z := 0.
Definition DICT_ERR : Z := 1.
Definition DICT_HT_INITIAL_SIZE : Z := 4.
Definition sizeof_ptr : Z := 8.

(** [dictEntry]: the key pointer and the value cell; [next] is the tail of
    the list the entry sits in. *)
Record dictEntry : Type := mkEntry { key : Z; val : Z }.

Abbreviation chain := (list dictEntry).

(** [dictType]: the callbacks the modelled functions call. *)
Record dictType : Type := mkType {
  hashFunction : Z -> Z;
  keyDup : option (Z -> Z);
  keyCompare : option (Z -> Z -> bool)
}.

(** [dictht]: [table] is the address of the bucket array (0 is NULL) and
    [slots] the array behind it. *)
Record dictht : Type := mkHt {
  table : Z;
  slots : list chain;
  size : Z;
  sizemask : Z;
  used : Z
}.

Record dict : Type := mkDict {
  type : dictType;
  ht0 : dictht;
  ht1 : dictht;
  rehashidx : Z;
  iterators : Z
}.

Record dictIterator : Type := mkIter {
  index : Z;
  itable : Z;
  safe : bool;
  entry : option dictEntry;
  nextEntry : option dictEntry;
  fingerprint : Z
}.

Definition set_ht0 (d : dict) (h : dictht) : dict :=
  mkDict (type d) h (ht1 d) (rehashidx d) (iterators d).
Definition set_ht1 (d : dict) (h : dictht) : dict :=
  mkDict (type d) (ht0 d) h (rehashidx d) (iterators d).
Definition set_rehashidx (d : dict) (r : Z) : dict :=
  mkDict (type d) (ht0 d) (ht1 d) r (iterators d).
Definition set_iterators (d : dict) (n : Z) : dict :=
  mkDict (type d) (ht0 d) (ht1 d) (rehashidx d) n.
Definition set_slots (h : dictht) (s : list chain) : dictht :=
  mkHt (table h) s (size h) (sizemask h) (used h).
Definition set_used (h : dictht) (u : Z) : dictht :=
  mkHt (table h) (slots h) (size h) (sizemask h) u.

Definition dictHashKey (d : dict) (k : Z) : Z := wrap64 (hashFunction (type d) k).
Definition dictCompareKeys (d : dict) (k1 k2 : Z) : bool :=
  match keyCompare (type d) with
  | Some cmp => cmp k1 k2
  | None => k1 =? k2
  end.
Definition dictSetKey (d : dict) (k : Z) : Z :=
  match keyDup (type d) with
  | Some dup => dup k
  | None => k
  end.
Definition dictIsRehashing (d : dict) : bool := negb (rehashidx d =? -1).

(** ** dict.c *)

Definition dict_force_resize_ratio : Z := 5.

(** [_dictReset] *)
Definition _dictReset : dictht := mkHt 0 [] 0 0 0.

(** [_dictInit], on the memory [dictCreate] allocates *)
Definition dictCreate (ty : dictType) : dict := mkDict ty _dictReset _dictReset (-1) 0.

(** [zcalloc(bytes)] for an array of bucket heads: [bytes / sizeof(dictEntry* )]
    NULL pointers. The allocator of the store aborts instead of returning
    NULL; the address it returns is an input of the caller. *)
Definition zcalloc (bytes : Z) : list chain :=
  repeat [] (Z.to_nat (bytes / sizeof_ptr)).

(** [_dictNextPower]: [while(1) { if (i >= size) return i; i *= 2; }] *)
Fixpoint _dictNextPower_loop (fuel : nat) (i sz : Z) : outcome Z :=
  match fuel with
  | O => OutOfFuel
  | S f => if sz <=? i then Ret i else _dictNextPower_loop f (wrap64 (i * 2)) sz
  end.

Definition _dictNextPower (sz : Z) : outcome Z :=
  if LONG_MAX <=? sz then Ret (wrap64 (LONG_MAX + 1))
  else _dictNextPower_loop 64 DICT_HT_INITIAL_SIZE sz.

(** [dictExpand]; [newtab] is the address [zcalloc] returns. *)
Definition dictExpand (newtab : Z) (d : dict) (sz : Z) : outcome (Z * dict) :=
  if dictIsRehashing d || (sz <? used (ht0 d)) then Ret (DICT_ERR, d)
  else
    realsize <- _dictNextPower sz ;;
    if realsize =? size (ht0 d) then Ret (DICT_ERR, d)
    else
      let n := mkHt newtab (zcalloc (wrap64 (realsize * sizeof_ptr)))
                    realsize (wrap64 (realsize - 1)) 0 in
      if table (ht0 d) =? 0 then Ret (DICT_OK, set_ht0 d n)
      else Ret (DICT_OK, set_rehashidx (set_ht1 d n) 0).

(** The loop over the entries of one bucket in [dictRehash]: every entry is
    pushed at the head of its bucket of [ht[1]]. *)
Fixpoint dictRehash_move (de : chain) (d : dict) : outcome dict :=
  match de with
  | [] => Ret d
  | e :: nextde =>
      let h := Z.land (dictHashKey d (key e)) (sizemask (ht1 d)) in
      match zlookup (slots (ht1 d)) h with
      | None => UB
      | Some c =>
          let t1 := mkHt (table (ht1 d)) (zupdate (slots (ht1 d)) h (e :: c))
                         (size (ht1 d)) (sizemask (ht1 d)) (wrap64 (used (ht1 d) + 1)) in
          let t0 := set_used (ht0 d) (wrap64 (used (ht0 d) - 1)) in
          dictRehash_move nextde (set_ht1 (set_ht0 d t0) t1)
      end
  end.

(** What the scan for a non-empty bucket ends with. *)
Inductive scan : Type :=
| Found (d : dict) (empty_visits : Z)
| GaveUp (d : dict).

(** [while(d->ht[0].table[d->rehashidx] == NULL)
       { d->rehashidx++; if (--empty_visits == 0) return 1; }] *)
Fixpoint dictRehash_skip (fuel : nat) (d : dict) (empty_visits : Z) : outcome scan :=
  match fuel with
  | O => OutOfFuel
  | S f =>
      match zlookup (slots (ht0 d)) (rehashidx d) with
      | None => UB
      | Some (_ :: _) => Ret (Found d empty_visits)
      | Some [] =>
          let d := set_rehashidx d (rehashidx d + 1) in
          if empty_visits =? INT_MIN then UB
          else
            let empty_visits := empty_visits - 1 in
            if empty_visits =? 0 then Ret (GaveUp d)
            else dictRehash_skip f d empty_visits
      end
  end.

(** The tail of [dictRehash], after the loop. *)
Definition dictRehash_finish (d : dict) : Z * dict :=
  if used (ht0 d) =? 0 then
    (0, mkDict (type d) (ht1 d) _dictReset (-1) (iterators d))
  else (1, d).

(** [while(n-- && d->ht[0].used != 0) { ... }] and what follows it *)
Fixpoint dictRehash_loop (fuel : nat) (d : dict) (n empty_visits : Z) : outcome (Z * dict) :=
  match fuel with
  | O => OutOfFuel
  | S f =>
      if n =? INT_MIN then UB
      else if n =? 0 then Ret (dictRehash_finish d)
      else
        let n := n - 1 in
        if used (ht0 d) =? 0 then Ret (dictRehash_finish d)
        else if size (ht0 d) <=? wrap64 (rehashidx d) then AssertFail
        else
          s <- dictRehash_skip (S (length (slots (ht0 d)))) d empty_visits ;;
          match s with
          | GaveUp d => Ret (1, d)
          | Found d empty_visits =>
              match zlookup (slots (ht0 d)) (rehashidx d) with
              | None => UB
              | Some de =>
                  d <- dictRehash_move de d ;;
                  let t0 := set_slots (ht0 d) (zupdate (slots (ht0 d)) (rehashidx d) []) in
                  let d := set_rehashidx (set_ht0 d t0) (rehashidx d + 1) in
                  dictRehash_loop f d n empty_visits
              end
          end
  end.

(** [dictRehash] *)
Definition dictRehash (d : dict) (n : Z) : outcome (Z * dict) :=
  if (n * 10 <? INT_MIN) || (INT_MAX <? n * 10) then UB
  else
    let empty_visits := n * 10 in
    if negb (dictIsRehashing d) then Ret (0, d)
    else dictRehash_loop (S (length (slots (ht0 d)))) d n empty_visits.

(** [_dictRehashStep] *)
Definition _dictRehashStep (d : dict) : outcome dict :=
  if iterators d =? 0 then (r <- dictRehash d 1 ;; Ret (snd r)) else Ret d.

(** [_dictExpandIfNeeded]; [dict_can_resize] is the global flag. *)
Definition _dictExpandIfNeeded (dict_can_resize : bool) (newtab : Z) (d : dict)
  : outcome (Z * dict) :=
  if dictIsRehashing d then Ret (DICT_OK, d)
  else if size (ht0 d) =? 0 then dictExpand newtab d DICT_HT_INITIAL_SIZE
  else if (size (ht0 d) <=? used (ht0 d))
          && (dict_can_resize
              || (dict_force_resize_ratio <? used (ht0 d) / size (ht0 d)))
  then dictExpand newtab d (wrap64 (used (ht0 d) * 2))
  else Ret (DICT_OK, d).

(** [while(he) { if (key==he->key || dictCompareKeys(d, key, he->key)) ...;
                 he = he->next; }] *)
Fixpoint chain_find (d : dict) (k : Z) (he : chain) : option dictEntry :=
  match he with
  | [] => None
  | e :: next =>
      if (k =? key e) || dictCompareKeys d k (key e) then Some e
      else chain_find d k next
  end.

(** [_dictKeyIndex]: the index of the slot for [k], -1 when the key exists
    (or the expansion failed), and [*existing]. *)
Definition _dictKeyIndex (dict_can_resize : bool) (newtab : Z) (d : dict) (k hash : Z)
  : outcome (Z * option dictEntry * dict) :=
  r <- _dictExpandIfNeeded dict_can_resize newtab d ;;
  let d := snd r in
  if fst r =? DICT_ERR then Ret (-1, None, d)
  else
    let idx := Z.land hash (sizemask (ht0 d)) in
    match zlookup (slots (ht0 d)) idx with
    | None => UB
    | Some he =>
        match chain_find d k he with
        | Some e => Ret (-1, Some e, d)
        | None =>
            if negb (dictIsRehashing d) then Ret (idx, None, d)
            else
              let idx := Z.land hash (sizemask (ht1 d)) in
              match zlookup (slots (ht1 d)) idx with
              | None => UB
              | Some he =>
                  match chain_find d k he with
                  | Some e => Ret (-1, Some e, d)
                  | None => Ret (idx, None, d)
                  end
              end
        end
    end.

(** [dictAddRaw]: the new entry (NULL when the key exists), [*existing] and
    the dict. The value cell of a new entry is not initialised; it is 0 here
    until [dictSetVal]. *)
Definition dictAddRaw (dict_can_resize : bool) (newtab : Z) (d : dict) (k : Z)
  : outcome (option dictEntry * option dictEntry * dict) :=
  d <- (if dictIsRehashing d then _dictRehashStep d else Ret d) ;;
  r <- _dictKeyIndex dict_can_resize newtab d k (dictHashKey d k) ;;
  let '(index, existing, d) := r in
  if index =? -1 then Ret (None, existing, d)
  else
    let e := mkEntry (dictSetKey d k) 0 in
    let ht := if dictIsRehashing d then ht1 d else ht0 d in
    match zlookup (slots ht) index with
    | None => UB
    | Some c =>
        let ht := mkHt (table ht) (zupdate (slots ht) index (e :: c))
                       (size ht) (sizemask ht) (wrap64 (used ht + 1)) in
        Ret (Some e, None, if dictIsRehashing d then set_ht1 d ht else set_ht0 d ht)
    end.

(** [dictSetVal] on the entry at the head of bucket [index] of table [ht] *)
Definition set_head_val (h : dictht) (idx v : Z) : dictht :=
  match zlookup (slots h) idx with
  | Some (e :: c) => set_slots h (zupdate (slots h) idx (mkEntry (key e) v :: c))
  | _ => h
  end.

(** [dictAdd] (no [valDup] callback): [DICT_ERR] when the key exists. *)
Definition dictAdd (dict_can_resize : bool) (newtab : Z) (d : dict) (k v : Z)
  : outcome (Z * dict) :=
  r <- dictAddRaw dict_can_resize newtab d k ;;
  let '(entry, _, d) := r in
  match entry with
  | None => Ret (DICT_ERR, d)
  | Some e =>
      (* the entry was pushed at the head of its bucket *)
      if dictIsRehashing d
      then Ret (DICT_OK, set_ht1 d (set_head_val (ht1 d)
                  (Z.land (dictHashKey d k) (sizemask (ht1 d))) v))
      else Ret (DICT_OK, set_ht0 d (set_head_val (ht0 d)
                  (Z.land (dictHashKey d k) (sizemask (ht0 d))) v))
  end.

(** The chain walk of [dictGenericDelete]: the chain without the first entry
    that matches, and that entry. *)
Fixpoint chain_unlink (d : dict) (k : Z) (he : chain) : option (dictEntry * chain) :=
  match he with
  | [] => None
  | e :: next =>
      if (k =? key e) || dictCompareKeys d k (key e) then Some (e, next)
      else match chain_unlink d k next with
           | Some (x, next') => Some (x, e :: next')
           | None => None
           end
  end.

(** [dictGenericDelete] (no destructors in the modelled [dictType]) *)
Definition dictGenericDelete (d : dict) (k : Z) : outcome (option dictEntry * dict) :=
  if (used (ht0 d) =? 0) && (used (ht1 d) =? 0) then Ret (None, d)
  else
    d <- (if dictIsRehashing d then _dictRehashStep d else Ret d) ;;
    let h := dictHashKey d k in
    let idx := Z.land h (sizemask (ht0 d)) in
    match zlookup (slots (ht0 d)) idx with
    | None => UB
    | Some he =>
        match chain_unlink d k he with
        | Some (e, he') =>
            let t := mkHt (table (ht0 d)) (zupdate (slots (ht0 d)) idx he')
                          (size (ht0 d)) (sizemask (ht0 d)) (wrap64 (used (ht0 d) - 1)) in
            Ret (Some e, set_ht0 d t)
        | None =>
            if negb (dictIsRehashing d) then Ret (None, d)
            else
              let idx := Z.land h (sizemask (ht1 d)) in
              match zlookup (slots (ht1 d)) idx with
              | None => UB
              | Some he =>
                  match chain_unlink d k he with
                  | Some (e, he') =>
                      let t := mkHt (table (ht1 d)) (zupdate (slots (ht1 d)) idx he')
                                    (size (ht1 d)) (sizemask (ht1 d))
                                    (wrap64 (used (ht1 d) - 1)) in
                      Ret (Some e, set_ht1 d t)
                  | None => Ret (None, d)
                  end
              end
        end
    end.

(** [dictDelete] *)
Definition dictDelete (d : dict) (k : Z) : outcome (Z * dict) :=
  r <- dictGenericDelete d k ;;
  Ret (match fst r with Some _ => DICT_OK | None => DICT_ERR end, snd r).

(** [dictFind]: the entry found (NULL is [None]) and the dict, which the
    rehash step may have changed. *)
Definition dictFind (d : dict) (k : Z) : outcome (option dictEntry * dict) :=
  if wrap64 (used (ht0 d) + used (ht1 d)) =? 0 then Ret (None, d)
  else
    d <- (if dictIsRehashing d then _dictRehashStep d else Ret d) ;;
    let h := dictHashKey d k in
    match zlookup (slots (ht0 d)) (Z.land h (sizemask (ht0 d))) with
    | None => UB
    | Some he =>
        match chain_find d k he with
        | Some e => Ret (Some e, d)
        | None =>
            if negb (dictIsRehashing d) then Ret (None, d)
            else
              match zlookup (slots (ht1 d)) (Z.land h (sizemask (ht1 d))) with
              | None => UB
              | Some he => Ret (chain_find d k he, d)
              end
        end
    end.

(** *** Iterators and the fingerprint *)

(** [long long] arithmetic of [dictFingerprint]: sums and left shifts keep
    the low 64 bits (two's complement), [>>] is the arithmetic shift. *)
Definition sadd (a b : Z) : Z := swrap64 (a + b).
Definition sshl (a k : Z) : Z := swrap64 (Z.shiftl a k).
Definition sshr (a k : Z) : Z := Z.shiftr a k.

(** One round of the loop of [dictFingerprint] (Tomas Wang's 64 bit integer
    hash of [hash + integers[j]]). *)
Definition dictFingerprint_round (hash x : Z) : Z :=
  let hash := sadd hash x in
  let hash := sadd (Z.lnot hash) (sshl hash 21) in
  let hash := Z.lxor hash (sshr hash 24) in
  let hash := sadd (sadd hash (sshl hash 3)) (sshl hash 8) in
  let hash := Z.lxor hash (sshr hash 14) in
  let hash := sadd (sadd hash (sshl hash 2)) (sshl hash 4) in
  let hash := Z.lxor hash (sshr hash 28) in
  sadd hash (sshl hash 31).

(** [dictFingerprint] *)
Definition dictFingerprint (d : dict) : Z :=
  let integers :=
    [ swrap64 (table (ht0 d)); swrap64 (size (ht0 d)); swrap64 (used (ht0 d));
      swrap64 (table (ht1 d)); swrap64 (size (ht1 d)); swrap64 (used (ht1 d)) ] in
  fold_left dictFingerprint_round integers 0.

(** [dictGetIterator]; [garbage] is what the memory from [zmalloc] holds
    where the [fingerprint] field lies, which the function does not set. *)
Definition dictGetIterator (garbage : Z) : dictIterator :=
  mkIter (-1) 0 false None None garbage.

(** [dictGetSafeIterator] *)
Definition dictGetSafeIterator (garbage : Z) : dictIterator :=
  mkIter (-1) 0 true None None garbage.

(** The pointers [entry] and [nextEntry] of an iterator are modelled by the
    entry they point to, which is found again in the dict by its key (the
    keys of a dict are distinct). [chain_at k c] is the part of the chain
    [c] that starts at the entry of key [k]. *)
Fixpoint chain_at (k : Z) (c : chain) : option chain :=
  match c with
  | [] => None
  | e :: next => if key e =? k then Some c else chain_at k next
  end.

Fixpoint table_chain_at (k : Z) (l : list chain) : option chain :=
  match l with
  | [] => None
  | c :: l' =>
      match chain_at k c with
      | Some r => Some r
      | None => table_chain_at k l'
      end
  end.

(** What a pointer to an entry points to in [d]: the entry, as it is now,
    and what follows it in its chain. NULL points to nothing; a pointer to
    an entry that the dict has no more is a pointer to freed memory. *)
Definition pointed_chain (d : dict) (p : option dictEntry) : outcome chain :=
  match p with
  | None => Ret []
  | Some e =>
      match table_chain_at (key e) (slots (ht0 d)) with
      | Some c => Ret c
      | None =>
          match table_chain_at (key e) (slots (ht1 d)) with
          | Some c => Ret c
          | None => UB
          end
      end
  end.

(** [iter->entry = c; if (iter->entry) iter->nextEntry = iter->entry->next;] *)
Definition iter_set_entry (it : dictIterator) (c : chain) : dictIterator :=
  match c with
  | [] => mkIter (index it) (itable it) (safe it) None (nextEntry it) (fingerprint it)
  | e :: next => mkIter (index it) (itable it) (safe it) (Some e) (head next) (fingerprint it)
  end.

(** [dictNext]: the loop [while (1)]. [iter->entry->next] is read in the
    dict as it is at the call. *)
Fixpoint dictNext_loop (fuel : nat) (it : dictIterator) (d : dict)
  : outcome (option dictEntry * dictIterator * dict) :=
  match fuel with
  | O => OutOfFuel
  | S f =>
      match entry it with
      | None =>
          if negb ((itable it =? 0) || (itable it =? 1)) then UB
          else
            let ht := if itable it =? 0 then ht0 d else ht1 d in
            let first := (index it =? -1) && (itable it =? 0) in
            let d := if first && safe it
                     then set_iterators d (wrap64 (iterators d + 1)) else d in
            let fp := if first && negb (safe it)
                      then dictFingerprint d else fingerprint it in
            let idx := index it + 1 in
            if swrap64 (size ht) <=? idx then
              if dictIsRehashing d && (itable it =? 0) then
                match zlookup (slots (ht1 d)) 0 with
                | None => UB
                | Some c =>
                    let it := iter_set_entry (mkIter 0 1 (safe it) None (nextEntry it) fp) c in
                    match entry it with
                    | Some e => Ret (Some e, it, d)
                    | None => dictNext_loop f it d
                    end
                end
              else Ret (None, mkIter idx (itable it) (safe it) None (nextEntry it) fp, d)
            else
              match zlookup (slots ht) idx with
              | None => UB
              | Some c =>
                  let it := iter_set_entry
                              (mkIter idx (itable it) (safe it) None (nextEntry it) fp) c in
                  match entry it with
                  | Some e => Ret (Some e, it, d)
                  | None => dictNext_loop f it d
                  end
              end
      | Some _ =>
          c <- pointed_chain d (nextEntry it) ;;
          let it := iter_set_entry
                      (mkIter (index it) (itable it) (safe it) None (nextEntry it)
                              (fingerprint it)) c in
          match entry it with
          | Some e => Ret (Some e, it, d)
          | None => dictNext_loop f it d
          end
      end
  end.

Definition dictNext (it : dictIterator) (d : dict)
  : outcome (option dictEntry * dictIterator * dict) :=
  dictNext_loop (4 + length (slots (ht0 d)) + length (slots (ht1 d))) it d.

(** [dictReleaseIterator]: the dict after the release. *)
Definition dictReleaseIterator (it : dictIterator) (d : dict) : outcome dict :=
  if negb ((index it =? -1) && (itable it =? 0)) then
    if safe it then Ret (set_iterators d (wrap64 (iterators d - 1)))
    else if fingerprint it =? dictFingerprint d then Ret d else AssertFail
  else Ret d.

(** *** Notions used to state the properties *)

(** A bucket array of [n] NULL heads at address [p], as [dictExpand]
    builds it. *)
Definition fresh_table (p n : Z) : dictht :=
  mkHt p (repeat [] (Z.to_nat n)) n (n - 1) 0.

(** The three reasons for which [dictExpand] refuses to expand to the
    rounded size [realsize]. *)
Definition expand_refused (d : dict) (sz realsize : Z) : Prop :=
  dictIsRehashing d = true \/ sz < used (ht0 d) \/ realsize = size (ht0 d).

(** A dict type whose hash function is the identity and whose keys are
    compared as pointers. *)
Definition id_type : dictType := mkType (fun k => k) None None.

(** When [_dictExpandIfNeeded] doubles a table that is not empty. *)
Definition expansion_due (dict_can_resize : bool) (d : dict) : Prop :=
  size (ht0 d) <= used (ht0 d)
  /\ (dict_can_resize = true \/ dict_force_resize_ratio < used (ht0 d) / size (ht0 d)).

(** A dict in the middle of a rehash: four entries in the four buckets of
    [ht[0]], eight empty buckets in [ht[1]]. *)
Definition rehashing_dict : dict :=
  mkDict id_type
         (mkHt 4096 [[mkEntry 0 10]; [mkEntry 1 11]; [mkEntry 2 12]; [mkEntry 3 13]] 4 3 4)
         (fresh_table 8192 8) 0 0.

(** What the iteration needs of a dict: the [size] fields are the lengths
    of the bucket arrays, below [LONG_MAX], and [ht[1]] has buckets while a
    rehash is in progress. *)
Definition iter_wf (d : dict) : Prop :=
  size (ht0 d) = Z.of_nat (length (slots (ht0 d)))
  /\ size (ht1 d) = Z.of_nat (length (slots (ht1 d)))
  /\ size (ht0 d) < 2^63 /\ size (ht1 d) < 2^63
  /\ (dictIsRehashing d = true -> slots (ht1 d) <> []).

(** The unsafe iterators that have been advanced at least once, the first
    time on the dict [d]; the later calls of [dictNext] may find the dict in
    any state. *)
Inductive advanced_from (d : dict) : dictIterator -> Prop :=
| adv_first (garbage : Z) (e : option dictEntry) (it : dictIterator) :
    dictNext (dictGetIterator garbage) d = Ret (e, it, d) ->
    advanced_from d it
| adv_next (it : dictIterator) (dk : dict) (e : option dictEntry)
           (it' : dictIterator) (dk' : dict) :
    advanced_from d it ->
    dictNext it dk = Ret (e, it', dk') ->
    advanced_from d it'.

(** A dict at rest with the keys 1, 2 and 3 in four buckets. *)
Definition small_dict : dict :=
  mkDict id_type
         (mkHt 4096 [[]; [mkEntry 1 11]; [mkEntry 2 12]; [mkEntry 3 13]] 4 3 3)
         _dictReset (-1) 0.

(** A dict at rest with the keys 0, 4 and 8 in one chain. *)
Definition chained_dict : dict :=
  mkDict id_type
         (mkHt 4096 [[mkEntry 0 10; mkEntry 4 14; mkEntry 8 18]; []; []; []] 4 3 3)
         _dictReset (-1) 0.

(** *** The incremental rehash, as the specification words it *)

(** The empty buckets at the head of a part of a bucket array. *)
Fixpoint leading_empty (l : list chain) : nat :=
  match l with
  | [] :: rest => S (leading_empty rest)
  | _ => 0%nat
  end.

(** The bucket of [ht[1]] an entry goes to: its key hashed again, under the
    mask of [ht[1]]. *)
Definition bucket_of (d : dict) (e : dictEntry) : Z :=
  Z.land (dictHashKey d (key e)) (sizemask (ht1 d)).

(** The buckets of [ht[1]] once the chain [de] has been migrated: every
    bucket receives, in front of what it held, the entries of [de] that
    hash to it, the last one of the chain first. *)
Definition migrated (d : dict) (de : chain) : list chain :=
  imap (fun j b => rev (filter (fun e => bucket_of d e = Z.of_nat j) de) ++ b)
       (slots (ht1 d)).

(** The end of a rehash: [ht[1]] becomes [ht[0]], [ht[1]] is reset and the
    cursor is -1. *)
Definition rehash_complete (d : dict) : dict :=
  mkDict (type d) (ht1 d) _dictReset (-1) (iterators d).

(** [rehash(n)] with a budget of empty buckets it may still visit: 1 is
    "more work pending", 0 is "done". *)
Fixpoint rehash_spec (n : nat) (budget : Z) (d : dict) : Z * dict :=
  match n with
  | O => if used (ht0 d) =? 0 then (0, rehash_complete d) else (1, d)
  | S n' =>
      if used (ht0 d) =? 0 then (0, rehash_complete d)
      else
        let gap := Z.of_nat (leading_empty (drop (Z.to_nat (rehashidx d)) (slots (ht0 d)))) in
        if budget <=? gap then (1, set_rehashidx d (rehashidx d + budget))
        else
          let r := rehashidx d + gap in
          let de := default [] (slots (ht0 d) !! Z.to_nat r) in
          let t0 := mkHt (table (ht0 d)) (<[Z.to_nat r := []]> (slots (ht0 d)))
                         (size (ht0 d)) (sizemask (ht0 d))
                         (used (ht0 d) - Z.of_nat (length de)) in
          let t1 := mkHt (table (ht1 d)) (migrated d de)
                         (size (ht1 d)) (sizemask (ht1 d))
                         (wrap64 (used (ht1 d) + Z.of_nat (length de))) in
          rehash_spec n' (budget - gap) (mkDict (type d) t0 t1 (r + 1) (iterators d))
  end.

(** A dict that is being rehashed: the cursor is a bucket index, [ht[0]]
    counts the entries that are left in its buckets from the cursor on, the
    counters are [unsigned long] values and the mask of [ht[1]] covers its
    bucket array. *)
Definition rehash_wf (d : dict) : Prop :=
  0 <= rehashidx d
  /\ size (ht0 d) = Z.of_nat (length (slots (ht0 d)))
  /\ size (ht0 d) < 2^64
  /\ used (ht0 d) = Z.of_nat (length (concat (drop (Z.to_nat (rehashidx d)) (slots (ht0 d)))))
  /\ used (ht0 d) < 2^64
  /\ 0 <= used (ht1 d) < 2^64
  /\ 0 <= sizemask (ht1 d)
  /\ sizemask (ht1 d) + 1 = Z.of_nat (length (slots (ht1 d))).

(** The iterations [dictNext] has left at most. *)
Definition dictNext_measure (it : dictIterator) (d : dict) : Z :=
  (match entry it with Some _ => 1 | None => 0 end)
  + (if itable it =? 0
     then Z.max 0 (Z.of_nat (length (slots (ht0 d))) - (index it + 1))
          + 1 + Z.of_nat (length (slots (ht1 d))) + 1
     else Z.max 0 (Z.of_nat (length (slots (ht1 d))) - (index it + 1)) + 1).

(** The fingerprint an unsafe iterator holds after its next advance on
    [d]: the one of [d] when this is its first advance, else the one it has. *)
Definition snapshot (it : dictIterator) (d : dict) : Z :=
  match entry it with
  | None => if (index it =? -1) && (itable it =? 0)
            then dictFingerprint d else fingerprint it
  | Some _ => fingerprint it
  end.

(** The dict after one round of the loop of [dictRehash] that finds the
    chain [de] after [gap] empty buckets. *)
Definition after_round (d : dict) (gap : Z) (de : chain) : dict :=
  mkDict (type d)
         (mkHt (table (ht0 d)) (<[Z.to_nat (rehashidx d + gap) := []]> (slots (ht0 d)))
               (size (ht0 d)) (sizemask (ht0 d)) (used (ht0 d) - Z.of_nat (length de)))
         (mkHt (table (ht1 d)) (migrated d de) (size (ht1 d)) (sizemask (ht1 d))
               (wrap64 (used (ht1 d) + Z.of_nat (length de))))
         (rehashidx d + gap + 1) (iterators d).

(** *** Notions used for the other properties *)

(** The entries of a dict: those of [ht[0]] from the rehash cursor on (all
    of them when no rehash is in progress) and those of [ht[1]]. *)
Definition entries (d : dict) : list dictEntry :=
  concat (drop (Z.to_nat (rehashidx d)) (slots (ht0 d))) ++ concat (slots (ht1 d)).

(** A dict at rest: no rehash in progress, [ht[1]] reset, [ht[0]] either
    not allocated yet or a bucket array of [size] buckets under the mask
    [size - 1], and [used] the number of its entries. *)
Definition dict_at_rest (d : dict) : Prop :=
  rehashidx d = -1 /\ ht1 d = _dictReset
  /\ size (ht0 d) = Z.of_nat (length (slots (ht0 d)))
  /\ (size (ht0 d) = 0 -> table (ht0 d) = 0)
  /\ (size (ht0 d) <> 0 ->
      table (ht0 d) <> 0 /\ 0 <= sizemask (ht0 d) /\ sizemask (ht0 d) + 1 = size (ht0 d))
  /\ used (ht0 d) = Z.of_nat (length (concat (slots (ht0 d))))
  /\ used (ht0 d) < 2^59.

(** The bucket of [ht[0]] the key [k] belongs to. *)
Definition home (d : dict) (k : Z) : Z :=
  Z.land (dictHashKey d k) (sizemask (ht0 d)).

(** No entry of the bucket of [k] matches [k]. *)
Definition absent (d : dict) (k : Z) : Prop :=
  forall c, zlookup (slots (ht0 d)) (home d k) = Some c -> chain_find d k c = None.

(** The key that is stored for [k] is found again by a lookup of [k]. *)
Definition key_found_again (d : dict) (k : Z) : Prop :=
  (k =? dictSetKey d k) || dictCompareKeys d k (dictSetKey d k) = true.

End Dict.

(** ** sds.h *)

Module Sds.

Definition SDS_MAX_PREALLOC : Z := 1024 * 1024.
Definition SDS_TYPE_5 : Z := 0.
Definition SDS_TYPE_8 : Z := 1.
Definition SDS_TYPE_16 : Z := 2.
Definition SDS_TYPE_32 : Z := 3.
Definition SDS_TYPE_64 : Z := 4.
Definition SDS_TYPE_MASK : Z := 7.
Definition SDS_TYPE_BITS : Z := 3.

(** An sds string: the header before the handle ([flags], and the [len] and
    [alloc] fields of [sdshdr8] .. [sdshdr64], which [sdshdr5] does not
    have) and the bytes from the handle to the end of the allocation. *)
Record sds : Type := mkSds {
  flags : Z;
  len : Z;
  alloc : Z;
  buf : list Z
}.

(** The number of bits of the [len] and [alloc] fields of a header type. *)
Definition field_bits (ty : Z) : Z :=
  if ty =? SDS_TYPE_8 then 8
  else if ty =? SDS_TYPE_16 then 16
  else if ty =? SDS_TYPE_32 then 32
  else 64.

Definition SDS_TYPE_5_LEN (f : Z) : Z := Z.shiftr f SDS_TYPE_BITS.

Definition sdstype (s : sds) : Z := Z.land (flags s) SDS_TYPE_MASK.

(** [sdslen] *)
Definition sdslen (s : sds) : Z :=
  let ty := sdstype s in
  if ty =? SDS_TYPE_5 then SDS_TYPE_5_LEN (flags s)
  else if (ty =? SDS_TYPE_8) || (ty =? SDS_TYPE_16)
          || (ty =? SDS_TYPE_32) || (ty =? SDS_TYPE_64) then len s
  else 0.

(** [sdsavail] *)
Definition sdsavail (s : sds) : Z :=
  let ty := sdstype s in
  if ty =? SDS_TYPE_5 then 0
  else if (ty =? SDS_TYPE_8) || (ty =? SDS_TYPE_16)
          || (ty =? SDS_TYPE_32) || (ty =? SDS_TYPE_64) then wrap64 (alloc s - len s)
  else 0.

(** [sdsalloc] *)
Definition sdsalloc (s : sds) : Z :=
  let ty := sdstype s in
  if ty =? SDS_TYPE_5 then SDS_TYPE_5_LEN (flags s)
  else if (ty =? SDS_TYPE_8) || (ty =? SDS_TYPE_16)
          || (ty =? SDS_TYPE_32) || (ty =? SDS_TYPE_64) then alloc s
  else 0.

(** [sdssetlen] *)
Definition sdssetlen (s : sds) (newlen : Z) : sds :=
  let ty := sdstype s in
  if ty =? SDS_TYPE_5
  then mkSds (wrap8 (Z.lor SDS_TYPE_5 (Z.shiftl newlen SDS_TYPE_BITS))) (len s) (alloc s) (buf s)
  else if (ty =? SDS_TYPE_8) || (ty =? SDS_TYPE_16)
          || (ty =? SDS_TYPE_32) || (ty =? SDS_TYPE_64)
  then mkSds (flags s) (newlen mod 2 ^ field_bits ty) (alloc s) (buf s)
  else s.

(** [sdssetalloc] *)
Definition sdssetalloc (s : sds) (newlen : Z) : sds :=
  let ty := sdstype s in
  if ty =? SDS_TYPE_5 then s
  else if (ty =? SDS_TYPE_8) || (ty =? SDS_TYPE_16)
          || (ty =? SDS_TYPE_32) || (ty =? SDS_TYPE_64)
  then mkSds (flags s) (len s) (newlen mod 2 ^ field_bits ty) (buf s)
  else s.

(** ** sds.c *)

(** [sdsHdrSize]: [sizeof] of the packed header structures. *)
Definition sdsHdrSize (ty : Z) : Z :=
  let ty := Z.land ty SDS_TYPE_MASK in
  if ty =? SDS_TYPE_5 then 1
  else if ty =? SDS_TYPE_8 then 3
  else if ty =? SDS_TYPE_16 then 5
  else if ty =? SDS_TYPE_32 then 9
  else if ty =? SDS_TYPE_64 then 17
  else 0.

(** [sdsReqType] *)
Definition sdsReqType (string_size : Z) : Z :=
  if string_size <? Z.shiftl 1 5 then SDS_TYPE_5
  else if string_size <? Z.shiftl 1 8 then SDS_TYPE_8
  else if string_size <? Z.shiftl 1 16 then SDS_TYPE_16
  else if string_size <? Z.shiftl 1 32 then SDS_TYPE_32
  else SDS_TYPE_64.

(** The [init] argument of [sdsnewlen]. *)
Inductive init_arg : Type :=
| InitNull
| InitNoInit
| InitBuf (bytes : list Z).

Section Allocation.

(** What freshly allocated memory holds at each offset. *)
Variable fresh : nat -> Z.

Definition fresh_bytes (from n : nat) : list Z := map fresh (seq from n).

(** [sdsnewlen]; [malloc_ok] tells whether [s_malloc] finds memory. NULL is
    [None]. *)
Definition sdsnewlen (malloc_ok : bool) (init : init_arg) (initlen : Z)
  : outcome (option sds) :=
  let type := sdsReqType initlen in
  let type := if (type =? SDS_TYPE_5) && (initlen =? 0) then SDS_TYPE_8 else type in
  let hdrlen := sdsHdrSize type in
  let total := wrap64 (hdrlen + initlen + 1) in
  if negb malloc_ok then
    match init with
    | InitNull => UB          (* memset(NULL, 0, total) *)
    | _ => Ret None
    end
  else if total <? hdrlen + initlen + 1 then UB   (* the header and s[initlen] do not fit *)
  else
    let n := Z.to_nat initlen in
    let payload :=
      match init with
      | InitNull => Ret (repeat 0 n)
      | InitNoInit => Ret (fresh_bytes 0 n)
      | InitBuf bytes =>
          if (initlen =? 0) then Ret []
          else if Z.of_nat (length bytes) <? initlen then UB
          else Ret (firstn n bytes)
      end in
    payload <- payload ;;
    let s := if type =? SDS_TYPE_5
             then mkSds (wrap8 (Z.lor type (Z.shiftl initlen SDS_TYPE_BITS))) 0 0 []
             else mkSds type (initlen mod 2 ^ field_bits type)
                        (initlen mod 2 ^ field_bits type) [] in
    Ret (Some (mkSds (flags s) (len s) (alloc s) (payload ++ [0]))).

(** The bytes of an allocation resized to [n] bytes that keeps its first
    [keep] bytes. *)
Definition regrow (b : list Z) (keep n : nat) : list Z :=
  firstn keep (firstn n b) ++ fresh_bytes (Nat.min keep (Nat.min n (length b)))
                                          (n - Nat.min keep (Nat.min n (length b))).

(** [sdsMakeRoomFor]; [alloc_ok] tells whether [s_realloc] or [s_malloc]
    finds memory. *)
Definition sdsMakeRoomFor (alloc_ok : bool) (s : sds) (addlen : Z) : outcome (option sds) :=
  let avail := sdsavail s in
  let oldtype := sdstype s in
  if addlen <=? avail then Ret (Some s)
  else
    let len := sdslen s in
    let newlen := wrap64 (len + addlen) in
    let newlen := if newlen <? SDS_MAX_PREALLOC then wrap64 (newlen * 2)
                  else wrap64 (newlen + SDS_MAX_PREALLOC) in
    let type := sdsReqType newlen in
    let type := if type =? SDS_TYPE_5 then SDS_TYPE_8 else type in
    let hdrlen := sdsHdrSize type in
    let total := wrap64 (hdrlen + newlen + 1) in
    if oldtype =? type then
      if negb alloc_ok then Ret None
      else if total <? hdrlen then UB     (* the header does not fit *)
      else
        let s := mkSds (flags s) (Sds.len s) (alloc s)
                       (regrow (buf s) (length (buf s)) (Z.to_nat (total - hdrlen))) in
        Ret (Some (sdssetalloc s newlen))
    else
      if negb alloc_ok then Ret None
      else if (Z.of_nat (length (buf s)) <? len + 1) || (total - hdrlen <? len + 1) then UB
      else
        let s := mkSds type 0 0
                       (regrow (buf s) (Z.to_nat (len + 1)) (Z.to_nat (total - hdrlen))) in
        let s := sdssetlen s len in
        Ret (Some (sdssetalloc s newlen)).

(** [memcmp(a, b, n) == 0]; reading past the end of [a] or [b] is [UB]. *)
Definition memcmp_eq (a b : list Z) (n : Z) : outcome bool :=
  if (Z.of_nat (length a) <? n) || (Z.of_nat (length b) <? n) then UB
  else Ret (bool_decide (firstn (Z.to_nat n) a = firstn (Z.to_nat n) b)).

(** The next answer of the allocator: an allocation succeeds when the list
    of answers is exhausted. *)
Definition next_ok (oracle : list bool) : bool * list bool :=
  match oracle with
  | [] => (true, [])
  | b :: rest => (b, rest)
  end.

(** The [cleanup] label of [sdssplitlen]: the tokens are freed, [*count] is
    0 and NULL is returned. *)
Definition sdssplitlen_cleanup : option (list sds) * Z := (None, 0).

(** The loop [for (j = 0; j < (len-(seplen-1)); j++)] of [sdssplitlen] and
    the code after it. [tokens] are the [elements] first cells of the
    array. *)
Fixpoint sdssplitlen_loop (fuel : nat) (oracle : list bool)
    (s : list Z) (len : Z) (sep : list Z) (seplen : Z)
    (tokens : list sds) (slots start j : Z) : outcome (option (list sds) * Z) :=
  match fuel with
  | O => OutOfFuel
  | S f =>
      let elements := Z.of_nat (length tokens) in
      if j <? len - (seplen - 1) then
        (* make sure there is room for the next element and the final one *)
        let grow := slots <? elements + 2 in
        if grow && (INT_MAX <? slots * 2) then UB
        else
          let slots := if grow then slots * 2 else slots in
          let '(ok, oracle) := if grow then next_ok oracle else (true, oracle) in
          if negb ok then Ret sdssplitlen_cleanup
          else
            (* search the separator *)
            c <- (if seplen =? 1 then
                    match zlookup s j, zlookup sep 0 with
                    | Some a, Some b =>
                        if a =? b then Ret true
                        else memcmp_eq (skipn (Z.to_nat j) s) sep seplen
                    | _, _ => UB
                    end
                  else memcmp_eq (skipn (Z.to_nat j) s) sep seplen) ;;
            if (c : bool) then
              let '(ok, oracle) := next_ok oracle in
              t <- sdsnewlen ok (InitBuf (skipn (Z.to_nat start) s)) (wrap64 (j - start)) ;;
              match t with
              | None => Ret sdssplitlen_cleanup
              | Some t =>
                  sdssplitlen_loop f oracle s len sep seplen (tokens ++ [t]) slots
                                   (j + seplen) (j + seplen - 1 + 1)
              end
            else sdssplitlen_loop f oracle s len sep seplen tokens slots start (j + 1)
      else
        (* Add the final element. *)
        let '(ok, oracle) := next_ok oracle in
        t <- sdsnewlen ok (InitBuf (skipn (Z.to_nat start) s)) (wrap64 (len - start)) ;;
        match t with
        | None => Ret sdssplitlen_cleanup
        | Some t => Ret (Some (tokens ++ [t]), elements + 1)
        end
  end.

(** [sdssplitlen]: the array returned (NULL is [None]) and [*count], which
    holds [count0] before the call. [oracle] lists the answers of the
    allocator to the successive [s_malloc] and [s_realloc] calls. *)
Definition sdssplitlen (oracle : list bool) (s : list Z) (len : Z) (sep : list Z)
    (seplen : Z) (count0 : Z) : outcome (option (list sds) * Z) :=
  if (seplen <? 1) || (len <? 0) then Ret (None, count0)
  else
    let '(ok, oracle) := next_ok oracle in
    if negb ok then Ret (None, count0)
    else if len =? 0 then Ret (Some [], 0)
    else sdssplitlen_loop (S (Z.to_nat len)) oracle s len sep seplen [] 5 0 0.

End Allocation.

(** *** Notions used to state the properties *)

(** The types that have [len] and [alloc] fields. *)
Definition wide_type (ty : Z) : Prop :=
  ty = SDS_TYPE_8 \/ ty = SDS_TYPE_16 \/ ty = SDS_TYPE_32 \/ ty = SDS_TYPE_64.

(** The smallest header type that holds [n] bytes, type 5 left out. *)
Definition room_type (n : Z) : Z :=
  if n <? 2^8 then SDS_TYPE_8
  else if n <? 2^16 then SDS_TYPE_16
  else if n <? 2^32 then SDS_TYPE_32
  else SDS_TYPE_64.

(** A well-formed sds string: the flags are a byte whose low bits name one
    of the five header types, the fields fit their width with
    [len <= alloc], and the allocation ends one byte (the terminator) after
    the capacity. *)
Definition sds_wf (s : sds) : Prop :=
  0 <= flags s < 256
  /\ (sdstype s = SDS_TYPE_5
      \/ (wide_type (sdstype s) /\ 0 <= len s <= alloc s
          /\ alloc s < 2 ^ field_bits (sdstype s)))
  /\ Z.of_nat (length (buf s)) = sdsalloc s + 1.

(** The capacity [sdsMakeRoomFor] asks for when the string must hold
    [target] bytes. *)
Definition grown (target : Z) : Z :=
  if target <? SDS_MAX_PREALLOC then 2 * target else target + SDS_MAX_PREALLOC.

(** The type 5 string "hi". *)
Definition sds_hi : sds := mkSds 16 0 0 [104; 105; 0].

(** *** The other operations of sds.c *)

(** [memcpy(b + off, bs, length bs)]; writing outside the allocation is
    [UB]. *)
Definition store (b : list Z) (off : Z) (bs : list Z) : outcome (list Z) :=
  if (off <? 0) || (Z.of_nat (length b) <? off + Z.of_nat (length bs)) then UB
  else Ret (firstn (Z.to_nat off) b ++ bs ++ skipn (Z.to_nat off + length bs) b).

(** [s] with the bytes [b]. *)
Definition with_buf (s : sds) (b : list Z) : sds := mkSds (flags s) (len s) (alloc s) b.

(** The content of a string: its [sdslen] first bytes. *)
Definition payload (s : sds) : list Z := firstn (Z.to_nat (sdslen s)) (buf s).

Section Operations.

Variable fresh : nat -> Z.

(** [sdsdup] *)
Definition sdsdup (malloc_ok : bool) (s : sds) : outcome (option sds) :=
  sdsnewlen fresh malloc_ok (InitBuf (buf s)) (sdslen s).

(** [sdsRemoveFreeSpace]; [alloc_ok] tells whether [s_realloc] or
    [s_malloc] finds memory. *)
Definition sdsRemoveFreeSpace (alloc_ok : bool) (s : sds) : outcome (option sds) :=
  let oldtype := sdstype s in
  let oldhdrlen := sdsHdrSize oldtype in
  let len := sdslen s in
  let avail := sdsavail s in
  (* Return ASAP if there is no space left. *)
  if avail =? 0 then Ret (Some s)
  else
    let type := sdsReqType len in
    let hdrlen := sdsHdrSize type in
    if (oldtype =? type) || (SDS_TYPE_8 <? type) then
      let total := wrap64 (oldhdrlen + len + 1) in
      if negb alloc_ok then Ret None
      else if total <? oldhdrlen then UB     (* the header does not fit *)
      else
        let s := with_buf s (regrow fresh (buf s) (length (buf s))
                                    (Z.to_nat (total - oldhdrlen))) in
        Ret (Some (sdssetalloc s len))
    else
      let total := wrap64 (hdrlen + len + 1) in
      if negb alloc_ok then Ret None
      else if (Z.of_nat (length (buf s)) <? len + 1) || (total - hdrlen <? len + 1) then UB
      else
        let s := mkSds type 0 0
                       (regrow fresh (buf s) (Z.to_nat (len + 1)) (Z.to_nat (total - hdrlen))) in
        let s := sdssetlen s len in
        Ret (Some (sdssetalloc s len)).

(** [sdsIncrLen]; [incr] is a [ssize_t]. *)
Definition sdsIncrLen (s : sds) (incr : Z) : outcome sds :=
  let fl := flags s in
  let ty := Z.land fl SDS_TYPE_MASK in
  (* The second half of the assertions: [incr < 0 && len >= (T)(-incr)];
     [-incr] overflows for the least [ssize_t]. *)
  let shrink (l : Z) (w : Z -> Z) : outcome bool :=
    if incr <? 0 then
      if incr =? - LONG_MAX - 1 then UB else Ret (w (- incr) <=? l)
    else Ret false in
  r <- (if ty =? SDS_TYPE_5 then
          let oldlen := SDS_TYPE_5_LEN fl in
          a <- (if 0 <? incr then
                  if LONG_MAX <? oldlen + incr then UB else Ret (oldlen + incr <? 32)
                else Ret false) ;;
          b <- (if (a : bool) then Ret true else shrink oldlen wrap32) ;;
          if negb b then AssertFail
          else if oldlen + incr <? 0 then UB     (* a negative number is shifted *)
          else
            let s := mkSds (wrap8 (Z.lor SDS_TYPE_5 (Z.shiftl (oldlen + incr) SDS_TYPE_BITS)))
                           (len s) (alloc s) (buf s) in
            Ret (s, oldlen + incr)
        else if (ty =? SDS_TYPE_8) || (ty =? SDS_TYPE_16) then
          b <- (if (0 <=? incr) && (incr <=? alloc s - len s) then Ret true
                else shrink (len s) wrap32) ;;
          if negb b then AssertFail
          else
            let l := (len s + incr) mod 2 ^ field_bits ty in
            Ret (mkSds fl l (alloc s) (buf s), l)
        else if ty =? SDS_TYPE_32 then
          b <- (if (0 <=? incr) && (wrap32 incr <=? wrap32 (alloc s - len s)) then Ret true
                else shrink (len s) wrap32) ;;
          if negb b then AssertFail
          else
            let l := wrap32 (len s + incr) in
            Ret (mkSds fl l (alloc s) (buf s), l)
        else if ty =? SDS_TYPE_64 then
          b <- (if (0 <=? incr) && (wrap64 incr <=? wrap64 (alloc s - len s)) then Ret true
                else shrink (len s) wrap64) ;;
          if negb b then AssertFail
          else
            let l := wrap64 (len s + incr) in
            Ret (mkSds fl l (alloc s) (buf s), l)
        else Ret (s, 0)) ;;
  let '(s, l) := r in
  b <- store (buf s) l [0] ;;
  Ret (with_buf s b).

(** [sdscatlen]; [len] is a [size_t]. *)
Definition sdscatlen (alloc_ok : bool) (s : sds) (t : list Z) (len : Z)
  : outcome (option sds) :=
  let curlen := sdslen s in
  r <- sdsMakeRoomFor fresh alloc_ok s len ;;
  match r with
  | None => Ret None
  | Some s =>
      if Z.of_nat (length t) <? len then UB
      else
        b <- store (buf s) curlen (firstn (Z.to_nat len) t) ;;
        let s := sdssetlen (with_buf s b) (wrap64 (curlen + len)) in
        b <- store (buf s) (wrap64 (curlen + len)) [0] ;;
        Ret (Some (with_buf s b))
  end.

End Operations.

(** [sdsrange]; [start] and [end] are [ssize_t]. *)
Definition sdsrange (s : sds) (start end_ : Z) : outcome sds :=
  let len := sdslen s in
  if len =? 0 then Ret s
  else
    let start := if start <? 0
                 then (let st := swrap64 (len + start) in if st <? 0 then 0 else st)
                 else start in
    let end_ := if end_ <? 0
                then (let en := swrap64 (len + end_) in if en <? 0 then 0 else en)
                else end_ in
    if negb (end_ <? start) && (LONG_MAX <? end_ - start + 1) then UB
    else
      let newlen := if end_ <? start then 0 else end_ - start + 1 in
      r <- (if negb (newlen =? 0) then
              if swrap64 len <=? start then Ret (start, 0)
              else if swrap64 len <=? end_ then
                let end_ := swrap64 (len - 1) in
                Ret (start, if end_ <? start then 0 else end_ - start + 1)
              else Ret (start, newlen)
            else Ret (0, newlen)) ;;
      let '(start, newlen) := r in
      b <- (if negb (start =? 0) && negb (newlen =? 0) then
              if (Z.of_nat (length (buf s)) <? start + newlen) then UB
              else store (buf s) 0 (firstn (Z.to_nat newlen) (skipn (Z.to_nat start) (buf s)))
            else Ret (buf s)) ;;
      b <- store b newlen [0] ;;
      Ret (sdssetlen (with_buf s b) newlen).

(** The sign of [memcmp(a, b, n)]: C tells no more of its value. *)
Fixpoint memcmp_sign (a b : list Z) (n : nat) {struct n} : outcome comparison :=
  match n with
  | O => Ret Eq
  | S n' =>
      match a, b with
      | x :: a', y :: b' =>
          if x <? y then Ret Lt else if y <? x then Ret Gt else memcmp_sign a' b' n'
      | _, _ => UB
      end
  end.

(** [sdscmp]: the sign of the [int] returned. *)
Definition sdscmp (s1 s2 : sds) : outcome comparison :=
  let l1 := sdslen s1 in
  let l2 := sdslen s2 in
  let minlen := if l1 <? l2 then l1 else l2 in
  cmp <- memcmp_sign (buf s1) (buf s2) (Z.to_nat minlen) ;;
  match cmp with
  | Eq => Ret (if l2 <? l1 then Gt else if l1 <? l2 then Lt else Eq)
  | _ => Ret cmp
  end.

(** The strings of an array joined with a separator between them. *)
Fixpoint joined (sep : list Z) (toks : list (list Z)) : list Z :=
  match toks with
  | [] => []
  | [t] => t
  | t :: rest => t ++ sep ++ joined sep rest
  end.

(** The type 8 string "hello" with room for 10 bytes. *)
Definition sds_hello : sds :=
  mkSds 1 5 10 [104; 101; 108; 108; 111; 0; 0; 0; 0; 0; 0].

(** *** Numbers as strings *)

Definition SDS_LLSTR_SIZE : Z := 21.
Definition LLONG_MAX : Z := 2^63 - 1.

(** [do { *p++ = '0'+(v%10); v /= 10; } while(v);] of [sdsll2str] and
    [sdsull2str]: the buffer and [p] after it, [p] being an offset from the
    [s] of the call. *)
Fixpoint ll2str_digits (fuel : nat) (b : list Z) (p v : Z) : outcome (list Z * Z) :=
  match fuel with
  | O => OutOfFuel
  | S fuel' =>
      b <- store b p [48 + v mod 10] ;;
      let p := p + 1 in
      let v := v / 10 in
      if negb (v =? 0) then ll2str_digits fuel' b p v else Ret (b, p)
  end.

(** [while(s < p) { aux = *s; *s = *p; *p = aux; s++; p--; }] *)
Fixpoint ll2str_reverse (fuel : nat) (b : list Z) (s p : Z) : outcome (list Z) :=
  match fuel with
  | O => OutOfFuel
  | S fuel' =>
      if s <? p then
        match zlookup b s with
        | None => UB
        | Some aux =>
            match zlookup b p with
            | None => UB
            | Some x =>
                b <- store b s [x] ;;
                b <- store b p [aux] ;;
                ll2str_reverse fuel' b (s + 1) (p - 1)
            end
        end
      else Ret b
  end.

(** [sdsull2str]: the buffer [s] points to, after the call, and the length
    returned. The digit loop runs on the 20 digits an [unsigned long long]
    has at most, the reversal on the length of what it reverses. *)
Definition sdsull2str (b : list Z) (v : Z) : outcome (list Z * Z) :=
  r <- ll2str_digits 20 b 0 v ;;
  let '(b, p) := r in
  let l := p in
  b <- store b p [0] ;;
  let p := p - 1 in
  b <- ll2str_reverse (S (Z.to_nat p)) b 0 p ;;
  Ret (b, l).

(** [sdsll2str]; [-value] overflows for [LLONG_MIN]. *)
Definition sdsll2str (b : list Z) (value : Z) : outcome (list Z * Z) :=
  v <- (if value <? 0
        then (if LLONG_MAX <? - value then UB else Ret (- value))
        else Ret value) ;;
  r <- ll2str_digits 20 b 0 v ;;
  let '(b, p) := r in
  r <- (if value <? 0 then (b <- store b p [45] ;; Ret (b, p + 1)) else Ret (b, p)) ;;
  let '(b, p) := r in
  let l := p in
  b <- store b p [0] ;;
  let p := p - 1 in
  b <- ll2str_reverse (S (Z.to_nat p)) b 0 p ;;
  Ret (b, l).

Section Numbers.

Variable fresh : nat -> Z.
(** What the local array [buf] holds before it is written. *)
Variable stack : nat -> Z.

(** [sdsfromlonglong] *)
Definition sdsfromlonglong (malloc_ok : bool) (value : Z) : outcome (option sds) :=
  r <- sdsll2str (map stack (seq 0 (Z.to_nat SDS_LLSTR_SIZE))) value ;;
  let '(buf, len) := r in
  sdsnewlen fresh malloc_ok (InitBuf buf) len.

End Numbers.

(** The number a string of decimal digits writes. *)
Definition decimal_value (ds : list Z) : Z :=
  fold_left (fun acc c => 10 * acc + (c - 48)) ds 0.

Definition is_digit (c : Z) : Prop := 48 <= c <= 57.

(** A string of digits with the sign of [value] before it. *)
Definition with_sign (value : Z) (ds : list Z) : list Z :=
  if value <? 0 then 45 :: ds else ds.

End Sds.

(** ** zipmap.c *)

Module Zipmap.

Definition ZIPMAP_BIGLEN : Z := 254.
Definition ZIPMAP_END : Z := 255.
Definition ZIPMAP_VALUE_MAX_FREE : Z := 4.

(** [ZIPMAP_LEN_BYTES] *)
Definition ZIPMAP_LEN_BYTES (l : Z) : Z := if l <? ZIPMAP_BIGLEN then 1 else 4 + 1.

(** A zipmap is the array of its bytes; a pointer into it is an offset. *)
Definition zipmap : Type := list Z.

(** [p[0]] *)
Definition rd (zm : zipmap) (p : Z) : outcome Z :=
  match zlookup zm p with
  | Some b => Ret b
  | None => UB
  end.

(** The [n] bytes at [p]. *)
Definition slice (zm : zipmap) (p n : Z) : outcome (list Z) :=
  if (p <? 0) || (n <? 0) || (Z.of_nat (length zm) <? p + n) then UB
  else Ret (firstn (Z.to_nat n) (skipn (Z.to_nat p) zm)).

(** [memcpy(p, bs, length bs)] *)
Definition wr (zm : zipmap) (p : Z) (bs : list Z) : outcome zipmap :=
  if (p <? 0) || (Z.of_nat (length zm) <? p + Z.of_nat (length bs)) then UB
  else Ret (firstn (Z.to_nat p) zm ++ bs ++ skipn (Z.to_nat p + length bs) zm).

(** [memmove(dst, src, n)] *)
Definition memmove (zm : zipmap) (dst src n : Z) : outcome zipmap :=
  bs <- slice zm src n ;;
  wr zm dst bs.

(** The four bytes of an [unsigned int], least significant first (what
    [memcpy] and [memrev32ifbe] leave in memory). *)
Definition le32 (l : Z) : list Z :=
  [ l mod 256; (l / 2^8) mod 256; (l / 2^16) mod 256; (l / 2^24) mod 256 ].

Definition of_le32 (bs : list Z) : Z :=
  match bs with
  | [b0; b1; b2; b3] => b0 + b1 * 2^8 + b2 * 2^16 + b3 * 2^24
  | _ => 0
  end.

(** [zipmapNew] *)
Definition zipmapNew : zipmap := [0; ZIPMAP_END].

(** [zipmapDecodeLength] *)
Definition zipmapDecodeLength (zm : zipmap) (p : Z) : outcome Z :=
  len <- rd zm p ;;
  if len <? ZIPMAP_BIGLEN then Ret len
  else
    bs <- slice zm (p + 1) 4 ;;
    Ret (of_le32 bs).

(** [zipmapEncodeLength(NULL, len)] *)
Definition zipmapEncodeLength_size (len : Z) : Z := ZIPMAP_LEN_BYTES len.

(** [zipmapEncodeLength(p, len)] with [p] not NULL: the zipmap written and
    the number of bytes used. *)
Definition zipmapEncodeLength (zm : zipmap) (p len : Z) : outcome (zipmap * Z) :=
  if len <? ZIPMAP_BIGLEN then
    zm <- wr zm p [wrap8 len] ;;
    Ret (zm, 1)
  else
    zm <- wr zm p [ZIPMAP_BIGLEN] ;;
    zm <- wr zm (p + 1) (le32 len) ;;
    Ret (zm, 1 + 4).

(** The loop of [zipmapLookupRaw] with [totlen] not NULL: [k], and the
    offset of the end byte. *)
Fixpoint zipmapLookupRaw_loop (fuel : nat) (zm : zipmap) (key : option (list Z)) (klen : Z)
    (p : Z) (k : option Z) : outcome (option Z * Z) :=
  match fuel with
  | O => OutOfFuel
  | S f =>
      b <- rd zm p ;;
      if b =? ZIPMAP_END then Ret (k, p)
      else
        l <- zipmapDecodeLength zm p ;;
        let llen := zipmapEncodeLength_size l in
        hit <- match key, k with
               | Some kb, None =>
                   if l =? klen then
                     a <- slice zm (p + llen) l ;;
                     if Z.of_nat (length kb) <? l then UB
                     else Ret (bool_decide (a = firstn (Z.to_nat l) kb))
                   else Ret false
               | _, _ => Ret false
               end ;;
        let k := if (hit : bool) then Some p else k in
        let p := p + wrap32 (llen + l) in
        l <- zipmapDecodeLength zm p ;;
        let p := p + zipmapEncodeLength_size l in
        free <- rd zm p ;;
        zipmapLookupRaw_loop f zm key klen (p + wrap32 (l + 1 + free)) k
  end.

(** [zipmapLookupRaw(zm, key, klen, &totlen)]: the offset of the entry
    (NULL is [None]) and [totlen]. *)
Definition zipmapLookupRaw (zm : zipmap) (key : option (list Z)) (klen : Z)
  : outcome (option Z * Z) :=
  r <- zipmapLookupRaw_loop (length zm) zm key klen 1 None ;;
  Ret (fst r, wrap32 (wrap32 (snd r) + 1)).

(** [zipmapRequiredLength] *)
Definition zipmapRequiredLength (klen vlen : Z) : Z :=
  let l := wrap32 (klen + vlen + 3) in
  let l := if ZIPMAP_BIGLEN <=? klen then wrap32 (l + 4) else l in
  let l := if ZIPMAP_BIGLEN <=? vlen then wrap32 (l + 4) else l in
  l.

(** [zipmapRawKeyLength] *)
Definition zipmapRawKeyLength (zm : zipmap) (p : Z) : outcome Z :=
  l <- zipmapDecodeLength zm p ;;
  Ret (wrap32 (zipmapEncodeLength_size l + l)).

(** [zipmapRawValueLength] *)
Definition zipmapRawValueLength (zm : zipmap) (p : Z) : outcome Z :=
  l <- zipmapDecodeLength zm p ;;
  let used := zipmapEncodeLength_size l in
  free <- rd zm (p + used) ;;
  Ret (wrap32 (used + wrap32 (wrap32 (free + 1) + l))).

(** [zipmapRawEntryLength] *)
Definition zipmapRawEntryLength (zm : zipmap) (p : Z) : outcome Z :=
  l <- zipmapRawKeyLength zm p ;;
  v <- zipmapRawValueLength zm (p + l) ;;
  Ret (wrap32 (l + v)).

Section Allocation.

(** What the bytes added by [zrealloc] hold, by offset. *)
Variable fresh : nat -> Z.

(** [zipmapResize] *)
Definition zipmapResize (zm : zipmap) (len : Z) : outcome zipmap :=
  let n := Z.to_nat len in
  let zm := firstn n zm ++ map fresh (seq (length zm) (n - length zm)) in
  wr zm (len - 1) [ZIPMAP_END].

(** [zipmapSet]: the zipmap and [*update]. *)
Definition zipmapSet (zm : zipmap) (key : list Z) (klen : Z) (val : list Z) (vlen : Z)
  : outcome (zipmap * Z) :=
  let reqlen := zipmapRequiredLength klen vlen in
  let freelen := reqlen in
  r <- zipmapLookupRaw zm (Some key) klen ;;
  let '(p, zmlen) := r in
  st <- match p with
        | None =>
            (* Key not found: enlarge *)
            zm <- zipmapResize zm (wrap32 (zmlen + reqlen)) ;;
            let p := zmlen - 1 in
            let zmlen := wrap32 (zmlen + reqlen) in
            (* Increase zipmap length (this is an insert) *)
            b <- rd zm 0 ;;
            zm <- (if b <? ZIPMAP_BIGLEN then wr zm 0 [wrap8 (b + 1)] else Ret zm) ;;
            Ret (zm, p, zmlen, freelen, 0)
        | Some p =>
            (* Key found. Is there enough space for the new value? *)
            freelen <- zipmapRawEntryLength zm p ;;
            if freelen <? reqlen then
              let offset := wrap32 p in
              zm <- zipmapResize zm (wrap32 (wrap32 (zmlen - freelen) + reqlen)) ;;
              let p := offset in
              zm <- memmove zm (p + reqlen) (p + freelen)
                            (wrap32 (zmlen - wrap32 (wrap32 (offset + freelen) + 1))) ;;
              Ret (zm, p, wrap32 (wrap32 (zmlen - freelen) + reqlen), reqlen, 1)
            else Ret (zm, p, zmlen, freelen, 1)
        end ;;
  let '(zm, p, zmlen, freelen, update) := st in
  let empty := wrap32 (freelen - reqlen) in
  st <- (if ZIPMAP_VALUE_MAX_FREE <=? empty then
           (* First, move the tail <empty> bytes to the front, then resize
              the zipmap to be <empty> bytes smaller. *)
           let offset := wrap32 p in
           zm <- memmove zm (p + reqlen) (p + freelen)
                         (wrap32 (zmlen - wrap32 (wrap32 (offset + freelen) + 1))) ;;
           let zmlen := wrap32 (zmlen - empty) in
           zm <- zipmapResize zm zmlen ;;
           Ret (zm, offset, 0)
         else Ret (zm, p, empty)) ;;
  let '(zm, p, vempty) := st in
  (* Just write the key + value and we are done. *)
  r <- zipmapEncodeLength zm p klen ;;
  let p := p + snd r in
  if Z.of_nat (length key) <? klen then UB
  else
    zm <- wr (fst r) p (firstn (Z.to_nat klen) key) ;;
    let p := p + klen in
    r <- zipmapEncodeLength zm p vlen ;;
    let p := p + snd r in
    zm <- wr (fst r) p [wrap8 vempty] ;;
    let p := p + 1 in
    if Z.of_nat (length val) <? vlen then UB
    else
      zm <- wr zm p (firstn (Z.to_nat vlen) val) ;;
      Ret (zm, update).

End Allocation.

(** *** The content of a zipmap *)

(** An entry: its key, its value and the unused bytes that follow the
    value, whose number is the [free] byte. *)
Record zentry : Type := mkZentry {
  zkey : list Z;
  zval : list Z;
  zslack : list Z
}.

(** An encoded length. *)
Definition enc_len (l : Z) : list Z :=
  if l <? ZIPMAP_BIGLEN then [l] else ZIPMAP_BIGLEN :: le32 l.

Definition zlen (l : list Z) : Z := Z.of_nat (length l).

(** The bytes of an entry: [<len>key<len><free>value] and the slack. *)
Definition enc_entry (e : zentry) : list Z :=
  enc_len (zlen (zkey e)) ++ zkey e
  ++ enc_len (zlen (zval e)) ++ [zlen (zslack e)] ++ zval e ++ zslack e.

Definition enc_entries (es : list zentry) : list Z := concat (map enc_entry es).

(** The zipmap with the count byte [n] and the entries [es]. *)
Definition blob (n : Z) (es : list zentry) : zipmap :=
  n :: enc_entries es ++ [ZIPMAP_END].

(** The bytes an entry for [key] and [val] needs, without slack. *)
Definition entry_size (key val : list Z) : Z :=
  zlen (enc_len (zlen key)) + zlen key + zlen (enc_len (zlen val)) + 1 + zlen val.

(** What [zipmapSet] makes of the entry [e] that holds the key: the slack
    left over when the new value is shorter stays in the entry when it is
    less than [ZIPMAP_VALUE_MAX_FREE] bytes, and is given back otherwise. *)
Definition set_entry (key val : list Z) (e : zentry) : zentry :=
  let old := zlen (enc_entry e) in
  let req := entry_size key val in
  if old <? req then mkZentry key val []
  else if ZIPMAP_VALUE_MAX_FREE <=? old - req then mkZentry key val []
  else mkZentry key val (skipn (Z.to_nat req) (enc_entry e)).

(** The entries after [zipmapSet]: the first entry with the key is
    updated, or an entry is added at the end. *)
Fixpoint set_entries (key val : list Z) (es : list zentry) : list zentry :=
  match es with
  | [] => [mkZentry key val []]
  | e :: es' =>
      if bool_decide (zkey e = key) then set_entry key val e :: es'
      else e :: set_entries key val es'
  end.

Definition has_key (key : list Z) (es : list zentry) : bool :=
  existsb (fun e => bool_decide (zkey e = key)) es.

(** A well-formed zipmap: the count is a byte and every [free] count too. *)
Definition zm_wf (n : Z) (es : list zentry) : Prop :=
  0 <= n < 256 /\ Forall (fun e => zlen (zslack e) < 256) es.

(** The offset of the first entry with the key, [p] being the offset of
    the first entry of [es]. *)
Fixpoint find_off (key : list Z) (p : Z) (es : list zentry) : option Z :=
  match es with
  | [] => None
  | e :: es' =>
      if bool_decide (zkey e = key) then Some p
      else find_off key (p + zlen (enc_entry e)) es'
  end.

(** The count byte after [zipmapSet]: an insert adds one, until the count
    no longer fits the byte. *)
Definition set_count (key : list Z) (n : Z) (es : list zentry) : Z :=
  if has_key key es then n else if n <? ZIPMAP_BIGLEN then n + 1 else n.

(** *** The other operations of zipmap.c *)

(** The loop of [zipmapLookupRaw] with [totlen] NULL: the scan returns at
    the first entry with the key. *)
Fixpoint zipmapLookupRaw_stop_loop (fuel : nat) (zm : zipmap) (key : option (list Z))
    (klen : Z) (p : Z) : outcome (option Z) :=
  match fuel with
  | O => OutOfFuel
  | S f =>
      b <- rd zm p ;;
      if b =? ZIPMAP_END then Ret None
      else
        l <- zipmapDecodeLength zm p ;;
        let llen := zipmapEncodeLength_size l in
        hit <- match key with
               | Some kb =>
                   if l =? klen then
                     a <- slice zm (p + llen) l ;;
                     if Z.of_nat (length kb) <? l then UB
                     else Ret (bool_decide (a = firstn (Z.to_nat l) kb))
                   else Ret false
               | None => Ret false
               end ;;
        if (hit : bool) then Ret (Some p)
        else
          let p := p + wrap32 (llen + l) in
          l <- zipmapDecodeLength zm p ;;
          let p := p + zipmapEncodeLength_size l in
          free <- rd zm p ;;
          zipmapLookupRaw_stop_loop f zm key klen (p + wrap32 (l + 1 + free))
  end.

(** [zipmapLookupRaw(zm, key, klen, NULL)] *)
Definition zipmapLookupRaw_stop (zm : zipmap) (key : option (list Z)) (klen : Z)
  : outcome (option Z) :=
  zipmapLookupRaw_stop_loop (length zm) zm key klen 1.

Section Deletion.

Variable fresh : nat -> Z.

(** [zipmapDel]: the zipmap and [*deleted]. *)
Definition zipmapDel (zm : zipmap) (key : list Z) (klen : Z) : outcome (zipmap * Z) :=
  r <- zipmapLookupRaw zm (Some key) klen ;;
  let '(p, zmlen) := r in
  match p with
  | Some p =>
      freelen <- zipmapRawEntryLength zm p ;;
      zm <- memmove zm p (p + freelen) (wrap64 (zmlen - (p + freelen + 1))) ;;
      zm <- zipmapResize fresh zm (wrap32 (zmlen - freelen)) ;;
      (* Decrease zipmap length *)
      b <- rd zm 0 ;;
      zm <- (if b <? ZIPMAP_BIGLEN then wr zm 0 [wrap8 (b - 1)] else Ret zm) ;;
      Ret (zm, 1)
  | None => Ret (zm, 0)
  end.

End Deletion.

(** [zipmapRewind] *)
Definition zipmapRewind : Z := 1.

(** [zipmapNext] at the offset [p]: NULL ([None]) at the end, else the
    offset of the next entry with, where [key] and [value] are asked for,
    the pairs of [*key] and [*klen] and of [*value] and [*vlen]. *)
Definition zipmapNext (zm : zipmap) (p : Z) (want_key want_value : bool)
  : outcome (option (Z * option (Z * Z) * option (Z * Z))) :=
  b <- rd zm p ;;
  if b =? ZIPMAP_END then Ret None
  else
    k <- (if want_key then
            klen <- zipmapDecodeLength zm p ;;
            Ret (Some (p + ZIPMAP_LEN_BYTES klen, klen))
          else Ret None) ;;
    l <- zipmapRawKeyLength zm p ;;
    let p := p + l in
    v <- (if want_value then
            vlen <- zipmapDecodeLength zm p ;;
            Ret (Some (p + 1 + ZIPMAP_LEN_BYTES vlen, vlen))
          else Ret None) ;;
    l <- zipmapRawValueLength zm p ;;
    Ret (Some (p + l, k, v)).

(** [zipmapGet]: 0 is [None]; else [*value] and [*vlen]. *)
Definition zipmapGet (zm : zipmap) (key : list Z) (klen : Z) : outcome (option (Z * Z)) :=
  r <- zipmapLookupRaw_stop zm (Some key) klen ;;
  match r with
  | None => Ret None
  | Some p =>
      l <- zipmapRawKeyLength zm p ;;
      let p := p + l in
      vlen <- zipmapDecodeLength zm p ;;
      Ret (Some (p + ZIPMAP_LEN_BYTES vlen + 1, vlen))
  end.

(** [zipmapExists] *)
Definition zipmapExists (zm : zipmap) (key : list Z) (klen : Z) : outcome Z :=
  r <- zipmapLookupRaw_stop zm (Some key) klen ;;
  Ret (match r with Some _ => 1 | None => 0 end).

(** The loop [while((p = zipmapNext(p,NULL,NULL,NULL,NULL)) != NULL) len++]. *)
Fixpoint zipmapLen_loop (fuel : nat) (zm : zipmap) (p len : Z) : outcome Z :=
  match fuel with
  | O => OutOfFuel
  | S f =>
      r <- zipmapNext zm p false false ;;
      match r with
      | None => Ret len
      | Some (p', _, _) => zipmapLen_loop f zm p' (wrap32 (len + 1))
      end
  end.

(** [zipmapLen]: the zipmap, whose count byte may be written, and the
    number of entries. *)
Definition zipmapLen (zm : zipmap) : outcome (zipmap * Z) :=
  b <- rd zm 0 ;;
  if b <? ZIPMAP_BIGLEN then Ret (zm, b)
  else
    len <- zipmapLen_loop (length zm) zm zipmapRewind 0 ;;
    (* Re-store length if small enough *)
    zm <- (if len <? ZIPMAP_BIGLEN then wr zm 0 [wrap8 len] else Ret zm) ;;
    Ret (zm, len).

(** [zipmapBlobLen] *)
Definition zipmapBlobLen (zm : zipmap) : outcome Z :=
  r <- zipmapLookupRaw zm None 0 ;;
  Ret (snd r).

(** The entries without the first one that has the key. *)
Fixpoint del_entries (key : list Z) (es : list zentry) : list zentry :=
  match es with
  | [] => []
  | e :: es' => if bool_decide (zkey e = key) then es' else e :: del_entries key es'
  end.

(** The first entry with the key. *)
Fixpoint find_entry (key : list Z) (es : list zentry) : option zentry :=
  match es with
  | [] => None
  | e :: es' => if bool_decide (zkey e = key) then Some e else find_entry key es'
  end.

(** The count byte tells the number of entries while it is below
    [ZIPMAP_BIGLEN]. *)
Definition count_ok (n : Z) (es : list zentry) : Prop :=
  n < ZIPMAP_BIGLEN -> n = Z.of_nat (length es).

(** The count byte after [zipmapDel]. *)
Definition del_count (key : list Z) (n : Z) (es : list zentry) : Z :=
  if has_key key es then (if n <? ZIPMAP_BIGLEN then wrap8 (n - 1) else n) else n.

(** The zipmap "foo" -> "bar", "hello" -> "world". *)
Definition zm_example : list zentry :=
  [mkZentry [102; 111; 111] [98; 97; 114] [];
   mkZentry [104; 101; 108; 108; 111] [119; 111; 114; 108; 100] []].

End Zipmap.

(** * Properties *)

(** ** Machine integers *)

Lemma wrap64_small (x : Z) : 0 <= x < 2^64 -> wrap64 x = x.
Proof. intros H. unfold wrap64. apply Z.mod_small. exact H. Qed.

Lemma wrap32_small (x : Z) : 0 <= x < 2^32 -> wrap32 x = x.
Proof. intros H. unfold wrap32. apply Z.mod_small. exact H. Qed.

Lemma pow2_le_mono (a b : Z) : 0 <= a <= b -> 2^a <= 2^b.
Proof. intros H. apply Z.pow_le_mono_r; lia. Qed.

Lemma pow2_lt_mono (a b : Z) : 0 <= a < b -> 2^a < 2^b.
Proof. intros H. apply Z.pow_lt_mono_r; lia. Qed.

Lemma pow2_succ (k : Z) : 0 <= k -> 2^k * 2 = 2^(k + 1).
Proof. intros H. rewrite Z.pow_add_r by lia. lia. Qed.

(** ** dict *)

Module DictFacts.
Import Dict.

Lemma _dictNextPower_loop_spec (fuel : nat) :
  forall k sz, 0 <= k <= 63 -> sz <= 2^63 -> 64 - k <= Z.of_nat fuel ->
  exists j, k <= j <= 63 /\ _dictNextPower_loop fuel (2^k) sz = Ret (2^j)
            /\ sz <= 2^j /\ (j = k \/ 2^(j-1) < sz).
Proof.
  induction fuel as [|fuel IH]; intros k sz Hk Hsz Hf.
  - simpl in Hf. lia.
  - simpl. destruct (Z.leb_spec sz (2^k)) as [Hle|Hgt].
    + exists k. repeat split; auto; lia.
    + assert (k < 63).
      { destruct (Z.eq_dec k 63) as [->|]; [lia|lia]. }
      rewrite pow2_succ by lia.
      assert (Hlt : 2^(k+1) < 2^64) by (apply pow2_lt_mono; lia).
      assert (0 < 2^(k+1)) by (apply Z.pow_pos_nonneg; lia).
      rewrite wrap64_small by lia.
      destruct (IH (k + 1) sz) as (j & Hj & Heq & Hge & Hmin); try lia.
      exists j. repeat split; try lia; auto.
      right. destruct Hmin as [->|Hmin]; auto.
      replace (k + 1 - 1) with k by lia. exact Hgt.
Qed.

(** [_dictNextPower] returns the smallest power of two that is at least the
    requested size and at least 4, for requests up to 2^63. *)
Lemma _dictNextPower_spec (sz : Z) :
  0 <= sz <= 2^63 ->
  exists j, 2 <= j <= 63 /\ _dictNextPower sz = Ret (2^j) /\ sz <= 2^j
            /\ (forall j', 2 <= j' -> sz <= 2^j' -> 2^j <= 2^j').
Proof.
  intros Hsz. unfold _dictNextPower, LONG_MAX.
  destruct (Z.leb_spec (2^63 - 1) sz) as [Hbig|Hsmall].
  - exists 63. split; [lia|]. split; [reflexivity|]. split; [lia|].
    intros j' Hj' Hle. apply pow2_le_mono.
    destruct (Z.le_gt_cases 63 j') as [|Hlt]; [lia|].
    assert (2^j' <= 2^62) by (apply pow2_le_mono; lia). lia.
  - destruct (_dictNextPower_loop_spec 64 2 sz) as (j & Hj & Heq & Hge & Hmin);
      try lia.
    exists j. split; [lia|]. split; [exact Heq|]. split; [exact Hge|].
    intros j' Hj' Hle. apply pow2_le_mono.
    destruct Hmin as [->|Hmin]; [lia|].
    destruct (Z.le_gt_cases j j') as [|Hlt]; [lia|].
    assert (2^j' <= 2^(j-1)) by (apply pow2_le_mono; lia). lia.
Qed.

Lemma zcalloc_pow2 (j : Z) :
  0 <= j <= 60 -> zcalloc (wrap64 (2^j * sizeof_ptr)) = repeat [] (Z.to_nat (2^j)).
Proof.
  intros Hj. unfold zcalloc, sizeof_ptr.
  assert (0 < 2^j) by (apply Z.pow_pos_nonneg; lia).
  assert (2^j <= 2^60) by (apply pow2_le_mono; lia).
  rewrite wrap64_small by lia.
  rewrite Z.div_mul by lia. reflexivity.
Qed.

Lemma pow2_le_inv (a b : Z) : 0 <= a -> 0 <= b -> 2^a <= 2^b -> a <= b.
Proof. intros Ha Hb H. apply (Z.pow_le_mono_r_iff 2); lia. Qed.

Lemma dictExpand_refused (newtab : Z) (d : dict) (sz realsize : Z) :
  _dictNextPower sz = Ret realsize -> expand_refused d sz realsize ->
  dictExpand newtab d sz = Ret (DICT_ERR, d).
Proof.
  intros Hnp. unfold expand_refused, dictExpand. intros [Hr|[Hu|Hs]].
  - rewrite Hr. reflexivity.
  - destruct (dictIsRehashing d); [reflexivity|]. simpl.
    destruct (Z.ltb_spec sz (used (ht0 d))); [reflexivity|lia].
  - destruct (dictIsRehashing d || (sz <? used (ht0 d))); [reflexivity|].
    rewrite Hnp. simpl. rewrite Hs, Z.eqb_refl. reflexivity.
Qed.

Lemma dictExpand_installs (newtab : Z) (d : dict) (sz j : Z) :
  0 <= j <= 60 -> _dictNextPower sz = Ret (2^j) -> ~ expand_refused d sz (2^j) ->
  dictExpand newtab d sz
  = Ret (DICT_OK, if table (ht0 d) =? 0 then set_ht0 d (fresh_table newtab (2^j))
                  else set_rehashidx (set_ht1 d (fresh_table newtab (2^j))) 0).
Proof.
  intros Hj Hnp Hno. unfold expand_refused in Hno. unfold dictExpand.
  assert (Hpos : 0 < 2^j) by (apply Z.pow_pos_nonneg; lia).
  assert (Hlt : 2^j <= 2^60) by (apply pow2_le_mono; lia).
  destruct (dictIsRehashing d) eqn:Hr; [exfalso; apply Hno; auto|].
  destruct (Z.ltb_spec sz (used (ht0 d))) as [Hu|Hu]; [exfalso; apply Hno; auto|].
  simpl. rewrite Hnp. simpl.
  destruct (Z.eqb_spec (2^j) (size (ht0 d))) as [Hs|Hs]; [exfalso; apply Hno; auto|].
  rewrite zcalloc_pow2 by lia. rewrite wrap64_small by lia.
  unfold fresh_table. destruct (table (ht0 d) =? 0); reflexivity.
Qed.

Lemma _dictNextPower_60 (sz : Z) :
  0 <= sz <= 2^60 ->
  exists j, 2 <= j <= 60 /\ _dictNextPower sz = Ret (2^j) /\ sz <= 2^j
            /\ (forall j', 2 <= j' -> sz <= 2^j' -> 2^j <= 2^j').
Proof.
  intros Hsz.
  destruct (_dictNextPower_spec sz) as (j & Hj & Hnp & Hge & Hmin); [lia|].
  assert (Hj60 : j <= 60).
  { apply pow2_le_inv; try lia. apply Hmin; lia. }
  exists j. split; [lia|]. auto.
Qed.

(** [dictExpand] where the size of the array does not wrap.
    [dictExpand d sz], for a request whose bucket array fits the
    address space ([sz <= 2^60], so that [realsize * sizeof(dictEntry* )]
    does not wrap), rounds [sz] up to [realsize], the smallest power of two
    that is at least [sz] and at least 4. It returns [DICT_ERR] and leaves
    the dict as it is exactly when a rehash is in progress, [ht[0].used]
    exceeds [sz] or [realsize] is the size of [ht[0]]. Otherwise it returns
    [DICT_OK] and installs an array of [realsize] NULL buckets: as [ht[0]]
    when [ht[0].table] is NULL, else as [ht[1]] with [rehashidx = 0]; the
    other table, and so every entry, stays where it is. *)
Theorem dictExpand_spec (newtab : Z) (d : dict) (sz : Z) :
  0 <= sz <= 2^60 ->
  exists j, 2 <= j <= 60 /\ _dictNextPower sz = Ret (2^j)
    /\ sz <= 2^j /\ (forall j', 2 <= j' -> sz <= 2^j' -> 2^j <= 2^j')
    /\ (expand_refused d sz (2^j) -> dictExpand newtab d sz = Ret (DICT_ERR, d))
    /\ (~ expand_refused d sz (2^j) ->
          (table (ht0 d) = 0 ->
             dictExpand newtab d sz
             = Ret (DICT_OK, set_ht0 d (fresh_table newtab (2^j))))
          /\ (table (ht0 d) <> 0 ->
                dictExpand newtab d sz
                = Ret (DICT_OK, set_rehashidx (set_ht1 d (fresh_table newtab (2^j))) 0))).
Proof.
  intros Hsz.
  destruct (_dictNextPower_60 sz Hsz) as (j & Hj & Hnp & Hge & Hmin).
  exists j. split; [lia|]. split; [exact Hnp|]. split; [exact Hge|].
  split; [exact Hmin|]. split.
  - apply dictExpand_refused. exact Hnp.
  - intros Hno. rewrite (dictExpand_installs newtab d sz j) by (auto; lia).
    split; intros Ht.
    + rewrite Ht. reflexivity.
    + destruct (Z.eqb_spec (table (ht0 d)) 0); [contradiction|reflexivity].
Qed.

Lemma dictExpand_spec_witness :
  0 <= 5 <= 2^60 /\
  exists j, 2 <= j <= 60 /\ _dictNextPower 5 = Ret (2^j)
    /\ 5 <= 2^j /\ (forall j', 2 <= j' -> 5 <= 2^j' -> 2^j <= 2^j')
    /\ (expand_refused (dictCreate id_type) 5 (2^j) ->
          dictExpand 4096 (dictCreate id_type) 5 = Ret (DICT_ERR, dictCreate id_type))
    /\ (~ expand_refused (dictCreate id_type) 5 (2^j) ->
          (table (ht0 (dictCreate id_type)) = 0 ->
             dictExpand 4096 (dictCreate id_type) 5
             = Ret (DICT_OK, set_ht0 (dictCreate id_type) (fresh_table 4096 (2^j))))
          /\ (table (ht0 (dictCreate id_type)) <> 0 ->
                dictExpand 4096 (dictCreate id_type) 5
                = Ret (DICT_OK,
                       set_rehashidx (set_ht1 (dictCreate id_type) (fresh_table 4096 (2^j))) 0))).
Proof.
  split; [lia|]. apply (dictExpand_spec 4096 (dictCreate id_type) 5). lia.
Defined.

(** C10. [dictExpand] multiplies the rounded size by the size of a pointer
    without a check, and the product wraps in [size_t]. A request for 2^61
    buckets on a dict that has no table yet is none of the three refused
    cases; the byte size [2^61 * 8] wraps to 0, and the call returns
    [DICT_OK] with [ht[0]] of size 2^61 and mask [2^61 - 1] over an array
    that [zcalloc(0)] made, without any bucket, where an array of 2^61 NULL
    buckets was to be installed. *)
Theorem dictExpand_wraps :
  ~ expand_refused (dictCreate id_type) (2^61) (2^61)
  /\ _dictNextPower (2^61) = Ret (2^61)
  /\ wrap64 (2^61 * sizeof_ptr) = 0
  /\ dictExpand 4096 (dictCreate id_type) (2^61)
     = Ret (DICT_OK, set_ht0 (dictCreate id_type) (mkHt 4096 [] (2^61) (2^61 - 1) 0))
  /\ mkHt 4096 [] (2^61) (2^61 - 1) 0 <> fresh_table 4096 (2^61).
Proof.
  split.
  { unfold expand_refused. vm_compute. intros [H|[H|H]]; discriminate. }
  split; [vm_compute; reflexivity|]. split; [reflexivity|].
  split; [vm_compute; reflexivity|].
  assert (G : forall n, 0 < n -> length (slots (fresh_table 4096 n)) <> 0%nat).
  { intros n Hn. unfold fresh_table. cbn [slots]. rewrite repeat_length. lia. }
  intros H. apply (G (2^61)); [apply Z.pow_pos_nonneg; lia|].
  rewrite <- H. reflexivity.
Qed.

(** C2, as the code has it. The check that precedes an insert does nothing
    while a rehash is in progress. Otherwise, on a table with zero buckets
    it installs 4 buckets; on a table with buckets it expands for [2 * used]
    exactly when [used >= size] and (the resize flag is set or the integer
    quotient [used / size] exceeds 5), and the array it installs has the
    smallest power of two that is at least [2 * used] (and at least 4)
    buckets. The dict is one whose bucket arrays fit the address space
    ([used <= 2^59]) and whose [ht[0]] has a table exactly when its size is
    not 0. *)
Theorem _dictExpandIfNeeded_spec (can_resize : bool) (newtab : Z) (d : dict) :
  0 <= used (ht0 d) <= 2^59 -> 0 <= size (ht0 d) ->
  (size (ht0 d) = 0 -> table (ht0 d) = 0 /\ used (ht0 d) = 0) ->
  (size (ht0 d) <> 0 -> table (ht0 d) <> 0) ->
  (dictIsRehashing d = true ->
     _dictExpandIfNeeded can_resize newtab d = Ret (DICT_OK, d))
  /\ (dictIsRehashing d = false ->
      (size (ht0 d) = 0 ->
         _dictExpandIfNeeded can_resize newtab d
         = Ret (DICT_OK, set_ht0 d (fresh_table newtab 4)))
      /\ (size (ht0 d) <> 0 ->
          (expansion_due can_resize d ->
             exists j, 2 <= j /\ 2 * used (ht0 d) <= 2^j
               /\ (forall j', 2 <= j' -> 2 * used (ht0 d) <= 2^j' -> 2^j <= 2^j')
               /\ _dictExpandIfNeeded can_resize newtab d
                  = Ret (DICT_OK, set_rehashidx (set_ht1 d (fresh_table newtab (2^j))) 0))
          /\ (~ expansion_due can_resize d ->
                _dictExpandIfNeeded can_resize newtab d = Ret (DICT_OK, d)))).
Proof.
  intros Hu Hs Hz Hnz. unfold _dictExpandIfNeeded. split.
  - intros ->. reflexivity.
  - intros Hr. rewrite Hr. split.
    + intros H0. destruct (Hz H0) as [Ht Hu0]. rewrite H0. simpl.
      rewrite (dictExpand_installs newtab d DICT_HT_INITIAL_SIZE 2).
      * rewrite Ht. reflexivity.
      * lia.
      * reflexivity.
      * unfold expand_refused, DICT_HT_INITIAL_SIZE. rewrite Hr, Hu0, H0.
        intros [?|[?|?]]; [discriminate|lia|discriminate].
    + intros Hsz. destruct (Z.eqb_spec (size (ht0 d)) 0) as [|_]; [contradiction|].
      assert (Hw : wrap64 (used (ht0 d) * 2) = 2 * used (ht0 d)).
      { rewrite wrap64_small; lia. }
      split.
      * intros [Hle Hc].
        destruct (Z.leb_spec (size (ht0 d)) (used (ht0 d))); [|lia].
        assert (Hb : can_resize
                     || (dict_force_resize_ratio <? used (ht0 d) / size (ht0 d)) = true).
        { destruct Hc as [->|Hc]; [reflexivity|].
          apply orb_true_iff. right. apply Z.ltb_lt. exact Hc. }
        rewrite Hb. simpl. rewrite Hw.
        destruct (_dictNextPower_60 (2 * used (ht0 d)))
          as (j & Hj & Hnp & Hge & Hmin); [lia|].
        exists j. split; [lia|]. split; [exact Hge|]. split; [exact Hmin|].
        rewrite (dictExpand_installs newtab d (2 * used (ht0 d)) j); [|lia|exact Hnp|].
        -- destruct (Z.eqb_spec (table (ht0 d)) 0) as [E|_]; [|reflexivity].
           exfalso. apply (Hnz Hsz). exact E.
        -- unfold expand_refused. rewrite Hr.
           intros [?|[?|?]]; [discriminate|lia|lia].
      * intros Hno. unfold expansion_due in Hno.
        destruct (Z.leb_spec (size (ht0 d)) (used (ht0 d))) as [Hle|Hgt]; [|reflexivity].
        destruct can_resize; [exfalso; apply Hno; auto|]. simpl.
        destruct (Z.ltb_spec dict_force_resize_ratio (used (ht0 d) / size (ht0 d)));
          [exfalso; apply Hno; auto|reflexivity].
Qed.

Lemma _dictExpandIfNeeded_spec_witness :
  (0 <= used (ht0 (dictCreate id_type)) <= 2^59
   /\ 0 <= size (ht0 (dictCreate id_type))
   /\ (size (ht0 (dictCreate id_type)) = 0 ->
       table (ht0 (dictCreate id_type)) = 0 /\ used (ht0 (dictCreate id_type)) = 0)
   /\ (size (ht0 (dictCreate id_type)) <> 0 -> table (ht0 (dictCreate id_type)) <> 0))
  /\ _dictExpandIfNeeded true 4096 (dictCreate id_type)
     = Ret (DICT_OK, set_ht0 (dictCreate id_type) (fresh_table 4096 4)).
Proof.
  assert (H1 : 0 <= used (ht0 (dictCreate id_type)) <= 2^59) by (simpl; lia).
  assert (H2 : 0 <= size (ht0 (dictCreate id_type))) by (simpl; lia).
  assert (H3 : size (ht0 (dictCreate id_type)) = 0 ->
               table (ht0 (dictCreate id_type)) = 0 /\ used (ht0 (dictCreate id_type)) = 0)
    by (intros _; split; reflexivity).
  assert (H4 : size (ht0 (dictCreate id_type)) <> 0 -> table (ht0 (dictCreate id_type)) <> 0)
    by (intros H; exfalso; apply H; reflexivity).
  split; [auto|].
  apply (_dictExpandIfNeeded_spec true 4096 (dictCreate id_type) H1 H2 H3 H4);
    reflexivity.
Defined.

(** C2 as it is stated fails for a dict that is being rehashed: [ht[0]] has
    buckets, [used >= size] and the resize flag is set, and yet the check
    installs nothing and leaves the dict as it is. And the rounding of
    [_dictNextPower] stops at 2^63: a larger request gets fewer buckets than
    it asks for. *)
Lemma _dictExpandIfNeeded_counterexample :
  size (ht0 rehashing_dict) <> 0
  /\ expansion_due true rehashing_dict
  /\ _dictExpandIfNeeded true 12288 rehashing_dict = Ret (DICT_OK, rehashing_dict)
  /\ _dictNextPower (2^63 + 1) = Ret (2^63).
Proof.
  split; [simpl; lia|]. split; [|split; reflexivity].
  split; [simpl; lia|left; reflexivity].
Qed.

(** *** The rehash step *)

Lemma dictRehash_skip_rehashidx (fuel : nat) :
  forall d ev s, dictRehash_skip fuel d ev = Ret s ->
  match s with
  | Found d' _ => rehashidx d <= rehashidx d'
  | GaveUp d' => rehashidx d < rehashidx d'
  end.
Proof.
  induction fuel as [|fuel IH]; intros d ev s H; simpl in H; [discriminate|].
  destruct (zlookup (slots (ht0 d)) (rehashidx d)) as [[|e c]|]; try discriminate.
  - destruct (ev =? INT_MIN); [discriminate|].
    destruct (ev - 1 =? 0).
    + injection H as <-. simpl. lia.
    + apply IH in H. destruct s; simpl in *; lia.
  - injection H as <-. lia.
Qed.

Lemma dictRehash_move_rehashidx (de : chain) :
  forall d d', dictRehash_move de d = Ret d' -> rehashidx d' = rehashidx d.
Proof.
  induction de as [|e de IH]; intros d d' H; simpl in H.
  - injection H as <-. reflexivity.
  - destruct (zlookup _ _); [|discriminate]. apply IH in H. exact H.
Qed.

Lemma dictRehash_finish_rehashidx (d : dict) :
  rehashidx (snd (dictRehash_finish d)) = -1
  \/ snd (dictRehash_finish d) = d.
Proof.
  unfold dictRehash_finish. destruct (used (ht0 d) =? 0); [left|right]; reflexivity.
Qed.

Lemma dictRehash_loop_0 (f : nat) (d : dict) (ev : Z) :
  dictRehash_loop (S f) d 0 ev = Ret (dictRehash_finish d).
Proof. reflexivity. Qed.

Lemma dictRehash_loop_step (f : nat) (d : dict) (n ev : Z) :
  n <> INT_MIN -> n <> 0 ->
  dictRehash_loop (S f) d n ev =
  if used (ht0 d) =? 0 then Ret (dictRehash_finish d)
  else if size (ht0 d) <=? wrap64 (rehashidx d) then AssertFail
  else
    s <- dictRehash_skip (S (length (slots (ht0 d)))) d ev ;;
    match s with
    | GaveUp d => Ret (1, d)
    | Found d ev =>
        match zlookup (slots (ht0 d)) (rehashidx d) with
        | None => UB
        | Some de =>
            d <- dictRehash_move de d ;;
            dictRehash_loop f
              (set_rehashidx
                 (set_ht0 d (set_slots (ht0 d) (zupdate (slots (ht0 d)) (rehashidx d) [])))
                 (rehashidx d + 1))
              (n - 1) ev
        end
    end.
Proof.
  intros H1 H2. cbn [dictRehash_loop].
  destruct (Z.eqb_spec n INT_MIN); [contradiction|].
  destruct (Z.eqb_spec n 0); [contradiction|]. reflexivity.
Qed.

Lemma dictRehash_unfold (d : dict) (n : Z) :
  INT_MIN <= n * 10 <= INT_MAX -> dictIsRehashing d = true ->
  dictRehash d n = dictRehash_loop (S (length (slots (ht0 d)))) d n (n * 10).
Proof.
  intros Hn Hr. unfold dictRehash. rewrite Hr.
  destruct (Z.ltb_spec (n * 10) INT_MIN); [lia|].
  destruct (Z.ltb_spec INT_MAX (n * 10)); [lia|]. reflexivity.
Qed.

(** One call of [dictRehash] with [n = 1] on a dict that is being rehashed
    never leaves the dict as it was: it moves the cursor or ends the
    rehash. *)
Lemma dictRehash_1_changes (d : dict) (r : Z) (d' : dict) :
  dictIsRehashing d = true -> dictRehash d 1 = Ret (r, d') -> d' <> d.
Proof.
  intros Hr H. rewrite dictRehash_unfold in H by (try exact Hr; unfold INT_MIN, INT_MAX; lia).
  rewrite dictRehash_loop_step in H by (unfold INT_MIN; lia).
  assert (Hne : rehashidx d <> -1).
  { unfold dictIsRehashing in Hr. destruct (Z.eqb_spec (rehashidx d) (-1)); [discriminate|auto]. }
  destruct (used (ht0 d) =? 0) eqn:Hu.
  - unfold dictRehash_finish in H. rewrite Hu in H. injection H as _ <-.
    intros E. apply Hne. rewrite <- E. reflexivity.
  - destruct (size (ht0 d) <=? wrap64 (rehashidx d)); [discriminate|].
    destruct (dictRehash_skip _ d (1 * 10)) as [s| | |] eqn:Hs; try discriminate.
    apply dictRehash_skip_rehashidx in Hs. cbn [obind] in H.
    destruct s as [d1 ev|d1].
    + destruct (zlookup (slots (ht0 d1)) (rehashidx d1)) as [de|]; [|discriminate].
      destruct (dictRehash_move de d1) as [d2| | |] eqn:Hm; try discriminate.
      apply dictRehash_move_rehashidx in Hm. cbn [obind] in H.
      change (1 - 1) with 0 in H.
      destruct (length (slots (ht0 d))) as [|f]; [discriminate|].
      rewrite dictRehash_loop_0 in H.
      match type of H with Ret (dictRehash_finish ?x) = _ =>
        destruct (dictRehash_finish_rehashidx x) as [E|E];
        destruct (dictRehash_finish x) as [r0 d0] end;
        injection H as _ <-; simpl in E.
      * intros E'. rewrite E' in E. contradiction.
      * rewrite E. intros E'. apply (f_equal rehashidx) in E'. simpl in E'. lia.
    + injection H as _ <-. intros E. rewrite E in Hs. lia.
Qed.

Lemma _dictRehashStep_idle (d : dict) :
  iterators d <> 0 -> _dictRehashStep d = Ret d.
Proof.
  intros H. unfold _dictRehashStep.
  destruct (Z.eqb_spec (iterators d) 0); [contradiction|reflexivity].
Qed.

(** C3. [_dictRehashStep], the step that lookup, insert, delete and random
    sampling take on a dict that is being rehashed, is [dictRehash(d,1)]
    when no safe iterator runs ([iterators == 0]) and nothing at all
    otherwise: with [iterators > 0] the dict (both tables and the cursor) is
    left as it is. On a dict that is being rehashed the step changes the
    state if and only if [iterators == 0]. *)
Theorem _dictRehashStep_spec (d : dict) :
  (iterators d = 0 -> _dictRehashStep d = (r <- dictRehash d 1 ;; Ret (snd r)))
  /\ (iterators d <> 0 -> _dictRehashStep d = Ret d)
  /\ (dictIsRehashing d = true ->
      forall d', _dictRehashStep d = Ret d' -> (d' <> d <-> iterators d = 0)).
Proof.
  unfold _dictRehashStep. split; [|split].
  - intros ->. reflexivity.
  - intros H. destruct (Z.eqb_spec (iterators d) 0); [contradiction|reflexivity].
  - intros Hr d' H. destruct (Z.eqb_spec (iterators d) 0) as [Hi|Hi].
    + split; [auto|]. intros _.
      destruct (dictRehash d 1) as [[r d1]| | |] eqn:E; try discriminate.
      simpl in H. injection H as <-. eapply dictRehash_1_changes; eauto.
    + injection H as <-. split; [intros H; exfalso; apply H; reflexivity|contradiction].
Qed.

(** The lookup takes that step, and only when the dict holds entries. *)
Lemma dictFind_iterators (d : dict) (k : Z) (e : option dictEntry) (d' : dict) :
  iterators d <> 0 -> dictFind d k = Ret (e, d') -> d' = d.
Proof.
  intros Hi H. unfold dictFind in H.
  destruct (wrap64 _ =? 0); [injection H as _ <-; reflexivity|].
  assert (Hs : (if dictIsRehashing d then _dictRehashStep d else Ret d) = Ret d).
  { destruct (dictIsRehashing d); [|reflexivity].
    apply _dictRehashStep_idle. exact Hi. }
  rewrite Hs in H. simpl in H.
  destruct (zlookup _ _) as [he|]; [|discriminate].
  destruct (chain_find d k he); [injection H as _ <-; reflexivity|].
  destruct (negb (dictIsRehashing d)); [injection H as _ <-; reflexivity|].
  destruct (zlookup _ _); [injection H as _ <-; reflexivity|discriminate].
Qed.

(** *** Unsafe iterators *)

(** The hash is not to be unfolded on a symbolic dict. *)
Opaque dictFingerprint.

Lemma swrap64_small (x : Z) : 0 <= x < 2^63 -> swrap64 x = x.
Proof. intros H. unfold swrap64. rewrite Z.mod_small by lia. lia. Qed.

Lemma zlookup_Some {A : Type} (l : list A) (i : Z) :
  0 <= i < Z.of_nat (length l) -> exists x, zlookup l i = Some x.
Proof.
  intros H. unfold zlookup. destruct (Z.ltb_spec i 0); [lia|].
  destruct (l !! Z.to_nat i) eqn:E; [eauto|].
  apply lookup_ge_None in E. lia.
Qed.

Lemma iter_wf_set_iterators (d : dict) (n : Z) : iter_wf d -> iter_wf (set_iterators d n).
Proof. intros H. exact H. Qed.

(** An iterator that stands between two chains ([entry] is NULL) reaches
    its next entry, or the end, within the fuel. *)
Lemma dictNext_loop_total (fuel : nat) :
  forall it d, iter_wf d -> entry it = None ->
  (itable it = 0 \/ itable it = 1) -> -1 <= index it ->
  dictNext_measure it d <= Z.of_nat fuel ->
  exists r, dictNext_loop fuel it d = Ret r.
Proof.
  induction fuel as [|fuel IH]; intros it d Hwf He Ht Hi Hm.
  - exfalso. unfold dictNext_measure in Hm.
    destruct (entry it), (itable it =? 0); lia.
  - destruct Hwf as (Hs0 & Hs1 & Hb0 & Hb1 & Hr1).
    assert (Hwf : iter_wf d) by (repeat split; auto).
    cbn [dictNext_loop]. rewrite He.
    + assert (Hb : negb ((itable it =? 0) || (itable it =? 1)) = false).
      { destruct Ht as [-> | ->]; reflexivity. }
      rewrite Hb.
      set (d1 := if ((index it =? -1) && (itable it =? 0)) && safe it
                 then set_iterators d (wrap64 (iterators d + 1)) else d).
      assert (Hd1 : ht0 d1 = ht0 d /\ ht1 d1 = ht1 d /\ dictIsRehashing d1 = dictIsRehashing d).
      { unfold d1. destruct (_ && safe it); auto. }
      destruct Hd1 as (E0 & E1 & Er).
      set (fp := if ((index it =? -1) && (itable it =? 0)) && negb (safe it)
                 then dictFingerprint d1 else fingerprint it).
      assert (Hwf1 : iter_wf d1) by (unfold d1; destruct (_ && safe it); auto).
      unfold dictNext_measure in Hm. rewrite He in Hm.
      rewrite Er, E1.
      destruct Ht as [Ht|Ht]; rewrite Ht in *; simpl (0 =? 0) in *; simpl (1 =? 0) in *;
        cbv iota in *.
      * rewrite swrap64_small by lia.
        destruct (Z.leb_spec (size (ht0 d)) (index it + 1)) as [Hge|Hlt].
        -- rewrite andb_true_r. destruct (dictIsRehashing d) eqn:Hr; [|eauto].
           destruct (slots (ht1 d)) as [|c rest] eqn:Hsl; [exfalso; apply Hr1; auto|].
           unfold zlookup. simpl. destruct c as [|e c]; cbn [iter_set_entry entry]; [|eauto].
           apply IH; [exact Hwf1|reflexivity|right; reflexivity|simpl; lia|].
           unfold dictNext_measure. rewrite E0, E1, Hsl. simpl. simpl length in Hm. lia.
        -- destruct (zlookup_Some (slots (ht0 d)) (index it + 1)) as [c Hc]; [lia|].
           rewrite Hc. destruct c as [|e c]; cbn [iter_set_entry entry]; [|eauto].
           apply IH; [exact Hwf1|reflexivity|left; reflexivity|simpl; lia|].
           unfold dictNext_measure. rewrite E0, E1. simpl. lia.
      * rewrite swrap64_small by lia. rewrite andb_false_r.
        destruct (Z.leb_spec (size (ht1 d)) (index it + 1)) as [Hge|Hlt]; [eauto|].
        destruct (zlookup_Some (slots (ht1 d)) (index it + 1)) as [c Hc]; [lia|].
        rewrite Hc. destruct c as [|e c]; cbn [iter_set_entry entry]; [|eauto].
        apply IH; [exact Hwf1|reflexivity|right; reflexivity|simpl; lia|].
        unfold dictNext_measure. rewrite E1. simpl. lia.
Qed.

Lemma iter_set_entry_fields (it : dictIterator) (c : chain) :
  index (iter_set_entry it c) = index it
  /\ itable (iter_set_entry it c) = itable it
  /\ safe (iter_set_entry it c) = safe it
  /\ fingerprint (iter_set_entry it c) = fingerprint it.
Proof. destruct c; repeat split. Qed.

(** What [dictNext] does to an unsafe iterator that is fresh or has been
    advanced: the dict is not touched, the fingerprint is taken at the first
    advance and kept afterwards, and the index is not negative any more. *)
Lemma dictNext_loop_unsafe (fuel : nat) :
  forall it d e it' d', safe it = false ->
  (entry it = None /\ index it = -1) \/ 0 <= index it ->
  dictNext_loop fuel it d = Ret (e, it', d') ->
  d' = d /\ safe it' = false /\ 0 <= index it' /\ fingerprint it' = snapshot it d.
Proof.
  induction fuel as [|fuel IH]; intros it d e it' d' Hs HP H; [discriminate|].
  assert (Hend : forall it1 c, 0 <= index it1 -> safe it1 = false ->
            match entry (iter_set_entry it1 c) with
            | Some e => Ret (Some e, iter_set_entry it1 c, d)
            | None => dictNext_loop fuel (iter_set_entry it1 c) d
            end = Ret (e, it', d') ->
            d' = d /\ safe it' = false /\ 0 <= index it'
            /\ fingerprint it' = fingerprint it1).
  { intros it1 c Hi1 Hs1 H1.
    destruct (iter_set_entry_fields it1 c) as (F1 & F2 & F3 & F4).
    destruct (entry (iter_set_entry it1 c)) eqn:He1.
    - injection H1 as <- <- <-. rewrite F1, F3, F4. auto.
    - apply IH in H1; [|congruence|right; lia].
      destruct H1 as (-> & Hs' & Hi' & Hf').
      unfold snapshot in Hf'. rewrite He1, F1, F4 in Hf'.
      destruct (Z.eqb_spec (index it1) (-1)); [lia|]. auto. }
  cbn [dictNext_loop] in H. unfold snapshot. destruct (entry it) as [e0|] eqn:He.
  - destruct HP as [[? _]|Hi]; [discriminate|].
    destruct (pointed_chain d (nextEntry it)) as [c| | |]; try discriminate.
    cbn [obind] in H.
    match type of H with context [iter_set_entry ?a ?b] =>
        destruct (Hend a b) as (E1 & E2 & E3 & E4);
          [simpl; lia|first [exact Hs|reflexivity]|exact H|] end;
      rewrite E4; simpl; auto.
  - assert (Hi : -1 <= index it) by (destruct HP as [[_ ->]|]; lia).
    destruct (negb _); [discriminate|]. rewrite Hs in H.
    rewrite andb_false_r, andb_true_r in H.
    set (fp := if (index it =? -1) && (itable it =? 0)
               then dictFingerprint d else fingerprint it) in *.
    destruct (swrap64 _ <=? index it + 1).
    + destruct (dictIsRehashing d && (itable it =? 0)).
      * destruct (zlookup (slots (ht1 d)) 0) as [c|]; [|discriminate].
        match type of H with context [iter_set_entry ?a ?b] =>
        destruct (Hend a b) as (E1 & E2 & E3 & E4);
          [simpl; lia|first [exact Hs|reflexivity]|exact H|] end;
      rewrite E4; simpl; auto.
      * injection H as <- <- <-. simpl. split; [reflexivity|]. split; [reflexivity|].
        split; [lia|reflexivity].
    + destruct (zlookup _ (index it + 1)) as [c|]; [|discriminate].
      match type of H with context [iter_set_entry ?a ?b] =>
        destruct (Hend a b) as (E1 & E2 & E3 & E4);
          [simpl; lia|first [exact Hs|reflexivity]|exact H|] end;
      rewrite E4; simpl; auto.
Qed.

Lemma advanced_from_inv (d : dict) (it : dictIterator) :
  advanced_from d it ->
  safe it = false /\ 0 <= index it /\ fingerprint it = dictFingerprint d.
Proof.
  induction 1 as [g e it H|it dk e it' dk' _ (Hs & Hi & Hf) H].
  - apply dictNext_loop_unsafe in H; [|reflexivity|left; split; reflexivity].
    destruct H as (_ & Hs & Hi & Hf). auto.
  - apply dictNext_loop_unsafe in H; [|exact Hs|right; exact Hi].
    destruct H as (_ & Hs' & Hi' & Hf'). split; [exact Hs'|]. split; [exact Hi'|].
    rewrite Hf', <- Hf. unfold snapshot.
    destruct (entry it); [reflexivity|].
    destruct (Z.eqb_spec (index it) (-1)); [lia|reflexivity].
Qed.

Lemma dictNext_first (garbage : Z) (d : dict) :
  iter_wf d -> exists e it, dictNext (dictGetIterator garbage) d = Ret (e, it, d).
Proof.
  intros Hwf.
  destruct (dictNext_loop_total (4 + length (slots (ht0 d)) + length (slots (ht1 d)))
              (dictGetIterator garbage) d) as [[[e it] d'] H]; auto.
  - simpl. lia.
  - unfold dictNext_measure. simpl. lia.
  - fold (dictNext (dictGetIterator garbage) d) in H.
    pose proof H as H'. apply dictNext_loop_unsafe in H';
      [|reflexivity|left; split; reflexivity].
    destruct H' as (-> & _). eauto.
Qed.

(** C4, as the code has it. [dictGetIterator] takes no fingerprint (the
    field keeps what the memory held), and an iterator that is released
    without having been advanced is released without any check. The first
    [dictNext] of an unsafe iterator returns and stores the fingerprint of
    the dict as it is then; later calls keep it. Releasing an unsafe
    iterator that has been advanced, with the dict in any state [d2], aborts
    on the assertion exactly when the fingerprint of [d2] differs from the
    one stored, and otherwise returns with the dict untouched: a change of
    the dict is detected if and only if it changes the fingerprint. *)
Theorem unsafe_iterator_fingerprint (d : dict) (garbage : Z) :
  iter_wf d ->
  fingerprint (dictGetIterator garbage) = garbage
  /\ (forall d2, dictReleaseIterator (dictGetIterator garbage) d2 = Ret d2)
  /\ (exists e it, dictNext (dictGetIterator garbage) d = Ret (e, it, d))
  /\ (forall it, advanced_from d it ->
        fingerprint it = dictFingerprint d
        /\ forall d2,
             dictReleaseIterator it d2
             = if dictFingerprint d =? dictFingerprint d2 then Ret d2 else AssertFail).
Proof.
  intros Hwf. split; [reflexivity|]. split; [reflexivity|].
  split; [apply dictNext_first; exact Hwf|].
  intros it Ha. apply advanced_from_inv in Ha. destruct Ha as (Hs & Hi & Hf).
  split; [exact Hf|]. intros d2. unfold dictReleaseIterator.
  destruct (Z.eqb_spec (index it) (-1)); [lia|]. simpl. rewrite Hs, Hf. reflexivity.
Qed.

Transparent dictFingerprint.

Lemma iter_wf_small_dict : iter_wf small_dict.
Proof.
  unfold iter_wf. simpl. split; [reflexivity|]. split; [reflexivity|].
  split; [lia|]. split; [lia|]. discriminate.
Defined.

Lemma unsafe_iterator_fingerprint_witness :
  iter_wf small_dict
  /\ fingerprint (dictGetIterator 7) = 7
  /\ (forall d2, dictReleaseIterator (dictGetIterator 7) d2 = Ret d2)
  /\ (exists e it, dictNext (dictGetIterator 7) small_dict = Ret (e, it, small_dict))
  /\ (forall it, advanced_from small_dict it ->
        fingerprint it = dictFingerprint small_dict
        /\ forall d2,
             dictReleaseIterator it d2
             = if dictFingerprint small_dict =? dictFingerprint d2
               then Ret d2 else AssertFail).
Proof.
  split; [exact iter_wf_small_dict|].
  apply (unsafe_iterator_fingerprint small_dict 7). exact iter_wf_small_dict.
Defined.

(** C4 as it is stated fails twice. A key added between the creation of an
    unsafe iterator and its release goes unnoticed when the iterator was
    not advanced. And after an advance, deleting the key 1 and adding the
    key 5 changes the dict and not its fingerprint: the release returns. *)
Lemma unsafe_iterator_counterexample :
  (exists d1,
     dictAdd true 8192 small_dict 4 14 = Ret (DICT_OK, d1)
     /\ d1 <> small_dict
     /\ dictReleaseIterator (dictGetIterator 0) d1 = Ret d1)
  /\ (exists e it d1 d2,
        dictNext (dictGetIterator 0) small_dict = Ret (e, it, small_dict)
        /\ dictDelete small_dict 1 = Ret (DICT_OK, d1)
        /\ dictAdd true 8192 d1 5 15 = Ret (DICT_OK, d2)
        /\ d2 <> small_dict
        /\ dictReleaseIterator it d2 = Ret d2).
Proof.
  split.
  - eexists. split; [vm_compute; reflexivity|]. split; [|reflexivity].
    intros E. apply (f_equal (fun d => used (ht0 d))) in E. discriminate E.
  - do 4 eexists. split; [vm_compute; reflexivity|].
    split; [vm_compute; reflexivity|]. split; [vm_compute; reflexivity|].
    split; [|vm_compute; reflexivity].
    intros E. apply (f_equal (fun d => slots (ht0 d))) in E. discriminate E.
Qed.

(** The misuse of the specification's scenario is detected: a key added
    after the first advance changes [used], hence the fingerprint, and the
    release aborts. *)
Example unsafe_iterator_detects_insert :
  exists e it d1,
    dictNext (dictGetIterator 0) small_dict = Ret (e, it, small_dict)
    /\ dictAdd true 8192 small_dict 4 14 = Ret (DICT_OK, d1)
    /\ dictReleaseIterator it d1 = AssertFail.
Proof.
  do 3 eexists. split; [vm_compute; reflexivity|].
  split; [vm_compute; reflexivity|]. vm_compute. reflexivity.
Qed.

(** *** The incremental rehash *)

Lemma set_rehashidx_same (d : dict) (x : Z) :
  x = rehashidx d -> set_rehashidx d x = d.
Proof. intros ->. destruct d. reflexivity. Qed.

Lemma dictRehash_skip_spec (fuel : nat) :
  forall d ev, 0 <= rehashidx d -> 0 < ev ->
  concat (drop (Z.to_nat (rehashidx d)) (slots (ht0 d))) <> [] ->
  (leading_empty (drop (Z.to_nat (rehashidx d)) (slots (ht0 d))) < fuel)%nat ->
  dictRehash_skip fuel d ev =
  Ret (let gap := Z.of_nat (leading_empty (drop (Z.to_nat (rehashidx d)) (slots (ht0 d)))) in
       if ev <=? gap then GaveUp (set_rehashidx d (rehashidx d + ev))
       else Found (set_rehashidx d (rehashidx d + gap)) (ev - gap)).
Proof.
  induction fuel as [|fuel IH]; intros d ev Hr Hev Hne Hf; [lia|].
  cbn [dictRehash_skip]. unfold zlookup.
  destruct (Z.ltb_spec (rehashidx d) 0); [lia|].
  destruct (slots (ht0 d) !! Z.to_nat (rehashidx d)) as [b|] eqn:Hb.
  - rewrite (drop_S _ _ _ Hb) in *. destruct b as [|e c].
    + cbn [leading_empty] in *. cbn [concat app] in Hne.
      destruct (Z.eqb_spec ev INT_MIN); [unfold INT_MIN in *; lia|].
      destruct (Z.eqb_spec (ev - 1) 0) as [E|E].
      * destruct (Z.leb_spec ev (Z.of_nat (S (leading_empty (drop (S (Z.to_nat (rehashidx d)))
                                                 (slots (ht0 d))))))); [|lia].
        cbv zeta. do 2 f_equal. unfold set_rehashidx. f_equal. lia.
      * assert (Hidx : Z.to_nat (rehashidx (set_rehashidx d (rehashidx d + 1)))
                       = S (Z.to_nat (rehashidx d))) by (simpl; lia).
        rewrite IH; [|simpl; lia|lia|simpl slots; simpl ht0; rewrite Hidx; exact Hne
                     |simpl slots; simpl ht0; rewrite Hidx; lia].
        simpl slots. simpl ht0. rewrite Hidx. cbv zeta.
        set (g := leading_empty (drop (S (Z.to_nat (rehashidx d))) (slots (ht0 d)))).
        change (rehashidx (set_rehashidx d (rehashidx d + 1))) with (rehashidx d + 1).
        replace (rehashidx d + 1 + (ev - 1)) with (rehashidx d + ev) by lia.
        replace (rehashidx d + 1 + Z.of_nat g) with (rehashidx d + Z.of_nat (S g)) by lia.
        replace (ev - 1 - Z.of_nat g) with (ev - Z.of_nat (S g)) by lia.
        destruct (Z.leb_spec (ev - 1) (Z.of_nat g));
          destruct (Z.leb_spec ev (Z.of_nat (S g))); try lia; reflexivity.
    + cbn [leading_empty]. cbv zeta.
      destruct (Z.leb_spec ev (Z.of_nat 0)); [lia|].
      f_equal. f_equal; [|lia]. symmetry. apply set_rehashidx_same. lia.
  - exfalso. apply Hne. rewrite drop_ge; [reflexivity|].
    apply lookup_ge_None. exact Hb.
Qed.

Lemma land_mask_bound (a m : Z) : 0 <= a -> 0 <= m -> 0 <= Z.land a m <= m.
Proof.
  intros Ha Hm. split; [apply Z.land_nonneg; auto|].
  destruct (Z2N.id a Ha), (Z2N.id m Hm).
  rewrite <- N2Z.inj_land. rewrite !Z2N.id by lia.
  rewrite <- (Z2N.id m Hm) at 2. apply N2Z.inj_le. apply N.land_le_r.
Qed.

Lemma wrap64_nonneg (x : Z) : 0 <= wrap64 x < 2^64.
Proof. unfold wrap64. apply Z.mod_pos_bound. lia. Qed.

Lemma wrap64_sub_1 (u n : Z) : wrap64 (wrap64 (u - 1) - n) = wrap64 (u - (1 + n)).
Proof.
  unfold wrap64. rewrite Zminus_mod_idemp_l. f_equal. lia.
Qed.

Lemma wrap64_add_1 (u n : Z) : wrap64 (wrap64 (u + 1) + n) = wrap64 (u + (1 + n)).
Proof.
  unfold wrap64. rewrite Zplus_mod_idemp_l. f_equal. lia.
Qed.

Lemma imap_same {A : Type} (l : list A) :
  forall f : nat -> A -> A, (forall j b, f j b = b) -> imap f l = l.
Proof.
  induction l as [|x l IH]; intros f H; [reflexivity|].
  simpl. rewrite H. f_equal. apply IH. intros j b. apply H.
Qed.

Lemma migrated_nil (d : dict) : migrated d [] = slots (ht1 d).
Proof. unfold migrated. apply imap_same. reflexivity. Qed.

(** Pushing [e] on its bucket and migrating the rest of the chain is
    migrating the chain that starts with [e]. *)
Lemma migrated_cons (d d1 : dict) (e : dictEntry) (de c : chain) :
  type d1 = type d -> sizemask (ht1 d1) = sizemask (ht1 d) ->
  0 <= bucket_of d e ->
  slots (ht1 d) !! Z.to_nat (bucket_of d e) = Some c ->
  slots (ht1 d1) = <[Z.to_nat (bucket_of d e) := e :: c]> (slots (ht1 d)) ->
  migrated d1 de = migrated d (e :: de).
Proof.
  intros Ht Hm Hb Hc Hs. unfold migrated. rewrite Hs.
  apply list_eq. intros j. rewrite !list_lookup_imap.
  assert (Hbk : forall x, bucket_of d1 x = bucket_of d x).
  { intros x. unfold bucket_of, dictHashKey. rewrite Ht, Hm. reflexivity. }
  assert (Hf : forall l : list dictEntry,
                 filter (fun x => bucket_of d1 x = Z.of_nat j) l
                         = filter (fun x => bucket_of d x = Z.of_nat j) l).
  { intros l. apply list_filter_iff. intros x. rewrite Hbk. reflexivity. }
  rewrite Hf.
  destruct (decide (j = Z.to_nat (bucket_of d e))) as [->|Hne].
  - rewrite list_lookup_insert_eq by (apply lookup_lt_Some in Hc; exact Hc).
    rewrite Hc. simpl. f_equal.
    rewrite filter_cons_True by lia. simpl. rewrite <- app_assoc. reflexivity.
  - rewrite list_lookup_insert_ne by auto.
    rewrite filter_cons_False by lia. reflexivity.
Qed.

Lemma dictRehash_move_spec (de : chain) :
  forall d, 0 <= sizemask (ht1 d) ->
  sizemask (ht1 d) + 1 = Z.of_nat (length (slots (ht1 d))) ->
  dictRehash_move de d =
  Ret (mkDict (type d)
         (set_used (ht0 d) (Nat.iter (length de) (fun u => wrap64 (u - 1)) (used (ht0 d))))
         (mkHt (table (ht1 d)) (migrated d de) (size (ht1 d)) (sizemask (ht1 d))
               (Nat.iter (length de) (fun u => wrap64 (u + 1)) (used (ht1 d))))
         (rehashidx d) (iterators d)).
Proof.
  induction de as [|e de IH]; intros d Hm Hl.
  - simpl. rewrite migrated_nil. destruct d as [ty [] [] r i]. reflexivity.
  - cbn [dictRehash_move].
    assert (Hb : 0 <= Z.land (dictHashKey d (key e)) (sizemask (ht1 d)) <= sizemask (ht1 d)).
    { apply land_mask_bound; [apply wrap64_nonneg|exact Hm]. }
    fold (bucket_of d e) in *. unfold zlookup.
    destruct (Z.ltb_spec (bucket_of d e) 0); [lia|].
    destruct (slots (ht1 d) !! Z.to_nat (bucket_of d e)) as [c|] eqn:Hc;
      [|apply lookup_ge_None in Hc; lia].
    rewrite IH; [|exact Hm|simpl; unfold zupdate; rewrite length_insert; exact Hl].
    cbn [type ht0 ht1 rehashidx iterators set_ht0 set_ht1 set_used
         table slots size sizemask used length].
    rewrite !Nat.iter_succ_r.
    rewrite (migrated_cons d _ e de c); [reflexivity|reflexivity|reflexivity|lia|exact Hc|].
    reflexivity.
Qed.

Lemma iter_used_sub (n : nat) (u : Z) :
  Z.of_nat n <= u < 2^64 -> Nat.iter n (fun u => wrap64 (u - 1)) u = u - Z.of_nat n.
Proof.
  induction n as [|n IH]; intros H; [simpl; lia|].
  rewrite Nat.iter_succ, IH by lia. rewrite wrap64_small; lia.
Qed.

Lemma iter_used_add (n : nat) (u : Z) :
  0 <= u < 2^64 -> Nat.iter n (fun u => wrap64 (u + 1)) u = wrap64 (u + Z.of_nat n).
Proof.
  intros H. induction n as [|n IH].
  - simpl. rewrite Z.add_0_r, wrap64_small; auto.
  - rewrite Nat.iter_succ, IH. unfold wrap64. rewrite Zplus_mod_idemp_l. f_equal. lia.
Qed.

Lemma concat_repeat_nil {A : Type} (n : nat) : concat (repeat (@nil A) n) = [].
Proof. induction n; simpl; auto. Qed.

Lemma leading_empty_split (l : list chain) :
  concat l <> [] ->
  exists de rest, de <> [] /\ l = repeat [] (leading_empty l) ++ de :: rest.
Proof.
  induction l as [|b l IH]; intros H; [contradiction|].
  destruct b as [|e c].
  - destruct (IH H) as (de & rest & Hde & Hl).
    exists de, rest. split; [exact Hde|]. cbn [leading_empty repeat app]. f_equal. exact Hl.
  - exists (e :: c), l. split; [discriminate|reflexivity].
Qed.

(** Where the scan of a table that still holds entries stops. *)
Lemma next_chain (s : list chain) (r : nat) :
  concat (drop r s) <> [] ->
  let g := leading_empty (drop r s) in
  exists de, de <> [] /\ s !! (r + g)%nat = Some de
    /\ length (concat (drop r s))
       = (length de + length (concat (drop (S (r + g)) s)))%nat.
Proof.
  intros H g. destruct (leading_empty_split _ H) as (de & rest & Hde & Hl).
  fold g in Hl. exists de. split; [exact Hde|].
  assert (Hlk : s !! (r + g)%nat = Some de).
  { rewrite <- lookup_drop, Hl. apply list_lookup_middle. rewrite repeat_length. reflexivity. }
  split; [exact Hlk|].
  assert (Hd : drop (S (r + g)) s = rest).
  { replace (S (r + g)) with (r + S g)%nat by lia. rewrite <- drop_drop, Hl.
    replace (S g) with (length (repeat (@nil dictEntry) g) + 1)%nat
      by (rewrite repeat_length; lia).
    rewrite drop_app_add. reflexivity. }
  rewrite Hd, Hl, concat_app, concat_repeat_nil. simpl. rewrite length_app. reflexivity.
Qed.

Lemma dictRehash_round (f : nat) (d : dict) (n ev : Z) :
  rehash_wf d -> used (ht0 d) <> 0 -> 0 < ev -> 0 < n <= INT_MAX ->
  let gap := Z.of_nat (leading_empty (drop (Z.to_nat (rehashidx d)) (slots (ht0 d)))) in
  exists de, slots (ht0 d) !! Z.to_nat (rehashidx d + gap) = Some de
    /\ rehashidx d + gap < Z.of_nat (length (slots (ht0 d)))
    /\ rehash_wf (after_round d gap de)
    /\ dictRehash_loop (S f) d n ev
       = if ev <=? gap then Ret (1, set_rehashidx d (rehashidx d + ev))
         else dictRehash_loop f (after_round d gap de) (n - 1) (ev - gap).
Proof.
  intros (Hr & Hsz & Hszb & Hu & Hub & Hu1 & Hm & Hl) Hne Hev Hn gap.
  assert (Hc : concat (drop (Z.to_nat (rehashidx d)) (slots (ht0 d))) <> []).
  { intros E. rewrite E in Hu. simpl in Hu. contradiction. }
  destruct (next_chain _ _ Hc) as (de & Hde & Hlk & Hlen). fold gap in Hlk.
  assert (Hidx : Z.to_nat (rehashidx d + gap)
                 = (Z.to_nat (rehashidx d)
                    + leading_empty (drop (Z.to_nat (rehashidx d)) (slots (ht0 d))))%nat)
    by (unfold gap; lia).
  rewrite <- Hidx in Hlk, Hlen.
  assert (Hlt : rehashidx d + gap < Z.of_nat (length (slots (ht0 d)))).
  { apply lookup_lt_Some in Hlk. unfold gap in *. lia. }
  exists de. split; [exact Hlk|]. split; [exact Hlt|]. split.
  - unfold rehash_wf, after_round. cbn [rehashidx ht0 ht1 slots size used sizemask].
    rewrite length_insert.
    replace (Z.to_nat (rehashidx d + gap + 1)) with (S (Z.to_nat (rehashidx d + gap))) by lia.
    rewrite drop_insert_lt by lia.
    split; [unfold gap; lia|]. split; [exact Hsz|]. split; [exact Hszb|].
    split; [lia|]. split; [lia|]. split; [apply wrap64_nonneg|].
    split; [exact Hm|]. unfold migrated. rewrite length_imap. exact Hl.
  - rewrite dictRehash_loop_step by (unfold INT_MIN, INT_MAX in *; lia).
    destruct (Z.eqb_spec (used (ht0 d)) 0); [contradiction|].
    rewrite wrap64_small by (unfold gap in *; lia).
    destruct (Z.leb_spec (size (ht0 d)) (rehashidx d)); [unfold gap in *; lia|].
    rewrite dictRehash_skip_spec; [|exact Hr|exact Hev|exact Hc|unfold gap in *; lia].
    cbv zeta. fold gap. cbn [obind].
    destruct (Z.leb_spec ev gap); [reflexivity|].
    cbn [rehashidx set_rehashidx ht0 slots]. unfold zlookup.
    destruct (Z.ltb_spec (rehashidx d + gap) 0); [unfold gap in *; lia|].
    rewrite Hlk. rewrite dictRehash_move_spec by (simpl; auto).
    cbn [obind]. f_equal. unfold after_round.
    cbn [type ht0 ht1 rehashidx iterators set_rehashidx set_ht0 set_slots set_used
         table slots size sizemask used].
    rewrite iter_used_sub by lia. rewrite iter_used_add by lia. unfold zupdate.
    reflexivity.
Qed.

Lemma dictRehash_loop_spec (n : nat) :
  forall fuel d ev, rehash_wf d -> 0 < ev -> Z.of_nat n <= INT_MAX ->
  1 + Z.max 0 (Z.of_nat (length (slots (ht0 d))) - rehashidx d) <= Z.of_nat fuel ->
  dictRehash_loop fuel d (Z.of_nat n) ev = Ret (rehash_spec n ev d).
Proof.
  induction n as [|n IH]; intros fuel d ev Hwf Hev Hn Hf;
    (destruct fuel as [|f]; [lia|]).
  - reflexivity.
  - cbn [rehash_spec]. destruct (Z.eqb_spec (used (ht0 d)) 0) as [E|E].
    + rewrite dictRehash_loop_step by (unfold INT_MIN, INT_MAX in *; lia).
      unfold dictRehash_finish. rewrite E. reflexivity.
    + destruct (dictRehash_round f d (Z.of_nat (S n)) ev Hwf E Hev)
        as (de & Hlk & Hlt & Hwf' & Heq); [lia|].
      rewrite Heq. cbv zeta.
      destruct (Z.leb_spec ev (Z.of_nat (leading_empty (drop (Z.to_nat (rehashidx d))
                                                             (slots (ht0 d))))));
        [reflexivity|].
      replace (Z.of_nat (S n) - 1) with (Z.of_nat n) by lia.
      rewrite IH; [|exact Hwf'|lia|lia|].
      * rewrite Hlk. reflexivity.
      * unfold after_round. cbn [ht0 slots rehashidx]. rewrite length_insert. lia.
Qed.

(** C1. On a dict that is being rehashed and for [n > 0] (with [n * 10]
    an [int]), [dictRehash(d, n)] returns what the specification describes
    ([rehash_spec]): while [n > 0] and [ht[0].used > 0] it skips the empty
    buckets from the cursor on and, if the [10 * n] empty buckets it may
    visit in the whole call are used up, stops there and returns 1;
    otherwise it moves the whole chain of the bucket it found to [ht[1]],
    every entry to the head of the bucket its key hashes to under the mask
    of [ht[1]], empties the bucket, moves the cursor past it and decrements
    [n]. When [ht[0].used] is 0 then, [ht[1]] becomes [ht[0]], [ht[1]] is
    reset, the cursor is -1 and 0 is returned; else 1 is returned. *)
Theorem dictRehash_spec (d : dict) (n : Z) :
  rehash_wf d -> 0 < n -> n * 10 <= INT_MAX ->
  dictRehash d n = Ret (rehash_spec (Z.to_nat n) (n * 10) d).
Proof.
  intros Hwf Hn Hmax.
  assert (Hr : dictIsRehashing d = true).
  { destruct Hwf as (Hr & _). unfold dictIsRehashing.
    destruct (Z.eqb_spec (rehashidx d) (-1)); [lia|reflexivity]. }
  rewrite dictRehash_unfold by (try exact Hr; unfold INT_MIN, INT_MAX in *; lia).
  rewrite <- (Z2Nat.id n) at 1 by lia.
  apply dictRehash_loop_spec; [exact Hwf|lia|unfold INT_MAX in *; lia|].
  destruct Hwf as (Hr0 & _). lia.
Qed.

Lemma rehash_wf_rehashing_dict : rehash_wf rehashing_dict.
Proof.
  unfold rehash_wf. simpl. split; [lia|]. split; [reflexivity|]. split; [lia|].
  split; [reflexivity|]. split; [lia|]. split; [lia|]. split; [lia|reflexivity].
Defined.

Lemma dictRehash_spec_witness :
  rehash_wf rehashing_dict /\ 0 < 1 /\ 1 * 10 <= INT_MAX
  /\ dictRehash rehashing_dict 1 = Ret (rehash_spec (Z.to_nat 1) (1 * 10) rehashing_dict).
Proof.
  assert (H1 : 0 < 1) by lia.
  assert (H2 : 1 * 10 <= INT_MAX) by (unfold INT_MAX; lia).
  split; [exact rehash_wf_rehashing_dict|]. split; [exact H1|]. split; [exact H2|].
  exact (dictRehash_spec rehashing_dict 1 rehash_wf_rehashing_dict H1 H2).
Defined.

(** One step on the example: the entry of bucket 0 goes to bucket 0 of
    [ht[1]], the cursor is 1 and more work is pending. Four steps end the
    rehash. *)
Example dictRehash_example :
  dictRehash rehashing_dict 1
  = Ret (1, mkDict id_type
              (mkHt 4096 [[]; [mkEntry 1 11]; [mkEntry 2 12]; [mkEntry 3 13]] 4 3 3)
              (mkHt 8192 [[mkEntry 0 10]; []; []; []; []; []; []; []] 8 7 1) 1 0)
  /\ dictRehash rehashing_dict 4
     = Ret (0, mkDict id_type
                 (mkHt 8192 [[mkEntry 0 10]; [mkEntry 1 11]; [mkEntry 2 12]; [mkEntry 3 13];
                             []; []; []; []] 8 7 4)
                 _dictReset (-1) 0).
Proof. split; vm_compute; reflexivity. Qed.

End DictFacts.

(** ** dict: what the operations keep *)

Module DictOps.
Import Dict DictFacts.

Lemma concat_insert_perm (l : list chain) (i : nat) (e : dictEntry) (c : chain) :
  l !! i = Some c -> Permutation (concat (<[i := e :: c]> l)) (e :: concat l).
Proof.
  intros H. pose proof (lookup_lt_Some _ _ _ H) as Hlt.
  rewrite insert_take_drop by exact Hlt.
  rewrite <- (take_drop_middle l i c H) at 3.
  rewrite !concat_app. cbn [concat app].
  symmetry. apply Permutation_middle.
Qed.

(** The entries that [dictRehash_move] moves arrive in [ht[1]]. *)
Lemma dictRehash_move_perm (de : chain) :
  forall d d', dictRehash_move de d = Ret d' ->
  Permutation (concat (slots (ht1 d'))) (de ++ concat (slots (ht1 d))).
Proof.
  induction de as [|e de IH]; intros d d' H; cbn [dictRehash_move] in H.
  - injection H as <-. reflexivity.
  - destruct (zlookup (slots (ht1 d)) _) as [c|] eqn:E; [|discriminate].
    apply IH in H. cbn [ht1 set_ht1 set_ht0 slots] in H. rewrite H.
    unfold zlookup in E. destruct (_ <? 0); [discriminate|].
    unfold zupdate. rewrite (concat_insert_perm _ _ e c E).
    cbn [app]. symmetry. apply Permutation_middle.
Qed.

Lemma migrated_perm (d : dict) (de : chain) :
  0 <= sizemask (ht1 d) -> sizemask (ht1 d) + 1 = Z.of_nat (length (slots (ht1 d))) ->
  Permutation (concat (migrated d de)) (de ++ concat (slots (ht1 d))).
Proof.
  intros Hm Hl. pose proof (dictRehash_move_spec de d Hm Hl) as H.
  apply dictRehash_move_perm in H. exact H.
Qed.

Lemma skip_empty (s : list chain) (k : nat) :
  forall r, (k <= leading_empty (drop r s))%nat ->
  concat (drop (r + k) s) = concat (drop r s).
Proof.
  induction k as [|k IH]; intros r H; [rewrite Nat.add_0_r; reflexivity|].
  destruct (drop r s) as [|[|x c] rest] eqn:E; cbn [leading_empty] in H; try lia.
  assert (Hd : drop (S r) s = rest).
  { replace (S r) with (r + 1)%nat by lia. rewrite <- drop_drop, E. reflexivity. }
  replace (r + S k)%nat with (S r + k)%nat by lia.
  rewrite IH by (rewrite Hd; lia). rewrite Hd. reflexivity.
Qed.

Lemma rehash_spec_result (n : nat) :
  forall budget d,
  (fst (rehash_spec n budget d) = 0
   /\ rehashidx (snd (rehash_spec n budget d)) = -1
   /\ ht1 (snd (rehash_spec n budget d)) = _dictReset)
  \/ fst (rehash_spec n budget d) = 1.
Proof.
  induction n as [|n IH]; intros budget d; cbn [rehash_spec].
  - destruct (used (ht0 d) =? 0); [left|right]; auto.
  - destruct (used (ht0 d) =? 0); [left; auto|].
    cbv zeta. destruct (_ <=? _); [right; reflexivity|]. apply IH.
Qed.

(** The rehash, as [rehash_spec] tells it, keeps the entries. *)
Lemma rehash_spec_perm (n : nat) :
  forall budget d, rehash_wf d -> 0 < budget ->
  Permutation (entries (snd (rehash_spec n budget d))) (entries d).
Proof.
  assert (Hdone : forall d, rehash_wf d -> used (ht0 d) = 0 ->
            Permutation (entries (rehash_complete d)) (entries d)).
  { intros d (_ & _ & _ & Hu & _) H0. unfold entries, rehash_complete.
    cbn [rehashidx ht0 ht1 slots _dictReset concat]. change (Z.to_nat (-1)) with 0%nat.
    rewrite drop_0, app_nil_r. rewrite H0 in Hu.
    destruct (concat (drop (Z.to_nat (rehashidx d)) (slots (ht0 d)))); [reflexivity|].
    simpl in Hu. lia. }
  induction n as [|n IH]; intros budget d Hwf Hb; cbn [rehash_spec].
  - destruct (Z.eqb_spec (used (ht0 d)) 0); [apply Hdone; assumption|reflexivity].
  - destruct (Z.eqb_spec (used (ht0 d)) 0) as [E|E]; [apply Hdone; assumption|].
    cbv zeta.
    set (gap := Z.of_nat (leading_empty (drop (Z.to_nat (rehashidx d)) (slots (ht0 d))))).
    pose proof Hwf as (Hr & _ & _ & _ & _ & _ & Hm & Hl).
    destruct (Z.leb_spec budget gap) as [Hle|Hgt].
    + cbn [snd]. unfold entries. cbn [rehashidx set_rehashidx ht0 ht1].
      replace (Z.to_nat (rehashidx d + budget))
        with (Z.to_nat (rehashidx d) + Z.to_nat budget)%nat by lia.
      rewrite skip_empty by (unfold gap in Hle; lia). reflexivity.
    + destruct (dictRehash_round 0 d 1 budget Hwf E Hb) as (de & Hlk & Hlt & Hwf' & _);
        [unfold INT_MAX; lia|].
      fold gap in Hlk, Hlt, Hwf'. rewrite Hlk. cbn [default].
      change (mkDict (type d) _ _ (rehashidx d + gap + 1) (iterators d))
        with (after_round d gap de).
      rewrite (IH _ _ Hwf') by lia.
      unfold entries, after_round. cbn [rehashidx ht0 ht1 slots].
      replace (Z.to_nat (rehashidx d + gap + 1)) with (S (Z.to_nat (rehashidx d + gap))) by lia.
      rewrite drop_insert_lt by lia.
      rewrite (migrated_perm d de Hm Hl).
      assert (Hsplit : concat (drop (Z.to_nat (rehashidx d)) (slots (ht0 d)))
                       = de ++ concat (drop (S (Z.to_nat (rehashidx d + gap))) (slots (ht0 d)))).
      { rewrite <- (skip_empty _ (Z.to_nat gap)) by (unfold gap; lia).
        replace (Z.to_nat (rehashidx d) + Z.to_nat gap)%nat
          with (Z.to_nat (rehashidx d + gap)) by (unfold gap; lia).
        rewrite (drop_S _ _ _ Hlk). reflexivity. }
      rewrite Hsplit. rewrite !app_assoc. apply Permutation_app_tail.
      apply Permutation_app_comm.
Qed.

(** X23. [dictRehash] loses no entry and makes none up: the entries of
    the two tables after the call are those before it, and when it returns
    0 they are all in [ht[0]], [ht[1]] is reset and the rehash is over. *)
Theorem dictRehash_keeps_entries (d : dict) (n : Z) :
  rehash_wf d -> 0 < n -> n * 10 <= INT_MAX ->
  exists r d',
    dictRehash d n = Ret (r, d')
    /\ Permutation (entries d') (entries d)
    /\ (r = 0 \/ r = 1)
    /\ (r = 0 -> rehashidx d' = -1 /\ ht1 d' = _dictReset
                 /\ Permutation (concat (slots (ht0 d'))) (entries d)).
Proof.
  intros Hwf Hn Hmax.
  assert (Hr : dictIsRehashing d = true).
  { destruct Hwf as (Hr & _). unfold dictIsRehashing.
    destruct (Z.eqb_spec (rehashidx d) (-1)); [lia|reflexivity]. }
  assert (Hrun : dictRehash d n = Ret (rehash_spec (Z.to_nat n) (n * 10) d)).
  { rewrite dictRehash_unfold by (try exact Hr; unfold INT_MIN, INT_MAX in *; lia).
    rewrite <- (Z2Nat.id n) at 1 by lia.
    apply dictRehash_loop_spec; [exact Hwf|lia|unfold INT_MAX in *; lia|].
    destruct Hwf as (Hr0 & _). lia. }
  pose proof (rehash_spec_perm (Z.to_nat n) (n * 10) d Hwf ltac:(lia)) as Hperm.
  pose proof (rehash_spec_result (Z.to_nat n) (n * 10) d) as Hres.
  destruct (rehash_spec (Z.to_nat n) (n * 10) d) as [r d'] eqn:E. cbn [fst snd] in *.
  exists r, d'. split; [exact Hrun|]. split; [exact Hperm|].
  destruct Hres as [(H0 & Hidx & Hht)|H1].
  - split; [left; exact H0|]. intros _. split; [exact Hidx|]. split; [exact Hht|].
    rewrite <- Hperm. unfold entries. rewrite Hidx, Hht.
    change (Z.to_nat (-1)) with 0%nat. rewrite drop_0. cbn [slots _dictReset concat].
    rewrite app_nil_r. reflexivity.
  - split; [right; exact H1|]. intros H0. lia.
Qed.

Lemma dictRehash_keeps_entries_witness :
  exists r d',
    dictRehash rehashing_dict 4 = Ret (r, d')
    /\ Permutation (entries d') (entries rehashing_dict)
    /\ (r = 0 \/ r = 1)
    /\ (r = 0 -> rehashidx d' = -1 /\ ht1 d' = _dictReset
                 /\ Permutation (concat (slots (ht0 d'))) (entries rehashing_dict)).
Proof.
  apply (dictRehash_keeps_entries rehashing_dict 4 rehash_wf_rehashing_dict).
  - lia.
  - vm_compute. discriminate.
Defined.

(** *** Insertion, lookup and deletion on a dict at rest *)

Lemma at_rest_idle (d : dict) : dict_at_rest d -> dictIsRehashing d = false.
Proof. intros (H & _). unfold dictIsRehashing. rewrite H. reflexivity. Qed.

Lemma dictHashKey_nonneg (d : dict) (k : Z) : 0 <= dictHashKey d k.
Proof. unfold dictHashKey. pose proof (wrap64_nonneg (hashFunction (type d) k)). lia. Qed.

Lemma home_range (d : dict) (k : Z) :
  dict_at_rest d -> size (ht0 d) <> 0 ->
  0 <= home d k < Z.of_nat (length (slots (ht0 d))).
Proof.
  intros (_ & _ & Hs & _ & Hm & _) Hne. destruct (Hm Hne) as (_ & Hm0 & Hm1).
  pose proof (land_mask_bound (dictHashKey d k) (sizemask (ht0 d))
                (dictHashKey_nonneg d k) Hm0).
  unfold home. lia.
Qed.

Lemma no_expansion (can_resize : bool) (newtab : Z) (d : dict) :
  dict_at_rest d -> size (ht0 d) <> 0 -> ~ expansion_due can_resize d ->
  _dictExpandIfNeeded can_resize newtab d = Ret (DICT_OK, d).
Proof.
  intros Hrest Hne Hdue. unfold _dictExpandIfNeeded.
  rewrite (at_rest_idle d Hrest). destruct (Z.eqb_spec (size (ht0 d)) 0); [contradiction|].
  destruct ((size (ht0 d) <=? used (ht0 d))
            && (can_resize || (dict_force_resize_ratio <? used (ht0 d) / size (ht0 d))))
    eqn:E; [|reflexivity].
  exfalso. apply Hdue. apply andb_true_iff in E. destruct E as (E1 & E2).
  split; [apply Z.leb_le; exact E1|]. apply orb_true_iff in E2.
  destruct E2 as [E2|E2]; [left; exact E2|right; apply Z.ltb_lt; exact E2].
Qed.

(** The insert of a key that is not there, without expansion: the entry
    is pushed at the head of the bucket of the key. *)
Lemma dictAdd_at_rest (can_resize : bool) (newtab : Z) (d : dict) (k v : Z) :
  dict_at_rest d -> size (ht0 d) <> 0 -> ~ expansion_due can_resize d -> absent d k ->
  exists c,
    slots (ht0 d) !! Z.to_nat (home d k) = Some c
    /\ dictAdd can_resize newtab d k v
       = Ret (DICT_OK,
              set_ht0 d (mkHt (table (ht0 d))
                              (<[Z.to_nat (home d k) := mkEntry (dictSetKey d k) v :: c]>
                                 (slots (ht0 d)))
                              (size (ht0 d)) (sizemask (ht0 d)) (used (ht0 d) + 1))).
Proof.
  intros Hrest Hne Hdue Habs.
  pose proof (home_range d k Hrest Hne) as Hh.
  pose proof (at_rest_idle d Hrest) as Hidle.
  pose proof Hrest as (_ & _ & _ & _ & _ & Hu & Hub).
  destruct (zlookup_Some (slots (ht0 d)) (home d k) Hh) as (c & Hc).
  pose proof (Habs c Hc) as Hnone.
  assert (Hc' : slots (ht0 d) !! Z.to_nat (home d k) = Some c).
  { unfold zlookup in Hc. destruct (home d k <? 0); [discriminate|exact Hc]. }
  exists c. split; [exact Hc'|].
  unfold dictAdd, dictAddRaw, _dictKeyIndex. rewrite Hidle. cbn [obind].
  rewrite no_expansion by assumption. cbn [obind fst snd].
  change (DICT_OK =? DICT_ERR) with false. cbv iota.
  fold (home d k). rewrite Hc, Hnone, Hidle. cbn [negb obind]. cbv beta iota.
  destruct (Z.eqb_spec (home d k) (-1)); [lia|].
  rewrite Hidle, Hc. cbv beta iota. cbn [obind]. cbv beta iota.
  unfold dictIsRehashing. cbn [rehashidx set_ht0].
  fold (dictIsRehashing d). rewrite Hidle. cbv iota.
  unfold set_head_val, dictHashKey. cbn [ht0 set_ht0 type sizemask slots].
  fold (dictHashKey d k). fold (home d k).
  assert (Hlk : zlookup (zupdate (slots (ht0 d)) (home d k) (mkEntry (dictSetKey d k) 0 :: c))
                        (home d k) = Some (mkEntry (dictSetKey d k) 0 :: c)).
  { unfold zlookup, zupdate. destruct (Z.ltb_spec (home d k) 0); [lia|].
    apply list_lookup_insert_eq. lia. }
  rewrite Hlk. cbn [key]. unfold set_slots, zupdate, set_ht0.
  cbn [table size sizemask used slots type ht0 ht1 rehashidx iterators].
  rewrite list_insert_insert_eq, wrap64_small by lia. reflexivity.
Qed.

(** The first insert into a dict whose table is not allocated yet
    expands it to [DICT_HT_INITIAL_SIZE] buckets. *)
Lemma first_expansion (can_resize : bool) (newtab : Z) (d : dict) :
  dict_at_rest d -> size (ht0 d) = 0 ->
  _dictExpandIfNeeded can_resize newtab d
  = Ret (DICT_OK, set_ht0 d (fresh_table newtab 4)).
Proof.
  intros Hrest H0. pose proof (at_rest_idle d Hrest) as Hidle.
  destruct Hrest as (_ & _ & Hs & Ht & _ & Hu & _).
  assert (Hsl : slots (ht0 d) = []).
  { destruct (slots (ht0 d)); [reflexivity|]. rewrite H0 in Hs. simpl in Hs. lia. }
  rewrite Hsl in Hu. cbn in Hu.
  unfold _dictExpandIfNeeded, dictExpand. rewrite Hidle, H0, Hu, (Ht H0). reflexivity.
Qed.

Lemma at_rest_first (newtab : Z) (d : dict) (k : Z) :
  dict_at_rest d -> size (ht0 d) = 0 -> newtab <> 0 ->
  let d1 := set_ht0 d (fresh_table newtab 4) in
  dict_at_rest d1 /\ size (ht0 d1) <> 0 /\ absent d1 k
  /\ (forall can_resize, ~ expansion_due can_resize d1)
  /\ used (ht0 d1) = 0.
Proof.
  intros (Hr & H1 & _) H0 Hnt d1. split; [|split; [|split; [|split]]].
  - unfold dict_at_rest, d1. cbn. repeat split; try assumption; try lia.
  - cbn. lia.
  - intros c Hc. unfold d1 in Hc. cbn [ht0 set_ht0 slots fresh_table] in Hc.
    unfold zlookup in Hc. destruct (_ <? 0); [discriminate|].
    change (Z.to_nat 4) with 4%nat in Hc.
    destruct (Z.to_nat (home (set_ht0 d (fresh_table newtab 4)) k)) as [|[|[|[|?]]]];
      cbn in Hc; try discriminate; injection Hc as <-; reflexivity.
  - intros can_resize (Hle & _). cbn in Hle. lia.
  - reflexivity.
Qed.

Lemma dictAdd_first_eq (can_resize : bool) (newtab : Z) (d : dict) (k v : Z) :
  dict_at_rest d -> size (ht0 d) = 0 -> newtab <> 0 ->
  dictAdd can_resize newtab d k v
  = dictAdd can_resize newtab (set_ht0 d (fresh_table newtab 4)) k v.
Proof.
  intros Hrest H0 Hnt.
  destruct (at_rest_first newtab d k Hrest H0 Hnt) as (Hrest1 & Hne1 & _ & Hdue1 & _).
  unfold dictAdd, dictAddRaw, _dictKeyIndex.
  rewrite (at_rest_idle d Hrest), (at_rest_idle _ Hrest1). cbn [obind].
  rewrite (first_expansion can_resize newtab d Hrest H0).
  rewrite (no_expansion can_resize newtab _ Hrest1 Hne1 (Hdue1 can_resize)).
  reflexivity.
Qed.

(** The lookup of a key after its insert. *)
Lemma dictFind_after_add (can_resize : bool) (newtab : Z) (d : dict) (k v : Z) :
  dict_at_rest d -> size (ht0 d) <> 0 -> ~ expansion_due can_resize d -> absent d k ->
  key_found_again d k -> 0 <= used (ht0 d) ->
  exists d',
    dictAdd can_resize newtab d k v = Ret (DICT_OK, d')
    /\ dictFind d' k = Ret (Some (mkEntry (dictSetKey d k) v), d')
    /\ used (ht0 d') = used (ht0 d) + 1
    /\ dictDelete d' k = Ret (DICT_OK, d).
Proof.
  intros Hrest Hne Hdue Habs Hkey Hu0.
  destruct (dictAdd_at_rest can_resize newtab d k v Hrest Hne Hdue Habs) as (c & Hc & Hadd).
  pose proof (home_range d k Hrest Hne) as Hh.
  pose proof (at_rest_idle d Hrest) as Hidle.
  pose proof Hrest as (Hidx & Hht1 & _ & _ & _ & Hu & Hub).
  eexists. split; [exact Hadd|].
  match goal with |- dictFind ?x _ = _ /\ _ => set (d' := x) end.
  assert (Hidle' : dictIsRehashing d' = false) by exact Hidle.
  assert (Hlk : zlookup (slots (ht0 d')) (home d k)
                = Some (mkEntry (dictSetKey d k) v :: c)).
  { unfold d'. cbn [ht0 set_ht0 slots]. unfold zlookup.
    destruct (Z.ltb_spec (home d k) 0); [lia|]. apply list_lookup_insert_eq. lia. }
  split; [|split; [reflexivity|]].
  - unfold dictFind. rewrite Hidle'. cbn [obind].
    change (used (ht0 d')) with (used (ht0 d) + 1).
    change (used (ht1 d')) with (used (ht1 d)). rewrite Hht1. cbn [used _dictReset].
    rewrite wrap64_small by lia.
    destruct (Z.eqb_spec (used (ht0 d) + 1 + 0) 0); [lia|].
    change (Z.land (dictHashKey d' k) (sizemask (ht0 d'))) with (home d k).
    rewrite Hlk. cbn [chain_find key].
    change (dictCompareKeys d' k (dictSetKey d k)) with (dictCompareKeys d k (dictSetKey d k)).
    unfold key_found_again in Hkey. rewrite Hkey. reflexivity.
  - unfold dictDelete, dictGenericDelete. rewrite Hidle'. cbn [obind].
    change (used (ht0 d')) with (used (ht0 d) + 1).
    destruct (Z.eqb_spec (used (ht0 d) + 1) 0); [lia|]. cbn [andb].
    change (Z.land (dictHashKey d' k) (sizemask (ht0 d'))) with (home d k).
    rewrite Hlk. cbn [chain_unlink key].
    change (dictCompareKeys d' k (dictSetKey d k)) with (dictCompareKeys d k (dictSetKey d k)).
    unfold key_found_again in Hkey. rewrite Hkey. cbn [fst snd].
    f_equal. f_equal. unfold d', set_ht0, zupdate.
    cbn [type ht0 ht1 rehashidx iterators table slots size sizemask].
    rewrite list_insert_insert_eq, list_insert_id by exact Hc.
    replace (used (ht0 d) + 1 - 1) with (used (ht0 d)) by lia.
    rewrite wrap64_small by lia.
    destruct d as [ty [t0 s0 z0 m0 u0] h1 r i]. reflexivity.
Qed.

(** X24. What [dictAdd] stores, [dictFind] finds: on a dict at rest, the
    insert of a key that is not there succeeds when it starts no rehash,
    and the lookup of the key then returns the entry with the value. *)
Theorem dictFind_dictAdd (can_resize : bool) (newtab : Z) (d : dict) (k v : Z) :
  dict_at_rest d -> newtab <> 0 ->
  size (ht0 d) = 0 \/ ~ expansion_due can_resize d ->
  absent d k -> key_found_again d k ->
  exists d',
    dictAdd can_resize newtab d k v = Ret (DICT_OK, d')
    /\ dictFind d' k = Ret (Some (mkEntry (dictSetKey d k) v), d')
    /\ used (ht0 d') = used (ht0 d) + 1.
Proof.
  intros Hrest Hnt Hcase Habs Hkey.
  pose proof Hrest as (_ & _ & _ & _ & _ & Hu & _).
  destruct (Z.eq_dec (size (ht0 d)) 0) as [H0|Hne].
  - destruct (at_rest_first newtab d k Hrest H0 Hnt) as (Hrest1 & Hne1 & Habs1 & Hdue1 & Hu1).
    cbv zeta in *.
    destruct (dictFind_after_add can_resize newtab _ k v Hrest1 Hne1 (Hdue1 can_resize)
                Habs1 Hkey ltac:(lia)) as (d' & Hadd & Hfind & Hused & _).
    exists d'. rewrite dictAdd_first_eq by assumption.
    split; [exact Hadd|]. split; [exact Hfind|].
    rewrite Hused, Hu1.
    destruct Hrest as (_ & _ & Hs & _). 
    destruct (slots (ht0 d)) eqn:E; [cbn in Hu; lia|rewrite H0 in Hs; simpl in Hs; lia].
  - destruct Hcase as [H0|Hdue]; [contradiction|].
    destruct (dictFind_after_add can_resize newtab d k v Hrest Hne Hdue Habs Hkey ltac:(lia))
      as (d' & Hadd & Hfind & Hused & _).
    exists d'. auto.
Qed.

Lemma at_rest_create : dict_at_rest (dictCreate id_type).
Proof.
  unfold dict_at_rest. cbn. repeat split; try reflexivity; contradiction.
Defined.

Lemma at_rest_small_dict : dict_at_rest small_dict.
Proof.
  unfold dict_at_rest. cbn. repeat split; try reflexivity; try discriminate.
Defined.

Lemma dictFind_dictAdd_witness :
  exists d',
    dictAdd true 4096 (dictCreate id_type) 7 70 = Ret (DICT_OK, d')
    /\ dictFind d' 7 = Ret (Some (mkEntry (dictSetKey (dictCreate id_type) 7) 70), d')
    /\ used (ht0 d') = used (ht0 (dictCreate id_type)) + 1.
Proof.
  apply (dictFind_dictAdd true 4096 (dictCreate id_type) 7 70 at_rest_create).
  - discriminate.
  - left. reflexivity.
  - intros c Hc. discriminate.
  - reflexivity.
Defined.

(** X25. On a dict at rest that has its bucket array, with no expansion
    due, the insert of a key that is not there is undone by [dictDelete]:
    the dict is again what it was before the insert. *)
Theorem dictDelete_dictAdd (can_resize : bool) (newtab : Z) (d : dict) (k v : Z) :
  dict_at_rest d -> size (ht0 d) <> 0 -> ~ expansion_due can_resize d ->
  absent d k -> key_found_again d k ->
  exists d',
    dictAdd can_resize newtab d k v = Ret (DICT_OK, d')
    /\ dictDelete d' k = Ret (DICT_OK, d).
Proof.
  intros Hrest Hne Hdue Habs Hkey.
  pose proof Hrest as (_ & _ & _ & _ & _ & Hu & _).
  destruct (dictFind_after_add can_resize newtab d k v Hrest Hne Hdue Habs Hkey ltac:(lia))
    as (d' & Hadd & _ & _ & Hdel).
  exists d'. auto.
Qed.

Lemma dictDelete_dictAdd_witness :
  exists d',
    dictAdd true 8192 small_dict 4 14 = Ret (DICT_OK, d')
    /\ dictDelete d' 4 = Ret (DICT_OK, small_dict).
Proof.
  apply (dictDelete_dictAdd true 8192 small_dict 4 14 at_rest_small_dict).
  - discriminate.
  - intros (H & _). cbn in H. lia.
  - intros c Hc. vm_compute in Hc. injection Hc as <-. reflexivity.
  - reflexivity.
Defined.






(** *** Safe iterators *)

Lemma dictNext_loop_safe (fuel : nat) :
  forall it d e it' d', safe it = true ->
  (entry it = None /\ index it = -1) \/ 0 <= index it ->
  dictNext_loop fuel it d = Ret (e, it', d') ->
  d' = (if match entry it with
           | None => (index it =? -1) && (itable it =? 0)
           | Some _ => false
           end
        then set_iterators d (wrap64 (iterators d + 1)) else d)
  /\ safe it' = true /\ 0 <= index it'.
Proof.
  induction fuel as [|fuel IH]; intros it d e it' d' Hs HP H; [discriminate|].
  assert (Hend : forall it1 c d0, 0 <= index it1 -> safe it1 = true ->
            match entry (iter_set_entry it1 c) with
            | Some e => Ret (Some e, iter_set_entry it1 c, d0)
            | None => dictNext_loop fuel (iter_set_entry it1 c) d0
            end = Ret (e, it', d') ->
            d' = d0 /\ safe it' = true /\ 0 <= index it').
  { intros it1 c d0 Hi1 Hs1 H1.
    destruct (iter_set_entry_fields it1 c) as (F1 & F2 & F3 & F4).
    destruct (entry (iter_set_entry it1 c)) eqn:He1.
    - injection H1 as <- <- <-. rewrite F1, F3. auto.
    - apply IH in H1; [|congruence|right; lia].
      rewrite He1, F1 in H1. destruct (Z.eqb_spec (index it1) (-1)); [lia|]. exact H1. }
  cbn [dictNext_loop] in H. destruct (entry it) as [e0|] eqn:He.
  - destruct HP as [[? _]|Hi]; [discriminate|].
    destruct (pointed_chain d (nextEntry it)) as [c| | |]; try discriminate.
    cbn [obind] in H.
    match type of H with context [iter_set_entry ?a ?b] =>
      apply (Hend a b d); [simpl; lia|exact Hs|exact H] end.
  - assert (Hi : -1 <= index it) by (destruct HP as [[_ ->]|]; lia).
    destruct (negb _); [discriminate|]. rewrite Hs in H.
    rewrite andb_false_r, andb_true_r in H.
    set (d1 := if (index it =? -1) && (itable it =? 0)
               then set_iterators d (wrap64 (iterators d + 1)) else d) in *.
    destruct (swrap64 _ <=? index it + 1).
    + destruct (dictIsRehashing d1 && (itable it =? 0)).
      * destruct (zlookup (slots (ht1 d1)) 0) as [c|]; [|discriminate].
        match type of H with context [iter_set_entry ?a ?b] =>
          apply (Hend a b d1); [simpl; lia|reflexivity|exact H] end.
      * injection H as <- <- <-. simpl. split; [reflexivity|]. split; [reflexivity|lia].
    + destruct (zlookup _ (index it + 1)) as [c|]; [|discriminate].
      match type of H with context [iter_set_entry ?a ?b] =>
        apply (Hend a b d1); [simpl; lia|reflexivity|exact H] end.
Qed.

(** X27. A safe iterator pauses the rehash from its first [dictNext] to
    its release: the first [dictNext] counts the iterator in
    [d->iterators], the rehash step of the dict functions then does nothing,
    and [dictReleaseIterator] gives back the dict as it was. *)
Theorem safe_iterator_pauses_rehash (d : dict) (garbage : Z) :
  iter_wf d -> 0 <= iterators d < 2^64 - 1 ->
  exists e it,
    let d1 := set_iterators d (iterators d + 1) in
    dictNext (dictGetSafeIterator garbage) d = Ret (e, it, d1)
    /\ _dictRehashStep d1 = Ret d1
    /\ (forall k r d2, dictFind d1 k = Ret (r, d2) -> d2 = d1)
    /\ dictReleaseIterator it d1 = Ret d.
Proof.
  intros Hwf Hit.
  destruct (dictNext_loop_total (4 + length (slots (ht0 d)) + length (slots (ht1 d)))
              (dictGetSafeIterator garbage) d) as [[[e it] d'] H]; auto.
  - simpl. lia.
  - unfold dictNext_measure. simpl. lia.
  - fold (dictNext (dictGetSafeIterator garbage) d) in H.
    pose proof H as H'. apply dictNext_loop_safe in H';
      [|reflexivity|left; split; reflexivity].
    cbn [entry index itable dictGetSafeIterator Z.eqb andb] in H'.
    destruct H' as (-> & Hs & Hi). rewrite wrap64_small in H by lia.
    exists e, it. cbv zeta. split; [exact H|].
    assert (Hne : iterators (set_iterators d (iterators d + 1)) <> 0) by (cbn; lia).
    split; [apply _dictRehashStep_idle; exact Hne|].
    split; [intros k r d2 Hf; apply (dictFind_iterators _ _ _ _ Hne Hf)|].
    unfold dictReleaseIterator.
    destruct (Z.eqb_spec (index it) (-1)); [lia|]. cbn [andb negb]. rewrite Hs.
    cbn [iterators set_iterators]. replace (iterators d + 1 - 1) with (iterators d) by lia.
    rewrite wrap64_small by lia. destruct d. reflexivity.
Qed.

Lemma safe_iterator_pauses_rehash_witness :
  exists e it,
    let d1 := set_iterators rehashing_dict (iterators rehashing_dict + 1) in
    dictNext (dictGetSafeIterator 0) rehashing_dict = Ret (e, it, d1)
    /\ _dictRehashStep d1 = Ret d1
    /\ (forall k r d2, dictFind d1 k = Ret (r, d2) -> d2 = d1)
    /\ dictReleaseIterator it d1 = Ret rehashing_dict.
Proof.
  apply (safe_iterator_pauses_rehash rehashing_dict 0).
  - unfold iter_wf. cbn. repeat split; try reflexivity. discriminate.
  - cbn. lia.
Defined.

(** The entries of a chain may be deleted while a safe iterator walks it.
    [dictNext] reads [entry->next] when it is called: a later entry of the
    chain that has been deleted meanwhile is not returned, ... *)
Example safe_iterator_deleted_later :
  let it1 := mkIter 0 0 true (Some (mkEntry 0 10)) (Some (mkEntry 4 14)) 0 in
  let it2 := mkIter 0 0 true (Some (mkEntry 4 14)) None 0 in
  let d1 := set_iterators chained_dict 1 in
  let d2 := mkDict id_type (mkHt 4096 [[mkEntry 0 10; mkEntry 4 14]; []; []; []] 4 3 2)
                   _dictReset (-1) 1 in
  dictNext (dictGetSafeIterator 0) chained_dict = Ret (Some (mkEntry 0 10), it1, d1)
  /\ dictDelete d1 8 = Ret (DICT_OK, d2)
  /\ dictNext it1 d2 = Ret (Some (mkEntry 4 14), it2, d2)
  /\ dictNext it2 d2 = Ret (None, mkIter 4 0 true None None 0, d2).
Proof. vm_compute. repeat split; reflexivity. Qed.

(** ... the entry that was returned may be deleted, which is what
    [nextEntry] is kept for, ... *)
Example safe_iterator_deleted_current :
  let it1 := mkIter 0 0 true (Some (mkEntry 0 10)) (Some (mkEntry 4 14)) 0 in
  let d1 := set_iterators chained_dict 1 in
  let d2 := mkDict id_type (mkHt 4096 [[mkEntry 4 14; mkEntry 8 18]; []; []; []] 4 3 2)
                   _dictReset (-1) 1 in
  dictDelete d1 0 = Ret (DICT_OK, d2)
  /\ dictNext it1 d2
     = Ret (Some (mkEntry 4 14),
            mkIter 0 0 true (Some (mkEntry 4 14)) (Some (mkEntry 8 18)) 0, d2).
Proof. vm_compute. repeat split; reflexivity. Qed.

(** ... and deleting the entry [nextEntry] points to leaves the iterator
    with a pointer to freed memory. *)
Example safe_iterator_deleted_next :
  let it1 := mkIter 0 0 true (Some (mkEntry 0 10)) (Some (mkEntry 4 14)) 0 in
  let d1 := set_iterators chained_dict 1 in
  let d2 := mkDict id_type (mkHt 4096 [[mkEntry 0 10; mkEntry 8 18]; []; []; []] 4 3 2)
                   _dictReset (-1) 1 in
  dictDelete d1 4 = Ret (DICT_OK, d2) /\ dictNext it1 d2 = UB.
Proof. vm_compute. repeat split; reflexivity. Qed.

(** X28. While a rehash is in progress and paused by a safe iterator,
    [dictAdd] of a key that is in neither table puts the entry at the head
    of its bucket of [ht[1]]; [ht[0]] and the rehash cursor stay as they
    are. *)
Theorem dictAdd_while_rehashing (can_resize : bool) (newtab : Z) (d : dict) (k v : Z)
    (c0 : chain) :
  rehash_wf d -> iterators d <> 0 ->
  zlookup (slots (ht0 d)) (home d k) = Some c0 -> chain_find d k c0 = None ->
  (forall c1, zlookup (slots (ht1 d)) (Z.land (dictHashKey d k) (sizemask (ht1 d))) = Some c1 ->
              chain_find d k c1 = None) ->
  used (ht1 d) + 1 < 2^64 ->
  exists c1 d',
    zlookup (slots (ht1 d)) (Z.land (dictHashKey d k) (sizemask (ht1 d))) = Some c1
    /\ dictAdd can_resize newtab d k v = Ret (DICT_OK, d')
    /\ ht0 d' = ht0 d /\ rehashidx d' = rehashidx d
    /\ slots (ht1 d')
       = <[Z.to_nat (Z.land (dictHashKey d k) (sizemask (ht1 d)))
           := mkEntry (dictSetKey d k) v :: c1]> (slots (ht1 d))
    /\ used (ht1 d') = used (ht1 d) + 1.
Proof.
  intros Hwf Hit Hc0 Hn0 Habs1 Hub.
  pose proof Hwf as (Hr & _ & _ & _ & _ & Hu1 & Hm & Hl).
  assert (Hre : dictIsRehashing d = true).
  { unfold dictIsRehashing. destruct (Z.eqb_spec (rehashidx d) (-1)); [lia|reflexivity]. }
  set (h1 := Z.land (dictHashKey d k) (sizemask (ht1 d))) in *.
  pose proof (land_mask_bound (dictHashKey d k) (sizemask (ht1 d))
                (dictHashKey_nonneg d k) Hm) as Hh1. fold h1 in Hh1.
  destruct (zlookup_Some (slots (ht1 d)) h1 ltac:(lia)) as (c1 & Hc1).
  pose proof (Habs1 c1 Hc1) as Hn1.
  exists c1. eexists. split; [exact Hc1|].
  assert (Hadd : dictAdd can_resize newtab d k v
                 = Ret (DICT_OK,
                        set_ht1 d (mkHt (table (ht1 d))
                                        (<[Z.to_nat h1 := mkEntry (dictSetKey d k) v :: c1]>
                                           (slots (ht1 d)))
                                        (size (ht1 d)) (sizemask (ht1 d))
                                        (used (ht1 d) + 1)))).
  { unfold dictAdd, dictAddRaw, _dictKeyIndex, _dictExpandIfNeeded.
    rewrite Hre, (_dictRehashStep_idle d Hit). cbn [obind]. rewrite Hre. cbn [obind fst snd].
    change (DICT_OK =? DICT_ERR) with false. cbv iota.
    fold (home d k). rewrite Hc0, Hn0, Hre. cbn [negb]. cbv iota. fold h1.
    rewrite Hc1, Hn1. cbn [obind]. cbv beta iota.
    destruct (Z.eqb_spec h1 (-1)); [lia|]. rewrite Hre, Hc1. cbn [obind]. cbv beta iota.
    unfold dictIsRehashing. cbn [rehashidx set_ht1]. fold (dictIsRehashing d). rewrite Hre.
    cbv iota. unfold set_head_val, dictHashKey. cbn [ht1 set_ht1 type sizemask slots].
    fold (dictHashKey d k). fold h1.
    assert (Hlk : zlookup (zupdate (slots (ht1 d)) h1 (mkEntry (dictSetKey d k) 0 :: c1)) h1
                  = Some (mkEntry (dictSetKey d k) 0 :: c1)).
    { unfold zlookup, zupdate. destruct (Z.ltb_spec h1 0); [lia|].
      apply list_lookup_insert_eq. lia. }
    rewrite Hlk. cbn [key]. unfold set_slots, zupdate, set_ht1.
    cbn [table size sizemask used slots type ht0 ht1 rehashidx iterators].
    rewrite list_insert_insert_eq, wrap64_small by lia. reflexivity. }
  split; [exact Hadd|]. cbn [ht0 ht1 set_ht1 rehashidx slots used]. auto.
Qed.

Lemma dictAdd_while_rehashing_witness :
  exists c1 d',
    zlookup (slots (ht1 (set_iterators rehashing_dict 1)))
            (Z.land (dictHashKey (set_iterators rehashing_dict 1) 9)
                    (sizemask (ht1 (set_iterators rehashing_dict 1)))) = Some c1
    /\ dictAdd true 12288 (set_iterators rehashing_dict 1) 9 19 = Ret (DICT_OK, d')
    /\ ht0 d' = ht0 (set_iterators rehashing_dict 1)
    /\ rehashidx d' = rehashidx (set_iterators rehashing_dict 1)
    /\ slots (ht1 d')
       = <[Z.to_nat (Z.land (dictHashKey (set_iterators rehashing_dict 1) 9)
                            (sizemask (ht1 (set_iterators rehashing_dict 1))))
           := mkEntry (dictSetKey (set_iterators rehashing_dict 1) 9) 19 :: c1]>
           (slots (ht1 (set_iterators rehashing_dict 1)))
    /\ used (ht1 d') = used (ht1 (set_iterators rehashing_dict 1)) + 1.
Proof.
  apply (dictAdd_while_rehashing true 12288 (set_iterators rehashing_dict 1) 9 19
           [mkEntry 1 11]).
  - exact rehash_wf_rehashing_dict.
  - discriminate.
  - reflexivity.
  - reflexivity.
  - intros c1 Hc1. vm_compute in Hc1. injection Hc1 as <-. reflexivity.
  - vm_compute. reflexivity.
Defined.

End DictOps.

(** ** sds *)

Module SdsFacts.
Import Sds.

Lemma shiftl3_fields (n : Z) :
  0 <= n < 32 ->
  wrap8 (Z.lor SDS_TYPE_5 (Z.shiftl n SDS_TYPE_BITS)) = n * 8
  /\ Z.land (n * 8) SDS_TYPE_MASK = 0
  /\ Z.shiftr (n * 8) SDS_TYPE_BITS = n.
Proof.
  intros H. unfold SDS_TYPE_5, SDS_TYPE_BITS, SDS_TYPE_MASK, wrap8.
  rewrite Z.lor_0_l, Z.shiftl_mul_pow2 by lia. change (2^3) with 8.
  split; [apply Z.mod_small; lia|]. split.
  - change 7 with (Z.ones 3). rewrite Z.land_ones by lia. change (2^3) with 8.
    apply Z.mod_mul. lia.
  - rewrite Z.shiftr_div_pow2 by lia. change (2^3) with 8. apply Z.div_mul. lia.
Qed.

Lemma hdr_fields (ty l a : Z) (b : list Z) :
  wide_type ty ->
  sdstype (mkSds ty l a b) = ty /\ sdslen (mkSds ty l a b) = l
  /\ sdsalloc (mkSds ty l a b) = a /\ sdsavail (mkSds ty l a b) = wrap64 (a - l).
Proof. intros [->|[->|[->| ->]]]; repeat split. Qed.

Lemma field_bits_cases (ty : Z) :
  wide_type ty ->
  (ty = SDS_TYPE_8 /\ field_bits ty = 8) \/ (ty = SDS_TYPE_16 /\ field_bits ty = 16)
  \/ (ty = SDS_TYPE_32 /\ field_bits ty = 32) \/ (ty = SDS_TYPE_64 /\ field_bits ty = 64).
Proof. intros [->|[->|[->| ->]]]; auto 10. Qed.

Ltac type_tests :=
  repeat match goal with
         | |- context [?a =? ?b] =>
             let v := eval vm_compute in (a =? b) in
             match v with
             | true => change (a =? b) with true
             | false => change (a =? b) with false
             end
         end;
  cbv iota.

Ltac wide_done :=
  match goal with
  | |- sdstype (mkSds ?ty ?l ?a ?b) = _ /\ _ =>
      let H := fresh in
      assert (H : wide_type ty) by (unfold wide_type; auto);
      destruct (hdr_fields ty l a b H) as (-> & -> & -> & _);
      change (field_bits ty) with (ltac:(let v := eval vm_compute in (field_bits ty) in exact v));
      rewrite Z.mod_small by lia; auto
  end.

Lemma sdsnewlen_ok (fresh : nat -> Z) (bytes : list Z) :
  let initlen := Z.of_nat (length bytes) in
  initlen + 18 < 2^64 ->
  exists s, sdsnewlen fresh true (InitBuf bytes) initlen = Ret (Some s)
    /\ sdstype s = (if initlen =? 0 then SDS_TYPE_8
                     else if initlen <? 32 then SDS_TYPE_5 else room_type initlen)
    /\ sdslen s = initlen /\ sdsalloc s = initlen
    /\ buf s = bytes ++ [0].
Proof.
  intros initlen Hb.
  assert (H0 : 0 <= initlen) by (unfold initlen; lia).
  assert (Hpay : (if initlen =? 0 then Ret []
                  else if Z.of_nat (length bytes) <? initlen then UB
                       else Ret (firstn (Z.to_nat initlen) bytes)) = Ret bytes).
  { destruct (Z.eqb_spec initlen 0) as [E|E].
    - destruct bytes; [reflexivity|]. unfold initlen in E. simpl in E. lia.
    - fold initlen. rewrite Z.ltb_irrefl. unfold initlen. rewrite Nat2Z.id.
      rewrite firstn_all. reflexivity. }
  unfold sdsnewlen, sdsReqType, room_type.
  change (2^8) with 256.
  change (Z.shiftl 1 5) with 32. change (Z.shiftl 1 8) with 256.
  change (Z.shiftl 1 16) with (2^16). change (Z.shiftl 1 32) with (2^32).
  cbn [negb]. cbv iota.
  destruct (Z.eqb_spec initlen 0) as [E0|E0].
  - rewrite E0 in *. simpl. destruct bytes; [|unfold initlen in E0; simpl in E0; lia].
    eexists. split; [reflexivity|]. repeat split.
  - rewrite andb_false_r.
    destruct (Z.ltb_spec initlen 32).
    + destruct (shiftl3_fields initlen) as (F1 & F2 & F3); [lia|].
      change (SDS_TYPE_5 =? SDS_TYPE_5) with true. cbv iota.
      change (sdsHdrSize SDS_TYPE_5) with 1.
      rewrite wrap64_small by lia. rewrite Z.ltb_irrefl.
      destruct (Z.eqb_spec initlen 0); [contradiction|].
      rewrite Hpay. cbn [obind flags len alloc]. eexists. split; [reflexivity|].
      unfold sdstype, sdslen, sdsalloc, sdstype, SDS_TYPE_5_LEN. cbn [flags buf].
      rewrite F1, F2. change (0 =? SDS_TYPE_5) with true. cbv iota. rewrite F3. auto.
    + destruct (Z.ltb_spec initlen 256).
      * change (sdsHdrSize SDS_TYPE_8) with 3.
        rewrite wrap64_small by lia. rewrite Z.ltb_irrefl.
        rewrite Hpay. type_tests. cbn [obind flags len alloc]. eexists.
              split; [reflexivity|]. wide_done.
      * destruct (Z.ltb_spec initlen (2^16)).
        -- change (sdsHdrSize SDS_TYPE_16) with 5.
           rewrite wrap64_small by lia. rewrite Z.ltb_irrefl.
           rewrite Hpay. type_tests. cbn [obind flags len alloc]. eexists.
              split; [reflexivity|]. wide_done.
        -- destruct (Z.ltb_spec initlen (2^32)).
           ++ change (sdsHdrSize SDS_TYPE_32) with 9.
              rewrite wrap64_small by lia. rewrite Z.ltb_irrefl.
              rewrite Hpay. type_tests. cbn [obind flags len alloc]. eexists.
              split; [reflexivity|]. wide_done.
           ++ change (sdsHdrSize SDS_TYPE_64) with 17.
              rewrite wrap64_small by lia. rewrite Z.ltb_irrefl.
              rewrite Hpay. type_tests. cbn [obind flags len alloc]. eexists.
              split; [reflexivity|]. wide_done.
Qed.

(** C6. [sdsnewlen] on a sequence of [len] bytes (one that fits the
    address space together with its header, and for which memory is found)
    creates a string of the smallest header type that holds [len]: type 5
    below 32, type 8 below 256, type 16 below 2^16, type 32 below 2^32,
    else type 64; but type 8, not type 5, when [len = 0]. Its length and
    its capacity are [len], its payload is the sequence and the byte at
    [payload[len]] is 0. *)
Theorem sdsnewlen_spec (fresh : nat -> Z) (bytes : list Z) :
  Z.of_nat (length bytes) + 18 < 2^64 ->
  exists s,
    sdsnewlen fresh true (InitBuf bytes) (Z.of_nat (length bytes)) = Ret (Some s)
    /\ (Z.of_nat (length bytes) = 0 -> sdstype s = SDS_TYPE_8)
    /\ (0 < Z.of_nat (length bytes) < 32 -> sdstype s = SDS_TYPE_5)
    /\ (32 <= Z.of_nat (length bytes) < 2^8 -> sdstype s = SDS_TYPE_8)
    /\ (2^8 <= Z.of_nat (length bytes) < 2^16 -> sdstype s = SDS_TYPE_16)
    /\ (2^16 <= Z.of_nat (length bytes) < 2^32 -> sdstype s = SDS_TYPE_32)
    /\ (2^32 <= Z.of_nat (length bytes) -> sdstype s = SDS_TYPE_64)
    /\ sdslen s = Z.of_nat (length bytes)
    /\ sdsalloc s = Z.of_nat (length bytes)
    /\ firstn (length bytes) (buf s) = bytes
    /\ zlookup (buf s) (Z.of_nat (length bytes)) = Some 0.
Proof.
  intros Hb. destruct (sdsnewlen_ok fresh bytes Hb) as (s & Hs & Ht & Hl & Ha & Hbuf).
  exists s. split; [exact Hs|]. unfold room_type in Ht.
  split; [intros E; rewrite Ht, E; reflexivity|].
  assert (Hcase : forall P : Prop, Z.of_nat (length bytes) <> 0 ->
            ((if Z.of_nat (length bytes) =? 0 then SDS_TYPE_8
              else if Z.of_nat (length bytes) <? 32 then SDS_TYPE_5
                   else if Z.of_nat (length bytes) <? 2^8 then SDS_TYPE_8
                        else if Z.of_nat (length bytes) <? 2^16 then SDS_TYPE_16
                             else if Z.of_nat (length bytes) <? 2^32 then SDS_TYPE_32
                                  else SDS_TYPE_64)
             = (if Z.of_nat (length bytes) <? 32 then SDS_TYPE_5
                   else if Z.of_nat (length bytes) <? 2^8 then SDS_TYPE_8
                        else if Z.of_nat (length bytes) <? 2^16 then SDS_TYPE_16
                             else if Z.of_nat (length bytes) <? 2^32 then SDS_TYPE_32
                                  else SDS_TYPE_64))).
  { intros _ Hne. destruct (Z.eqb_spec (Z.of_nat (length bytes)) 0); [contradiction|reflexivity]. }
  split; [intros H; rewrite Ht, (Hcase True) by lia;
          destruct (Z.ltb_spec (Z.of_nat (length bytes)) 32); [reflexivity|lia]|].
  split; [intros H; rewrite Ht, (Hcase True) by lia;
          destruct (Z.ltb_spec (Z.of_nat (length bytes)) 32); [lia|];
          destruct (Z.ltb_spec (Z.of_nat (length bytes)) (2^8)); [reflexivity|lia]|].
  split; [intros H; rewrite Ht, (Hcase True) by lia;
          destruct (Z.ltb_spec (Z.of_nat (length bytes)) 32); [lia|];
          destruct (Z.ltb_spec (Z.of_nat (length bytes)) (2^8)); [lia|];
          destruct (Z.ltb_spec (Z.of_nat (length bytes)) (2^16)); [reflexivity|lia]|].
  split; [intros H; rewrite Ht, (Hcase True) by lia;
          destruct (Z.ltb_spec (Z.of_nat (length bytes)) 32); [lia|];
          destruct (Z.ltb_spec (Z.of_nat (length bytes)) (2^8)); [lia|];
          destruct (Z.ltb_spec (Z.of_nat (length bytes)) (2^16)); [lia|];
          destruct (Z.ltb_spec (Z.of_nat (length bytes)) (2^32)); [reflexivity|lia]|].
  split; [intros H; rewrite Ht, (Hcase True) by lia;
          destruct (Z.ltb_spec (Z.of_nat (length bytes)) 32); [lia|];
          destruct (Z.ltb_spec (Z.of_nat (length bytes)) (2^8)); [lia|];
          destruct (Z.ltb_spec (Z.of_nat (length bytes)) (2^16)); [lia|];
          destruct (Z.ltb_spec (Z.of_nat (length bytes)) (2^32)); [lia|reflexivity]|].
  split; [exact Hl|]. split; [exact Ha|]. rewrite Hbuf. split.
  - rewrite firstn_app, firstn_all, Nat.sub_diag. simpl. apply app_nil_r.
  - unfold zlookup. destruct (Z.ltb_spec (Z.of_nat (length bytes)) 0); [lia|].
    rewrite Nat2Z.id. apply list_lookup_middle. reflexivity.
Qed.

Lemma sdsnewlen_spec_witness :
  Z.of_nat (length [104; 105]) + 18 < 2^64
  /\ exists s,
    sdsnewlen (fun _ => 0) true (InitBuf [104; 105]) (Z.of_nat (length [104; 105]))
    = Ret (Some s)
    /\ (Z.of_nat (length [104; 105]) = 0 -> sdstype s = SDS_TYPE_8)
    /\ (0 < Z.of_nat (length [104; 105]) < 32 -> sdstype s = SDS_TYPE_5)
    /\ (32 <= Z.of_nat (length [104; 105]) < 2^8 -> sdstype s = SDS_TYPE_8)
    /\ (2^8 <= Z.of_nat (length [104; 105]) < 2^16 -> sdstype s = SDS_TYPE_16)
    /\ (2^16 <= Z.of_nat (length [104; 105]) < 2^32 -> sdstype s = SDS_TYPE_32)
    /\ (2^32 <= Z.of_nat (length [104; 105]) -> sdstype s = SDS_TYPE_64)
    /\ sdslen s = Z.of_nat (length [104; 105])
    /\ sdsalloc s = Z.of_nat (length [104; 105])
    /\ firstn (length [104; 105]) (buf s) = [104; 105]
    /\ zlookup (buf s) (Z.of_nat (length [104; 105])) = Some 0.
Proof.
  assert (H : Z.of_nat (length [104; 105]) + 18 < 2^64) by (simpl; lia).
  split; [exact H|]. exact (sdsnewlen_spec (fun _ => 0) [104; 105] H).
Defined.



Lemma wide_not_5 (ty : Z) : wide_type ty -> (ty =? SDS_TYPE_5) = false.
Proof. intros [->|[->|[->| ->]]]; reflexivity. Qed.

Lemma wide_test (ty : Z) :
  wide_type ty ->
  (ty =? SDS_TYPE_8) || (ty =? SDS_TYPE_16) || (ty =? SDS_TYPE_32) || (ty =? SDS_TYPE_64) = true.
Proof. intros [->|[->|[->| ->]]]; reflexivity. Qed.

Lemma sdslen_wide (s : sds) : wide_type (sdstype s) -> sdslen s = len s.
Proof. intros H. unfold sdslen. rewrite wide_not_5, wide_test; auto. Qed.

Lemma sdsalloc_wide (s : sds) : wide_type (sdstype s) -> sdsalloc s = alloc s.
Proof. intros H. unfold sdsalloc. rewrite wide_not_5, wide_test; auto. Qed.

Lemma sdsavail_wide (s : sds) :
  wide_type (sdstype s) -> sdsavail s = wrap64 (alloc s - len s).
Proof. intros H. unfold sdsavail. rewrite wide_not_5, wide_test; auto. Qed.

Lemma sdssetalloc_wide (s : sds) (n : Z) :
  wide_type (sdstype s) ->
  sdssetalloc s n = mkSds (flags s) (len s) (n mod 2 ^ field_bits (sdstype s)) (buf s).
Proof. intros H. unfold sdssetalloc. rewrite wide_not_5, wide_test; auto. Qed.

Lemma sdssetlen_wide (s : sds) (n : Z) :
  wide_type (sdstype s) ->
  sdssetlen s n = mkSds (flags s) (n mod 2 ^ field_bits (sdstype s)) (alloc s) (buf s).
Proof. intros H. unfold sdssetlen. rewrite wide_not_5, wide_test; auto. Qed.

Lemma field_bits_range (ty : Z) : wide_type ty -> 8 <= field_bits ty <= 64.
Proof. intros [->|[->|[->| ->]]]; vm_compute; split; discriminate. Qed.

(** The length of a well-formed string, and what is left of its capacity. *)
Lemma sds_wf_len (s : sds) :
  sds_wf s -> 0 <= sdslen s /\ sdslen s + sdsavail s = sdsalloc s
              /\ 0 <= sdsavail s /\ sdsalloc s < 2^64.
Proof.
  intros (Hf & [H5|(Hw & Hl & Ha)] & _).
  - unfold sdslen, sdsavail, sdsalloc. rewrite H5. change (SDS_TYPE_5 =? SDS_TYPE_5) with true.
    cbv iota. unfold SDS_TYPE_5_LEN, SDS_TYPE_BITS. rewrite Z.shiftr_div_pow2 by lia.
    change (2^3) with 8.
    assert (0 <= flags s / 8 < 32) by (split; [apply Z.div_pos; lia|apply Z.div_lt_upper_bound; lia]).
    lia.
  - rewrite sdslen_wide, sdsavail_wide, sdsalloc_wide by exact Hw.
    pose proof (field_bits_range _ Hw) as Hb.
    assert (2 ^ field_bits (sdstype s) <= 2^64) by (apply Z.pow_le_mono_r; lia).
    rewrite wrap64_small by lia. lia.
Qed.

(** [sdsReqType] with type 5 replaced by type 8 is [room_type]: a type with
    fields that hold the value. *)
Lemma room_type_spec (n : Z) :
  0 <= n < 2^64 ->
  (if sdsReqType n =? SDS_TYPE_5 then SDS_TYPE_8 else sdsReqType n) = room_type n
  /\ wide_type (room_type n) /\ n < 2 ^ field_bits (room_type n).
Proof.
  intros H. unfold sdsReqType, room_type, wide_type.
  change (Z.shiftl 1 5) with 32. change (Z.shiftl 1 8) with (2^8).
  change (Z.shiftl 1 16) with (2^16). change (Z.shiftl 1 32) with (2^32).
  destruct (Z.ltb_spec n 32).
  - destruct (Z.ltb_spec n (2^8)); [|lia]. split; [reflexivity|]. split; [auto|].
    change (field_bits SDS_TYPE_8) with 8. lia.
  - destruct (Z.ltb_spec n (2^8)).
    + split; [reflexivity|]. split; [auto|]. change (field_bits SDS_TYPE_8) with 8. lia.
    + destruct (Z.ltb_spec n (2^16)).
      * split; [reflexivity|]. split; [auto|]. change (field_bits SDS_TYPE_16) with 16. lia.
      * destruct (Z.ltb_spec n (2^32)).
        -- split; [reflexivity|]. split; [auto|]. change (field_bits SDS_TYPE_32) with 32. lia.
        -- split; [reflexivity|]. split; [auto 10|]. change (field_bits SDS_TYPE_64) with 64. lia.
Qed.

Lemma sdsHdrSize_room (n : Z) : 3 <= sdsHdrSize (room_type n) <= 17.
Proof.
  unfold room_type.
  destruct (n <? 2^8); [vm_compute; split; discriminate|].
  destruct (n <? 2^16); [vm_compute; split; discriminate|].
  destruct (n <? 2^32); vm_compute; split; discriminate.
Qed.

Lemma sdsMakeRoomFor_grows (fresh : nat -> Z) (s : sds) (addlen : Z) :
  sds_wf s -> 0 <= addlen -> sdslen s + addlen + SDS_MAX_PREALLOC + 18 < 2^64 ->
  sdsavail s < addlen ->
  exists s',
    sdsMakeRoomFor fresh true s addlen = Ret (Some s')
    /\ sdsalloc s' = grown (sdslen s + addlen)
    /\ sdslen s' = sdslen s
    /\ sdstype s' = room_type (grown (sdslen s + addlen)).
Proof.
  intros Hwf Ha Hov Hav.
  destruct (sds_wf_len s Hwf) as (Hl0 & Hsum & Hav0 & Hal).
  destruct Hwf as (Hf & Hty & Hbuf).
  unfold sdsMakeRoomFor. destruct (Z.leb_spec addlen (sdsavail s)); [lia|].
  unfold SDS_MAX_PREALLOC in *.
  rewrite (wrap64_small (sdslen s + addlen)) by lia.
  set (target := sdslen s + addlen) in *.
  assert (Hg : (if target <? 1024 * 1024 then wrap64 (target * 2)
                else wrap64 (target + 1024 * 1024)) = grown target).
  { unfold grown, SDS_MAX_PREALLOC.
    destruct (Z.ltb_spec target (1024 * 1024)); rewrite wrap64_small; lia. }
  rewrite Hg.
  assert (Hgr : target <= grown target /\ grown target + 18 < 2^64).
  { unfold grown, SDS_MAX_PREALLOC. destruct (Z.ltb_spec target (1024 * 1024)); lia. }
  destruct (room_type_spec (grown target)) as (Hrt & Hw & Hfit); [lia|].
  rewrite Hrt. pose proof (sdsHdrSize_room (grown target)) as Hh.
  rewrite (wrap64_small (sdsHdrSize (room_type (grown target)) + grown target + 1)) by lia.
  cbn [negb]. cbv iota.
  destruct (Z.eqb_spec (sdstype s) (room_type (grown target))) as [E|E].
  - destruct (Z.ltb_spec (sdsHdrSize (room_type (grown target)) + grown target + 1)
                         (sdsHdrSize (room_type (grown target)))); [lia|].
    eexists. split; [reflexivity|].
    match goal with |- context [sdssetalloc ?x _] => set (s0 := x) end.
    assert (Ht0 : sdstype s0 = room_type (grown target)) by (rewrite <- E; reflexivity).
    assert (Hw0 : wide_type (sdstype s0)) by (rewrite Ht0; exact Hw).
    rewrite (sdssetalloc_wide s0 _ Hw0).
    assert (Hw1 : wide_type (sdstype s)) by (rewrite E; exact Hw).
    rewrite (sdslen_wide s Hw1).
    match goal with |- sdsalloc ?x = _ /\ _ => set (s1 := x) end.
    assert (Ht1 : sdstype s1 = room_type (grown target)) by exact Ht0.
    assert (Hw2 : wide_type (sdstype s1)) by (rewrite Ht1; exact Hw).
    rewrite (sdsalloc_wide s1 Hw2), (sdslen_wide s1 Hw2).
    split; [|split; [reflexivity|exact Ht1]].
    unfold s1. cbn [alloc]. rewrite Ht0, Z.mod_small by lia. reflexivity.
  - assert (Hlen : (Z.of_nat (length (buf s)) <? sdslen s + 1) = false)
      by (apply Z.ltb_ge; lia).
    rewrite Hlen. cbn [orb].
    destruct (Z.ltb_spec (sdsHdrSize (room_type (grown target)) + grown target + 1
                          - sdsHdrSize (room_type (grown target))) (sdslen s + 1)); [lia|].
    eexists. split; [reflexivity|].
    match goal with |- context [sdssetlen ?x _] => set (s0 := x) end.
    assert (Ht0 : sdstype s0 = room_type (grown target)).
    { unfold sdstype, s0. cbn [flags]. destruct Hw as [->|[->|[->| ->]]]; reflexivity. }
    assert (Hw0 : wide_type (sdstype s0)) by (rewrite Ht0; exact Hw).
    rewrite (sdssetlen_wide s0 _ Hw0).
    match goal with |- context [sdssetalloc ?x _] => set (s1 := x) end.
    assert (Ht1 : sdstype s1 = room_type (grown target)) by exact Ht0.
    assert (Hw1 : wide_type (sdstype s1)) by (rewrite Ht1; exact Hw).
    rewrite (sdssetalloc_wide s1 _ Hw1).
    match goal with |- sdsalloc ?x = _ /\ _ => set (s2 := x) end.
    assert (Ht2 : sdstype s2 = room_type (grown target)) by exact Ht0.
    assert (Hw2 : wide_type (sdstype s2)) by (rewrite Ht2; exact Hw).
    rewrite (sdsalloc_wide s2 Hw2), (sdslen_wide s2 Hw2).
    split; [|split; [|exact Ht2]].
    + unfold s2. cbn [alloc]. rewrite Ht1, Z.mod_small by lia. reflexivity.
    + unfold s2, s1. cbn [len]. rewrite Ht0, Z.mod_small by lia. reflexivity.
Qed.

(** The growth policy of [sdsMakeRoomFor] where its sizes do not wrap.
    [sdsMakeRoomFor(s, addlen)] on a well-formed string returns [s]
    as it is when [sdsavail(s) >= addlen]. Otherwise, with
    [target = sdslen(s) + addlen] (the sizes being such that the new
    allocation, header and terminator included, fits [size_t], and memory
    being found), it returns a string of the same length whose capacity is
    [2 * target] when [target < SDS_MAX_PREALLOC] (1 MiB) and
    [target + SDS_MAX_PREALLOC] otherwise, with the smallest header type
    that holds this capacity, type 8 standing in for type 5. *)
Theorem sdsMakeRoomFor_spec (fresh : nat -> Z) (s : sds) (addlen : Z) :
  sds_wf s -> 0 <= addlen ->
  (addlen <= sdsavail s -> sdsMakeRoomFor fresh true s addlen = Ret (Some s))
  /\ (sdsavail s < addlen ->
      sdslen s + addlen + SDS_MAX_PREALLOC + 18 < 2^64 ->
      exists s',
        sdsMakeRoomFor fresh true s addlen = Ret (Some s')
        /\ sdsalloc s' = (if sdslen s + addlen <? SDS_MAX_PREALLOC
                          then 2 * (sdslen s + addlen)
                          else sdslen s + addlen + SDS_MAX_PREALLOC)
        /\ sdslen s' = sdslen s
        /\ sdstype s' <> SDS_TYPE_5
        /\ sdstype s' = (if sdsalloc s' <? 2^8 then SDS_TYPE_8
                         else if sdsalloc s' <? 2^16 then SDS_TYPE_16
                         else if sdsalloc s' <? 2^32 then SDS_TYPE_32
                         else SDS_TYPE_64)).
Proof.
  intros Hwf Ha. split.
  - intros H. unfold sdsMakeRoomFor.
    destruct (Z.leb_spec addlen (sdsavail s)); [reflexivity|lia].
  - intros Hav Hov.
    destruct (sdsMakeRoomFor_grows fresh s addlen Hwf Ha Hov Hav)
      as (s' & Hs & Hal & Hl & Ht).
    exists s'. split; [exact Hs|]. split; [exact Hal|]. split; [exact Hl|].
    rewrite Hal. fold (grown (sdslen s + addlen)). split; [|exact Ht].
    rewrite Ht. unfold room_type.
    destruct (_ <? 2^8); [discriminate|].
    destruct (_ <? 2^16); [discriminate|].
    destruct (_ <? 2^32); discriminate.
Qed.

Lemma sds_wf_hi : sds_wf sds_hi.
Proof.
  unfold sds_wf. simpl. split; [lia|]. split; [left; reflexivity|reflexivity].
Defined.

Lemma sdsMakeRoomFor_spec_witness :
  sds_wf sds_hi /\ 0 <= 3
  /\ (3 <= sdsavail sds_hi -> sdsMakeRoomFor (fun _ => 0) true sds_hi 3 = Ret (Some sds_hi))
  /\ (sdsavail sds_hi < 3 ->
      sdslen sds_hi + 3 + SDS_MAX_PREALLOC + 18 < 2^64 ->
      exists s',
        sdsMakeRoomFor (fun _ => 0) true sds_hi 3 = Ret (Some s')
        /\ sdsalloc s' = (if sdslen sds_hi + 3 <? SDS_MAX_PREALLOC
                          then 2 * (sdslen sds_hi + 3)
                          else sdslen sds_hi + 3 + SDS_MAX_PREALLOC)
        /\ sdslen s' = sdslen sds_hi
        /\ sdstype s' <> SDS_TYPE_5
        /\ sdstype s' = (if sdsalloc s' <? 2^8 then SDS_TYPE_8
                         else if sdsalloc s' <? 2^16 then SDS_TYPE_16
                         else if sdsalloc s' <? 2^32 then SDS_TYPE_32
                         else SDS_TYPE_64)).
Proof.
  assert (H : 0 <= 3) by lia.
  split; [exact sds_wf_hi|]. split; [exact H|].
  exact (sdsMakeRoomFor_spec (fun _ => 0) sds_hi 3 sds_wf_hi H).
Defined.

(** The example at work: "hi" (type 5, no room) grows to a type 8 string
    of capacity 10 with the same payload. *)
Example sdsMakeRoomFor_example :
  sdsMakeRoomFor (fun _ => 0) true sds_hi 3
  = Ret (Some (mkSds 1 2 10 [104; 105; 0; 0; 0; 0; 0; 0; 0; 0; 0])).
Proof. vm_compute. reflexivity. Qed.

Lemma sds_wf_hello : sds_wf sds_hello.
Proof.
  unfold sds_wf. simpl. split; [lia|]. split; [|reflexivity].
  right. split; [left; reflexivity|]. vm_compute. repeat split; congruence.
Defined.

(** C5. [sdsMakeRoomFor] adds [addlen] to the length without a check, and
    the sum wraps in [size_t]. For the type 8 string "hello" with 5 bytes
    free and [addlen = 2^64 - 5], more than is free, the target
    [sdslen + addlen] is 2^64 and the code takes 0 for it: it keeps the
    type 8 header, has the allocation resized to the header and one byte,
    and returns the string, of length 5 still, with a capacity of 0, where
    the capacity was to be the target and 1 MiB more and [addlen] bytes
    were to be free after the string. *)
Theorem sdsMakeRoomFor_wraps :
  sds_wf sds_hello /\ sdsavail sds_hello < 2^64 - 5 < 2^64
  /\ wrap64 (sdslen sds_hello + (2^64 - 5)) = 0
  /\ sdsMakeRoomFor (fun _ => 0) true sds_hello (2^64 - 5)
     = Ret (Some (mkSds 1 5 0 [104]))
  /\ sdslen (mkSds 1 5 0 [104]) = 5 /\ sdsalloc (mkSds 1 5 0 [104]) = 0
  /\ ~ sds_wf (mkSds 1 5 0 [104]).
Proof.
  split; [exact sds_wf_hello|].
  split; [vm_compute; split; reflexivity|].
  split; [reflexivity|]. split; [vm_compute; reflexivity|].
  split; [reflexivity|]. split; [reflexivity|].
  intros (_ & [H|(_ & H & _)] & _); vm_compute in H; [discriminate|].
  destruct H as [_ H]. apply H. reflexivity.
Qed.

(** *** sdssplitlen *)








(** "a,b" split at "," gives "a" and "b". *)
Example sdssplitlen_example :
  sdssplitlen (fun _ => 0) [] [97; 44; 98] 3 [44] 1 7
  = Ret (Some [mkSds 8 0 0 [97; 0]; mkSds 8 0 0 [98; 0]], 2).
Proof. vm_compute. reflexivity. Qed.

End SdsFacts.

(** ** sds: growing, appending, cutting, comparing *)

Module SdsOps.
Import Sds SdsFacts.

Lemma regrow_spec (fresh : nat -> Z) (b : list Z) (keep n : nat) :
  (keep <= length b)%nat -> (keep <= n)%nat ->
  length (regrow fresh b keep n) = n
  /\ firstn keep (regrow fresh b keep n) = firstn keep b.
Proof.
  intros Hk Hn. unfold regrow, fresh_bytes.
  rewrite take_take. replace (Nat.min keep n) with keep by lia.
  replace (Nat.min keep (Nat.min n (length b))) with keep by lia.
  split.
  - rewrite length_app, length_take, length_map, length_seq. lia.
  - rewrite take_app_length'; [reflexivity|]. rewrite length_take. lia.
Qed.

Lemma take_take_le {A : Type} (l l' : list A) (n m : nat) :
  (n <= m)%nat -> firstn m l = firstn m l' -> firstn n l = firstn n l'.
Proof.
  intros H E. rewrite <- (Nat.min_l n m H), <- !take_take, E. reflexivity.
Qed.

(** The string [sdsMakeRoomFor] returns when it must grow. *)
Lemma sdsMakeRoomFor_grows_buf (fresh : nat -> Z) (s : sds) (addlen : Z) :
  sds_wf s -> 0 <= addlen -> sdslen s + addlen + SDS_MAX_PREALLOC + 18 < 2^64 ->
  sdsavail s < addlen ->
  exists fl b',
    sdsMakeRoomFor fresh true s addlen
    = Ret (Some (mkSds fl (sdslen s) (grown (sdslen s + addlen)) b'))
    /\ 0 <= fl < 256
    /\ Z.land fl SDS_TYPE_MASK = room_type (grown (sdslen s + addlen))
    /\ Z.of_nat (length b') = grown (sdslen s + addlen) + 1
    /\ firstn (Z.to_nat (sdslen s + 1)) b' = firstn (Z.to_nat (sdslen s + 1)) (buf s).
Proof.
  intros Hwf Ha Hov Hav.
  destruct (sds_wf_len s Hwf) as (Hl0 & Hsum & Hav0 & Hal).
  destruct Hwf as (Hf & Hty & Hbuf).
  unfold sdsMakeRoomFor. destruct (Z.leb_spec addlen (sdsavail s)); [lia|].
  unfold SDS_MAX_PREALLOC in *.
  rewrite (wrap64_small (sdslen s + addlen)) by lia.
  set (target := sdslen s + addlen) in *.
  assert (Hg : (if target <? 1024 * 1024 then wrap64 (target * 2)
                else wrap64 (target + 1024 * 1024)) = grown target).
  { unfold grown, SDS_MAX_PREALLOC.
    destruct (Z.ltb_spec target (1024 * 1024)); rewrite wrap64_small; lia. }
  rewrite Hg.
  assert (Hgr : target <= grown target /\ grown target + 18 < 2^64).
  { unfold grown, SDS_MAX_PREALLOC. destruct (Z.ltb_spec target (1024 * 1024)); lia. }
  destruct (room_type_spec (grown target)) as (Hrt & Hw & Hfit); [lia|].
  rewrite Hrt. pose proof (sdsHdrSize_room (grown target)) as Hh.
  rewrite (wrap64_small (sdsHdrSize (room_type (grown target)) + grown target + 1)) by lia.
  cbn [negb]. cbv iota.
  replace (sdsHdrSize (room_type (grown target)) + grown target + 1
           - sdsHdrSize (room_type (grown target))) with (grown target + 1) by lia.
  destruct (Z.eqb_spec (sdstype s) (room_type (grown target))) as [E|E].
  - destruct (Z.ltb_spec (sdsHdrSize (room_type (grown target)) + grown target + 1)
                         (sdsHdrSize (room_type (grown target)))); [lia|].
    assert (Hw1 : wide_type (sdstype s)) by (rewrite E; exact Hw).
    rewrite sdssetalloc_wide by exact Hw1. cbn [flags len buf].
    change (sdstype (mkSds (flags s) (len s) (alloc s) _)) with (sdstype s).
    rewrite E, Z.mod_small by lia. rewrite <- (sdslen_wide s Hw1).
    destruct (regrow_spec fresh (buf s) (length (buf s)) (Z.to_nat (grown target + 1)))
      as (Hlen & Hkeep); [lia|lia|].
    eexists. eexists. split; [reflexivity|]. split; [exact Hf|]. split; [exact E|].
    split; [rewrite Hlen; lia|].
    apply (take_take_le _ _ _ (length (buf s))); [lia|exact Hkeep].
  - assert (Hlen : (Z.of_nat (length (buf s)) <? sdslen s + 1) = false)
      by (apply Z.ltb_ge; lia).
    rewrite Hlen. cbn [orb].
    destruct (Z.ltb_spec (grown target + 1) (sdslen s + 1)); [lia|].
    match goal with |- context [sdssetlen ?x _] => set (s0 := x) end.
    assert (Ht0 : sdstype s0 = room_type (grown target)).
    { unfold sdstype, s0. cbn [flags]. destruct Hw as [->|[->|[->| ->]]]; reflexivity. }
    assert (Hw0 : wide_type (sdstype s0)) by (rewrite Ht0; exact Hw).
    rewrite (sdssetlen_wide s0 _ Hw0).
    match goal with |- context [sdssetalloc ?x _] => set (s1 := x) end.
    assert (Ht1 : sdstype s1 = room_type (grown target)) by exact Ht0.
    assert (Hw1 : wide_type (sdstype s1)) by (rewrite Ht1; exact Hw).
    rewrite (sdssetalloc_wide s1 _ Hw1).
    rewrite Ht1. unfold s1. cbn [flags len alloc buf]. rewrite Ht0.
    unfold s0. cbn [flags len alloc buf]. rewrite !Z.mod_small by lia.
    destruct (regrow_spec fresh (buf s) (Z.to_nat (sdslen s + 1)) (Z.to_nat (grown target + 1)))
      as (Hlen' & Hkeep); [lia|lia|].
    eexists. eexists. split; [reflexivity|].
    split; [destruct Hw as [->|[->|[->| ->]]]; vm_compute; split; congruence|].
    split; [exact Ht0|]. split; [rewrite Hlen'; lia|exact Hkeep].
Qed.

Lemma wf_wide (s : sds) :
  sds_wf s -> sdstype s <> SDS_TYPE_5 ->
  wide_type (sdstype s) /\ 0 <= len s <= alloc s /\ alloc s < 2 ^ field_bits (sdstype s)
  /\ Z.of_nat (length (buf s)) = alloc s + 1.
Proof.
  intros (_ & [H5|(Hw & Hl & Ha)] & Hb) Hn; [contradiction|].
  rewrite sdsalloc_wide in Hb by exact Hw. auto.
Qed.

Lemma avail_type5 (s : sds) : sdstype s = SDS_TYPE_5 -> sdsavail s = 0.
Proof. intros H. unfold sdsavail. rewrite H. reflexivity. Qed.

(** What [sdsMakeRoomFor] returns, in both cases. *)
Lemma sdsMakeRoomFor_room (fresh : nat -> Z) (s : sds) (addlen : Z) :
  sds_wf s -> 0 <= addlen -> sdslen s + addlen + SDS_MAX_PREALLOC + 18 < 2^64 ->
  exists s',
    sdsMakeRoomFor fresh true s addlen = Ret (Some s')
    /\ sds_wf s' /\ sdslen s' = sdslen s /\ addlen <= sdsavail s'
    /\ firstn (Z.to_nat (sdslen s + 1)) (buf s') = firstn (Z.to_nat (sdslen s + 1)) (buf s)
    /\ (0 < addlen -> wide_type (sdstype s')).
Proof.
  intros Hwf Ha Hov. destruct (Z.leb_spec addlen (sdsavail s)) as [Hfit|Hgrow].
  - exists s. unfold sdsMakeRoomFor.
    destruct (Z.leb_spec addlen (sdsavail s)); [|lia].
    split; [reflexivity|]. split; [exact Hwf|]. split; [reflexivity|].
    split; [exact Hfit|]. split; [reflexivity|].
    intros Hpos. apply wf_wide; [exact Hwf|]. intros H5. rewrite avail_type5 in Hfit by exact H5.
    lia.
  - destruct (sdsMakeRoomFor_grows_buf fresh s addlen Hwf Ha Hov Hgrow)
      as (fl & b' & Hs & Hfl & Hty & Hlen & Hkeep).
    destruct (sds_wf_len s Hwf) as (Hl0 & Hsum & Hav0 & Hal).
    set (target := sdslen s + addlen) in *.
    assert (Hgr : target <= grown target /\ grown target + 18 < 2^64).
    { unfold grown, SDS_MAX_PREALLOC in *. destruct (Z.ltb_spec target (1024 * 1024)); lia. }
    destruct (room_type_spec (grown target)) as (_ & Hw & Hbits); [lia|].
    set (s' := mkSds fl (sdslen s) (grown target) b') in *.
    assert (Ht : sdstype s' = room_type (grown target)) by exact Hty.
    assert (Hw' : wide_type (sdstype s')) by (rewrite Ht; exact Hw).
    exists s'. split; [exact Hs|].
    rewrite (sdslen_wide s' Hw'), (sdsavail_wide s' Hw'). unfold s' at 2 3 4 5 6.
    cbn [len alloc buf]. rewrite wrap64_small by lia.
    split.
    { split; [exact Hfl|]. split.
      - right. split; [exact Hw'|]. rewrite Ht. unfold s'. cbn [len alloc]. lia.
      - rewrite (sdsalloc_wide s' Hw'). exact Hlen. }
    split; [reflexivity|]. split; [unfold target in *; lia|]. split; [exact Hkeep|].
    intros _. exact Hw'.
Qed.

(** X14. Where the sizes do not wrap ([sdslen + addlen] and 1 MiB, the
    header and the terminator fit [size_t]) and memory is found,
    [sdsMakeRoomFor] on a well-formed string does what its comment promises:
    the string it returns is well formed and has the same length and the
    same content, terminator included, and at least [addlen] bytes are free
    after it. *)
Theorem sdsMakeRoomFor_keeps (fresh : nat -> Z) (s : sds) (addlen : Z) :
  sds_wf s -> 0 <= addlen -> sdslen s + addlen + SDS_MAX_PREALLOC + 18 < 2^64 ->
  exists s',
    sdsMakeRoomFor fresh true s addlen = Ret (Some s')
    /\ sds_wf s' /\ sdslen s' = sdslen s /\ addlen <= sdsavail s'
    /\ firstn (Z.to_nat (sdslen s + 1)) (buf s') = firstn (Z.to_nat (sdslen s + 1)) (buf s).
Proof.
  intros Hwf Ha Hov.
  destruct (sdsMakeRoomFor_room fresh s addlen Hwf Ha Hov) as (s' & H1 & H2 & H3 & H4 & H5 & _).
  exists s'. auto.
Qed.

Lemma sdsMakeRoomFor_keeps_witness :
  exists s',
    sdsMakeRoomFor (fun _ => 0) true sds_hi 3 = Ret (Some s')
    /\ sds_wf s' /\ sdslen s' = sdslen sds_hi /\ 3 <= sdsavail s'
    /\ firstn (Z.to_nat (sdslen sds_hi + 1)) (buf s')
       = firstn (Z.to_nat (sdslen sds_hi + 1)) (buf sds_hi).
Proof.
  apply (sdsMakeRoomFor_keeps (fun _ => 0) sds_hi 3 sds_wf_hi).
  - lia.
  - vm_compute. reflexivity.
Defined.

Lemma store_ok (b : list Z) (off : Z) (bs : list Z) :
  0 <= off -> off + Z.of_nat (length bs) <= Z.of_nat (length b) ->
  store b off bs
  = Ret (firstn (Z.to_nat off) b ++ bs ++ skipn (Z.to_nat off + length bs) b)
  /\ length (firstn (Z.to_nat off) b ++ bs ++ skipn (Z.to_nat off + length bs) b) = length b.
Proof.
  intros H0 H1. unfold store.
  destruct (Z.ltb_spec off 0); [lia|].
  destruct (Z.ltb_spec (Z.of_nat (length b)) (off + Z.of_nat (length bs))); [lia|].
  split; [reflexivity|]. rewrite !length_app, length_take, length_drop. lia.
Qed.

Lemma sdssetlen_type5_same (s : sds) :
  sds_wf s -> sdstype s = SDS_TYPE_5 -> sdssetlen s (sdslen s) = s.
Proof.
  intros (Hf & _ & _) H5. unfold sdssetlen, sdslen. rewrite H5.
  change (SDS_TYPE_5 =? SDS_TYPE_5) with true. cbv iota.
  unfold SDS_TYPE_5_LEN, SDS_TYPE_5, SDS_TYPE_BITS, wrap8 in *.
  rewrite Z.lor_0_l, Z.shiftr_div_pow2, Z.shiftl_mul_pow2 by lia. change (2^3) with 8.
  unfold sdstype, SDS_TYPE_MASK in H5. change 7 with (Z.ones 3) in H5.
  rewrite Z.land_ones in H5 by lia. change (2^3) with 8 in H5.
  assert (E : flags s / 8 * 8 = flags s) by (pose proof (Z.div_mod (flags s) 8); lia).
  rewrite E, Z.mod_small by lia. destruct s; reflexivity.
Qed.

(** Setting the length of a well-formed string within its capacity. *)
Lemma sdssetlen_wf (s : sds) (n : Z) :
  sds_wf s -> 0 <= n <= sdsalloc s -> (sdstype s = SDS_TYPE_5 -> n = sdslen s) ->
  sds_wf (sdssetlen s n) /\ sdslen (sdssetlen s n) = n
  /\ sdsalloc (sdssetlen s n) = sdsalloc s /\ buf (sdssetlen s n) = buf s
  /\ sdstype (sdssetlen s n) = sdstype s.
Proof.
  intros Hwf Hn H5. destruct (Z.eq_dec (sdstype s) SDS_TYPE_5) as [E|E].
  - rewrite (H5 E), sdssetlen_type5_same by assumption. auto.
  - destruct (wf_wide s Hwf E) as (Hw & Hl & Ha & Hb).
    rewrite sdsalloc_wide in Hn by exact Hw.
    rewrite sdssetlen_wide by exact Hw.
    set (s' := mkSds (flags s) (n mod 2 ^ field_bits (sdstype s)) (alloc s) (buf s)).
    assert (Ht : sdstype s' = sdstype s) by reflexivity.
    assert (Hw' : wide_type (sdstype s')) by (rewrite Ht; exact Hw).
    rewrite (sdslen_wide s' Hw'), (sdsalloc_wide s' Hw'), (sdsalloc_wide s Hw).
    unfold s'. cbn [len alloc buf flags]. rewrite Z.mod_small by lia.
    split; [|auto].
    destruct Hwf as (Hf & _ & _). split; [exact Hf|]. split.
    + right. split; [exact Hw|]. cbn [len alloc].
      change (sdstype (mkSds (flags s) n (alloc s) (buf s))) with (sdstype s). lia.
    + rewrite sdsalloc_wide by exact Hw. exact Hb.
Qed.

Lemma with_buf_wf (s : sds) (b : list Z) :
  sds_wf s -> length b = length (buf s) ->
  sds_wf (with_buf s b) /\ sdslen (with_buf s b) = sdslen s
  /\ sdsalloc (with_buf s b) = sdsalloc s /\ sdstype (with_buf s b) = sdstype s
  /\ sdsavail (with_buf s b) = sdsavail s.
Proof.
  intros (Hf & Hty & Hb) Hl. split; [|repeat split].
  split; [exact Hf|]. split; [exact Hty|]. cbn [buf with_buf]. rewrite Hl. exact Hb.
Qed.

(** The string [sdscatlen] returns. *)
Lemma sdscatlen_ok (fresh : nat -> Z) (s : sds) (t : list Z) :
  sds_wf s ->
  sdslen s + Z.of_nat (length t) + SDS_MAX_PREALLOC + 18 < 2^64 ->
  exists s',
    sdscatlen fresh true s t (Z.of_nat (length t)) = Ret (Some s')
    /\ sds_wf s'
    /\ sdslen s' = sdslen s + Z.of_nat (length t)
    /\ payload s' = payload s ++ t
    /\ zlookup (buf s') (sdslen s') = Some 0.
Proof.
  intros Hwf Hov. set (n := Z.of_nat (length t)) in *.
  assert (Hn : 0 <= n) by (unfold n; lia).
  destruct (sdsMakeRoomFor_room fresh s n Hwf Hn Hov)
    as (s1 & Hs1 & Hwf1 & Hl1 & Hav1 & Hkeep & Hwide).
  destruct (sds_wf_len s Hwf) as (Hl0 & _).
  destruct (sds_wf_len s1 Hwf1) as (_ & Hsum1 & _ & Hal1).
  pose proof Hwf1 as (_ & _ & Hb1).
  unfold sdscatlen. rewrite Hs1. cbn [obind]. fold n.
  rewrite Z.ltb_irrefl. unfold n at 1. rewrite Nat2Z.id, firstn_all.
  destruct (store_ok (buf s1) (sdslen s) t) as (Hst & Hlen); [lia|fold n; lia|].
  rewrite Hst. cbn [obind]. rewrite wrap64_small by (unfold SDS_MAX_PREALLOC in *; lia).
  set (b1 := firstn (Z.to_nat (sdslen s)) (buf s1) ++ t
             ++ skipn (Z.to_nat (sdslen s) + length t) (buf s1)) in *.
  destruct (with_buf_wf s1 b1 Hwf1 Hlen) as (Hwf2 & Hl2 & Ha2 & Ht2 & _).
  destruct (sdssetlen_wf (with_buf s1 b1) (sdslen s + n) Hwf2) as (Hwf3 & Hl3 & Ha3 & Hb3 & Ht3).
  { rewrite Ha2. lia. }
  { intros H5. rewrite Ht2 in H5. rewrite Hl2, Hl1.
    destruct (Z.eq_dec n 0) as [->|Hne]; [lia|].
    destruct (Hwide ltac:(lia)) as [H|[H|[H|H]]]; rewrite H in H5; discriminate. }
  set (s3 := sdssetlen (with_buf s1 b1) (sdslen s + n)) in *.
  cbn [with_buf buf] in Hb3.
  destruct (store_ok (buf s3) (sdslen s + n) [0]) as (Hst2 & Hlen2);
    [lia|rewrite Hb3, Hlen; cbn [length]; lia|].
  rewrite Hst2. cbn [obind]. eexists. split; [reflexivity|].
  match goal with |- sds_wf (with_buf s3 ?b) /\ _ => set (b4 := b) in * end.
  destruct (with_buf_wf s3 b4 Hwf3 Hlen2) as (Hwf4 & Hl4 & _).
  split; [exact Hwf4|]. rewrite Hl4, Hl3. split; [reflexivity|].
  assert (Hpre : firstn (Z.to_nat (sdslen s + n)) b4 = payload s ++ t).
  { unfold b4. rewrite take_app_length'
      by (rewrite length_take, Hb3, Hlen; lia).
    rewrite Hb3. unfold b1.
    rewrite app_assoc, take_app_length'
      by (rewrite length_app, length_take; unfold n; lia).
    f_equal. unfold payload.
    apply (take_take_le _ _ _ (Z.to_nat (sdslen s + 1))); [lia|exact Hkeep]. }
  split.
  - unfold payload. rewrite Hl4, Hl3. cbn [with_buf buf]. exact Hpre.
  - cbn [with_buf buf]. unfold zlookup. destruct (Z.ltb_spec (sdslen s + n) 0); [lia|].
    unfold b4. apply list_lookup_middle. rewrite length_take, Hb3, Hlen. lia.
Qed.

(** X15. [sdscatlen] appends: the string returned is well formed, its
    content is the content of [s] followed by the bytes of [t], and a
    0 byte follows it. *)
Theorem sdscatlen_spec (fresh : nat -> Z) (s : sds) (t : list Z) :
  sds_wf s ->
  sdslen s + Z.of_nat (length t) + SDS_MAX_PREALLOC + 18 < 2^64 ->
  exists s',
    sdscatlen fresh true s t (Z.of_nat (length t)) = Ret (Some s')
    /\ sds_wf s'
    /\ sdslen s' = sdslen s + Z.of_nat (length t)
    /\ payload s' = payload s ++ t
    /\ zlookup (buf s') (sdslen s') = Some 0.
Proof. exact (sdscatlen_ok fresh s t). Qed.

Lemma sdscatlen_spec_witness :
  exists s',
    sdscatlen (fun _ => 0) true sds_hi [33; 33; 33] (Z.of_nat (length [33; 33; 33]))
    = Ret (Some s')
    /\ sds_wf s'
    /\ sdslen s' = sdslen sds_hi + Z.of_nat (length [33; 33; 33])
    /\ payload s' = payload sds_hi ++ [33; 33; 33]
    /\ zlookup (buf s') (sdslen s') = Some 0.
Proof.
  apply (sdscatlen_spec (fun _ => 0) sds_hi [33; 33; 33] sds_wf_hi).
  vm_compute. reflexivity.
Defined.

(** *** [sdsIncrLen] *)

Lemma sdstype_cases (s : sds) :
  wide_type (sdstype s) ->
  (Z.land (flags s) SDS_TYPE_MASK = SDS_TYPE_8 /\ field_bits (sdstype s) = 8)
  \/ (Z.land (flags s) SDS_TYPE_MASK = SDS_TYPE_16 /\ field_bits (sdstype s) = 16)
  \/ (Z.land (flags s) SDS_TYPE_MASK = SDS_TYPE_32 /\ field_bits (sdstype s) = 32)
  \/ (Z.land (flags s) SDS_TYPE_MASK = SDS_TYPE_64 /\ field_bits (sdstype s) = 64).
Proof. intros H. apply field_bits_cases in H. exact H. Qed.

(** [sdsIncrLen] by [incr >= 0] on a string with fields and room. *)
Lemma sdsIncrLen_wide (s : sds) (incr : Z) :
  sds_wf s -> wide_type (sdstype s) -> 0 <= incr <= sdsavail s ->
  exists b,
    sdsIncrLen s incr = Ret (mkSds (flags s) (len s + incr) (alloc s) b)
    /\ length b = length (buf s)
    /\ firstn (Z.to_nat (len s + incr)) b = firstn (Z.to_nat (len s + incr)) (buf s)
    /\ zlookup b (len s + incr) = Some 0.
Proof.
  intros Hwf Hw Hi.
  assert (Hne : sdstype s <> SDS_TYPE_5) by (destruct Hw as [H|[H|[H|H]]]; rewrite H; discriminate).
  destruct (wf_wide s Hwf Hne) as (_ & Hl & Ha & Hb).
  rewrite sdsavail_wide in Hi by exact Hw.
  pose proof (field_bits_range _ Hw) as Hbits.
  assert (H64 : 2 ^ field_bits (sdstype s) <= 2^64) by (apply Z.pow_le_mono_r; lia).
  rewrite wrap64_small in Hi by lia.
  destruct (store_ok (buf s) (len s + incr) [0]) as (Hst & Hlen); [lia|cbn [length]; lia|].
  exists (firstn (Z.to_nat (len s + incr)) (buf s) ++ [0]
          ++ skipn (Z.to_nat (len s + incr) + length [0]) (buf s)).
  split; [|split; [exact Hlen|]]; [|split].
  - unfold sdsIncrLen.
    destruct (sdstype_cases s Hw) as [(E & F)|[(E & F)|[(E & F)|(E & F)]]];
      rewrite E; type_tests; cbn [orb];
      rewrite F in Ha.
    + destruct (Z.leb_spec 0 incr); [|lia].
      destruct (Z.leb_spec incr (alloc s - len s)); [|lia].
      cbn [andb obind negb]. cbv iota beta.
      change (field_bits SDS_TYPE_8) with 8. rewrite Z.mod_small by lia.
      cbn [buf]. rewrite Hst. reflexivity.
    + destruct (Z.leb_spec 0 incr); [|lia].
      destruct (Z.leb_spec incr (alloc s - len s)); [|lia].
      cbn [andb obind negb]. cbv iota beta.
      change (field_bits SDS_TYPE_16) with 16. rewrite Z.mod_small by lia.
      cbn [buf]. rewrite Hst. reflexivity.
    + destruct (Z.leb_spec 0 incr); [|lia].
      rewrite (wrap32_small incr), (wrap32_small (alloc s - len s)),
        (wrap32_small (len s + incr)) by lia.
      destruct (Z.leb_spec incr (alloc s - len s)); [|lia].
      cbn [andb obind negb]. cbv iota beta. cbn [buf]. rewrite Hst. reflexivity.
    + destruct (Z.leb_spec 0 incr); [|lia].
      rewrite (wrap64_small incr), (wrap64_small (alloc s - len s)),
        (wrap64_small (len s + incr)) by lia.
      destruct (Z.leb_spec incr (alloc s - len s)); [|lia].
      cbn [andb obind negb]. cbv iota beta. cbn [buf]. rewrite Hst. reflexivity.
  - rewrite take_app_length'; [reflexivity|]. rewrite length_take. lia.
  - unfold zlookup. destruct (Z.ltb_spec (len s + incr) 0); [lia|].
    apply list_lookup_middle. rewrite length_take. lia.
Qed.

(** X16. [sdsIncrLen(s, 0)] fails its assertion on a type 5 string (the
    assertion of this case asks for [incr > 0] or [incr < 0]), and leaves
    the length as it is on a string of another type. *)
Theorem sdsIncrLen_zero (s : sds) :
  sds_wf s ->
  (sdstype s = SDS_TYPE_5 -> sdsIncrLen s 0 = AssertFail)
  /\ (sdstype s <> SDS_TYPE_5 ->
      exists s', sdsIncrLen s 0 = Ret s' /\ sdslen s' = sdslen s).
Proof.
  intros Hwf. split.
  - intros H5. unfold sdsIncrLen. unfold sdstype in H5. rewrite H5.
    change (SDS_TYPE_5 =? SDS_TYPE_5) with true. cbv iota. reflexivity.
  - intros Hne. destruct (wf_wide s Hwf Hne) as (Hw & Hl & Ha & Hb).
    destruct (sds_wf_len s Hwf) as (_ & _ & Hav & _).
    destruct (sdsIncrLen_wide s 0 Hwf Hw ltac:(lia)) as (b & Hs & _).
    eexists. split; [exact Hs|].
    rewrite (sdslen_wide s Hw).
    match goal with |- sdslen ?x = _ => assert (Hw' : wide_type (sdstype x)) by exact Hw;
      rewrite (sdslen_wide x Hw') end.
    cbn [len]. lia.
Qed.

Lemma sdsIncrLen_zero_witness :
  (sdstype sds_hi = SDS_TYPE_5 -> sdsIncrLen sds_hi 0 = AssertFail)
  /\ (sdstype sds_hi <> SDS_TYPE_5 ->
      exists s', sdsIncrLen sds_hi 0 = Ret s' /\ sdslen s' = sdslen sds_hi).
Proof. exact (sdsIncrLen_zero sds_hi sds_wf_hi). Defined.

(** X17. The use [sdsIncrLen] is made for: after [sdsMakeRoomFor(s, n)]
    with [n > 0], [sdsIncrLen(s, n)] passes its assertion, and the string
    is [n] bytes longer, begins with the content of [s] and ends with a
    0 byte. *)
Theorem sdsIncrLen_sdsMakeRoomFor (fresh : nat -> Z) (s : sds) (n : Z) :
  sds_wf s -> 0 < n -> sdslen s + n + SDS_MAX_PREALLOC + 18 < 2^64 ->
  exists s1 s2,
    sdsMakeRoomFor fresh true s n = Ret (Some s1)
    /\ sdsIncrLen s1 n = Ret s2
    /\ sds_wf s2
    /\ sdslen s2 = sdslen s + n
    /\ firstn (Z.to_nat (sdslen s)) (buf s2) = payload s
    /\ zlookup (buf s2) (sdslen s2) = Some 0.
Proof.
  intros Hwf Hn Hov.
  destruct (sdsMakeRoomFor_room fresh s n Hwf ltac:(lia) Hov)
    as (s1 & Hs1 & Hwf1 & Hl1 & Hav1 & Hkeep & Hwide).
  specialize (Hwide Hn).
  destruct (sds_wf_len s Hwf) as (Hl0 & _).
  destruct (sds_wf_len s1 Hwf1) as (_ & Hsum1 & _ & _).
  destruct (sdsIncrLen_wide s1 n Hwf1 Hwide ltac:(lia)) as (b & Hs2 & Hlen & Hpre & Hterm).
  assert (Hne : sdstype s1 <> SDS_TYPE_5)
    by (destruct Hwide as [H|[H|[H|H]]]; rewrite H; discriminate).
  destruct (wf_wide s1 Hwf1 Hne) as (_ & Hl & Ha & Hb).
  rewrite (sdslen_wide s1 Hwide) in *. rewrite (sdsavail_wide s1 Hwide) in *.
  exists s1, (mkSds (flags s1) (len s1 + n) (alloc s1) b).
  split; [exact Hs1|]. split; [exact Hs2|].
  set (s2 := mkSds (flags s1) (len s1 + n) (alloc s1) b).
  assert (Hw2 : wide_type (sdstype s2)) by exact Hwide.
  pose proof (field_bits_range _ Hwide) as Hbits.
  assert (H64 : 2 ^ field_bits (sdstype s1) <= 2^64) by (apply Z.pow_le_mono_r; lia).
  rewrite wrap64_small in Hav1 by lia.
  rewrite (sdslen_wide s2 Hw2). unfold s2 at 2 3 4 5. cbn [len buf].
  split.
  { destruct Hwf1 as (Hf & _ & _). split; [exact Hf|]. split.
    - right. split; [exact Hw2|]. unfold s2. cbn [len alloc].
      change (sdstype (mkSds (flags s1) (len s1 + n) (alloc s1) b)) with (sdstype s1). lia.
    - rewrite (sdsalloc_wide s2 Hw2). unfold s2. cbn [buf alloc]. rewrite Hlen. exact Hb. }
  split; [lia|]. split; [|exact Hterm].
  unfold payload. rewrite <- Hl1.
  transitivity (firstn (Z.to_nat (len s1)) (buf s1)).
  - apply (take_take_le _ _ _ (Z.to_nat (len s1 + n))); [lia|exact Hpre].
  - apply (take_take_le _ _ _ (Z.to_nat (sdslen s + 1))); [lia|exact Hkeep].
Qed.

Lemma sdsIncrLen_sdsMakeRoomFor_witness :
  exists s1 s2,
    sdsMakeRoomFor (fun _ => 0) true sds_hi 3 = Ret (Some s1)
    /\ sdsIncrLen s1 3 = Ret s2
    /\ sds_wf s2
    /\ sdslen s2 = sdslen sds_hi + 3
    /\ firstn (Z.to_nat (sdslen sds_hi)) (buf s2) = payload sds_hi
    /\ zlookup (buf s2) (sdslen s2) = Some 0.
Proof.
  apply (sdsIncrLen_sdsMakeRoomFor (fun _ => 0) sds_hi 3 sds_wf_hi).
  - lia.
  - vm_compute. reflexivity.
Defined.

(** *** [sdsRemoveFreeSpace] and [sdsdup] *)

Lemma regrow_shrink (fresh : nat -> Z) (b : list Z) (keep n : nat) :
  (n <= keep)%nat -> (n <= length b)%nat -> regrow fresh b keep n = firstn n b.
Proof.
  intros Hk Hn. unfold regrow, fresh_bytes. rewrite take_take.
  replace (Nat.min keep n) with n by lia.
  replace (Nat.min keep (Nat.min n (length b))) with n by lia.
  rewrite Nat.sub_diag. cbn [seq map]. apply app_nil_r.
Qed.

Lemma sdsRemoveFreeSpace_ok (fresh : nat -> Z) (s : sds) :
  sds_wf s -> sdslen s + 18 < 2^64 ->
  exists s',
    sdsRemoveFreeSpace fresh true s = Ret (Some s')
    /\ sds_wf s' /\ sdslen s' = sdslen s /\ sdsavail s' = 0
    /\ buf s' = firstn (Z.to_nat (sdslen s + 1)) (buf s)
    /\ (sdsavail s <> 0 -> sdslen s < 32 -> sdstype s' = SDS_TYPE_5).
Proof.
  intros Hwf Hov. destruct (sds_wf_len s Hwf) as (Hl0 & Hsum & Hav0 & Hal).
  unfold sdsRemoveFreeSpace. destruct (Z.eqb_spec (sdsavail s) 0) as [E0|E0].
  - exists s. split; [reflexivity|]. split; [exact Hwf|]. split; [reflexivity|].
    split; [exact E0|]. split; [|contradiction].
    destruct Hwf as (_ & _ & Hb). rewrite firstn_all2; [reflexivity|lia].
  - assert (Hne : sdstype s <> SDS_TYPE_5).
    { intros H5. apply E0. apply avail_type5. exact H5. }
    destruct (wf_wide s Hwf Hne) as (Hw & Hl & Ha & Hb).
    pose proof (sdslen_wide s Hw) as Hlen. pose proof (field_bits_range _ Hw) as Hbits.
    assert (H64 : 2 ^ field_bits (sdstype s) <= 2^64) by (apply Z.pow_le_mono_r; lia).
    assert (Hh : 3 <= sdsHdrSize (sdstype s) <= 17)
      by (destruct Hw as [->|[->|[->| ->]]]; vm_compute; split; discriminate).
    cbn [negb]. cbv iota.
    destruct ((sdstype s =? sdsReqType (sdslen s)) || (SDS_TYPE_8 <? sdsReqType (sdslen s)))
      eqn:Hbr.
    + rewrite wrap64_small by lia.
      destruct (Z.ltb_spec (sdsHdrSize (sdstype s) + sdslen s + 1) (sdsHdrSize (sdstype s)));
        [lia|].
      replace (sdsHdrSize (sdstype s) + sdslen s + 1 - sdsHdrSize (sdstype s))
        with (sdslen s + 1) by lia.
      rewrite regrow_shrink by lia.
      set (s1 := with_buf s (firstn (Z.to_nat (sdslen s + 1)) (buf s))).
      assert (Hw1 : wide_type (sdstype s1)) by exact Hw.
      rewrite (sdssetalloc_wide s1 _ Hw1).
      change (sdstype s1) with (sdstype s). unfold s1. cbn [with_buf flags len alloc buf].
      rewrite Hlen, Z.mod_small by lia.
      set (s2 := mkSds (flags s) (len s) (len s) (firstn (Z.to_nat (len s + 1)) (buf s))).
      assert (Hw2 : wide_type (sdstype s2)) by exact Hw.
      exists s2. split; [reflexivity|].
      rewrite (sdslen_wide s2 Hw2), (sdsavail_wide s2 Hw2). unfold s2 at 2 3 4 5 6.
      cbn [len alloc buf]. rewrite Z.sub_diag.
      split.
      { destruct Hwf as (Hf & _ & _). split; [exact Hf|]. split.
        - right. split; [exact Hw2|]. unfold s2. cbn [len alloc].
          change (sdstype (mkSds (flags s) (len s) (len s) _)) with (sdstype s). lia.
        - rewrite (sdsalloc_wide s2 Hw2). unfold s2. cbn [alloc buf].
          rewrite length_take. lia. }
      split; [reflexivity|]. split; [reflexivity|]. split; [reflexivity|].
      intros _ H32. exfalso. apply orb_true_iff in Hbr. unfold sdsReqType in Hbr.
      rewrite Hlen in Hbr. change (Z.shiftl 1 5) with 32 in Hbr.
      destruct (Z.ltb_spec (len s) 32); [|lia].
      destruct Hbr as [Hbr|Hbr]; [|discriminate].
      apply Z.eqb_eq in Hbr. contradiction.
    + apply orb_false_iff in Hbr. destruct Hbr as (Hdiff & Hsmall).
      assert (Hcases : (sdslen s < 32 /\ sdsReqType (sdslen s) = SDS_TYPE_5)
                       \/ (32 <= sdslen s < 256 /\ sdsReqType (sdslen s) = SDS_TYPE_8)).
      { revert Hsmall. unfold sdsReqType. change (Z.shiftl 1 5) with 32.
        change (Z.shiftl 1 8) with 256.
        destruct (Z.ltb_spec (sdslen s) 32); [auto|].
        destruct (Z.ltb_spec (sdslen s) 256); [auto|].
        destruct (sdslen s <? Z.shiftl 1 16); [intros Hx; vm_compute in Hx; discriminate|].
        destruct (sdslen s <? Z.shiftl 1 32); intros Hx; vm_compute in Hx; discriminate. }
      assert (Hrd : (Z.of_nat (length (buf s)) <? sdslen s + 1) = false)
        by (apply Z.ltb_ge; lia).
      rewrite Hrd. cbn [orb].
      destruct (regrow_spec fresh (buf s) (Z.to_nat (sdslen s + 1)) (Z.to_nat (sdslen s + 1)))
        as (Hrl & Hrk); [lia|lia|].
      assert (Hrg : regrow fresh (buf s) (Z.to_nat (sdslen s + 1)) (Z.to_nat (sdslen s + 1))
                    = firstn (Z.to_nat (sdslen s + 1)) (buf s)).
      { rewrite <- Hrk. symmetry. apply firstn_all2. lia. }
      destruct Hcases as [(H32 & ->)|(H256 & ->)].
      * change (sdsHdrSize SDS_TYPE_5) with 1. rewrite wrap64_small by lia.
        replace (1 + sdslen s + 1 - 1) with (sdslen s + 1) by lia.
        rewrite Z.ltb_irrefl, Hrg.
        destruct (shiftl3_fields (sdslen s)) as (F1 & F2 & F3); [lia|].
        unfold sdssetlen at 1. cbn [flags len alloc buf]. unfold sdstype at 1. cbn [flags].
        change (Z.land SDS_TYPE_5 SDS_TYPE_MASK =? SDS_TYPE_5) with true. cbv iota.
        rewrite F1. unfold sdssetalloc, sdstype. cbn [flags]. rewrite F2.
        change (0 =? SDS_TYPE_5) with true. cbv iota.
        eexists. split; [reflexivity|].
        set (L := sdslen s) in *. clearbody L.
        unfold sds_wf, sdslen, sdsavail, sdsalloc, sdstype, SDS_TYPE_5_LEN.
        cbn [flags len alloc buf]. rewrite F2. change (0 =? SDS_TYPE_5) with true. cbv iota.
        rewrite F3, length_take.
        split; [split; [lia|split; [left; reflexivity|lia]]|].
        split; [reflexivity|]. split; [reflexivity|]. split; [reflexivity|].
        intros _ _. reflexivity.
      * change (sdsHdrSize SDS_TYPE_8) with 3. rewrite wrap64_small by lia.
        replace (3 + sdslen s + 1 - 3) with (sdslen s + 1) by lia.
        rewrite Z.ltb_irrefl, Hrg.
        set (b := firstn (Z.to_nat (sdslen s + 1)) (buf s)).
        assert (W8 : wide_type SDS_TYPE_8) by (left; reflexivity).
        rewrite (sdssetlen_wide (mkSds SDS_TYPE_8 0 0 b)) by exact W8.
        cbn [flags len alloc buf].
        rewrite sdssetalloc_wide by exact W8. cbn [flags len alloc buf].
        change (sdstype (mkSds SDS_TYPE_8 _ _ b)) with SDS_TYPE_8.
        change (sdstype (mkSds SDS_TYPE_8 0 0 b)) with SDS_TYPE_8.
        change (field_bits SDS_TYPE_8) with 8. rewrite Z.mod_small by lia.
        eexists. split; [reflexivity|].
        destruct (hdr_fields SDS_TYPE_8 (sdslen s) (sdslen s) b W8) as (T1 & T2 & T3 & T4).
        rewrite T2, T4, Z.sub_diag.
        split.
        { split; [vm_compute; split; congruence|]. split.
          - right. rewrite T1. split; [exact W8|]. cbn [len alloc].
            change (field_bits SDS_TYPE_8) with 8. lia.
          - rewrite T3. cbn [buf]. unfold b. rewrite length_take. lia. }
        split; [reflexivity|]. split; [reflexivity|]. split; [reflexivity|]. lia.
Qed.

(** X18. [sdsRemoveFreeSpace] gives a well-formed string with the same
    length and the same bytes, terminator included, and no free space; a
    string shorter than 32 bytes that had free space comes back with a
    type 5 header. *)
Theorem sdsRemoveFreeSpace_spec (fresh : nat -> Z) (s : sds) :
  sds_wf s -> sdslen s + 18 < 2^64 ->
  exists s',
    sdsRemoveFreeSpace fresh true s = Ret (Some s')
    /\ sds_wf s' /\ sdslen s' = sdslen s /\ sdsavail s' = 0
    /\ buf s' = firstn (Z.to_nat (sdslen s + 1)) (buf s)
    /\ (sdsavail s <> 0 -> sdslen s < 32 -> sdstype s' = SDS_TYPE_5).
Proof. exact (sdsRemoveFreeSpace_ok fresh s). Qed.

Lemma sdsRemoveFreeSpace_spec_witness :
  exists s',
    sdsRemoveFreeSpace (fun _ => 0) true sds_hello = Ret (Some s')
    /\ sds_wf s' /\ sdslen s' = sdslen sds_hello /\ sdsavail s' = 0
    /\ buf s' = firstn (Z.to_nat (sdslen sds_hello + 1)) (buf sds_hello)
    /\ (sdsavail sds_hello <> 0 -> sdslen sds_hello < 32 -> sdstype s' = SDS_TYPE_5).
Proof.
  apply (sdsRemoveFreeSpace_spec (fun _ => 0) sds_hello sds_wf_hello).
  vm_compute. reflexivity.
Defined.

Lemma sdsnewlen_prefix (fresh : nat -> Z) (ok : bool) (bytes : list Z) (n : Z) :
  0 <= n <= Z.of_nat (length bytes) ->
  sdsnewlen fresh ok (InitBuf bytes) n
  = sdsnewlen fresh ok (InitBuf (firstn (Z.to_nat n) bytes)) n.
Proof.
  intros Hn. unfold sdsnewlen.
  assert (E : (if n =? 0 then Ret []
               else if Z.of_nat (length bytes) <? n then UB
                    else Ret (firstn (Z.to_nat n) bytes))
              = (if n =? 0 then Ret []
                 else if Z.of_nat (length (firstn (Z.to_nat n) bytes)) <? n then UB
                      else Ret (firstn (Z.to_nat n) (firstn (Z.to_nat n) bytes)))).
  { destruct (n =? 0); [reflexivity|]. rewrite length_take, take_take, Nat.min_id.
    destruct (Z.ltb_spec (Z.of_nat (length bytes)) n); [lia|].
    destruct (Z.ltb_spec (Z.of_nat (Nat.min (Z.to_nat n) (length bytes))) n); [lia|].
    reflexivity. }
  cbv zeta. rewrite E. reflexivity.
Qed.

(** What [sdsnewlen] makes of the [n] first bytes of a buffer. *)
Lemma sdsnewlen_take (fresh : nat -> Z) (bytes : list Z) (n : Z) :
  0 <= n <= Z.of_nat (length bytes) -> n + 18 < 2^64 ->
  exists s, sdsnewlen fresh true (InitBuf bytes) n = Ret (Some s)
    /\ sdstype s = (if n =? 0 then SDS_TYPE_8
                    else if n <? 32 then SDS_TYPE_5 else room_type n)
    /\ sdslen s = n /\ sdsalloc s = n
    /\ buf s = firstn (Z.to_nat n) bytes ++ [0].
Proof.
  intros Hn Hov. rewrite sdsnewlen_prefix by exact Hn.
  pose proof (sdsnewlen_ok fresh (firstn (Z.to_nat n) bytes)) as H.
  cbv zeta in H. rewrite length_take in H.
  replace (Z.of_nat (Nat.min (Z.to_nat n) (length bytes))) with n in H by lia.
  apply H. exact Hov.
Qed.

(** X19. [sdsdup] makes a string with the same length and content as [s],
    followed by a 0 byte, and without free space. *)
Theorem sdsdup_spec (fresh : nat -> Z) (s : sds) :
  sds_wf s -> sdslen s + 18 < 2^64 ->
  exists s',
    sdsdup fresh true s = Ret (Some s')
    /\ sdslen s' = sdslen s /\ sdsalloc s' = sdslen s
    /\ buf s' = payload s ++ [0].
Proof.
  intros Hwf Hov. destruct (sds_wf_len s Hwf) as (Hl0 & Hsum & Hav0 & _).
  pose proof Hwf as (_ & _ & Hb).
  destruct (sdsnewlen_take fresh (buf s) (sdslen s)) as (s' & Hs & _ & Hl & Ha & Hbuf);
    [lia|exact Hov|].
  exists s'. unfold sdsdup, payload. auto.
Qed.

Lemma sdsdup_spec_witness :
  exists s',
    sdsdup (fun _ => 0) true sds_hello = Ret (Some s')
    /\ sdslen s' = sdslen sds_hello /\ sdsalloc s' = sdslen sds_hello
    /\ buf s' = payload sds_hello ++ [0].
Proof.
  apply (sdsdup_spec (fun _ => 0) sds_hello sds_wf_hello). vm_compute. reflexivity.
Defined.

(** *** [sdscmp] *)

Lemma memcmp_sign_spec (n : nat) :
  forall a b : list Z,
  (n <= length a)%nat -> (n <= length b)%nat ->
  exists c, memcmp_sign a b n = Ret c
            /\ memcmp_sign b a n = Ret (CompOpp c)
            /\ (c = Eq <-> firstn n a = firstn n b).
Proof.
  induction n as [|n IH]; intros a b Ha Hb.
  - exists Eq. repeat split; reflexivity.
  - destruct a as [|x a]; [simpl in Ha; lia|]. destruct b as [|y b]; [simpl in Hb; lia|].
    cbn [memcmp_sign firstn]. simpl in Ha, Hb.
    destruct (Z.ltb_spec x y); [destruct (Z.ltb_spec y x); [lia|]|destruct (Z.ltb_spec y x)].
    + exists Lt. split; [reflexivity|]. split; [reflexivity|].
      split; [discriminate|]. intros E. injection E as E _. lia.
    + exists Gt. split; [reflexivity|]. split; [reflexivity|].
      split; [discriminate|]. intros E. injection E as E _. lia.
    + assert (x = y) by lia. subst y.
      destruct (IH a b) as (c & H1 & H2 & H3); [lia|lia|].
      exists c. split; [exact H1|]. split; [exact H2|].
      rewrite H3. split; [intros ->; reflexivity|intros E; injection E; auto].
Qed.

(** X20. [sdscmp] orders the strings by their content: it returns 0 exactly
    when the two strings have the same bytes, swapping the arguments
    swaps the sign, and a string that is a proper prefix of another is the
    smaller one. *)
Theorem sdscmp_spec (s1 s2 : sds) :
  sds_wf s1 -> sds_wf s2 ->
  exists c,
    sdscmp s1 s2 = Ret c
    /\ sdscmp s2 s1 = Ret (CompOpp c)
    /\ (c = Eq <-> payload s1 = payload s2)
    /\ (forall x, x <> [] -> payload s2 = payload s1 ++ x -> c = Lt).
Proof.
  intros Hwf1 Hwf2.
  destruct (sds_wf_len s1 Hwf1) as (Hl1 & Hs1 & Ha1 & _).
  destruct (sds_wf_len s2 Hwf2) as (Hl2 & Hs2 & Ha2 & _).
  pose proof Hwf1 as (_ & _ & Hb1). pose proof Hwf2 as (_ & _ & Hb2).
  assert (Hp1 : length (payload s1) = Z.to_nat (sdslen s1))
    by (unfold payload; rewrite length_take; lia).
  assert (Hp2 : length (payload s2) = Z.to_nat (sdslen s2))
    by (unfold payload; rewrite length_take; lia).
  unfold sdscmp.
  set (m := if sdslen s1 <? sdslen s2 then sdslen s1 else sdslen s2).
  assert (Hm : (if sdslen s2 <? sdslen s1 then sdslen s2 else sdslen s1) = m).
  { unfold m. destruct (Z.ltb_spec (sdslen s1) (sdslen s2));
      destruct (Z.ltb_spec (sdslen s2) (sdslen s1)); lia. }
  rewrite Hm.
  assert (Hmr : 0 <= m /\ m <= sdslen s1 /\ m <= sdslen s2)
    by (unfold m; destruct (Z.ltb_spec (sdslen s1) (sdslen s2)); lia).
  destruct (memcmp_sign_spec (Z.to_nat m) (buf s1) (buf s2)) as (c & H1 & H2 & H3);
    [lia|lia|].
  rewrite H1, H2. cbn [obind].
  assert (Hpre1 : firstn (Z.to_nat m) (payload s1) = firstn (Z.to_nat m) (buf s1))
    by (unfold payload; rewrite take_take; f_equal; lia).
  assert (Hpre2 : firstn (Z.to_nat m) (payload s2) = firstn (Z.to_nat m) (buf s2))
    by (unfold payload; rewrite take_take; f_equal; lia).
  destruct c; cbn [CompOpp].
  - (* the common prefix is the same *)
    assert (E : firstn (Z.to_nat m) (buf s1) = firstn (Z.to_nat m) (buf s2))
      by (apply H3; reflexivity).
    destruct (Z.ltb_spec (sdslen s2) (sdslen s1)); destruct (Z.ltb_spec (sdslen s1) (sdslen s2));
      try lia.
    + exists Gt. split; [reflexivity|]. split; [reflexivity|]. split.
      * split; [discriminate|]. intros Ep. rewrite Ep in Hp1. lia.
      * intros x _ Ex. apply (f_equal (@length Z)) in Ex. rewrite length_app in Ex. lia.
    + exists Lt. split; [reflexivity|]. split; [reflexivity|]. split.
      * split; [discriminate|]. intros Ep. rewrite Ep in Hp1. lia.
      * reflexivity.
    + exists Eq. split; [reflexivity|]. split; [reflexivity|]. split.
      * split; [|reflexivity]. intros _.
        assert (m = sdslen s1) by (unfold m; destruct (Z.ltb_spec (sdslen s1) (sdslen s2)); lia).
        unfold payload. replace (sdslen s2) with m by lia. replace (sdslen s1) with m by lia.
        exact E.
      * intros x Hx Ex. apply (f_equal (@length Z)) in Ex. rewrite length_app in Ex.
        destruct x; [contradiction|]. simpl in Ex. lia.
  - exists Lt. split; [reflexivity|]. split; [reflexivity|]. split.
    + split; [discriminate|]. intros Ep. exfalso.
      assert (Lt = Eq); [|discriminate]. apply H3. rewrite <- Hpre1, <- Hpre2, Ep. reflexivity.
    + reflexivity.
  - exists Gt. split; [reflexivity|]. split; [reflexivity|]. split.
    + split; [discriminate|]. intros Ep. exfalso.
      assert (Gt = Eq); [|discriminate]. apply H3. rewrite <- Hpre1, <- Hpre2, Ep. reflexivity.
    + intros x _ Ex. exfalso.
      assert (Gt = Eq); [|discriminate]. apply H3. rewrite <- Hpre1, <- Hpre2, Ex.
      rewrite take_app_le by lia. reflexivity.
Qed.

Lemma sdscmp_spec_witness :
  exists c,
    sdscmp sds_hi sds_hello = Ret c
    /\ sdscmp sds_hello sds_hi = Ret (CompOpp c)
    /\ (c = Eq <-> payload sds_hi = payload sds_hello)
    /\ (forall x, x <> [] -> payload sds_hello = payload sds_hi ++ x -> c = Lt).
Proof. exact (sdscmp_spec sds_hi sds_hello sds_wf_hi sds_wf_hello). Defined.

(** *** [sdsrange] *)

Lemma sdssetlen_shorter (s : sds) (n : Z) :
  sds_wf s -> 0 <= n <= sdslen s ->
  sdslen (sdssetlen s n) = n /\ buf (sdssetlen s n) = buf s.
Proof.
  intros Hwf Hn. destruct (Z.eq_dec (sdstype s) SDS_TYPE_5) as [E|E].
  - destruct (sds_wf_len s Hwf) as (_ & _ & _ & _).
    assert (H32 : sdslen s < 32).
    { destruct Hwf as (Hf & _ & _). unfold sdslen. rewrite E.
      change (SDS_TYPE_5 =? SDS_TYPE_5) with true. cbv iota.
      unfold SDS_TYPE_5_LEN, SDS_TYPE_BITS. rewrite Z.shiftr_div_pow2 by lia.
      change (2^3) with 8. apply Z.div_lt_upper_bound; lia. }
    destruct (shiftl3_fields n) as (F1 & F2 & F3); [lia|].
    unfold sdssetlen. rewrite E. change (SDS_TYPE_5 =? SDS_TYPE_5) with true. cbv iota.
    rewrite F1. unfold sdslen, sdstype, SDS_TYPE_5_LEN. cbn [flags buf]. rewrite F2.
    change (0 =? SDS_TYPE_5) with true. cbv iota. auto.
  - destruct (wf_wide s Hwf E) as (Hw & Hl & Ha & Hb).
    rewrite (sdslen_wide s Hw) in Hn. rewrite sdssetlen_wide by exact Hw.
    set (s' := mkSds (flags s) (n mod 2 ^ field_bits (sdstype s)) (alloc s) (buf s)).
    assert (Hw' : wide_type (sdstype s')) by exact Hw.
    rewrite (sdslen_wide s' Hw'). unfold s'. cbn [len buf].
    rewrite Z.mod_small by lia. auto.
Qed.

Lemma swrap64_signed (x : Z) : - 2^63 <= x < 2^63 -> swrap64 x = x.
Proof. intros H. unfold swrap64. rewrite Z.mod_small by lia. lia. Qed.

(** The start and the number of bytes that [sdsrange] keeps. *)
Lemma sdsrange_bounds (L st en : Z) :
  0 < L < 2^63 -> 0 <= st -> 0 <= en ->
  let n0 := if en <? st then 0 else en - st + 1 in
  let nl := if (st <=? en) && (st <? L) then Z.min en (L - 1) - st + 1 else 0 in
  exists st',
    (if negb (n0 =? 0) then
       if swrap64 L <=? st then Ret (st, 0)
       else if swrap64 L <=? en then
              let end_ := swrap64 (L - 1) in
              Ret (st, if end_ <? st then 0 else end_ - st + 1)
            else Ret (st, n0)
     else Ret (0, n0))
    = Ret (st', nl)
    /\ (nl <> 0 -> st' = st) /\ 0 <= nl /\ (nl <> 0 -> st + nl <= L).
Proof.
  intros HL Hst Hen. cbv zeta.
  rewrite !swrap64_signed by lia.
  destruct (Z.ltb_spec en st).
  - cbn [negb Z.eqb]. destruct (Z.leb_spec st en); [lia|]. cbn [andb].
    exists 0. split; [reflexivity|]. lia.
  - destruct (Z.leb_spec st en); [|lia]. cbn [andb].
    destruct (Z.eqb_spec (en - st + 1) 0); [lia|]. cbn [negb].
    destruct (Z.leb_spec L st).
    + destruct (Z.ltb_spec st L); [lia|]. exists st. split; [reflexivity|]. lia.
    + destruct (Z.ltb_spec st L); [|lia].
      destruct (Z.leb_spec L en).
      * destruct (Z.ltb_spec (L - 1) st); [lia|]. exists st.
        replace (Z.min en (L - 1)) with (L - 1) by lia. split; [reflexivity|]. lia.
      * exists st. replace (Z.min en (L - 1)) with en by lia. split; [reflexivity|]. lia.
Qed.

(** X21. [sdsrange(s, start, end)] keeps the bytes from [start] to [end],
    both included; a negative index counts from the end of the string
    ([-1] is the last byte) and is taken as 0 when it lies before the
    string, an [end] after the string stands for the last byte, and nothing
    is kept when the range is empty or begins after the string. An empty
    string is left as it is. *)
Theorem sdsrange_spec (s : sds) (start end_ : Z) :
  sds_wf s ->
  - 2^63 <= start < 2^63 -> - 2^63 <= end_ < 2^63 - 1 -> sdslen s < 2^63 ->
  let L := sdslen s in
  let st := if start <? 0 then Z.max 0 (L + start) else start in
  let en := if end_ <? 0 then Z.max 0 (L + end_) else end_ in
  let newlen := if (st <=? en) && (st <? L) then Z.min en (L - 1) - st + 1 else 0 in
  (L = 0 -> sdsrange s start end_ = Ret s)
  /\ (0 < L ->
      exists s',
        sdsrange s start end_ = Ret s'
        /\ sdslen s' = newlen
        /\ payload s' = firstn (Z.to_nat newlen) (skipn (Z.to_nat st) (payload s))
        /\ zlookup (buf s') newlen = Some 0).
Proof.
  intros Hwf Hstart Hend HL63. cbv zeta.
  destruct (sds_wf_len s Hwf) as (Hl0 & Hsum & Hav0 & _).
  pose proof Hwf as (_ & _ & Hb).
  unfold sdsrange. split.
  - intros ->. reflexivity.
  - intros HL. destruct (Z.eqb_spec (sdslen s) 0); [lia|].
    set (L := sdslen s) in *.
    assert (Est : (if start <? 0
                   then (if swrap64 (L + start) <? 0 then 0 else swrap64 (L + start))
                   else start)
                  = (if start <? 0 then Z.max 0 (L + start) else start)).
    { destruct (Z.ltb_spec start 0); [|reflexivity].
      rewrite swrap64_signed by lia. destruct (Z.ltb_spec (L + start) 0); lia. }
    assert (Een : (if end_ <? 0
                   then (if swrap64 (L + end_) <? 0 then 0 else swrap64 (L + end_))
                   else end_)
                  = (if end_ <? 0 then Z.max 0 (L + end_) else end_)).
    { destruct (Z.ltb_spec end_ 0); [|reflexivity].
      rewrite swrap64_signed by lia. destruct (Z.ltb_spec (L + end_) 0); lia. }
    cbv zeta. rewrite Est, Een.
    set (st := if start <? 0 then Z.max 0 (L + start) else start) in *.
    set (en := if end_ <? 0 then Z.max 0 (L + end_) else end_) in *.
    assert (Hst : 0 <= st) by (unfold st; destruct (Z.ltb_spec start 0); lia).
    assert (Hen : 0 <= en <= 2^63 - 2) by (unfold en; destruct (Z.ltb_spec end_ 0); lia).
    assert (Hub : negb (en <? st) && (LONG_MAX <? en - st + 1) = false).
    { unfold LONG_MAX. destruct (Z.ltb_spec en st); [reflexivity|].
      destruct (Z.ltb_spec (2^63 - 1) (en - st + 1)); [lia|reflexivity]. }
    rewrite Hub.
    destruct (sdsrange_bounds L st en ltac:(lia) Hst ltac:(lia)) as (st' & Hr & Hst' & Hnl & Hfit).
    cbv zeta in Hr. rewrite Hr. cbn [obind]. cbv beta iota.
    set (nl := if (st <=? en) && (st <? L) then Z.min en (L - 1) - st + 1 else 0) in *.
    assert (Hmv : exists b,
               (if negb (st' =? 0) && negb (nl =? 0)
                then if Z.of_nat (length (buf s)) <? st' + nl then UB
                     else store (buf s) 0 (firstn (Z.to_nat nl) (skipn (Z.to_nat st') (buf s)))
                else Ret (buf s)) = Ret b
               /\ length b = length (buf s)
               /\ firstn (Z.to_nat nl) b
                  = firstn (Z.to_nat nl) (skipn (Z.to_nat st) (buf s))).
    { destruct (Z.eqb_spec nl 0) as [E0|E0].
      - rewrite andb_false_r. exists (buf s). rewrite E0. auto.
      - specialize (Hst' E0). specialize (Hfit E0). subst st'.
        destruct (Z.eqb_spec st 0) as [Es|Es].
        + exists (buf s). rewrite Es. auto.
        + cbn [negb andb].
          destruct (Z.ltb_spec (Z.of_nat (length (buf s))) (st + nl)); [lia|].
          assert (Hsl : length (firstn (Z.to_nat nl) (skipn (Z.to_nat st) (buf s)))
                        = Z.to_nat nl) by (rewrite length_take, length_drop; lia).
          destruct (store_ok (buf s) 0 (firstn (Z.to_nat nl) (skipn (Z.to_nat st) (buf s))))
            as (Hs & Hl); [lia|rewrite Hsl; lia|].
          rewrite Hs. eexists. split; [reflexivity|]. split; [exact Hl|].
          change (Z.to_nat 0) with 0%nat. rewrite take_0. cbn [app].
          rewrite take_app_length'; [reflexivity|symmetry; exact Hsl]. }
    destruct Hmv as (b & Hb1 & Hlb & Hpre). rewrite Hb1. cbn [obind].
    assert (HnlL : nl <= L).
    { destruct (Z.eq_dec nl 0) as [->|E0]; [lia|]. specialize (Hfit E0). lia. }
    destruct (store_ok b nl [0]) as (Hs2 & Hl2); [lia|cbn [length]; lia|].
    rewrite Hs2. cbn [obind].
    set (b2 := firstn (Z.to_nat nl) b ++ [0] ++ skipn (Z.to_nat nl + length [0]) b) in *.
    destruct (with_buf_wf s b2 Hwf) as (Hwf2 & Hlen2 & _); [rewrite Hl2; exact Hlb|].
    destruct (sdssetlen_shorter (with_buf s b2) nl Hwf2) as (Hlen3 & Hbuf3);
      [rewrite Hlen2; fold L; lia|].
    eexists. split; [reflexivity|]. split; [exact Hlen3|].
    unfold payload. rewrite Hlen3, Hbuf3. cbn [with_buf buf]. split.
    + unfold b2. rewrite take_app_length' by (rewrite length_take; lia).
      rewrite Hpre. fold L.
      destruct (Z.eq_dec nl 0) as [->|E0]; [reflexivity|]. specialize (Hfit E0).
      rewrite skipn_firstn_comm.
      rewrite take_take. f_equal. lia.
    + unfold zlookup. destruct (Z.ltb_spec nl 0); [lia|]. unfold b2.
      apply list_lookup_middle. rewrite length_take. lia.
Qed.

Lemma sdsrange_spec_witness :
  let L := sdslen sds_hello in
  let st := if 1 <? 0 then Z.max 0 (L + 1) else 1 in
  let en := if -2 <? 0 then Z.max 0 (L + -2) else -2 in
  let newlen := if (st <=? en) && (st <? L) then Z.min en (L - 1) - st + 1 else 0 in
  (L = 0 -> sdsrange sds_hello 1 (-2) = Ret sds_hello)
  /\ (0 < L ->
      exists s',
        sdsrange sds_hello 1 (-2) = Ret s'
        /\ sdslen s' = newlen
        /\ payload s' = firstn (Z.to_nat newlen) (skipn (Z.to_nat st) (payload sds_hello))
        /\ zlookup (buf s') newlen = Some 0).
Proof.
  apply (sdsrange_spec sds_hello 1 (-2) sds_wf_hello).
  - lia.
  - lia.
  - vm_compute. reflexivity.
Defined.

(** "hello" cut from 1 to -2 is "ell". *)
Example sdsrange_example :
  exists s', sdsrange sds_hello 1 (-2) = Ret s' /\ payload s' = [101; 108; 108].
Proof. eexists. split; [vm_compute; reflexivity|]. reflexivity. Qed.

(** *** [sdssplitlen]: the tokens give the string back *)

Lemma joined_cons (sep x : list Z) (rest : list (list Z)) :
  rest <> [] -> joined sep (x :: rest) = x ++ sep ++ joined sep rest.
Proof. destruct rest; [contradiction|reflexivity]. Qed.

Lemma joined_snoc (sep : list Z) (toks : list (list Z)) (t : list Z) :
  joined sep (toks ++ [t]) = concat (map (fun x => x ++ sep) toks) ++ t.
Proof.
  induction toks as [|x toks IH]; [reflexivity|].
  cbn [app map concat]. rewrite joined_cons by (destruct toks; discriminate).
  rewrite IH, <- !app_assoc. reflexivity.
Qed.

(** The test of the separator at [j]. *)
Lemma sep_test (s sep : list Z) (seplen j : Z) :
  1 <= seplen -> seplen = Z.of_nat (length sep) ->
  0 <= j -> j + seplen <= Z.of_nat (length s) ->
  exists c : bool,
    (if seplen =? 1 then
       match zlookup s j, zlookup sep 0 with
       | Some a, Some b =>
           if a =? b then Ret true
           else memcmp_eq (skipn (Z.to_nat j) s) sep seplen
       | _, _ => UB
       end
     else memcmp_eq (skipn (Z.to_nat j) s) sep seplen) = Ret c
    /\ (c = true -> firstn (Z.to_nat seplen) (skipn (Z.to_nat j) s) = sep).
Proof.
  intros H1 Hl Hj Hfit.
  assert (Hm : exists c : bool,
             memcmp_eq (skipn (Z.to_nat j) s) sep seplen = Ret c
             /\ (c = true -> firstn (Z.to_nat seplen) (skipn (Z.to_nat j) s) = sep)).
  { unfold memcmp_eq. rewrite length_drop.
    destruct (Z.ltb_spec (Z.of_nat (length s - Z.to_nat j)) seplen); [lia|].
    destruct (Z.ltb_spec (Z.of_nat (length sep)) seplen); [lia|]. cbn [orb].
    eexists. split; [reflexivity|]. intros E. apply bool_decide_eq_true_1 in E.
    rewrite E, Hl, Nat2Z.id. apply firstn_all. }
  destruct (Z.eqb_spec seplen 1) as [E1|E1]; [|exact Hm].
  destruct sep as [|b [|? ?]]; simpl in Hl; try lia.
  change (zlookup [b] 0) with (Some b).
  unfold zlookup. destruct (Z.ltb_spec j 0); [lia|].
  destruct (s !! Z.to_nat j) as [a|] eqn:Ea;
    [|apply lookup_ge_None in Ea; lia].
  destruct (Z.eqb_spec a b) as [Eab|Eab]; [|exact Hm].
  exists true. split; [reflexivity|]. intros _. subst a. rewrite E1.
  change (Z.to_nat 1) with 1%nat.
  rewrite (drop_S _ _ _ Ea). reflexivity.
Qed.

Lemma payload_newlen (t : sds) (bytes : list Z) (n : Z) :
  0 <= n <= Z.of_nat (length bytes) ->
  sdslen t = n -> buf t = firstn (Z.to_nat n) bytes ++ [0] ->
  payload t = firstn (Z.to_nat n) bytes.
Proof.
  intros Hn Hl Hb. unfold payload. rewrite Hl, Hb.
  apply take_app_length'. rewrite length_take. lia.
Qed.

Lemma split_step (s done sep : list Z) (start j k : nat) :
  done ++ skipn start s = s -> (start <= j)%nat ->
  firstn k (skipn j s) = sep ->
  (done ++ firstn (j - start) (skipn start s) ++ sep) ++ skipn (j + k) s = s.
Proof.
  intros Hinv Hle Hsep.
  assert (E1 : skipn start s = firstn (j - start) (skipn start s) ++ skipn j s).
  { rewrite <- (firstn_skipn (j - start) (skipn start s)) at 1. f_equal.
    rewrite drop_drop. f_equal. lia. }
  assert (E2 : skipn j s = sep ++ skipn (j + k) s).
  { rewrite <- (firstn_skipn k (skipn j s)) at 1. rewrite Hsep, drop_drop. reflexivity. }
  rewrite <- !app_assoc, <- E2, <- E1. exact Hinv.
Qed.

Lemma sdssplitlen_loop_joined (fresh : nat -> Z) (s sep : list Z) (seplen : Z) :
  1 <= seplen -> seplen = Z.of_nat (length sep) ->
  Z.of_nat (length s) < 2^30 ->
  forall (fuel : nat) (tokens : list sds) (slots start j : Z),
  0 <= start <= j -> j <= Z.of_nat (length s) ->
  (Z.to_nat (Z.of_nat (length s) - j) < fuel)%nat ->
  Z.of_nat (length tokens) <= start ->
  0 <= slots <= 2 * Z.of_nat (length tokens) + 5 ->
  concat (map (fun t => payload t ++ sep) tokens) ++ skipn (Z.to_nat start) s = s ->
  exists toks,
    sdssplitlen_loop fresh fuel [] s (Z.of_nat (length s)) sep seplen tokens slots start j
    = Ret (Some toks, Z.of_nat (length toks))
    /\ joined sep (map payload toks) = s.
Proof.
  intros H1 Hl Hsz. induction fuel as [|fuel IH];
    intros tokens slots start j Hsj Hj Hf Htok Hslots Hinv; [lia|].
  cbn [sdssplitlen_loop]. set (len := Z.of_nat (length s)) in *.
  destruct (Z.ltb_spec j (len - (seplen - 1))) as [Hin|Hout].
  - assert (Hgrow : (slots <? Z.of_nat (length tokens) + 2) && (INT_MAX <? slots * 2) = false).
    { unfold INT_MAX. destruct (Z.ltb_spec slots (Z.of_nat (length tokens) + 2)); [|reflexivity].
      destruct (Z.ltb_spec (2^31 - 1) (slots * 2)); [lia|reflexivity]. }
    rewrite Hgrow.
    assert (Hnext : (if slots <? Z.of_nat (length tokens) + 2
                     then next_ok [] else (true, [])) = (true, @nil bool))
      by (destruct (_ <? _); reflexivity).
    rewrite Hnext. cbn [negb]. cbv iota beta.
    destruct (sep_test s sep seplen j H1 Hl ltac:(lia) ltac:(unfold len in *; lia))
      as (c & Hc & Hmatch).
    rewrite Hc. cbn [obind]. destruct c.
    + specialize (Hmatch eq_refl). cbn [next_ok]. cbv beta iota.
      rewrite wrap64_small by lia.
      destruct (sdsnewlen_take fresh (skipn (Z.to_nat start) s) (j - start))
        as (t & Ht & _ & Htl & _ & Htb); [rewrite length_drop; unfold len in *; lia|lia|].
      rewrite Ht. cbn [obind].
      pose proof (payload_newlen t (skipn (Z.to_nat start) s) (j - start)
                    ltac:(rewrite length_drop; unfold len in *; lia) Htl Htb) as Hpay.
      replace (j + seplen - 1 + 1) with (j + seplen) by lia.
      apply IH.
      * lia.
      * unfold len in *. lia.
      * unfold len in *. lia.
      * rewrite length_app. cbn [length]. lia.
      * rewrite length_app. cbn [length].
        destruct (Z.ltb_spec slots (Z.of_nat (length tokens) + 2)); lia.
      * rewrite map_app, concat_app. cbn [map concat]. rewrite app_nil_r, Hpay.
        replace (Z.to_nat (j - start)) with (Z.to_nat j - Z.to_nat start)%nat by lia.
        replace (Z.to_nat (j + seplen)) with (Z.to_nat j + Z.to_nat seplen)%nat by lia.
        apply split_step; [exact Hinv|lia|exact Hmatch].
    + apply IH; try assumption; unfold len in *; try lia.
      destruct (Z.ltb_spec slots (Z.of_nat (length tokens) + 2)); lia.
  - cbn [next_ok]. cbv beta iota. rewrite wrap64_small by (unfold len in *; lia).
    destruct (sdsnewlen_take fresh (skipn (Z.to_nat start) s) (len - start))
      as (t & Ht & _ & Htl & _ & Htb);
      [rewrite length_drop; unfold len in *; lia|unfold len in *; lia|].
    rewrite Ht. cbn [obind].
    pose proof (payload_newlen t (skipn (Z.to_nat start) s) (len - start)
                  ltac:(rewrite length_drop; unfold len in *; lia) Htl Htb) as Hpay.
    exists (tokens ++ [t]). split.
    + rewrite length_app. cbn [length]. do 2 f_equal. lia.
    + rewrite map_app. cbn [map]. rewrite joined_snoc, Hpay, map_map.
      rewrite firstn_all2 by (rewrite length_drop; unfold len; lia). exact Hinv.
Qed.

(** X22. When memory is found, [sdssplitlen] of a string that is not empty
    returns tokens that give the string back when they are joined with
    the separator, and [*count] is their number. *)
Theorem sdssplitlen_joined (fresh : nat -> Z) (s sep : list Z) (count0 : Z) :
  s <> [] -> sep <> [] -> Z.of_nat (length s) < 2^30 -> Z.of_nat (length sep) < 2^31 ->
  exists toks,
    sdssplitlen fresh [] s (Z.of_nat (length s)) sep (Z.of_nat (length sep)) count0
    = Ret (Some toks, Z.of_nat (length toks))
    /\ joined sep (map payload toks) = s.
Proof.
  intros Hs Hsep Hsz _. unfold sdssplitlen.
  assert (Hl : 1 <= Z.of_nat (length sep)) by (destruct sep; [contradiction|simpl; lia]).
  assert (Hn : 1 <= Z.of_nat (length s)) by (destruct s; [contradiction|simpl; lia]).
  destruct (Z.ltb_spec (Z.of_nat (length sep)) 1); [lia|].
  destruct (Z.ltb_spec (Z.of_nat (length s)) 0); [lia|]. cbn [orb next_ok negb].
  cbv beta iota. destruct (Z.eqb_spec (Z.of_nat (length s)) 0); [lia|].
  apply sdssplitlen_loop_joined; try lia; try reflexivity.
Qed.

Lemma sdssplitlen_joined_witness :
  exists toks,
    sdssplitlen (fun _ => 0) [] [97; 44; 98; 44; 44; 99] (Z.of_nat (length [97; 44; 98; 44; 44; 99]))
                [44] (Z.of_nat (length [44])) 7
    = Ret (Some toks, Z.of_nat (length toks))
    /\ joined [44] (map payload toks) = [97; 44; 98; 44; 44; 99].
Proof.
  apply (sdssplitlen_joined (fun _ => 0) [97; 44; 98; 44; 44; 99] [44] 7).
  - discriminate.
  - discriminate.
  - vm_compute. reflexivity.
  - vm_compute. reflexivity.
Defined.

(** *** Numbers as strings: [sdsll2str], [sdsull2str], [sdsfromlonglong] *)

Lemma decimal_value_snoc (ds : list Z) (d : Z) :
  decimal_value (ds ++ [d]) = 10 * decimal_value ds + (d - 48).
Proof. unfold decimal_value. rewrite fold_left_app. reflexivity. Qed.

Lemma store_mid (pre post : list Z) (x y i : Z) :
  i = Z.of_nat (length pre) ->
  store (pre ++ x :: post) i [y] = Ret (pre ++ y :: post).
Proof.
  intros ->.
  destruct (store_ok (pre ++ x :: post) (Z.of_nat (length pre)) [y]) as [E _].
  - lia.
  - rewrite length_app. cbn [length]. lia.
  - rewrite E, Nat2Z.id. f_equal.
    rewrite take_app_length. cbn [length app].
    replace (length pre + 1)%nat with (length (pre ++ [x])) by (rewrite length_app; reflexivity).
    replace (pre ++ x :: post) with ((pre ++ [x]) ++ post) by (rewrite <- app_assoc; reflexivity).
    rewrite drop_app_length. reflexivity.
Qed.

Lemma zlookup_mid (pre post : list Z) (x i : Z) :
  i = Z.of_nat (length pre) -> zlookup (pre ++ x :: post) i = Some x.
Proof.
  intros ->. unfold zlookup.
  destruct (Z.ltb_spec (Z.of_nat (length pre)) 0); [lia|].
  rewrite Nat2Z.id. apply list_lookup_middle. reflexivity.
Qed.

Lemma ll2str_digits_ok : forall (fuel k : nat) (b : list Z) (p v : Z),
  0 <= v < 10 ^ Z.of_nat k -> (1 <= k <= fuel)%nat ->
  0 <= p -> p + Z.of_nat k <= Z.of_nat (length b) ->
  exists ds,
    ll2str_digits fuel b p v
    = Ret (firstn (Z.to_nat p) b ++ ds ++ skipn (Z.to_nat p + length ds) b,
           p + Z.of_nat (length ds))
    /\ (1 <= length ds <= k)%nat /\ Forall is_digit ds
    /\ decimal_value (rev ds) = v
    /\ (ds = [48] \/ List.last ds 0 <> 48).
Proof.
  induction fuel as [|fuel IH]; intros k b p v Hv Hk Hp Hb; [lia|].
  cbn [ll2str_digits].
  destruct (store_ok b p [48 + v mod 10]) as [E Hl]; [lia|cbn [length]; lia|].
  rewrite E. cbn [obind]. cbv beta.
  set (d := 48 + v mod 10) in *.
  set (b1 := firstn (Z.to_nat p) b ++ [d] ++ skipn (Z.to_nat p + length [d]) b) in *.
  assert (Hd : is_digit d).
  { unfold is_digit, d. pose proof (Z.mod_pos_bound v 10). lia. }
  destruct (Z.eqb_spec (v / 10) 0) as [Hz|Hz]; cbn [negb].
  - exists [d]. cbn [length].
    assert (Hv10 : v mod 10 = v).
    { pose proof (Z.div_mod v 10). lia. }
    split; [reflexivity|]. split; [lia|]. split; [constructor; [exact Hd|constructor]|].
    split.
    + cbn. unfold d. lia.
    + destruct (Z.eq_dec v 0) as [->|Hn]; [left; reflexivity|right].
      cbn [List.last]. unfold d. lia.
  - assert (H10 : 10 <= v).
    { destruct (Z.lt_ge_cases v 10) as [Hs|Hs]; [|exact Hs].
      exfalso. apply Hz. apply Z.div_small. lia. }
    assert (Hk2 : (2 <= k)%nat).
    { destruct k as [|[|k]]; [lia| |lia]. change (10 ^ Z.of_nat 1) with 10 in Hv. lia. }
    destruct (IH (k - 1)%nat b1 (p + 1) (v / 10)) as (ds & Er & Hn & Hf & Hval & Hlast).
    + split; [apply Z.div_pos; lia|].
      apply Z.div_lt_upper_bound; [lia|].
      replace (10 * 10 ^ Z.of_nat (k - 1)) with (10 ^ Z.of_nat k); [lia|].
      replace (Z.of_nat k) with (Z.succ (Z.of_nat (k - 1))) by lia.
      rewrite Z.pow_succ_r by lia. reflexivity.
    + lia.
    + lia.
    + rewrite Hl. lia.
    + exists (d :: ds). rewrite Er. cbn [length].
      split.
      { f_equal. f_equal.
        - assert (Hb1 : b1 = (firstn (Z.to_nat p) b ++ [d]) ++ skipn (Z.to_nat p + 1) b).
          { unfold b1. cbn [length]. rewrite <- app_assoc. reflexivity. }
          assert (Hlen : length (firstn (Z.to_nat p) b ++ [d]) = Z.to_nat (p + 1)).
          { rewrite length_app, length_take. cbn [length]. lia. }
          rewrite Hb1.
          rewrite (take_app_length' _ _ (Z.to_nat (p + 1))) by (symmetry; exact Hlen).
          replace (Z.to_nat (p + 1) + length ds)%nat
            with (length (firstn (Z.to_nat p) b ++ [d]) + length ds)%nat by lia.
          rewrite drop_app_add, drop_drop.
          rewrite <- !app_assoc. cbn [app].
          do 4 f_equal. lia.
        - lia. }
      split; [lia|]. split; [constructor; assumption|]. split.
      { cbn [rev]. rewrite decimal_value_snoc, Hval. unfold d.
        pose proof (Z.div_mod v 10). lia. }
      right. destruct Hlast as [->|Hlast].
      * exfalso. apply Hz. rewrite <- Hval. reflexivity.
      * destruct ds as [|c ds]; [cbn [length] in Hn; lia|]. exact Hlast.
Qed.

Lemma ll2str_reverse_ok : forall (fuel : nat) (mid pre post : list Z),
  (length mid <= fuel)%nat -> (1 <= fuel)%nat ->
  ll2str_reverse fuel (pre ++ mid ++ post) (Z.of_nat (length pre))
                 (Z.of_nat (length pre) + Z.of_nat (length mid) - 1)
  = Ret (pre ++ rev mid ++ post).
Proof.
  induction fuel as [|fuel IH]; intros mid pre post Hm Hf; [lia|].
  cbn [ll2str_reverse].
  destruct mid as [|x mid].
  { cbn [length]. destruct (Z.ltb_spec (Z.of_nat (length pre)) (Z.of_nat (length pre) + Z.of_nat 0 - 1)); [lia|].
    reflexivity. }
  destruct mid as [|x' mid'].
  { cbn [length]. destruct (Z.ltb_spec (Z.of_nat (length pre)) (Z.of_nat (length pre) + Z.of_nat 1 - 1)); [lia|].
    reflexivity. }
  assert (Hne : x' :: mid' <> []) by discriminate.
  destruct (exists_last Hne) as (m & y & Hmy). rewrite Hmy in *. clear Hne Hmy x' mid'.
  cbn [length] in *. rewrite length_app in *. cbn [length] in *.
  destruct (Z.ltb_spec (Z.of_nat (length pre))
              (Z.of_nat (length pre) + Z.of_nat (S (length m + 1)) - 1)); [|lia].
  cbn [app]. rewrite (zlookup_mid pre _ x _ eq_refl).
  assert (Hsplit : forall a c, pre ++ a :: (m ++ [c]) ++ post = (pre ++ a :: m) ++ c :: post).
  { intros a c. rewrite <- !app_assoc. reflexivity. }
  assert (Hi : Z.of_nat (length pre) + Z.of_nat (S (length m + 1)) - 1
               = Z.of_nat (length (pre ++ x :: m))).
  { rewrite length_app. cbn [length]. lia. }
  rewrite (Hsplit x y), (zlookup_mid (pre ++ x :: m) post y _ Hi).
  rewrite <- (Hsplit x y), (store_mid pre _ x y _ eq_refl). cbn [obind]. cbv beta.
  assert (Hi' : Z.of_nat (length pre) + Z.of_nat (S (length m + 1)) - 1
                = Z.of_nat (length (pre ++ y :: m))).
  { rewrite length_app. cbn [length]. lia. }
  rewrite (Hsplit y y), (store_mid (pre ++ y :: m) post y x _ Hi'). cbn [obind]. cbv beta.
  replace ((pre ++ y :: m) ++ x :: post) with ((pre ++ [y]) ++ m ++ ([x] ++ post))
    by (rewrite <- !app_assoc; reflexivity).
  replace (Z.of_nat (length pre) + 1) with (Z.of_nat (length (pre ++ [y])))
    by (rewrite length_app; cbn [length]; lia).
  replace (Z.of_nat (length pre) + Z.of_nat (S (length m + 1)) - 1 - 1)
    with (Z.of_nat (length (pre ++ [y])) + Z.of_nat (length m) - 1)
    by (rewrite length_app; cbn [length]; lia).
  rewrite IH by lia.
  cbn [rev]. rewrite rev_app_distr. cbn [rev app].
  rewrite <- !app_assoc. reflexivity.
Qed.

Lemma drop_next (b : list Z) (n : nat) :
  (n < length b)%nat -> exists c, skipn n b = c :: skipn (S n) b.
Proof.
  intros H. destruct (lookup_lt_is_Some_2 b n H) as [c Hc].
  exists c. apply drop_S. exact Hc.
Qed.

(** The end of [sdsll2str] and [sdsull2str]: the terminator is written
    after the [str] the loop left, and [str] is reversed. *)
Lemma ll2str_finish (str b : list Z) (p : Z) :
  p = Z.of_nat (length str) -> (1 <= length str)%nat -> (length str < length b)%nat ->
  (b' <- store (str ++ skipn (length str) b) p [0] ;;
   b'' <- ll2str_reverse (S (Z.to_nat (p - 1))) b' 0 (p - 1) ;;
   Ret (b'', p))
  = Ret (rev str ++ 0 :: skipn (S (length str)) b, p).
Proof.
  intros -> H1 Hb.
  destruct (drop_next b (length str) Hb) as [c ->].
  rewrite (store_mid str _ c 0 _ eq_refl). cbn [obind]. cbv beta.
  pose proof (ll2str_reverse_ok (S (Z.to_nat (Z.of_nat (length str) - 1))) str []
                (0 :: skipn (S (length str)) b)) as R.
  cbn [length app] in R. change (Z.of_nat 0) with 0 in R. rewrite Z.add_0_l in R.
  rewrite R by lia. reflexivity.
Qed.

Lemma hd_rev (ds : list Z) : hd 0 (rev ds) = List.last ds 0.
Proof.
  induction ds as [|d ds IH] using rev_ind; [reflexivity|].
  rewrite rev_app_distr, last_last. reflexivity.
Qed.

Lemma canonical_rev (dr : list Z) :
  dr = [48] \/ List.last dr 0 <> 48 -> rev dr = [48] \/ hd 0 (rev dr) <> 48.
Proof.
  intros [->|H]; [left; reflexivity|right]. rewrite hd_rev. exact H.
Qed.

(** X29. [sdsull2str] writes the decimal digits of [v], most significant
    first and without leading zeros, then a 0 byte, into a buffer of
    [SDS_LLSTR_SIZE] bytes or more, leaves the bytes after them as they
    were, and returns the number of digits, at most 20. *)
Theorem sdsull2str_spec (b : list Z) (v : Z) :
  0 <= v < 2^64 -> SDS_LLSTR_SIZE <= Z.of_nat (length b) ->
  exists ds,
    sdsull2str b v = Ret (ds ++ 0 :: skipn (S (length ds)) b, Z.of_nat (length ds))
    /\ (1 <= length ds <= 20)%nat /\ Forall is_digit ds /\ decimal_value ds = v
    /\ (ds = [48] \/ hd 0 ds <> 48).
Proof.
  intros Hv Hb. unfold SDS_LLSTR_SIZE in Hb.
  destruct (ll2str_digits_ok 20 20 b 0 v) as (dr & E & Hn & Hf & Hval & Hc);
    [change (Z.of_nat 20) with 20; lia|lia|lia|change (Z.of_nat 20) with 20; lia|].
  change (Z.to_nat 0) with 0%nat in E. rewrite take_0 in E. cbn [app Nat.add] in E.
  rewrite Z.add_0_l in E.
  exists (rev dr). rewrite length_rev.
  unfold sdsull2str. rewrite E. cbn [obind]. cbv beta iota zeta.
  rewrite (ll2str_finish dr b _ eq_refl) by lia.
  split; [reflexivity|]. split; [exact Hn|].
  split; [apply Forall_rev; exact Hf|]. split; [exact Hval|].
  apply canonical_rev. exact Hc.
Qed.

Lemma sdsll2str_ok (b : list Z) (value : Z) :
  - 2^63 < value < 2^63 -> SDS_LLSTR_SIZE <= Z.of_nat (length b) ->
  exists ds,
    sdsll2str b value
    = Ret (with_sign value ds ++ 0 :: skipn (S (length (with_sign value ds))) b,
           Z.of_nat (length (with_sign value ds)))
    /\ (1 <= length ds)%nat /\ (length (with_sign value ds) <= 20)%nat
    /\ Forall is_digit ds /\ decimal_value ds = Z.abs value
    /\ (ds = [48] \/ hd 0 ds <> 48).
Proof.
  intros Hv Hb. unfold SDS_LLSTR_SIZE in Hb. unfold sdsll2str, with_sign.
  destruct (Z.ltb_spec value 0) as [Hneg|Hpos].
  - unfold LLONG_MAX. destruct (Z.ltb_spec (2 ^ 63 - 1) (- value)); [lia|].
    cbn [obind]. cbv beta.
    destruct (ll2str_digits_ok 20 19 b 0 (- value)) as (dr & E & Hn & Hf & Hval & Hc);
      [change (Z.of_nat 19) with 19; lia|lia|lia|change (Z.of_nat 19) with 19; lia|].
    change (Z.to_nat 0) with 0%nat in E. rewrite take_0 in E. cbn [app Nat.add] in E.
    rewrite Z.add_0_l in E.
    exists (rev dr). rewrite E. cbn [obind]. cbv beta iota zeta.
    destruct (drop_next b (length dr)) as [c Hc']; [lia|].
    rewrite Hc', (store_mid dr _ c 45 _ eq_refl). cbn [obind]. cbv beta iota zeta.
    assert (Hl : length (dr ++ [45]) = S (length dr)).
    { rewrite length_app. cbn [length]. lia. }
    replace (dr ++ 45 :: skipn (S (length dr)) b)
      with ((dr ++ [45]) ++ skipn (length (dr ++ [45])) b)
      by (rewrite Hl, <- app_assoc; reflexivity).
    rewrite (ll2str_finish (dr ++ [45]) b) by (rewrite ?Hl; lia).
    rewrite rev_app_distr. cbn [rev app length]. rewrite length_rev, Hl.
    split; [f_equal; f_equal; lia|]. split; [lia|]. split; [lia|].
    split; [apply Forall_rev; exact Hf|]. split; [lia|].
    apply canonical_rev. exact Hc.
  - cbn [obind]. cbv beta.
    destruct (ll2str_digits_ok 20 20 b 0 value) as (dr & E & Hn & Hf & Hval & Hc);
      [change (Z.of_nat 20) with 20; lia|lia|lia|change (Z.of_nat 20) with 20; lia|].
    change (Z.to_nat 0) with 0%nat in E. rewrite take_0 in E. cbn [app Nat.add] in E.
    rewrite Z.add_0_l in E.
    exists (rev dr). rewrite E. cbn [obind]. cbv beta iota zeta.
    rewrite (ll2str_finish dr b _ eq_refl) by lia.
    rewrite length_rev.
    split; [reflexivity|]. split; [lia|]. split; [lia|].
    split; [apply Forall_rev; exact Hf|]. split; [lia|].
    apply canonical_rev. exact Hc.
Qed.

Lemma sdsull2str_spec_witness :
  exists ds,
    sdsull2str (repeat 7 21) (2^64 - 1)
    = Ret (ds ++ 0 :: skipn (S (length ds)) (repeat 7 21), Z.of_nat (length ds))
    /\ (1 <= length ds <= 20)%nat /\ Forall is_digit ds /\ decimal_value ds = 2^64 - 1
    /\ (ds = [48] \/ hd 0 ds <> 48).
Proof.
  apply (sdsull2str_spec (repeat 7 21) (2^64 - 1)).
  - vm_compute. split; [discriminate|reflexivity].
  - vm_compute. discriminate.
Defined.

Example sdsull2str_example :
  sdsull2str (repeat 7 21) 1203
  = Ret ([49; 50; 48; 51; 0] ++ repeat 7 16, 4).
Proof. vm_compute. reflexivity. Qed.

(** [-value] overflows for the least [long long], whatever the buffer. *)
Example sdsll2str_LLONG_MIN (b : list Z) : sdsll2str b (- 2^63) = UB.
Proof. reflexivity. Qed.

(** X30. [sdsfromlonglong] of a [value] other than the least [long long]
    makes the string of the decimal digits of its absolute value, most
    significant first and without leading zeros, after a [-] if it is
    negative: a type 5 string of 20 bytes at most, followed by a 0 byte.
    It returns NULL when the allocation fails. *)
Theorem sdsfromlonglong_spec (fresh stack : nat -> Z) (value : Z) :
  - 2^63 < value < 2^63 ->
  sdsfromlonglong fresh stack false value = Ret None
  /\ exists s ds,
       sdsfromlonglong fresh stack true value = Ret (Some s)
       /\ payload s = with_sign value ds
       /\ buf s = with_sign value ds ++ [0]
       /\ sdslen s = Z.of_nat (length (with_sign value ds)) /\ sdslen s <= 20
       /\ sdstype s = SDS_TYPE_5
       /\ Forall is_digit ds /\ decimal_value ds = Z.abs value
       /\ (ds = [48] \/ hd 0 ds <> 48).
Proof.
  intros Hv.
  destruct (sdsll2str_ok (map stack (seq 0 (Z.to_nat SDS_LLSTR_SIZE))) value Hv)
    as (ds & E & Hn & Hl & Hf & Hval & Hc).
  { rewrite length_map, length_seq. vm_compute. discriminate. }
  unfold sdsfromlonglong. rewrite E. cbn [obind]. cbv beta iota.
  set (str := with_sign value ds) in *.
  set (rest := skipn (S (length str)) (map stack (seq 0 (Z.to_nat SDS_LLSTR_SIZE)))) in *.
  assert (Hstr : (1 <= length str)%nat).
  { unfold str, with_sign. destruct (value <? 0); cbn [length]; lia. }
  assert (Htake : firstn (Z.to_nat (Z.of_nat (length str))) (str ++ 0 :: rest) = str).
  { rewrite Nat2Z.id. apply take_app_length. }
  split; [reflexivity|].
  destruct (sdsnewlen_take fresh (str ++ 0 :: rest) (Z.of_nat (length str)))
    as (s & Es & Ht & Hlen & _ & Hbuf).
  { rewrite length_app. lia. }
  { lia. }
  rewrite Htake in Hbuf.
  destruct (Z.eqb_spec (Z.of_nat (length str)) 0) as [|_] in Ht; [lia|].
  destruct (Z.ltb_spec (Z.of_nat (length str)) 32) as [_|] in Ht; [|lia].
  exists s, ds. fold str. split; [exact Es|]. split.
  { rewrite <- Htake. apply (payload_newlen s (str ++ 0 :: rest)).
    - rewrite length_app. lia.
    - exact Hlen.
    - rewrite Htake. exact Hbuf. }
  split; [exact Hbuf|]. split; [exact Hlen|]. split; [lia|].
  split; [exact Ht|]. split; [exact Hf|]. split; [exact Hval|exact Hc].
Qed.

Lemma sdsfromlonglong_spec_witness :
  sdsfromlonglong (fun _ => 0) (fun _ => 7) false (- 9223372036854775807) = Ret None
  /\ exists s ds,
       sdsfromlonglong (fun _ => 0) (fun _ => 7) true (- 9223372036854775807) = Ret (Some s)
       /\ payload s = with_sign (- 9223372036854775807) ds
       /\ buf s = with_sign (- 9223372036854775807) ds ++ [0]
       /\ sdslen s = Z.of_nat (length (with_sign (- 9223372036854775807) ds))
       /\ sdslen s <= 20
       /\ sdstype s = SDS_TYPE_5
       /\ Forall is_digit ds /\ decimal_value ds = Z.abs (- 9223372036854775807)
       /\ (ds = [48] \/ hd 0 ds <> 48).
Proof.
  apply (sdsfromlonglong_spec (fun _ => 0) (fun _ => 7) (- 9223372036854775807)).
  vm_compute. split; reflexivity.
Defined.

Example sdsfromlonglong_example :
  sdsfromlonglong (fun _ => 0) (fun _ => 7) true (- 45)
  = Ret (Some (mkSds 24 0 0 [45; 52; 53; 0])).
Proof. vm_compute. reflexivity. Qed.

End SdsOps.


(** ** zipmap *)

Module ZipmapFacts.
Import Zipmap.

(** C8. From the empty zipmap ([00 FF]), setting "foo" to "bar" and then
    "hello" to "world" gives the 24 bytes
    [02 03 'f' 'o' 'o' 03 00 'b' 'a' 'r' 05 'h' 'e' 'l' 'l' 'o' 05 00 'w' 'o' 'r' 'l' 'd' FF],
    whatever the memory added by the reallocations holds. *)
Theorem zipmap_layout (fresh : nat -> Z) :
  zipmapNew = [0; 255]
  /\ exists zm,
       zipmapSet fresh zipmapNew [102; 111; 111] 3 [98; 97; 114] 3 = Ret (zm, 0)
       /\ zipmapSet fresh zm [104; 101; 108; 108; 111] 5 [119; 111; 114; 108; 100] 5
          = Ret ([2; 3; 102; 111; 111; 3; 0; 98; 97; 114;
                  5; 104; 101; 108; 108; 111; 5; 0; 119; 111; 114; 108; 100; 255], 0).
Proof.
  split; [reflexivity|]. eexists. split; [vm_compute; reflexivity|].
  vm_compute. reflexivity.
Qed.


Lemma zlen_app (a b : list Z) : zlen (a ++ b) = zlen a + zlen b.
Proof. unfold zlen. rewrite length_app. lia. Qed.

Lemma zlen_cons (x : Z) (a : list Z) : zlen (x :: a) = 1 + zlen a.
Proof. unfold zlen. simpl length. lia. Qed.

Lemma zlen_nonneg (a : list Z) : 0 <= zlen a.
Proof. unfold zlen. lia. Qed.

Lemma rd_at (pre : list Z) (x : Z) (post : list Z) (p : Z) :
  p = zlen pre -> rd (pre ++ x :: post) p = Ret x.
Proof.
  intros ->. unfold rd, zlookup, zlen. destruct (Z.ltb_spec (Z.of_nat (length pre)) 0); [lia|].
  rewrite Nat2Z.id, list_lookup_middle; reflexivity.
Qed.

Lemma slice_at (pre mid post : list Z) (p n : Z) :
  p = zlen pre -> n = zlen mid -> slice (pre ++ mid ++ post) p n = Ret mid.
Proof.
  intros -> ->. unfold slice, zlen. rewrite !length_app.
  destruct (Z.ltb_spec (Z.of_nat (length pre)) 0); [lia|].
  destruct (Z.ltb_spec (Z.of_nat (length mid)) 0); [lia|].
  destruct (Z.ltb_spec (Z.of_nat (length pre + (length mid + length post)))
                       (Z.of_nat (length pre) + Z.of_nat (length mid))); [lia|].
  cbn [orb]. rewrite !Nat2Z.id. rewrite drop_app_length, take_app_length. reflexivity.
Qed.

Lemma wr_at (pre mid post : list Z) (p : Z) (new : list Z) :
  p = zlen pre -> length new = length mid ->
  wr (pre ++ mid ++ post) p new = Ret (pre ++ new ++ post).
Proof.
  intros -> Hl. unfold wr, zlen. rewrite !length_app.
  destruct (Z.ltb_spec (Z.of_nat (length pre)) 0); [lia|].
  destruct (Z.ltb_spec (Z.of_nat (length pre + (length mid + length post)))
                       (Z.of_nat (length pre) + Z.of_nat (length new))); [lia|].
  cbn [orb]. rewrite !Nat2Z.id. rewrite take_app_length.
  rewrite Hl, drop_app_add, drop_app_length. reflexivity.
Qed.

Lemma le32_length (l : Z) : length (le32 l) = 4%nat.
Proof. reflexivity. Qed.

Lemma of_le32_le32 (l : Z) : 0 <= l < 2^32 -> of_le32 (le32 l) = l.
Proof.
  intros H. unfold of_le32, le32.
  change (2^8) with 256. change (2^16) with 65536. change (2^24) with 16777216.
  change (2^32) with 4294967296 in H.
  Z.div_mod_to_equations. lia.
Qed.

Lemma enc_len_length (l : Z) : zlen (enc_len l) = ZIPMAP_LEN_BYTES l.
Proof.
  unfold enc_len, ZIPMAP_LEN_BYTES. destruct (l <? ZIPMAP_BIGLEN); reflexivity.
Qed.

Lemma enc_len_range (l : Z) : 1 <= zlen (enc_len l) <= 5.
Proof. rewrite enc_len_length. unfold ZIPMAP_LEN_BYTES. destruct (l <? _); lia. Qed.

(** Decoding reads back the length that was encoded. *)
Lemma decode_at (pre post : list Z) (l p : Z) :
  0 <= l < 2^32 -> p = zlen pre ->
  zipmapDecodeLength (pre ++ enc_len l ++ post) p = Ret l.
Proof.
  intros Hl Hp. unfold zipmapDecodeLength, enc_len.
  destruct (Z.ltb_spec l ZIPMAP_BIGLEN) as [Hs|Hb].
  - cbn [app]. rewrite rd_at by exact Hp. cbn [obind].
    destruct (Z.ltb_spec l ZIPMAP_BIGLEN); [reflexivity|lia].
  - cbn [app]. rewrite rd_at by exact Hp. cbn [obind].
    change (ZIPMAP_BIGLEN <? ZIPMAP_BIGLEN) with false. cbv iota.
    replace (pre ++ ZIPMAP_BIGLEN :: le32 l ++ post)
      with ((pre ++ [ZIPMAP_BIGLEN]) ++ le32 l ++ post)
      by (rewrite <- app_assoc; reflexivity).
    rewrite slice_at; [|rewrite zlen_app; unfold zlen at 2; simpl; lia|reflexivity].
    cbn [obind]. rewrite of_le32_le32 by exact Hl. reflexivity.
Qed.

(** The first byte of an entry is never the end marker. *)
Lemma enc_len_head (l : Z) :
  0 <= l -> exists b rest, enc_len l = b :: rest /\ b <> ZIPMAP_END.
Proof.
  intros H. unfold enc_len. destruct (Z.ltb_spec l ZIPMAP_BIGLEN).
  - exists l, []. split; [reflexivity|]. unfold ZIPMAP_BIGLEN, ZIPMAP_END in *. lia.
  - exists ZIPMAP_BIGLEN, (le32 l). split; [reflexivity|discriminate].
Qed.

Ltac list_norm := repeat (progress (rewrite <- ?app_assoc; cbn [app])).
Ltac list_eq := list_norm; reflexivity.
Ltac len_norm :=
  repeat (rewrite zlen_app || rewrite zlen_cons);
  change (zlen (@nil Z)) with 0.

Lemma rd_in (zm pre : list Z) (x : Z) (post : list Z) (p : Z) :
  zm = pre ++ x :: post -> p = zlen pre -> rd zm p = Ret x.
Proof. intros ->. apply rd_at. Qed.

Lemma slice_in (zm pre mid post : list Z) (p n : Z) :
  zm = pre ++ mid ++ post -> p = zlen pre -> n = zlen mid -> slice zm p n = Ret mid.
Proof. intros ->. apply slice_at. Qed.

Lemma wr_in (zm pre mid post : list Z) (p : Z) (new : list Z) :
  zm = pre ++ mid ++ post -> p = zlen pre -> zlen new = zlen mid ->
  wr zm p new = Ret (pre ++ new ++ post).
Proof. intros -> Hp Hl. apply wr_at; [exact Hp|]. unfold zlen in Hl. lia. Qed.

Lemma decode_in (zm pre post : list Z) (l p : Z) :
  zm = pre ++ enc_len l ++ post -> 0 <= l < 2^32 -> p = zlen pre ->
  zipmapDecodeLength zm p = Ret l.
Proof. intros ->. apply decode_at. Qed.

Lemma enc_entries_app (a b : list zentry) :
  enc_entries (a ++ b) = enc_entries a ++ enc_entries b.
Proof. unfold enc_entries. rewrite map_app, concat_app. reflexivity. Qed.

Lemma enc_entries_cons (e : zentry) (es : list zentry) :
  enc_entries (e :: es) = enc_entry e ++ enc_entries es.
Proof. reflexivity. Qed.

Lemma blob_split (n : Z) (es1 : list zentry) (e : zentry) (es2 : list zentry) :
  blob n (es1 ++ e :: es2)
  = (n :: enc_entries es1) ++ enc_len (zlen (zkey e)) ++ zkey e
    ++ enc_len (zlen (zval e)) ++ [zlen (zslack e)] ++ zval e ++ zslack e
    ++ enc_entries es2 ++ [ZIPMAP_END].
Proof.
  unfold blob. rewrite enc_entries_app, enc_entries_cons. unfold enc_entry. list_eq.
Qed.

Lemma zlen_enc_entry (e : zentry) :
  zlen (enc_entry e)
  = zlen (enc_len (zlen (zkey e))) + zlen (zkey e)
    + zlen (enc_len (zlen (zval e))) + 1 + zlen (zval e) + zlen (zslack e).
Proof. unfold enc_entry. len_norm. lia. Qed.

Lemma zlen_blob (n : Z) (es : list zentry) : zlen (blob n es) = zlen (enc_entries es) + 2.
Proof. unfold blob. len_norm. lia. Qed.

Lemma firstn_zlen (l : list Z) : firstn (Z.to_nat (zlen l)) l = l.
Proof. unfold zlen. rewrite Nat2Z.id. apply firstn_all. Qed.

(** The scan of [zipmapLookupRaw] from the entry that follows [es1]. *)
Lemma zipmapLookupRaw_loop_blob (key : list Z) (n : Z) (es2 : list zentry) :
  forall (es1 : list zentry) (fuel : nat) (k : option Z),
  zlen (blob n (es1 ++ es2)) < 2^32 ->
  Forall (fun e => zlen (zslack e) < 256) es2 ->
  (length es2 < fuel)%nat ->
  zipmapLookupRaw_loop fuel (blob n (es1 ++ es2)) (Some key) (zlen key)
                       (1 + zlen (enc_entries es1)) k
  = Ret (match k with
         | Some _ => k
         | None => find_off key (1 + zlen (enc_entries es1)) es2
         end, zlen (blob n (es1 ++ es2)) - 1).
Proof.
  induction es2 as [|e es2 IH]; intros es1 fuel k Hsz Hfree Hf;
    (destruct fuel as [|fuel]; [simpl in Hf; lia|]); cbn [zipmapLookupRaw_loop].
  - rewrite app_nil_r in *.
    rewrite (rd_in _ (n :: enc_entries es1) ZIPMAP_END []);
      [|reflexivity|len_norm; lia].
    cbn [obind]. change (ZIPMAP_END =? ZIPMAP_END) with true. cbv iota.
    rewrite zlen_blob. do 2 f_equal; [destruct k; reflexivity|lia].
  - pose proof (blob_split n es1 e es2) as Hs.
    set (zm := blob n (es1 ++ e :: es2)) in *.
    assert (Hlen : zlen zm = 1 + zlen (enc_entries es1) + zlen (enc_entry e)
                             + zlen (enc_entries es2) + 1).
    { rewrite Hs, zlen_enc_entry. len_norm. lia. }
    pose proof (zlen_enc_entry e) as He.
    pose proof (zlen_nonneg (enc_entries es1)). pose proof (zlen_nonneg (enc_entries es2)).
    pose proof (zlen_nonneg (zkey e)). pose proof (zlen_nonneg (zval e)).
    pose proof (zlen_nonneg (zslack e)).
    pose proof (enc_len_range (zlen (zkey e))). pose proof (enc_len_range (zlen (zval e))).
    destruct (enc_len_head (zlen (zkey e))) as (b & rest & Hb & Hne); [lia|].
    rewrite (rd_in zm (n :: enc_entries es1) b
               (rest ++ zkey e ++ enc_len (zlen (zval e)) ++ [zlen (zslack e)] ++ zval e
                ++ zslack e ++ enc_entries es2 ++ [ZIPMAP_END]));
      [|rewrite Hs, Hb; list_eq|len_norm; lia].
    cbn [obind]. destruct (Z.eqb_spec b ZIPMAP_END); [contradiction|].
    rewrite (decode_in zm (n :: enc_entries es1)
               (zkey e ++ enc_len (zlen (zval e)) ++ [zlen (zslack e)] ++ zval e
                ++ zslack e ++ enc_entries es2 ++ [ZIPMAP_END]) (zlen (zkey e)));
      [|rewrite Hs; reflexivity|lia|len_norm; lia].
    cbn [obind]. unfold zipmapEncodeLength_size. rewrite <- !enc_len_length.
    set (p := 1 + zlen (enc_entries es1)) in *.
    assert (Hhit : match k with
                   | None =>
                       if zlen (zkey e) =? zlen key
                       then a <- slice zm (p + zlen (enc_len (zlen (zkey e)))) (zlen (zkey e)) ;;
                            (if Z.of_nat (length key) <? zlen (zkey e) then UB
                             else Ret (bool_decide (a = firstn (Z.to_nat (zlen (zkey e))) key)))
                       else Ret false
                   | Some _ => Ret false
                   end
                   = Ret (match k with None => bool_decide (zkey e = key) | Some _ => false end)).
    { destruct k; [reflexivity|].
      destruct (Z.eqb_spec (zlen (zkey e)) (zlen key)) as [E|E].
      - rewrite (slice_in zm ((n :: enc_entries es1) ++ enc_len (zlen (zkey e))) (zkey e)
                   (enc_len (zlen (zval e)) ++ [zlen (zslack e)] ++ zval e
                    ++ zslack e ++ enc_entries es2 ++ [ZIPMAP_END]));
          [|rewrite Hs; list_eq|unfold p; len_norm; lia|reflexivity].
        cbn [obind]. fold (zlen key). rewrite E, Z.ltb_irrefl, firstn_zlen. reflexivity.
      - rewrite bool_decide_eq_false_2; [reflexivity|]. intros E'. apply E. rewrite E'.
        reflexivity. }
    rewrite Hhit. cbn [obind].
    rewrite wrap32_small by lia.
    rewrite (decode_in zm ((n :: enc_entries es1) ++ enc_len (zlen (zkey e)) ++ zkey e)
               ([zlen (zslack e)] ++ zval e ++ zslack e ++ enc_entries es2 ++ [ZIPMAP_END])
               (zlen (zval e)));
      [|rewrite Hs; list_eq|lia|unfold p; len_norm; lia].
    cbn [obind]. rewrite <- !enc_len_length.
    rewrite (rd_in zm ((n :: enc_entries es1) ++ enc_len (zlen (zkey e)) ++ zkey e
                       ++ enc_len (zlen (zval e))) (zlen (zslack e))
               (zval e ++ zslack e ++ enc_entries es2 ++ [ZIPMAP_END]));
      [|rewrite Hs; list_eq|unfold p; len_norm; lia].
    cbn [obind]. rewrite wrap32_small by lia.
    replace (p + (zlen (enc_len (zlen (zkey e))) + zlen (zkey e))
             + zlen (enc_len (zlen (zval e))) + (zlen (zval e) + 1 + zlen (zslack e)))
      with (1 + zlen (enc_entries (es1 ++ [e])))
      by (rewrite enc_entries_app; unfold p; len_norm; cbn [enc_entries map concat];
          rewrite app_nil_r; lia).
    unfold zm. replace (es1 ++ e :: es2) with ((es1 ++ [e]) ++ es2) by list_eq.
    inversion Hfree as [|? ? Hfe Hfr]; subst.
    rewrite IH; [|replace ((es1 ++ [e]) ++ es2) with (es1 ++ e :: es2) by list_eq; exact Hsz
                 |exact Hfr|simpl in Hf; lia].
    f_equal. f_equal. destruct k as [k0|]; [reflexivity|].
    cbn [find_off]. destruct (bool_decide (zkey e = key)); [reflexivity|].
    f_equal. rewrite enc_entries_app. unfold p. len_norm. cbn [enc_entries map concat].
    rewrite app_nil_r. lia.
Qed.

Lemma enc_entries_length (es : list zentry) :
  Z.of_nat (length es) <= zlen (enc_entries es).
Proof.
  induction es as [|e es IH]; [unfold zlen; simpl; lia|].
  rewrite enc_entries_cons, zlen_app, zlen_enc_entry. simpl length.
  pose proof (enc_len_range (zlen (zkey e))). pose proof (enc_len_range (zlen (zval e))).
  pose proof (zlen_nonneg (zkey e)). pose proof (zlen_nonneg (zval e)).
  pose proof (zlen_nonneg (zslack e)). lia.
Qed.

(** [zipmapLookupRaw] on a well-formed zipmap: the offset of the first
    entry with the key, and the length of the zipmap. *)
Lemma zipmapLookupRaw_blob (key : list Z) (n : Z) (es : list zentry) :
  zlen (blob n es) < 2^32 -> Forall (fun e => zlen (zslack e) < 256) es ->
  zipmapLookupRaw (blob n es) (Some key) (zlen key)
  = Ret (find_off key 1 es, zlen (blob n es)).
Proof.
  intros Hsz Hfree. unfold zipmapLookupRaw.
  pose proof (zipmapLookupRaw_loop_blob key n es [] (length (blob n es)) None) as H.
  cbn [app] in H. change (zlen (enc_entries [])) with 0 in H. rewrite Z.add_0_r in H.
  rewrite H; [|exact Hsz|exact Hfree|].
  - cbn [obind fst snd]. pose proof (zlen_nonneg (blob n es)).
    rewrite zlen_blob in *. pose proof (zlen_nonneg (enc_entries es)).
    rewrite (wrap32_small (zlen (enc_entries es) + 2 - 1)) by lia.
    rewrite wrap32_small by lia. do 2 f_equal. lia.
  - pose proof (enc_entries_length es). pose proof (zlen_blob n es). unfold zlen in *. lia.
Qed.

Lemma find_off_None (key val : list Z) (es : list zentry) :
  forall p, find_off key p es = None ->
  has_key key es = false /\ set_entries key val es = es ++ [mkZentry key val []].
Proof.
  induction es as [|e es IH]; intros p H; [split; reflexivity|].
  cbn [find_off has_key existsb set_entries] in *.
  destruct (bool_decide (zkey e = key)); [discriminate|].
  destruct (IH _ H) as (Hh & Hs). fold (has_key key es). rewrite Hh, Hs. split; reflexivity.
Qed.

Lemma find_off_Some (key val : list Z) (es : list zentry) :
  forall p0 p, find_off key p0 es = Some p ->
  exists es1 e es2,
    es = es1 ++ e :: es2 /\ zkey e = key /\ p = p0 + zlen (enc_entries es1)
    /\ ~ In key (map zkey es1)
    /\ has_key key es = true
    /\ set_entries key val es = es1 ++ set_entry key val e :: es2.
Proof.
  induction es as [|e es IH]; intros p0 p H; [discriminate|].
  cbn [find_off has_key existsb set_entries] in *.
  destruct (bool_decide (zkey e = key)) eqn:E.
  - injection H as <-. apply bool_decide_eq_true_1 in E.
    exists [], e, es. change (zlen (enc_entries [])) with 0.
    split; [reflexivity|]. split; [exact E|]. split; [lia|]. split; [simpl; tauto|].
    split; reflexivity.
  - apply bool_decide_eq_false_1 in E.
    destruct (IH _ _ H) as (es1 & e1 & es2 & -> & Hk & Hp & Hn & Hh & Hs).
    exists (e :: es1), e1, es2. rewrite enc_entries_cons, zlen_app.
    split; [reflexivity|]. split; [exact Hk|]. split; [lia|].
    split; [simpl; intros [?|?]; [contradiction|contradiction]|].
    fold (has_key key (es1 ++ e1 :: es2)). rewrite Hh, Hs. split; reflexivity.
Qed.

Lemma split_at (l : list Z) (a : Z) :
  0 <= a <= zlen l -> exists l1 l2, l = l1 ++ l2 /\ zlen l1 = a.
Proof.
  intros H. exists (firstn (Z.to_nat a) l), (skipn (Z.to_nat a) l).
  split; [symmetry; apply firstn_skipn|]. unfold zlen in *. rewrite length_take. lia.
Qed.

Lemma encode_in (zm pre mid post : list Z) (l p : Z) :
  zm = pre ++ mid ++ post -> p = zlen pre -> zlen mid = zlen (enc_len l) ->
  0 <= l < 2^32 ->
  zipmapEncodeLength zm p l = Ret (pre ++ enc_len l ++ post, zlen (enc_len l)).
Proof.
  intros Hz Hp Hm Hl. unfold zipmapEncodeLength, enc_len in *.
  destruct (Z.ltb_spec l ZIPMAP_BIGLEN) as [Hs|Hb].
  - rewrite (wr_in zm pre mid post); [|exact Hz|exact Hp|rewrite Hm; reflexivity].
    cbn [obind]. unfold wrap8. rewrite Z.mod_small by (unfold ZIPMAP_BIGLEN in *; lia).
    reflexivity.
  - destruct mid as [|m0 mid]; [discriminate|].
    rewrite (wr_in zm pre [m0] (mid ++ post)); [|rewrite Hz; list_eq|exact Hp|reflexivity].
    cbn [obind].
    rewrite (wr_in _ (pre ++ [ZIPMAP_BIGLEN]) mid post);
      [|list_eq|len_norm; lia|rewrite !zlen_cons in Hm; unfold zlen in *; simpl in *; lia].
    cbn [obind]. f_equal. f_equal. list_eq.
Qed.

(** [zipmapResize] to a larger size: the bytes stay, the last byte is the
    end marker. *)
Lemma zipmapResize_grow (fresh : nat -> Z) (zm : zipmap) (d : Z) :
  1 <= d ->
  exists F, zlen F = d - 1
            /\ zipmapResize fresh zm (zlen zm + d) = Ret (zm ++ F ++ [ZIPMAP_END]).
Proof.
  intros Hd. unfold zipmapResize.
  pose proof (zlen_nonneg zm) as Hz.
  rewrite firstn_all2 by (unfold zlen in *; lia).
  set (G := map fresh (seq (length zm) (Z.to_nat (zlen zm + d) - length zm))).
  assert (HG : zlen G = d).
  { unfold G, zlen. rewrite length_map, length_seq. unfold zlen. lia. }
  destruct (split_at G (d - 1)) as (F & g & HF & HlF); [lia|].
  exists F. split; [exact HlF|].
  assert (Hg : zlen g = 1) by (rewrite HF, zlen_app in HG; lia).
  rewrite (wr_in _ (zm ++ F) g []); [|rewrite HF, app_nil_r; list_eq|len_norm; lia|rewrite Hg; reflexivity].
  f_equal. list_eq.
Qed.

(** [zipmapResize] to a smaller size. *)
Lemma zipmapResize_shrink (fresh : nat -> Z) (a : list Z) (x : Z) (b : list Z) (n : Z) :
  n = zlen a + 1 ->
  zipmapResize fresh (a ++ x :: b) n = Ret (a ++ [ZIPMAP_END]).
Proof.
  intros ->. unfold zipmapResize. pose proof (zlen_nonneg a).
  replace (Z.to_nat (zlen a + 1)) with (length a + 1)%nat by (unfold zlen; lia).
  replace (a ++ x :: b) with ((a ++ [x]) ++ b) by list_eq.
  rewrite take_app_length' by (rewrite length_app; simpl; lia).
  replace (length a + 1 - length ((a ++ [x]) ++ b))%nat with 0%nat
    by (rewrite !length_app; simpl; lia).
  cbn [seq map]. rewrite app_nil_r.
  rewrite (wr_in _ a [x] []); [|reflexivity|lia|reflexivity]. reflexivity.
Qed.

Lemma memmove_in (zm pre1 mid post1 pre2 old2 post2 : list Z) (dst src n : Z) :
  zm = pre1 ++ mid ++ post1 -> src = zlen pre1 -> n = zlen mid ->
  zm = pre2 ++ old2 ++ post2 -> dst = zlen pre2 -> zlen old2 = zlen mid ->
  memmove zm dst src n = Ret (pre2 ++ mid ++ post2).
Proof.
  intros H1 Hs Hn H2 Hd Hl. unfold memmove.
  rewrite (slice_in zm pre1 mid post1) by assumption. cbn [obind].
  apply (wr_in zm pre2 old2 post2); [exact H2|exact Hd|symmetry; exact Hl].
Qed.

Lemma zipmapRequiredLength_entry (key val : list Z) :
  entry_size key val < 2^32 ->
  zipmapRequiredLength (zlen key) (zlen val) = entry_size key val.
Proof.
  unfold zipmapRequiredLength, entry_size. rewrite !enc_len_length.
  unfold ZIPMAP_LEN_BYTES, ZIPMAP_BIGLEN.
  pose proof (zlen_nonneg key). pose proof (zlen_nonneg val). intros Hb.
  destruct (Z.ltb_spec (zlen key) 254); destruct (Z.leb_spec 254 (zlen key)); try lia;
    destruct (Z.ltb_spec (zlen val) 254); destruct (Z.leb_spec 254 (zlen val)); try lia;
    cbv zeta;
    rewrite (wrap32_small (zlen key + zlen val + 3)) by lia;
    rewrite ?(wrap32_small (zlen key + zlen val + 3 + 4)) by lia;
    rewrite ?(wrap32_small (zlen key + zlen val + 3 + 4 + 4)) by lia; lia.
Qed.

(** [zipmapRawEntryLength] at the offset of an entry is the number of its
    bytes, slack included. *)
Lemma zipmapRawEntryLength_in (zm pre : list Z) (e : zentry) (post : list Z) (p : Z) :
  zm = pre ++ enc_entry e ++ post -> p = zlen pre ->
  zlen (enc_entry e) < 2^32 ->
  zipmapRawEntryLength zm p = Ret (zlen (enc_entry e)).
Proof.
  intros Hz Hp Hsz. rewrite zlen_enc_entry in *.
  pose proof (zlen_nonneg (zkey e)). pose proof (zlen_nonneg (zval e)).
  pose proof (zlen_nonneg (zslack e)).
  pose proof (enc_len_range (zlen (zkey e))). pose proof (enc_len_range (zlen (zval e))).
  unfold zipmapRawEntryLength, zipmapRawKeyLength, zipmapRawValueLength,
    zipmapEncodeLength_size.
  rewrite (decode_in zm pre (zkey e ++ enc_len (zlen (zval e)) ++ [zlen (zslack e)]
                               ++ zval e ++ zslack e ++ post) (zlen (zkey e)));
    [|rewrite Hz; unfold enc_entry; list_eq|lia|exact Hp].
  cbn [obind]. rewrite <- !enc_len_length.
  rewrite (wrap32_small (zlen (enc_len (zlen (zkey e))) + zlen (zkey e))) by lia.
  rewrite (decode_in zm (pre ++ enc_len (zlen (zkey e)) ++ zkey e)
             ([zlen (zslack e)] ++ zval e ++ zslack e ++ post) (zlen (zval e)));
    [|rewrite Hz; unfold enc_entry; list_eq|lia|len_norm; lia].
  cbn [obind].
  rewrite <- !enc_len_length.
  rewrite (rd_in zm (pre ++ enc_len (zlen (zkey e)) ++ zkey e ++ enc_len (zlen (zval e)))
             (zlen (zslack e)) (zval e ++ zslack e ++ post));
    [|rewrite Hz; unfold enc_entry; list_eq|len_norm; lia].
  cbn [obind].
  rewrite (wrap32_small (zlen (zslack e) + 1)) by lia.
  rewrite (wrap32_small (zlen (zslack e) + 1 + zlen (zval e))) by lia.
  rewrite (wrap32_small (zlen (enc_len (zlen (zval e))) + _)) by lia.
  rewrite wrap32_small by lia. f_equal. lia.
Qed.

(** The writes that end [zipmapSet]: the entry is laid out over the
    [entry_size key val] bytes at [p]. *)
Lemma write_entry (zm pre junk post key val : list Z) (p vempty upd : Z) :
  zm = pre ++ junk ++ post -> p = zlen pre -> zlen junk = entry_size key val ->
  zlen key < 2^32 -> zlen val < 2^32 -> 0 <= vempty < 256 ->
  (r <- zipmapEncodeLength zm p (zlen key) ;;
   let p := p + snd r in
   if Z.of_nat (length key) <? zlen key then UB
   else
     zm <- wr (fst r) p (firstn (Z.to_nat (zlen key)) key) ;;
     let p := p + zlen key in
     r <- zipmapEncodeLength zm p (zlen val) ;;
     let p := p + snd r in
     zm <- wr (fst r) p [wrap8 vempty] ;;
     let p := p + 1 in
     if Z.of_nat (length val) <? zlen val then UB
     else
       zm <- wr zm p (firstn (Z.to_nat (zlen val)) val) ;;
       Ret (zm, upd))
  = Ret (pre ++ enc_len (zlen key) ++ key ++ enc_len (zlen val) ++ [vempty] ++ val ++ post,
         upd).
Proof.
  intros Hz Hp Hj Hk Hv He. unfold entry_size in Hj.
  pose proof (zlen_nonneg key). pose proof (zlen_nonneg val).
  pose proof (enc_len_range (zlen key)). pose proof (enc_len_range (zlen val)).
  destruct (split_at junk (zlen (enc_len (zlen key)))) as (j1 & r1 & -> & L1); [lia|].
  rewrite zlen_app in Hj.
  destruct (split_at r1 (zlen key)) as (j2 & r2 & -> & L2); [lia|].
  rewrite zlen_app in Hj.
  destruct (split_at r2 (zlen (enc_len (zlen val)))) as (j3 & r3 & -> & L3); [lia|].
  rewrite zlen_app in Hj.
  destruct (split_at r3 1) as (j4 & j5 & -> & L4); [lia|].
  rewrite zlen_app in Hj.
  rewrite (encode_in zm pre j1 (j2 ++ j3 ++ j4 ++ j5 ++ post));
    [|rewrite Hz; list_eq|exact Hp|exact L1|lia].
  cbn [obind fst snd]. cbv zeta.
  replace (Z.of_nat (length key) <? zlen key) with false
    by (symmetry; apply Z.ltb_ge; unfold zlen; lia).
  rewrite firstn_zlen.
  rewrite (wr_in _ (pre ++ enc_len (zlen key)) j2 (j3 ++ j4 ++ j5 ++ post));
    [|list_eq|len_norm; lia|lia].
  cbn [obind].
  rewrite (encode_in _ (pre ++ enc_len (zlen key) ++ key) j3 (j4 ++ j5 ++ post));
    [|list_eq|len_norm; lia|exact L3|lia].
  cbn [obind fst snd].
  rewrite (wr_in _ (pre ++ enc_len (zlen key) ++ key ++ enc_len (zlen val)) j4 (j5 ++ post));
    [|list_eq|len_norm; lia|rewrite L4; reflexivity].
  cbn [obind].
  replace (Z.of_nat (length val) <? zlen val) with false
    by (symmetry; apply Z.ltb_ge; unfold zlen; lia).
  rewrite firstn_zlen.
  rewrite (wr_in _ (pre ++ enc_len (zlen key) ++ key ++ enc_len (zlen val) ++ [wrap8 vempty])
             j5 post); [|list_eq|len_norm; lia|lia].
  cbn [obind]. unfold wrap8. rewrite Z.mod_small by lia. f_equal. f_equal. list_eq.
Qed.

Lemma entry_size_min (key val : list Z) : 3 <= entry_size key val.
Proof.
  unfold entry_size. pose proof (enc_len_range (zlen key)).
  pose proof (enc_len_range (zlen val)).
  pose proof (zlen_nonneg key). pose proof (zlen_nonneg val). lia.
Qed.

(** [zipmapSet] of a key the zipmap does not hold: the entry is added at
    the end. *)
Lemma zipmapSet_insert (fresh : nat -> Z) (n : Z) (es : list zentry) (key val : list Z) :
  zm_wf n es ->
  zlen (blob n es) + entry_size key val < 2^32 ->
  find_off key 1 es = None ->
  zipmapSet fresh (blob n es) key (zlen key) val (zlen val)
  = Ret (blob (if n <? ZIPMAP_BIGLEN then n + 1 else n) (es ++ [mkZentry key val []]), 0).
Proof.
  intros [Hn Hfree] Hsz Hfind.
  pose proof (entry_size_min key val) as Hmin.
  pose proof (zlen_nonneg (blob n es)) as Hz0.
  pose proof (zlen_nonneg key). pose proof (zlen_nonneg val).
  pose proof (enc_len_range (zlen key)). pose proof (enc_len_range (zlen val)).
  assert (Hk : zlen key < 2^32) by (unfold entry_size in *; lia).
  assert (Hv : zlen val < 2^32) by (unfold entry_size in *; lia).
  unfold zipmapSet. rewrite zipmapRequiredLength_entry by lia. cbv zeta.
  rewrite zipmapLookupRaw_blob by (assumption || lia).
  cbn [obind]. rewrite Hfind. cbv beta iota.
  rewrite (wrap32_small (zlen (blob n es) + entry_size key val)) by lia.
  destruct (zipmapResize_grow fresh (blob n es) (entry_size key val)) as (F & HF & ->); [lia|].
  cbn [obind].
  rewrite (rd_in _ [] n (enc_entries es ++ [ZIPMAP_END] ++ F ++ [ZIPMAP_END]));
    [|unfold blob; list_eq|reflexivity].
  cbn [obind].
  assert (Hend : forall m, 0 <= m < 256 ->
            (st <- Ret (m :: enc_entries es ++ [ZIPMAP_END] ++ F ++ [ZIPMAP_END],
                        zlen (blob n es) - 1, zlen (blob n es) + entry_size key val,
                        entry_size key val, 0) ;;
             let '(zm, p, zmlen, freelen, update) := st in
             let empty := wrap32 (freelen - entry_size key val) in
             st <- (if ZIPMAP_VALUE_MAX_FREE <=? empty then
                      let offset := wrap32 p in
                      zm <- memmove zm (p + entry_size key val) (p + freelen)
                              (wrap32 (zmlen - wrap32 (wrap32 (offset + freelen) + 1))) ;;
                      let zmlen := wrap32 (zmlen - empty) in
                      zm <- zipmapResize fresh zm zmlen ;;
                      Ret (zm, offset, 0)
                    else Ret (zm, p, empty)) ;;
             let '(zm, p, vempty) := st in
             r <- zipmapEncodeLength zm p (zlen key) ;;
             let p := p + snd r in
             if Z.of_nat (length key) <? zlen key then UB
             else
               zm <- wr (fst r) p (firstn (Z.to_nat (zlen key)) key) ;;
               let p := p + zlen key in
               r <- zipmapEncodeLength zm p (zlen val) ;;
               let p := p + snd r in
               zm <- wr (fst r) p [wrap8 vempty] ;;
               let p := p + 1 in
               if Z.of_nat (length val) <? zlen val then UB
               else
                 zm <- wr zm p (firstn (Z.to_nat (zlen val)) val) ;;
                 Ret (zm, update))
            = Ret (blob m (es ++ [mkZentry key val []]), 0)).
  { intros m Hm. cbn [obind]. cbv beta iota zeta.
    rewrite Z.sub_diag. change (wrap32 0) with 0.
    change (ZIPMAP_VALUE_MAX_FREE <=? 0) with false. cbv iota. cbn [obind]. cbv beta iota.
    rewrite (write_entry _ (m :: enc_entries es) ([ZIPMAP_END] ++ F) [ZIPMAP_END] key val);
      [|list_eq|rewrite zlen_blob; len_norm; lia|len_norm; lia|lia|lia|lia].
    f_equal. f_equal. unfold blob. rewrite enc_entries_app, enc_entries_cons.
    change (enc_entries []) with (@nil Z). unfold enc_entry. cbn [zkey zval zslack].
    change (zlen []) with 0. list_eq. }
  destruct (Z.ltb_spec n ZIPMAP_BIGLEN) as [Hs|Hb].
  - rewrite (wr_in _ [] [n] (enc_entries es ++ [ZIPMAP_END] ++ F ++ [ZIPMAP_END]));
      [|unfold blob; list_eq|reflexivity|reflexivity].
    cbn [obind app]. unfold wrap8. rewrite Z.mod_small by (unfold ZIPMAP_BIGLEN in *; lia).
    apply (Hend (n + 1)). unfold ZIPMAP_BIGLEN in *. lia.
  - cbn [obind]. replace (blob n es ++ F ++ [ZIPMAP_END])
      with (n :: enc_entries es ++ [ZIPMAP_END] ++ F ++ [ZIPMAP_END])
      by (unfold blob; list_eq).
    apply (Hend n). lia.
Qed.

Lemma blob_mid (n : Z) (es1 : list zentry) (e : zentry) (es2 : list zentry) :
  blob n (es1 ++ e :: es2)
  = (n :: enc_entries es1) ++ enc_entry e ++ enc_entries es2 ++ [ZIPMAP_END].
Proof. unfold blob. rewrite enc_entries_app, enc_entries_cons. list_eq. Qed.

(** The [memmove] of [zipmapSet] after the zipmap was enlarged: the tail
    moves up and leaves [req] bytes for the entry. *)
Lemma grow_move (pre old tail F : list Z) (req : Z) :
  zlen old < req -> zlen F = req - zlen old - 1 ->
  exists J, zlen J = req
    /\ memmove ((pre ++ old ++ tail ++ [ZIPMAP_END]) ++ F ++ [ZIPMAP_END])
               (zlen pre + req) (zlen pre + zlen old) (zlen tail)
       = Ret (pre ++ J ++ tail ++ [ZIPMAP_END]).
Proof.
  intros Hlt HF. pose proof (zlen_nonneg old). pose proof (zlen_nonneg tail).
  destruct (split_at (old ++ tail ++ [ZIPMAP_END] ++ F) req) as (J & M & HY & HJ);
    [len_norm; lia|].
  assert (HM : zlen M = zlen tail).
  { apply (f_equal zlen) in HY. revert HY. len_norm. lia. }
  exists J. split; [exact HJ|].
  rewrite (memmove_in _ (pre ++ old) tail ([ZIPMAP_END] ++ F ++ [ZIPMAP_END])
             (pre ++ J) M [ZIPMAP_END]);
    [list_eq|list_eq|len_norm; lia|reflexivity| |len_norm; lia|exact HM].
  transitivity (pre ++ (old ++ tail ++ [ZIPMAP_END] ++ F) ++ [ZIPMAP_END]); [list_eq|].
  rewrite HY. list_eq.
Qed.

(** The [memmove] of [zipmapSet] before the zipmap is made smaller. *)
Lemma shrink_move (pre old tail : list Z) (req : Z) :
  0 <= req <= zlen old ->
  exists x b,
    memmove (pre ++ old ++ tail ++ [ZIPMAP_END])
            (zlen pre + req) (zlen pre + zlen old) (zlen tail)
    = Ret ((pre ++ firstn (Z.to_nat req) old ++ tail) ++ x :: b).
Proof.
  intros Hreq. pose proof (zlen_nonneg tail).
  assert (HJ : zlen (firstn (Z.to_nat req) old) = req).
  { unfold zlen in *. rewrite length_take. lia. }
  assert (HS : zlen (skipn (Z.to_nat req) old) = zlen old - req).
  { unfold zlen in *. rewrite length_drop. lia. }
  destruct (split_at (skipn (Z.to_nat req) old ++ tail ++ [ZIPMAP_END]) (zlen tail))
    as (M & R & HY & HM); [len_norm; lia|].
  assert (HR : zlen R = zlen old - req + 1).
  { apply (f_equal zlen) in HY. revert HY. len_norm. lia. }
  destruct R as [|x b]; [change (zlen []) with 0 in HR; lia|].
  exists x, b.
  rewrite (memmove_in _ (pre ++ old) tail [ZIPMAP_END]
             (pre ++ firstn (Z.to_nat req) old) M (x :: b));
    [list_eq|list_eq|len_norm; lia|reflexivity| |len_norm; lia|exact HM].
  rewrite <- (firstn_skipn (Z.to_nat req) old) at 1.
  transitivity ((pre ++ firstn (Z.to_nat req) old)
                  ++ (skipn (Z.to_nat req) old ++ tail ++ [ZIPMAP_END])); [list_eq|].
  rewrite HY. list_eq.
Qed.

Lemma enc_entry_mk (k v sl : list Z) :
  enc_entry (mkZentry k v sl)
  = enc_len (zlen k) ++ k ++ enc_len (zlen v) ++ [zlen sl] ++ v ++ sl.
Proof. reflexivity. Qed.

Lemma zlen_take (l : list Z) (r : Z) :
  0 <= r <= zlen l -> zlen (firstn (Z.to_nat r) l) = r.
Proof. unfold zlen. rewrite length_take. lia. Qed.

Lemma zlen_drop (l : list Z) (r : Z) :
  0 <= r <= zlen l -> zlen (skipn (Z.to_nat r) l) = zlen l - r.
Proof. unfold zlen. rewrite length_drop. lia. Qed.

Ltac w32 :=
  repeat match goal with
         | |- context [wrap32 ?x] => rewrite (wrap32_small x) by lia
         end.

(** [zipmapSet] of a key the zipmap holds: the first entry with the key is
    rewritten in place. *)
Lemma zipmapSet_update (fresh : nat -> Z) (n : Z) (es1 : list zentry) (e : zentry)
    (es2 : list zentry) (val : list Z) :
  zm_wf n (es1 ++ e :: es2) ->
  zlen (blob n (es1 ++ e :: es2)) + entry_size (zkey e) val < 2^32 ->
  find_off (zkey e) 1 (es1 ++ e :: es2) = Some (1 + zlen (enc_entries es1)) ->
  zipmapSet fresh (blob n (es1 ++ e :: es2)) (zkey e) (zlen (zkey e)) val (zlen val)
  = Ret (blob n (es1 ++ set_entry (zkey e) val e :: es2), 1).
Proof.
  intros [Hn Hfree] Hsz Hfind.
  pose proof (entry_size_min (zkey e) val) as Hmin.
  pose proof (zlen_nonneg (zkey e)). pose proof (zlen_nonneg val).
  pose proof (enc_len_range (zlen (zkey e))). pose proof (enc_len_range (zlen val)).
  pose proof (zlen_nonneg (blob n (es1 ++ e :: es2))) as Hz0.
  assert (Hk : zlen (zkey e) < 2^32) by (unfold entry_size in *; lia).
  assert (Hv : zlen val < 2^32) by (unfold entry_size in *; lia).
  pose proof (zlen_nonneg (enc_entries es1)) as Hz1.
  pose proof (zlen_nonneg (enc_entries es2)) as Hz2.
  pose proof (zlen_nonneg (enc_entry e)) as Hze.
  assert (HZ : zlen (blob n (es1 ++ e :: es2))
               = zlen (enc_entries es1) + zlen (enc_entry e) + zlen (enc_entries es2) + 2).
  { rewrite blob_mid. len_norm. lia. }
  unfold zipmapSet. rewrite zipmapRequiredLength_entry by lia. cbv zeta.
  rewrite zipmapLookupRaw_blob by (assumption || lia).
  cbn [obind]. rewrite Hfind. cbv beta iota.
  rewrite (zipmapRawEntryLength_in _ (n :: enc_entries es1) e
             (enc_entries es2 ++ [ZIPMAP_END]));
    [|apply blob_mid|len_norm; lia|lia].
  cbn [obind]. rewrite HZ in *.
  set (pre := n :: enc_entries es1).
  assert (Hp : 1 + zlen (enc_entries es1) = zlen pre) by (unfold pre; len_norm; lia).
  rewrite Hp. pose proof (zlen_nonneg pre) as Hzp.
  set (old := zlen (enc_entry e)) in *.
  set (req := entry_size (zkey e) val) in *.
  unfold set_entry. fold old. fold req.
  rewrite blob_mid. fold pre.
  destruct (Z.ltb_spec old req) as [Hgrow|Hfit].
  - (* the entry must grow *)
    w32.
    replace (zlen (enc_entries es1) + old + zlen (enc_entries es2) + 2 - old + req)
      with (zlen (pre ++ enc_entry e ++ enc_entries es2 ++ [ZIPMAP_END]) + (req - old))
      by (len_norm; fold old; lia).
    destruct (zipmapResize_grow fresh (pre ++ enc_entry e ++ enc_entries es2 ++ [ZIPMAP_END])
                (req - old)) as (F & HF & ->); [lia|].
    cbn [obind].
    replace (zlen (enc_entries es1) + old + zlen (enc_entries es2) + 2 - (zlen pre + old + 1))
      with (zlen (enc_entries es2)) by lia.
    destruct (grow_move pre (enc_entry e) (enc_entries es2) F req) as (J & HJ & Hmv);
      [exact Hgrow|fold old; lia|].
    fold old in Hmv. rewrite Hmv.
    cbn [obind]. cbv beta iota. rewrite Z.sub_diag. change (wrap32 0) with 0.
    change (ZIPMAP_VALUE_MAX_FREE <=? 0) with false. cbv iota. cbn [obind]. cbv beta iota.
    rewrite (write_entry _ pre J (enc_entries es2 ++ [ZIPMAP_END]) (zkey e) val);
      [|reflexivity|reflexivity|exact HJ|lia|lia|lia].
    f_equal. f_equal. rewrite blob_mid. fold pre. unfold enc_entry. cbn [zkey zval zslack].
    change (zlen []) with 0. list_eq.
  - cbn [obind]. cbv beta iota. w32.
    destruct (Z.leb_spec ZIPMAP_VALUE_MAX_FREE (old - req)) as [Hbig|Hsmall].
    + (* the bytes left over are given back *)
      w32.
      replace (zlen (enc_entries es1) + old + zlen (enc_entries es2) + 2 - (zlen pre + old + 1))
        with (zlen (enc_entries es2)) by lia.
      destruct (shrink_move pre (enc_entry e) (enc_entries es2) req) as (x & b & Hmv);
        [fold old; lia|].
      fold old in Hmv. rewrite Hmv.
      cbn [obind].
      rewrite zipmapResize_shrink
        by (len_norm; rewrite zlen_take by (fold old; lia); lia).
      cbn [obind]. cbv beta iota.
      rewrite (write_entry _ pre (firstn (Z.to_nat req) (enc_entry e))
                 (enc_entries es2 ++ [ZIPMAP_END]) (zkey e) val);
        [|list_eq|reflexivity|apply zlen_take; fold old; lia|lia|lia|lia].
      f_equal. f_equal. rewrite blob_mid. fold pre. unfold enc_entry. cbn [zkey zval zslack].
      change (zlen []) with 0. list_eq.
    + (* the bytes left over stay in the entry *)
      unfold ZIPMAP_VALUE_MAX_FREE in Hsmall. cbn [obind]. cbv beta iota.
      rewrite (write_entry _ pre (firstn (Z.to_nat req) (enc_entry e))
                 (skipn (Z.to_nat req) (enc_entry e) ++ enc_entries es2 ++ [ZIPMAP_END])
                 (zkey e) val);
        [|rewrite <- (firstn_skipn (Z.to_nat req) (enc_entry e)) at 1; list_eq
         |reflexivity
         |apply zlen_take; fold old; lia
         |lia|lia|lia].
      f_equal. f_equal. rewrite blob_mid. fold pre. rewrite enc_entry_mk.
      replace (zlen (skipn (Z.to_nat req) (enc_entry e))) with (old - req)
        by (rewrite zlen_drop by (fold old; lia); reflexivity).
      list_eq.
Qed.

(** What [zipmapSet] does to the content of a well-formed zipmap. *)
Lemma zipmapSet_blob (fresh : nat -> Z) (n : Z) (es : list zentry) (key val : list Z) :
  zm_wf n es ->
  zlen (blob n es) + entry_size key val < 2^32 ->
  zipmapSet fresh (blob n es) key (zlen key) val (zlen val)
  = Ret (blob (set_count key n es) (set_entries key val es),
         if has_key key es then 1 else 0).
Proof.
  intros Hwf Hsz. unfold set_count. destruct (find_off key 1 es) as [p|] eqn:E.
  - destruct (find_off_Some key val es 1 p E) as (es1 & e & es2 & -> & <- & -> & _ & -> & ->).
    apply zipmapSet_update; assumption.
  - destruct (find_off_None key val es 1 E) as (-> & ->).
    apply zipmapSet_insert; assumption.
Qed.

Lemma set_entry_slack (key val : list Z) (e : zentry) :
  let residual := zlen (enc_entry e) - entry_size key val in
  zkey (set_entry key val e) = key /\ zval (set_entry key val e) = val
  /\ zlen (zslack (set_entry key val e))
     = (if ZIPMAP_VALUE_MAX_FREE <=? residual then 0 else Z.max 0 residual)
  /\ zlen (enc_entry (set_entry key val e))
     = entry_size key val + zlen (zslack (set_entry key val e)).
Proof.
  cbv zeta. unfold set_entry. pose proof (entry_size_min key val) as Hmin.
  assert (Hmk : forall sl, zlen (enc_entry (mkZentry key val sl)) = entry_size key val + zlen sl).
  { intros sl. rewrite zlen_enc_entry. cbn [zkey zval zslack]. unfold entry_size. lia. }
  generalize dependent (entry_size key val). intros req Hmin Hmk.
  pose proof (zlen_nonneg (enc_entry e)) as Hnn.
  destruct (Z.ltb_spec (zlen (enc_entry e)) req);
    destruct (Z.leb_spec ZIPMAP_VALUE_MAX_FREE (zlen (enc_entry e) - req));
    unfold ZIPMAP_VALUE_MAX_FREE in *; rewrite Hmk; cbn [zkey zval zslack];
    rewrite ?zlen_drop by lia; change (zlen []) with 0; repeat split; lia.
Qed.

(** C9. After [zipmapSet] on a well-formed zipmap the [free] byte of the
    entry that was written is at most 4.  When the key was there and the
    bytes left over by the new value (old entry size minus required size)
    reach [ZIPMAP_VALUE_MAX_FREE], the zipmap shrinks by that many bytes and
    [free] is 0; otherwise [free] is the number of bytes left over (0 when
    the entry had to grow or was added). *)
Theorem zipmapSet_free_bound (fresh : nat -> Z) (n : Z) (es : list zentry)
    (key val : list Z) :
  zm_wf n es ->
  zlen (blob n es) + entry_size key val < 2^32 ->
  exists n' es1 e' es2 upd,
    zipmapSet fresh (blob n es) key (zlen key) val (zlen val)
    = Ret (blob n' (es1 ++ e' :: es2), upd)
    /\ ~ In key (map zkey es1) /\ zkey e' = key /\ zval e' = val
    /\ zlen (zslack e') <= 4
    /\ ((upd = 0 /\ es = es1 /\ es2 = [] /\ zslack e' = [])
        \/ (upd = 1
            /\ exists e, es = es1 ++ e :: es2 /\ zkey e = key
               /\ let residual := zlen (enc_entry e) - entry_size key val in
                  if ZIPMAP_VALUE_MAX_FREE <=? residual
                  then zlen (zslack e') = 0
                       /\ zlen (blob n' (es1 ++ e' :: es2)) = zlen (blob n es) - residual
                  else zlen (zslack e') = Z.max 0 residual
                       /\ zlen (blob n' (es1 ++ e' :: es2))
                          = zlen (blob n es) - Z.min 0 residual)).
Proof.
  intros Hwf Hsz. pose proof (zipmapSet_blob fresh n es key val Hwf Hsz) as Hset.
  exists (set_count key n es).
  destruct (find_off key 1 es) as [p|] eqn:E.
  - destruct (find_off_Some key val es 1 p E) as (es1 & e & es2 & -> & Hk & _ & Hnin & Hh & Hs).
    rewrite Hh, Hs in Hset.
    destruct (set_entry_slack key val e) as (Hk' & Hv' & Hsl & Hlen).
    exists es1, (set_entry key val e), es2, 1.
    split; [exact Hset|]. split; [exact Hnin|]. split; [exact Hk'|]. split; [exact Hv'|].
    split.
    { rewrite Hsl. unfold ZIPMAP_VALUE_MAX_FREE.
      destruct (Z.leb_spec 4 (zlen (enc_entry e) - entry_size key val)); lia. }
    right. split; [reflexivity|]. exists e. split; [reflexivity|]. split; [exact Hk|].
    cbv zeta. rewrite !blob_mid. len_norm. rewrite Hlen, Hsl.
    destruct (Z.leb_spec ZIPMAP_VALUE_MAX_FREE (zlen (enc_entry e) - entry_size key val));
      split; lia.
  - destruct (find_off_None key val es 1 E) as (Hh & Hs). rewrite Hh, Hs in Hset.
    exists es, (mkZentry key val []), [], 0.
    split; [exact Hset|]. split.
    { clear - E. revert E. generalize 1. induction es as [|e es IH]; intros p E; [simpl; tauto|].
      cbn [find_off] in E. destruct (bool_decide (zkey e = key)) eqn:B; [discriminate|].
      apply bool_decide_eq_false_1 in B. simpl. intros [?|?]; [contradiction|].
      exact (IH _ E H). }
    split; [reflexivity|]. split; [reflexivity|]. split; [cbn [zslack]; change (zlen []) with 0; lia|].
    left. repeat split; reflexivity.
Qed.

Lemma zm_wf_foo : zm_wf 1 [mkZentry [102; 111; 111] [98; 97; 114; 33; 33; 33] []].
Proof. split; [lia|]. repeat constructor. Defined.

Lemma zipmapSet_free_bound_witness :
  exists n' es1 e' es2 upd,
    zipmapSet (fun _ => 0) (blob 1 [mkZentry [102; 111; 111] [98; 97; 114; 33; 33; 33] []])
              [102; 111; 111] 3 [98; 97] 2
    = Ret (blob n' (es1 ++ e' :: es2), upd)
    /\ ~ In [102; 111; 111] (map zkey es1) /\ zkey e' = [102; 111; 111] /\ zval e' = [98; 97]
    /\ zlen (zslack e') <= 4
    /\ ((upd = 0 /\ [mkZentry [102; 111; 111] [98; 97; 114; 33; 33; 33] []] = es1
         /\ es2 = [] /\ zslack e' = [])
        \/ (upd = 1
            /\ exists e, [mkZentry [102; 111; 111] [98; 97; 114; 33; 33; 33] []]
                         = es1 ++ e :: es2 /\ zkey e = [102; 111; 111]
               /\ let residual := zlen (enc_entry e) - entry_size [102; 111; 111] [98; 97] in
                  if ZIPMAP_VALUE_MAX_FREE <=? residual
                  then zlen (zslack e') = 0
                       /\ zlen (blob n' (es1 ++ e' :: es2))
                          = zlen (blob 1 [mkZentry [102; 111; 111] [98; 97; 114; 33; 33; 33] []])
                            - residual
                  else zlen (zslack e') = Z.max 0 residual
                       /\ zlen (blob n' (es1 ++ e' :: es2))
                          = zlen (blob 1 [mkZentry [102; 111; 111] [98; 97; 114; 33; 33; 33] []])
                            - Z.min 0 residual)).
Proof.
  apply (zipmapSet_free_bound (fun _ => 0) 1
           [mkZentry [102; 111; 111] [98; 97; 114; 33; 33; 33] []]
           [102; 111; 111] [98; 97] zm_wf_foo).
  vm_compute. reflexivity.
Defined.

(** The bound at work: writing values of 2 and of 3 bytes over a value of
    6 bytes leaves no slack (the zipmap shrinks by 4) and 3 bytes of slack. *)
Example zipmapSet_slack_example :
  zipmapSet (fun _ => 0) [1; 3; 102; 111; 111; 6; 0; 98; 97; 114; 33; 33; 33; 255]
            [102; 111; 111] 3 [98; 97] 2
  = Ret ([1; 3; 102; 111; 111; 2; 0; 98; 97; 255], 1)
  /\ zipmapSet (fun _ => 0) [1; 3; 102; 111; 111; 6; 0; 98; 97; 114; 33; 33; 33; 255]
               [102; 111; 111] 3 [98; 97; 122] 3
     = Ret ([1; 3; 102; 111; 111; 3; 3; 98; 97; 122; 33; 33; 33; 255], 1).
Proof. split; vm_compute; reflexivity. Qed.

End ZipmapFacts.

(** ** zipmap: lookup, deletion, iteration *)

Module ZipmapOps.
Import Zipmap ZipmapFacts.

(** What the reads of the scanning functions find at an entry of a
    zipmap. *)
Lemma entry_at (n : Z) (es1 : list zentry) (e : zentry) (es2 : list zentry) :
  let zm := blob n (es1 ++ e :: es2) in
  let p := 1 + zlen (enc_entries es1) in
  let kl := zlen (zkey e) in
  let vl := zlen (zval e) in
  zlen zm < 2^32 ->
  (exists b, rd zm p = Ret b /\ b <> ZIPMAP_END)
  /\ zipmapDecodeLength zm p = Ret kl
  /\ (forall q, q = p + ZIPMAP_LEN_BYTES kl -> slice zm q kl = Ret (zkey e))
  /\ (forall q, q = p + ZIPMAP_LEN_BYTES kl + kl -> zipmapDecodeLength zm q = Ret vl)
  /\ (forall q, q = p + ZIPMAP_LEN_BYTES kl + kl + ZIPMAP_LEN_BYTES vl ->
                rd zm q = Ret (zlen (zslack e)))
  /\ (forall q, q = p + ZIPMAP_LEN_BYTES kl + kl + ZIPMAP_LEN_BYTES vl + 1 ->
                slice zm q vl = Ret (zval e))
  /\ zlen (enc_entry e)
     = ZIPMAP_LEN_BYTES kl + kl + ZIPMAP_LEN_BYTES vl + 1 + vl + zlen (zslack e)
  /\ 1 + zlen (enc_entries (es1 ++ [e])) = p + zlen (enc_entry e)
  /\ p + zlen (enc_entry e) < zlen zm.
Proof.
  cbv zeta. intros Hsz. pose proof (blob_split n es1 e es2) as Hs.
  set (zm := blob n (es1 ++ e :: es2)) in *.
  pose proof (zlen_enc_entry e) as He.
  assert (Hlen : zlen zm = 1 + zlen (enc_entries es1) + zlen (enc_entry e)
                           + zlen (enc_entries es2) + 1).
  { rewrite Hs, He. len_norm. lia. }
  pose proof (zlen_nonneg (enc_entries es1)). pose proof (zlen_nonneg (enc_entries es2)).
  pose proof (zlen_nonneg (zkey e)). pose proof (zlen_nonneg (zval e)).
  pose proof (zlen_nonneg (zslack e)).
  pose proof (enc_len_range (zlen (zkey e))). pose proof (enc_len_range (zlen (zval e))).
  rewrite <- !enc_len_length.
  split.
  { destruct (enc_len_head (zlen (zkey e))) as (b & rest & Hb & Hne); [lia|].
    exists b. split; [|exact Hne].
    apply (rd_in zm (n :: enc_entries es1) b
             (rest ++ zkey e ++ enc_len (zlen (zval e)) ++ [zlen (zslack e)] ++ zval e
              ++ zslack e ++ enc_entries es2 ++ [ZIPMAP_END]));
      [rewrite Hs, Hb; list_eq|len_norm; lia]. }
  split.
  { apply (decode_in zm (n :: enc_entries es1)
             (zkey e ++ enc_len (zlen (zval e)) ++ [zlen (zslack e)] ++ zval e
              ++ zslack e ++ enc_entries es2 ++ [ZIPMAP_END]) (zlen (zkey e)));
      [rewrite Hs; reflexivity|lia|len_norm; lia]. }
  split.
  { intros q ->.
    apply (slice_in zm ((n :: enc_entries es1) ++ enc_len (zlen (zkey e))) (zkey e)
             (enc_len (zlen (zval e)) ++ [zlen (zslack e)] ++ zval e
              ++ zslack e ++ enc_entries es2 ++ [ZIPMAP_END]));
      [rewrite Hs; list_eq|len_norm; lia|reflexivity]. }
  split.
  { intros q ->.
    apply (decode_in zm ((n :: enc_entries es1) ++ enc_len (zlen (zkey e)) ++ zkey e)
             ([zlen (zslack e)] ++ zval e ++ zslack e ++ enc_entries es2 ++ [ZIPMAP_END])
             (zlen (zval e)));
      [rewrite Hs; list_eq|lia|len_norm; lia]. }
  split.
  { intros q ->.
    apply (rd_in zm ((n :: enc_entries es1) ++ enc_len (zlen (zkey e)) ++ zkey e
                     ++ enc_len (zlen (zval e))) (zlen (zslack e))
             (zval e ++ zslack e ++ enc_entries es2 ++ [ZIPMAP_END]));
      [rewrite Hs; list_eq|len_norm; lia]. }
  split.
  { intros q ->.
    apply (slice_in zm ((n :: enc_entries es1) ++ enc_len (zlen (zkey e)) ++ zkey e
                        ++ enc_len (zlen (zval e)) ++ [zlen (zslack e)]) (zval e)
             (zslack e ++ enc_entries es2 ++ [ZIPMAP_END]));
      [rewrite Hs; list_eq|len_norm; lia|reflexivity]. }
  split; [lia|]. split; [|lia].
  rewrite enc_entries_app, enc_entries_cons. change (enc_entries []) with (@nil Z).
  rewrite app_nil_r. len_norm. lia.
Qed.

Lemma end_at (n : Z) (es : list zentry) :
  rd (blob n es) (1 + zlen (enc_entries es)) = Ret ZIPMAP_END.
Proof.
  apply (rd_in _ (n :: enc_entries es) ZIPMAP_END []); [reflexivity|len_norm; lia].
Qed.

Lemma app_cons_assoc {A : Type} (l1 : list A) (x : A) (l2 : list A) :
  l1 ++ x :: l2 = (l1 ++ [x]) ++ l2.
Proof. rewrite <- app_assoc. reflexivity. Qed.

(** The scan of [zipmapLookupRaw(zm, key, klen, NULL)] from the entry that
    follows [es1]. *)
Lemma zipmapLookupRaw_stop_loop_blob (key : list Z) (n : Z) (es2 : list zentry) :
  forall (es1 : list zentry) (fuel : nat),
  zlen (blob n (es1 ++ es2)) < 2^32 ->
  (length es2 < fuel)%nat ->
  zipmapLookupRaw_stop_loop fuel (blob n (es1 ++ es2)) (Some key) (zlen key)
                            (1 + zlen (enc_entries es1))
  = Ret (find_off key (1 + zlen (enc_entries es1)) es2).
Proof.
  induction es2 as [|e es2 IH]; intros es1 fuel Hsz Hf;
    (destruct fuel as [|fuel]; [simpl in Hf; lia|]); cbn [zipmapLookupRaw_stop_loop].
  - rewrite app_nil_r, end_at. reflexivity.
  - destruct (entry_at n es1 e es2 Hsz)
      as ((b & Hb & Hne) & Hk & Hks & Hv & Hfr & _ & Hlen & Hnext & Hin).
    pose proof (zlen_nonneg (enc_entries es1)).
    pose proof (zlen_nonneg (zkey e)). pose proof (zlen_nonneg (zval e)).
    pose proof (zlen_nonneg (zslack e)).
    pose proof (enc_len_range (zlen (zkey e))) as Hr1.
    pose proof (enc_len_range (zlen (zval e))) as Hr2.
    rewrite enc_len_length in Hr1, Hr2.
    rewrite Hb. cbn [obind]. destruct (Z.eqb_spec b ZIPMAP_END); [contradiction|].
    rewrite Hk. cbn [obind]. unfold zipmapEncodeLength_size.
    cbn [find_off].
    destruct (Z.eqb_spec (zlen (zkey e)) (zlen key)) as [E|E].
    + rewrite Hks by reflexivity. cbn [obind].
      replace (Z.of_nat (length key) <? zlen (zkey e)) with false
        by (symmetry; apply Z.ltb_ge; unfold zlen in *; lia).
      replace (firstn (Z.to_nat (zlen (zkey e))) key) with key
        by (rewrite E; symmetry; apply firstn_zlen).
      destruct (bool_decide (zkey e = key)) eqn:B; cbn [obind]; [reflexivity|].
      rewrite wrap32_small by lia.
      rewrite Hv by lia. cbn [obind]. rewrite Hfr by lia. cbn [obind].
      rewrite wrap32_small by lia.
      replace (_ + _ + _ + (zlen (zval e) + 1 + zlen (zslack e)))
        with (1 + zlen (enc_entries (es1 ++ [e]))) by lia.
      rewrite (app_cons_assoc es1 e es2), IH;
        [|rewrite <- app_cons_assoc; exact Hsz|simpl in Hf; lia].
      f_equal. f_equal. lia.
    + rewrite bool_decide_eq_false_2 by (intros E'; apply E; rewrite E'; reflexivity).
      cbn [obind]. rewrite wrap32_small by lia.
      rewrite Hv by lia. cbn [obind]. rewrite Hfr by lia. cbn [obind].
      rewrite wrap32_small by lia.
      replace (_ + _ + _ + (zlen (zval e) + 1 + zlen (zslack e)))
        with (1 + zlen (enc_entries (es1 ++ [e]))) by lia.
      rewrite (app_cons_assoc es1 e es2), IH;
        [|rewrite <- app_cons_assoc; exact Hsz|simpl in Hf; lia].
      f_equal. f_equal. lia.
Qed.

Lemma zipmapLookupRaw_stop_blob (key : list Z) (n : Z) (es : list zentry) :
  zlen (blob n es) < 2^32 ->
  zipmapLookupRaw_stop (blob n es) (Some key) (zlen key) = Ret (find_off key 1 es).
Proof.
  intros Hsz. unfold zipmapLookupRaw_stop.
  pose proof (zipmapLookupRaw_stop_loop_blob key n es [] (length (blob n es))) as H.
  cbn [app] in H. change (zlen (enc_entries [])) with 0 in H. rewrite Z.add_0_r in H.
  apply H; [exact Hsz|].
  pose proof (enc_entries_length es). pose proof (zlen_blob n es). unfold zlen in *. lia.
Qed.

(** The first entry with the key, where it lies, and the entries without
    it. *)
Lemma find_entry_split (key : list Z) (es : list zentry) :
  match find_entry key es with
  | Some e =>
      exists es1 es2,
        es = es1 ++ e :: es2 /\ zkey e = key /\ ~ In key (map zkey es1)
        /\ (forall p, find_off key p es = Some (p + zlen (enc_entries es1)))
        /\ del_entries key es = es1 ++ es2 /\ has_key key es = true
  | None =>
      (forall p, find_off key p es = None) /\ has_key key es = false
      /\ del_entries key es = es /\ ~ In key (map zkey es)
  end.
Proof.
  induction es as [|e es IH]; [cbn; repeat split; tauto|].
  cbn [find_entry find_off del_entries has_key existsb].
  destruct (bool_decide (zkey e = key)) eqn:B.
  - apply bool_decide_eq_true_1 in B. exists [], es. change (zlen (enc_entries [])) with 0.
    repeat split; try reflexivity; try exact B; [simpl; tauto|intros p; f_equal; lia].
  - apply bool_decide_eq_false_1 in B. fold (has_key key es).
    destruct (find_entry key es) as [e'|].
    + destruct IH as (es1 & es2 & -> & Hk & Hn & Hf & Hd & Hh).
      exists (e :: es1), es2. rewrite Hd, Hh.
      repeat split; try reflexivity; try exact Hk.
      * simpl. intros [?|?]; contradiction.
      * intros p. rewrite Hf, enc_entries_cons, zlen_app. f_equal. lia.
    + destruct IH as (Hf & Hh & Hd & Hn). rewrite Hd, Hh.
      repeat split; try reflexivity; [intros p; apply Hf|].
      simpl. intros [?|?]; contradiction.
Qed.

Lemma zipmapGet_blob (n : Z) (es : list zentry) (key : list Z) :
  zlen (blob n es) < 2^32 ->
  match find_entry key es with
  | Some e =>
      exists o, zipmapGet (blob n es) key (zlen key) = Ret (Some (o, zlen (zval e)))
                /\ slice (blob n es) o (zlen (zval e)) = Ret (zval e)
  | None => zipmapGet (blob n es) key (zlen key) = Ret None
  end.
Proof.
  intros Hsz. unfold zipmapGet. rewrite zipmapLookupRaw_stop_blob by exact Hsz.
  pose proof (find_entry_split key es) as Hfind.
  destruct (find_entry key es) as [e|].
  - destruct Hfind as (es1 & es2 & -> & Hk & _ & Hf & _).
    rewrite Hf. cbn [obind].
    destruct (entry_at n es1 e es2 Hsz) as (_ & Hkl & _ & Hv & _ & Hvs & Hlen & _ & Hin).
    pose proof (zlen_nonneg (enc_entries es1)).
    pose proof (zlen_nonneg (zkey e)). pose proof (zlen_nonneg (zval e)).
    pose proof (zlen_nonneg (zslack e)).
    pose proof (enc_len_range (zlen (zkey e))) as Hr1.
    pose proof (enc_len_range (zlen (zval e))) as Hr2.
    rewrite enc_len_length in Hr1, Hr2.
    unfold zipmapRawKeyLength. rewrite Hkl. cbn [obind]. unfold zipmapEncodeLength_size.
    rewrite wrap32_small by lia. rewrite Hv by lia. cbn [obind].
    eexists. split; [reflexivity|]. apply Hvs. lia.
  - destruct Hfind as (Hf & _). rewrite Hf. reflexivity.
Qed.

(** X1. [zipmapGet] returns the value of the first entry with the key:
    the offset and the length of its bytes in the zipmap; it returns 0 when
    no entry has the key. *)
Theorem zipmapGet_spec (n : Z) (es : list zentry) (key : list Z) :
  zlen (blob n es) < 2^32 ->
  match find_entry key es with
  | Some e =>
      exists o, zipmapGet (blob n es) key (zlen key) = Ret (Some (o, zlen (zval e)))
                /\ slice (blob n es) o (zlen (zval e)) = Ret (zval e)
  | None => zipmapGet (blob n es) key (zlen key) = Ret None
  end.
Proof. exact (zipmapGet_blob n es key). Qed.

Lemma zipmapGet_spec_witness :
  match find_entry [104; 101; 108; 108; 111] zm_example with
  | Some e =>
      exists o, zipmapGet (blob 2 zm_example) [104; 101; 108; 108; 111] 5
                = Ret (Some (o, zlen (zval e)))
                /\ slice (blob 2 zm_example) o (zlen (zval e)) = Ret (zval e)
  | None => zipmapGet (blob 2 zm_example) [104; 101; 108; 108; 111] 5 = Ret None
  end.
Proof.
  apply (zipmapGet_spec 2 zm_example [104; 101; 108; 108; 111]). vm_compute. reflexivity.
Defined.

(** X2. [zipmapExists] tells whether an entry has the key. *)
Theorem zipmapExists_spec (n : Z) (es : list zentry) (key : list Z) :
  zlen (blob n es) < 2^32 ->
  zipmapExists (blob n es) key (zlen key) = Ret (if has_key key es then 1 else 0).
Proof.
  intros Hsz. unfold zipmapExists. rewrite zipmapLookupRaw_stop_blob by exact Hsz.
  pose proof (find_entry_split key es) as Hfind.
  destruct (find_entry key es) as [e|].
  - destruct Hfind as (es1 & es2 & _ & _ & _ & Hf & _ & ->). rewrite Hf. reflexivity.
  - destruct Hfind as (Hf & -> & _). rewrite Hf. reflexivity.
Qed.

Lemma zipmapExists_spec_witness :
  zipmapExists (blob 2 zm_example) [102; 111; 111] 3 = Ret 1.
Proof.
  apply (zipmapExists_spec 2 zm_example [102; 111; 111]). vm_compute. reflexivity.
Defined.

(** *** What [zipmapSet] keeps *)

Lemma set_entries_length (key val : list Z) (es : list zentry) :
  length (set_entries key val es)
  = (length es + (if has_key key es then 0 else 1))%nat.
Proof.
  induction es as [|e es IH]; [reflexivity|].
  cbn [set_entries has_key existsb]. fold (has_key key es).
  destruct (bool_decide (zkey e = key)); cbn [orb length]; [lia|]. rewrite IH. lia.
Qed.

Lemma set_entries_slack (key val : list Z) (es : list zentry) (m : Z) :
  ZIPMAP_VALUE_MAX_FREE <= m ->
  Forall (fun e => zlen (zslack e) < m) es ->
  Forall (fun e => zlen (zslack e) < m) (set_entries key val es).
Proof.
  intros Hm. induction 1 as [|e es He Hes IH]; cbn [set_entries].
  - constructor; [|constructor]. cbn [zslack]. change (zlen []) with 0.
    unfold ZIPMAP_VALUE_MAX_FREE in Hm. lia.
  - destruct (bool_decide (zkey e = key)); constructor; try assumption.
    destruct (set_entry_slack key val e) as (_ & _ & Hsl & _). rewrite Hsl.
    unfold ZIPMAP_VALUE_MAX_FREE in *.
    destruct (Z.leb_spec 4 (zlen (enc_entry e) - entry_size key val)); lia.
Qed.

Lemma set_entries_size (key val : list Z) (es : list zentry) :
  zlen (enc_entries (set_entries key val es))
  <= zlen (enc_entries es) + entry_size key val.
Proof.
  pose proof (entry_size_min key val).
  induction es as [|e es IH]; cbn [set_entries].
  - rewrite enc_entries_cons, enc_entry_mk. change (enc_entries []) with (@nil Z).
    unfold entry_size. len_norm. lia.
  - destruct (bool_decide (zkey e = key)); rewrite !enc_entries_cons, !zlen_app; [|lia].
    destruct (set_entry_slack key val e) as (_ & _ & Hsl & Hlen). rewrite Hlen, Hsl.
    pose proof (zlen_nonneg (enc_entry e)). unfold ZIPMAP_VALUE_MAX_FREE.
    destruct (Z.leb_spec 4 (zlen (enc_entry e) - entry_size key val)); lia.
Qed.

Lemma find_entry_set (key val : list Z) (es : list zentry) :
  exists e', find_entry key (set_entries key val es) = Some e' /\ zval e' = val.
Proof.
  induction es as [|e es IH]; cbn [set_entries].
  - exists (mkZentry key val []). cbn [find_entry zkey].
    rewrite bool_decide_eq_true_2 by reflexivity. split; reflexivity.
  - destruct (bool_decide (zkey e = key)) eqn:B.
    + exists (set_entry key val e). cbn [find_entry].
      destruct (set_entry_slack key val e) as (Hk & Hv & _).
      rewrite bool_decide_eq_true_2 by exact Hk. split; [reflexivity|exact Hv].
    + cbn [find_entry]. rewrite B. exact IH.
Qed.

Lemma find_entry_set_other (key val key' : list Z) (es : list zentry) :
  key' <> key ->
  option_map zval (find_entry key' (set_entries key val es))
  = option_map zval (find_entry key' es).
Proof.
  intros Hne. induction es as [|e es IH]; cbn [set_entries find_entry].
  - cbn [zkey]. rewrite bool_decide_eq_false_2 by congruence. reflexivity.
  - destruct (bool_decide (zkey e = key)) eqn:B.
    + apply bool_decide_eq_true_1 in B. cbn [find_entry].
      destruct (set_entry_slack key val e) as (Hk & _). rewrite Hk.
      rewrite !bool_decide_eq_false_2 by congruence. reflexivity.
    + cbn [find_entry]. destruct (bool_decide (zkey e = key')); [reflexivity|exact IH].
Qed.

(** X3. What [zipmapSet] makes of the content of a well-formed zipmap:
    the first entry with the key gets the value, or an entry is added at
    the end when no entry has the key; the other entries stay as they are;
    the count byte grows on an insert while it is below [ZIPMAP_BIGLEN];
    [*update] tells whether the key was there. *)
Theorem zipmapSet_content (fresh : nat -> Z) (n : Z) (es : list zentry) (key val : list Z) :
  zm_wf n es ->
  zlen (blob n es) + entry_size key val < 2^32 ->
  zipmapSet fresh (blob n es) key (zlen key) val (zlen val)
  = Ret (blob (set_count key n es) (set_entries key val es),
         if has_key key es then 1 else 0).
Proof. exact (zipmapSet_blob fresh n es key val). Qed.

Lemma zm_wf_example : zm_wf 2 zm_example.
Proof. split; [lia|]. repeat constructor. Defined.

Lemma zipmapSet_content_witness :
  zipmapSet (fun _ => 0) (blob 2 zm_example) [102; 111; 111] 3 [98; 97; 122; 33] 4
  = Ret (blob 2 (set_entries [102; 111; 111] [98; 97; 122; 33] zm_example), 1).
Proof.
  apply (zipmapSet_content (fun _ => 0) 2 zm_example [102; 111; 111] [98; 97; 122; 33]
           zm_wf_example).
  vm_compute. reflexivity.
Defined.

(** X4. [zipmapSet] keeps a zipmap well formed: the count byte still tells
    the number of entries while it is below [ZIPMAP_BIGLEN], and no entry
    has [ZIPMAP_VALUE_MAX_FREE] or more unused bytes if none had before. *)
Theorem zipmapSet_invariant (fresh : nat -> Z) (n : Z) (es : list zentry)
    (key val : list Z) :
  zm_wf n es -> count_ok n es ->
  Forall (fun e => zlen (zslack e) < ZIPMAP_VALUE_MAX_FREE) es ->
  zlen (blob n es) + entry_size key val < 2^32 ->
  exists n' es' upd,
    zipmapSet fresh (blob n es) key (zlen key) val (zlen val) = Ret (blob n' es', upd)
    /\ zm_wf n' es' /\ count_ok n' es'
    /\ Forall (fun e => zlen (zslack e) < ZIPMAP_VALUE_MAX_FREE) es'
    /\ zlen (blob n' es') <= zlen (blob n es) + entry_size key val.
Proof.
  intros [Hn Hfree] Hc Hcompact Hsz.
  exists (set_count key n es), (set_entries key val es), (if has_key key es then 1 else 0).
  split; [apply zipmapSet_blob; [split; assumption|exact Hsz]|].
  split; [split|split; [|split]].
  - unfold set_count, ZIPMAP_BIGLEN. destruct (has_key key es); [lia|].
    destruct (Z.ltb_spec n 254); lia.
  - apply set_entries_slack; [unfold ZIPMAP_VALUE_MAX_FREE; lia|exact Hfree].
  - unfold count_ok, set_count, ZIPMAP_BIGLEN in *. rewrite set_entries_length.
    destruct (has_key key es); [intros Hlt; specialize (Hc Hlt); lia|].
    destruct (Z.ltb_spec n 254); intros Hlt; [specialize (Hc ltac:(lia)); lia|lia].
  - apply set_entries_slack; [lia|exact Hcompact].
  - rewrite !zlen_blob. pose proof (set_entries_size key val es). lia.
Qed.

Lemma zipmapSet_invariant_witness :
  exists n' es' upd,
    zipmapSet (fun _ => 0) (blob 2 zm_example) [102; 111; 111] 3 [98; 97] 2
    = Ret (blob n' es', upd)
    /\ zm_wf n' es' /\ count_ok n' es'
    /\ Forall (fun e => zlen (zslack e) < ZIPMAP_VALUE_MAX_FREE) es'
    /\ zlen (blob n' es') <= zlen (blob 2 zm_example) + entry_size [102; 111; 111] [98; 97].
Proof.
  apply (zipmapSet_invariant (fun _ => 0) 2 zm_example [102; 111; 111] [98; 97]
           zm_wf_example).
  - intros _. reflexivity.
  - repeat constructor.
  - vm_compute. reflexivity.
Defined.

(** X5. What [zipmapSet] stores, [zipmapGet] finds: after the key is set
    to a value, [zipmapGet] of the key returns the place of these bytes. *)
Theorem zipmapGet_zipmapSet (fresh : nat -> Z) (n : Z) (es : list zentry)
    (key val : list Z) :
  zm_wf n es ->
  zlen (blob n es) + entry_size key val < 2^32 ->
  exists zm' upd o,
    zipmapSet fresh (blob n es) key (zlen key) val (zlen val) = Ret (zm', upd)
    /\ zipmapGet zm' key (zlen key) = Ret (Some (o, zlen val))
    /\ slice zm' o (zlen val) = Ret val.
Proof.
  intros Hwf Hsz.
  assert (Hsz' : zlen (blob (set_count key n es) (set_entries key val es)) < 2^32).
  { rewrite zlen_blob in *. pose proof (set_entries_size key val es). lia. }
  pose proof (zipmapGet_blob (set_count key n es) (set_entries key val es) key Hsz') as Hget.
  destruct (find_entry_set key val es) as (e' & He' & Hv). rewrite He', Hv in Hget.
  destruct Hget as (o & Hget & Hsl).
  exists (blob (set_count key n es) (set_entries key val es)),
    (if has_key key es then 1 else 0), o.
  split; [apply zipmapSet_blob; assumption|]. split; assumption.
Qed.

Lemma zipmapGet_zipmapSet_witness :
  exists zm' upd o,
    zipmapSet (fun _ => 0) (blob 2 zm_example) [102; 111; 111] 3 [98; 97; 122; 33] 4
    = Ret (zm', upd)
    /\ zipmapGet zm' [102; 111; 111] 3 = Ret (Some (o, 4))
    /\ slice zm' o 4 = Ret [98; 97; 122; 33].
Proof.
  apply (zipmapGet_zipmapSet (fun _ => 0) 2 zm_example [102; 111; 111] [98; 97; 122; 33]
           zm_wf_example).
  vm_compute. reflexivity.
Defined.

(** X6. [zipmapSet] of a key leaves the values of the other keys as they
    are: [zipmapGet] of another key finds the bytes it found before, or
    nothing if it found nothing. *)
Theorem zipmapGet_zipmapSet_other (fresh : nat -> Z) (n : Z) (es : list zentry)
    (key val key' : list Z) :
  zm_wf n es ->
  zlen (blob n es) + entry_size key val < 2^32 ->
  key' <> key ->
  exists zm' upd,
    zipmapSet fresh (blob n es) key (zlen key) val (zlen val) = Ret (zm', upd)
    /\ match find_entry key' es with
       | Some e =>
           exists o, zipmapGet zm' key' (zlen key') = Ret (Some (o, zlen (zval e)))
                     /\ slice zm' o (zlen (zval e)) = Ret (zval e)
       | None => zipmapGet zm' key' (zlen key') = Ret None
       end.
Proof.
  intros Hwf Hsz Hne.
  assert (Hsz' : zlen (blob (set_count key n es) (set_entries key val es)) < 2^32).
  { rewrite zlen_blob in *. pose proof (set_entries_size key val es). lia. }
  pose proof (zipmapGet_blob (set_count key n es) (set_entries key val es) key' Hsz') as Hget.
  pose proof (find_entry_set_other key val key' es Hne) as Hsame.
  exists (blob (set_count key n es) (set_entries key val es)),
    (if has_key key es then 1 else 0).
  split; [apply zipmapSet_blob; assumption|].
  destruct (find_entry key' (set_entries key val es)) as [e1|];
    destruct (find_entry key' es) as [e2|]; cbn [option_map] in Hsame;
    try discriminate; [|exact Hget].
  injection Hsame as Hsame. rewrite <- Hsame. exact Hget.
Qed.

Lemma zipmapGet_zipmapSet_other_witness :
  exists zm' upd,
    zipmapSet (fun _ => 0) (blob 2 zm_example) [102; 111; 111] 3 [98; 97; 122; 33] 4
    = Ret (zm', upd)
    /\ match find_entry [104; 101; 108; 108; 111] zm_example with
       | Some e =>
           exists o, zipmapGet zm' [104; 101; 108; 108; 111] 5 = Ret (Some (o, zlen (zval e)))
                     /\ slice zm' o (zlen (zval e)) = Ret (zval e)
       | None => zipmapGet zm' [104; 101; 108; 108; 111] 5 = Ret None
       end.
Proof.
  apply (zipmapGet_zipmapSet_other (fun _ => 0) 2 zm_example [102; 111; 111]
           [98; 97; 122; 33] [104; 101; 108; 108; 111] zm_wf_example).
  - vm_compute. reflexivity.
  - discriminate.
Defined.

(** *** Deletion *)

Lemma zipmapDel_blob (fresh : nat -> Z) (n : Z) (es : list zentry) (key : list Z) :
  zm_wf n es ->
  zlen (blob n es) < 2^32 ->
  zipmapDel fresh (blob n es) key (zlen key)
  = Ret (blob (del_count key n es) (del_entries key es), if has_key key es then 1 else 0).
Proof.
  intros [Hn Hfree] Hsz. unfold zipmapDel, del_count.
  rewrite zipmapLookupRaw_blob by assumption. cbn [obind].
  pose proof (find_entry_split key es) as Hfind.
  destruct (find_entry key es) as [e|].
  - destruct Hfind as (es1 & es2 & -> & Hk & _ & Hf & -> & ->).
    rewrite Hf. cbv beta iota.
    pose proof (zlen_nonneg (enc_entries es1)) as Hz1.
    pose proof (zlen_nonneg (enc_entries es2)) as Hz2.
    pose proof (zlen_nonneg (enc_entry e)) as Hze.
    assert (HZ : zlen (blob n (es1 ++ e :: es2))
                 = zlen (enc_entries es1) + zlen (enc_entry e) + zlen (enc_entries es2) + 2).
    { rewrite blob_mid. len_norm. lia. }
    rewrite (zipmapRawEntryLength_in _ (n :: enc_entries es1) e
               (enc_entries es2 ++ [ZIPMAP_END]));
      [|apply blob_mid|len_norm; lia|lia].
    cbn [obind]. rewrite HZ in *.
    set (pre := n :: enc_entries es1).
    assert (Hp : 1 + zlen (enc_entries es1) = zlen pre + 0) by (unfold pre; len_norm; lia).
    rewrite wrap64_small by lia.
    replace (zlen (enc_entries es1) + zlen (enc_entry e) + zlen (enc_entries es2) + 2
             - (1 + zlen (enc_entries es1) + zlen (enc_entry e) + 1))
      with (zlen (enc_entries es2)) by lia.
    replace (1 + zlen (enc_entries es1) + zlen (enc_entry e))
      with (zlen pre + zlen (enc_entry e)) by lia.
    rewrite Hp, blob_mid. fold pre.
    destruct (shrink_move pre (enc_entry e) (enc_entries es2) 0) as (x & b & ->); [lia|].
    cbn [obind]. change (Z.to_nat 0) with 0%nat. rewrite take_0. cbn [app].
    rewrite zipmapResize_shrink by (rewrite wrap32_small by lia; unfold pre; len_norm; lia).
    cbn [obind].
    rewrite (rd_in _ [] n (enc_entries es1 ++ enc_entries es2 ++ [ZIPMAP_END]));
      [|unfold pre; list_eq|reflexivity].
    cbn [obind]. unfold blob. rewrite enc_entries_app.
    destruct (Z.ltb_spec n ZIPMAP_BIGLEN).
    + rewrite (wr_in _ [] [n] (enc_entries es1 ++ enc_entries es2 ++ [ZIPMAP_END]));
        [|unfold pre; list_eq|reflexivity|reflexivity].
      cbn [obind]. f_equal; f_equal; list_eq.
    + cbn [obind]. unfold pre. f_equal; f_equal; list_eq.
  - destruct Hfind as (Hf & -> & -> & _). rewrite Hf. reflexivity.
Qed.

(** X7. [zipmapDel] takes the first entry with the key out of a
    well-formed zipmap and lowers the count byte while it is below
    [ZIPMAP_BIGLEN]; when no entry has the key the zipmap stays as it is
    and [*deleted] is 0. *)
Theorem zipmapDel_spec (fresh : nat -> Z) (n : Z) (es : list zentry) (key : list Z) :
  zm_wf n es ->
  zlen (blob n es) < 2^32 ->
  zipmapDel fresh (blob n es) key (zlen key)
  = (if has_key key es
     then Ret (blob (if n <? ZIPMAP_BIGLEN then wrap8 (n - 1) else n) (del_entries key es), 1)
     else Ret (blob n es, 0)).
Proof.
  intros Hwf Hsz. rewrite zipmapDel_blob by assumption. unfold del_count.
  pose proof (find_entry_split key es) as Hfind.
  destruct (find_entry key es) as [e|].
  - destruct Hfind as (es1 & es2 & _ & _ & _ & _ & _ & ->). reflexivity.
  - destruct Hfind as (_ & -> & -> & _). reflexivity.
Qed.

Lemma zipmapDel_spec_witness :
  zipmapDel (fun _ => 0) (blob 2 zm_example) [102; 111; 111] 3
  = Ret (blob 1 [mkZentry [104; 101; 108; 108; 111] [119; 111; 114; 108; 100] []], 1).
Proof.
  apply (zipmapDel_spec (fun _ => 0) 2 zm_example [102; 111; 111] zm_wf_example).
  vm_compute. reflexivity.
Defined.

Lemma del_entries_length (key : list Z) (es : list zentry) :
  length es = (length (del_entries key es) + (if has_key key es then 1 else 0))%nat.
Proof.
  induction es as [|e es IH]; [reflexivity|].
  cbn [del_entries has_key existsb]. fold (has_key key es).
  destruct (bool_decide (zkey e = key)); cbn [orb length]; [lia|]. rewrite IH at 1. lia.
Qed.

Lemma del_entries_Forall (P : zentry -> Prop) (key : list Z) (es : list zentry) :
  Forall P es -> Forall P (del_entries key es).
Proof.
  induction 1 as [|e es He Hes IH]; cbn [del_entries]; [constructor|].
  destruct (bool_decide (zkey e = key)); [assumption|constructor; assumption].
Qed.

(** X8. [zipmapDel] keeps a zipmap well formed, with a count byte that
    tells the number of entries while it is below [ZIPMAP_BIGLEN], and the
    key is gone when the keys of the zipmap are distinct. *)
Theorem zipmapDel_invariant (fresh : nat -> Z) (n : Z) (es : list zentry) (key : list Z) :
  zm_wf n es -> count_ok n es ->
  zlen (blob n es) < 2^32 ->
  exists n' es' deleted,
    zipmapDel fresh (blob n es) key (zlen key) = Ret (blob n' es', deleted)
    /\ zm_wf n' es' /\ count_ok n' es'
    /\ zlen (blob n' es') <= zlen (blob n es)
    /\ (List.NoDup (map zkey es) -> zipmapExists (blob n' es') key (zlen key) = Ret 0).
Proof.
  intros [Hn Hfree] Hc Hsz.
  exists (del_count key n es), (del_entries key es), (if has_key key es then 1 else 0).
  split; [apply zipmapDel_blob; [split; assumption|exact Hsz]|].
  pose proof (del_entries_length key es) as Hlen.
  pose proof (find_entry_split key es) as Hfind.
  assert (Hsz' : zlen (blob (del_count key n es) (del_entries key es)) <= zlen (blob n es)).
  { rewrite !zlen_blob. destruct (find_entry key es) as [e|].
    - destruct Hfind as (es1 & es2 & -> & _ & _ & _ & -> & _).
      rewrite !enc_entries_app, enc_entries_cons. len_norm.
      pose proof (zlen_nonneg (enc_entry e)). lia.
    - destruct Hfind as (_ & _ & -> & _). lia. }
  split; [split|split; [|split]].
  - unfold del_count, count_ok, ZIPMAP_BIGLEN, wrap8 in *.
    destruct (has_key key es); [|lia].
    destruct (Z.ltb_spec n 254); [|lia].
    specialize (Hc ltac:(lia)). rewrite Z.mod_small by lia. lia.
  - apply del_entries_Forall. exact Hfree.
  - unfold del_count, count_ok, ZIPMAP_BIGLEN, wrap8 in *.
    destruct (has_key key es); [|intros Hlt; specialize (Hc Hlt); lia].
    destruct (Z.ltb_spec n 254); [|lia].
    specialize (Hc ltac:(lia)). rewrite Z.mod_small by lia. lia.
  - exact Hsz'.
  - intros Hnd. unfold zipmapExists.
    rewrite zipmapLookupRaw_stop_blob by lia.
    assert (Hgone : ~ In key (map zkey (del_entries key es))).
    { destruct (find_entry key es) as [e|].
      - destruct Hfind as (es1 & es2 & -> & Hk & Hn1 & _ & -> & _).
        rewrite map_app in *. cbn [map] in Hnd. apply List.NoDup_remove_2 in Hnd.
        rewrite Hk in Hnd. exact Hnd.
      - destruct Hfind as (_ & _ & -> & Hn1). exact Hn1. }
    pose proof (find_entry_split key (del_entries key es)) as Hfind'.
    destruct (find_entry key (del_entries key es)) as [e'|].
    + destruct Hfind' as (es1 & es2 & Heq & Hk & _). exfalso. apply Hgone.
      rewrite Heq, map_app. apply in_or_app. right. left. exact Hk.
    + destruct Hfind' as (Hf & _). rewrite Hf. reflexivity.
Qed.

Lemma zipmapDel_invariant_witness :
  exists n' es' deleted,
    zipmapDel (fun _ => 0) (blob 2 zm_example) [102; 111; 111] 3 = Ret (blob n' es', deleted)
    /\ zm_wf n' es' /\ count_ok n' es'
    /\ zlen (blob n' es') <= zlen (blob 2 zm_example)
    /\ (List.NoDup (map zkey zm_example) ->
        zipmapExists (blob n' es') [102; 111; 111] 3 = Ret 0).
Proof.
  apply (zipmapDel_invariant (fun _ => 0) 2 zm_example [102; 111; 111] zm_wf_example).
  - intros _. reflexivity.
  - vm_compute. reflexivity.
Defined.

Lemma del_entries_app_new (key val : list Z) (es : list zentry) :
  has_key key es = false -> del_entries key (es ++ [mkZentry key val []]) = es.
Proof.
  induction es as [|e es IH]; cbn [has_key existsb app del_entries].
  - intros _. cbn [zkey]. rewrite bool_decide_eq_true_2 by reflexivity. reflexivity.
  - fold (has_key key es). destruct (bool_decide (zkey e = key)); [discriminate|].
    cbn [orb]. intros H. rewrite (IH H). reflexivity.
Qed.

Lemma has_key_app_new (key val : list Z) (es : list zentry) :
  has_key key (es ++ [mkZentry key val []]) = true.
Proof.
  unfold has_key. rewrite existsb_app. cbn [existsb zkey].
  rewrite bool_decide_eq_true_2 by reflexivity. apply orb_true_iff. right. reflexivity.
Qed.

(** X9. Setting a key that the zipmap does not hold and deleting it again
    gives the zipmap back, byte for byte, as long as the count byte does
    not reach [ZIPMAP_BIGLEN] on the way. *)
Theorem zipmapDel_zipmapSet (fresh : nat -> Z) (n : Z) (es : list zentry)
    (key val : list Z) :
  zm_wf n es ->
  zlen (blob n es) + entry_size key val < 2^32 ->
  has_key key es = false ->
  n < ZIPMAP_BIGLEN - 1 ->
  exists zm',
    zipmapSet fresh (blob n es) key (zlen key) val (zlen val) = Ret (zm', 0)
    /\ zipmapDel fresh zm' key (zlen key) = Ret (blob n es, 1).
Proof.
  intros Hwf Hsz Hno Hn. pose proof Hwf as [Hn0 Hfree].
  pose proof (zipmapSet_blob fresh n es key val Hwf Hsz) as Hset.
  pose proof (find_entry_split key es) as Hfind.
  destruct (find_entry key es) as [e|];
    [destruct Hfind as (? & ? & _ & _ & _ & _ & _ & Hh); congruence|].
  destruct Hfind as (Hf & _).
  destruct (find_off_None key val es 1 (Hf 1)) as (_ & Hs).
  unfold set_count in Hset. rewrite Hno, Hs in Hset.
  unfold ZIPMAP_BIGLEN in *.
  replace (n <? 254) with true in Hset by (symmetry; apply Z.ltb_lt; lia).
  eexists. split; [exact Hset|].
  rewrite zipmapDel_blob.
  - unfold del_count. rewrite has_key_app_new, del_entries_app_new by exact Hno.
    unfold ZIPMAP_BIGLEN, wrap8.
    replace (n + 1 <? 254) with true by (symmetry; apply Z.ltb_lt; lia).
    rewrite Z.mod_small by lia. replace (n + 1 - 1) with n by lia. reflexivity.
  - split; [lia|]. apply Forall_app. split; [exact Hfree|].
    constructor; [|constructor]. cbn [zslack]. change (zlen []) with 0. lia.
  - rewrite zlen_blob in *. rewrite enc_entries_app, enc_entries_cons, enc_entry_mk.
    change (enc_entries []) with (@nil Z). unfold entry_size in Hsz. len_norm. lia.
Qed.

Lemma zipmapDel_zipmapSet_witness :
  exists zm',
    zipmapSet (fun _ => 0) (blob 2 zm_example) [97] 1 [98; 99] 2 = Ret (zm', 0)
    /\ zipmapDel (fun _ => 0) zm' [97] 1 = Ret (blob 2 zm_example, 1).
Proof.
  apply (zipmapDel_zipmapSet (fun _ => 0) 2 zm_example [97] [98; 99] zm_wf_example).
  - vm_compute. reflexivity.
  - reflexivity.
  - vm_compute. reflexivity.
Defined.

(** *** Iteration and sizes *)

Lemma zipmapNext_blob (n : Z) (es1 : list zentry) (e : zentry) (es2 : list zentry)
    (want_key want_value : bool) :
  zlen (blob n (es1 ++ e :: es2)) < 2^32 ->
  zipmapNext (blob n (es1 ++ e :: es2)) (1 + zlen (enc_entries es1)) want_key want_value
  = Ret (Some (1 + zlen (enc_entries (es1 ++ [e])),
               (if want_key
                then Some (1 + zlen (enc_entries es1) + ZIPMAP_LEN_BYTES (zlen (zkey e)),
                           zlen (zkey e))
                else None),
               (if want_value
                then Some (1 + zlen (enc_entries es1) + ZIPMAP_LEN_BYTES (zlen (zkey e))
                           + zlen (zkey e) + ZIPMAP_LEN_BYTES (zlen (zval e)) + 1,
                           zlen (zval e))
                else None))).
Proof.
  intros Hsz.
  destruct (entry_at n es1 e es2 Hsz)
    as ((b & Hb & Hne) & Hk & Hks & Hv & Hfr & _ & Hlen & Hnext & Hin).
  pose proof (zlen_nonneg (enc_entries es1)).
  pose proof (zlen_nonneg (zkey e)). pose proof (zlen_nonneg (zval e)).
  pose proof (zlen_nonneg (zslack e)).
  pose proof (enc_len_range (zlen (zkey e))) as Hr1.
  pose proof (enc_len_range (zlen (zval e))) as Hr2.
  rewrite enc_len_length in Hr1, Hr2.
  unfold zipmapNext, zipmapRawKeyLength, zipmapRawValueLength, zipmapEncodeLength_size.
  rewrite Hb. cbn [obind]. destruct (Z.eqb_spec b ZIPMAP_END); [contradiction|].
  rewrite Hk.
  assert (Hkk : (if want_key
                 then klen <- Ret (zlen (zkey e)) ;;
                      Ret (Some (1 + zlen (enc_entries es1) + ZIPMAP_LEN_BYTES klen, klen))
                 else Ret None)
                = Ret (if want_key
                       then Some (1 + zlen (enc_entries es1)
                                  + ZIPMAP_LEN_BYTES (zlen (zkey e)), zlen (zkey e))
                       else None)) by (destruct want_key; reflexivity).
  rewrite Hkk. cbn [obind]. rewrite wrap32_small by lia.
  rewrite Hv by lia.
  assert (Hvv : (if want_value
                 then vlen <- Ret (zlen (zval e)) ;;
                      Ret (Some (1 + zlen (enc_entries es1)
                                 + (ZIPMAP_LEN_BYTES (zlen (zkey e)) + zlen (zkey e))
                                 + 1 + ZIPMAP_LEN_BYTES vlen, vlen))
                 else Ret None)
                = Ret (if want_value
                       then Some (1 + zlen (enc_entries es1)
                                  + ZIPMAP_LEN_BYTES (zlen (zkey e)) + zlen (zkey e)
                                  + ZIPMAP_LEN_BYTES (zlen (zval e)) + 1, zlen (zval e))
                       else None)).
  { destruct want_value; [|reflexivity]. cbn [obind]. do 3 f_equal. lia. }
  rewrite Hvv. cbn [obind]. rewrite Hfr by lia. cbn [obind].
  rewrite (wrap32_small (zlen (zslack e) + 1)) by lia.
  rewrite (wrap32_small (zlen (zslack e) + 1 + zlen (zval e))) by lia.
  rewrite wrap32_small by lia. do 4 f_equal. lia.
Qed.

Lemma zipmapNext_end (n : Z) (es : list zentry) (want_key want_value : bool) :
  zipmapNext (blob n es) (1 + zlen (enc_entries es)) want_key want_value = Ret None.
Proof. unfold zipmapNext. rewrite end_at. reflexivity. Qed.

(** X10. [zipmapNext] walks the entries in order: at the offset of an
    entry it sets [*key], [*klen], [*value] and [*vlen] to the bytes of the
    key and of the value of this entry and returns the offset of the entry
    that follows; at the end marker it returns NULL. *)
Theorem zipmapNext_spec (n : Z) (es1 : list zentry) (e : zentry) (es2 : list zentry) :
  zlen (blob n (es1 ++ e :: es2)) < 2^32 ->
  let zm := blob n (es1 ++ e :: es2) in
  (exists ko vo,
     zipmapNext zm (1 + zlen (enc_entries es1)) true true
     = Ret (Some (1 + zlen (enc_entries (es1 ++ [e])),
                  Some (ko, zlen (zkey e)), Some (vo, zlen (zval e))))
     /\ slice zm ko (zlen (zkey e)) = Ret (zkey e)
     /\ slice zm vo (zlen (zval e)) = Ret (zval e))
  /\ zipmapNext zm (1 + zlen (enc_entries (es1 ++ e :: es2))) true true = Ret None.
Proof.
  intros Hsz zm. split; [|apply zipmapNext_end].
  destruct (entry_at n es1 e es2 Hsz) as (_ & _ & Hks & _ & _ & Hvs & _).
  exists (1 + zlen (enc_entries es1) + ZIPMAP_LEN_BYTES (zlen (zkey e))),
    (1 + zlen (enc_entries es1) + ZIPMAP_LEN_BYTES (zlen (zkey e))
     + zlen (zkey e) + ZIPMAP_LEN_BYTES (zlen (zval e)) + 1).
  split; [exact (zipmapNext_blob n es1 e es2 true true Hsz)|].
  split; [apply Hks|apply Hvs]; reflexivity.
Qed.

Lemma zipmapNext_spec_witness :
  let zm := blob 2 zm_example in
  (exists ko vo,
     zipmapNext zm (1 + zlen (enc_entries [])) true true
     = Ret (Some (1 + zlen (enc_entries ([] ++ [mkZentry [102; 111; 111] [98; 97; 114] []])),
                  Some (ko, 3), Some (vo, 3)))
     /\ slice zm ko 3 = Ret [102; 111; 111]
     /\ slice zm vo 3 = Ret [98; 97; 114])
  /\ zipmapNext zm (1 + zlen (enc_entries zm_example)) true true = Ret None.
Proof.
  apply (zipmapNext_spec 2 [] (mkZentry [102; 111; 111] [98; 97; 114] [])
           [mkZentry [104; 101; 108; 108; 111] [119; 111; 114; 108; 100] []]).
  vm_compute. reflexivity.
Defined.

Lemma zipmapLen_loop_blob (n : Z) (es2 : list zentry) :
  forall (es1 : list zentry) (fuel : nat) (len : Z),
  zlen (blob n (es1 ++ es2)) < 2^32 ->
  (length es2 < fuel)%nat ->
  0 <= len -> len + Z.of_nat (length es2) < 2^32 ->
  zipmapLen_loop fuel (blob n (es1 ++ es2)) (1 + zlen (enc_entries es1)) len
  = Ret (len + Z.of_nat (length es2)).
Proof.
  induction es2 as [|e es2 IH]; intros es1 fuel len Hsz Hf Hl Hb;
    (destruct fuel as [|fuel]; [simpl in Hf; lia|]); cbn [zipmapLen_loop].
  - rewrite app_nil_r, zipmapNext_end. cbn [obind length]. f_equal. lia.
  - rewrite zipmapNext_blob by exact Hsz. cbn [obind length] in *.
    rewrite wrap32_small by lia.
    rewrite (app_cons_assoc es1 e es2), IH;
      [f_equal; lia|rewrite <- app_cons_assoc; exact Hsz|lia|lia|lia].
Qed.

(** X11. [zipmapLen] returns the number of entries: it reads the count
    byte while this is below [ZIPMAP_BIGLEN] and counts the entries
    otherwise, storing the number in the count byte again if it is below
    [ZIPMAP_BIGLEN]. *)
Theorem zipmapLen_spec (n : Z) (es : list zentry) :
  zm_wf n es -> count_ok n es ->
  zlen (blob n es) < 2^32 ->
  zipmapLen (blob n es)
  = Ret (blob (if Z.of_nat (length es) <? ZIPMAP_BIGLEN then Z.of_nat (length es) else n) es,
         Z.of_nat (length es)).
Proof.
  intros [Hn Hfree] Hc Hsz. unfold zipmapLen.
  rewrite (rd_in _ [] n (enc_entries es ++ [ZIPMAP_END])); [|reflexivity|reflexivity].
  cbn [obind]. unfold count_ok in Hc.
  pose proof (enc_entries_length es) as Hle. rewrite zlen_blob in Hsz.
  destruct (Z.ltb_spec n ZIPMAP_BIGLEN) as [Hs|Hb].
  - rewrite <- (Hc Hs). replace (n <? ZIPMAP_BIGLEN) with true
      by (symmetry; apply Z.ltb_lt; exact Hs). reflexivity.
  - pose proof (zipmapLen_loop_blob n es [] (length (blob n es)) 0) as Hloop.
    cbn [app] in Hloop. change (zlen (enc_entries [])) with 0 in Hloop.
    rewrite Z.add_0_r in Hloop. unfold zipmapRewind. rewrite Hloop;
      [|rewrite zlen_blob; lia|pose proof (zlen_blob n es); unfold zlen in *; lia|lia|lia].
    cbn [obind]. rewrite Z.add_0_l.
    destruct (Z.ltb_spec (Z.of_nat (length es)) ZIPMAP_BIGLEN) as [Hs'|Hb'].
    + rewrite (wr_in _ [] [n] (enc_entries es ++ [ZIPMAP_END]));
        [|reflexivity|reflexivity|reflexivity].
      cbn [obind app]. unfold wrap8. rewrite Z.mod_small by (unfold ZIPMAP_BIGLEN in *; lia).
      reflexivity.
    + reflexivity.
Qed.

Lemma zipmapLen_spec_witness :
  zipmapLen (blob 254 zm_example) = Ret (blob 2 zm_example, 2).
Proof.
  apply (zipmapLen_spec 254 zm_example).
  - split; [lia|]. repeat constructor.
  - intros H. vm_compute in H. discriminate.
  - vm_compute. reflexivity.
Defined.

(** The scan of [zipmapLookupRaw(zm, NULL, 0, &totlen)]. *)
Lemma zipmapLookupRaw_loop_nokey (n : Z) (es2 : list zentry) :
  forall (es1 : list zentry) (fuel : nat) (k : option Z),
  zlen (blob n (es1 ++ es2)) < 2^32 ->
  (length es2 < fuel)%nat ->
  zipmapLookupRaw_loop fuel (blob n (es1 ++ es2)) None 0 (1 + zlen (enc_entries es1)) k
  = Ret (k, zlen (blob n (es1 ++ es2)) - 1).
Proof.
  induction es2 as [|e es2 IH]; intros es1 fuel k Hsz Hf;
    (destruct fuel as [|fuel]; [simpl in Hf; lia|]); cbn [zipmapLookupRaw_loop].
  - rewrite app_nil_r, end_at. cbn [obind]. change (ZIPMAP_END =? ZIPMAP_END) with true.
    cbv iota. rewrite zlen_blob. do 2 f_equal. lia.
  - destruct (entry_at n es1 e es2 Hsz)
      as ((b & Hb & Hne) & Hk & Hks & Hv & Hfr & _ & Hlen & Hnext & Hin).
    pose proof (zlen_nonneg (enc_entries es1)).
    pose proof (zlen_nonneg (zkey e)). pose proof (zlen_nonneg (zval e)).
    pose proof (zlen_nonneg (zslack e)).
    pose proof (enc_len_range (zlen (zkey e))) as Hr1.
    pose proof (enc_len_range (zlen (zval e))) as Hr2.
    rewrite enc_len_length in Hr1, Hr2.
    rewrite Hb. cbn [obind]. destruct (Z.eqb_spec b ZIPMAP_END); [contradiction|].
    rewrite Hk. cbn [obind]. unfold zipmapEncodeLength_size.
    rewrite wrap32_small by lia.
    rewrite Hv by lia. cbn [obind]. rewrite Hfr by lia. cbn [obind].
    rewrite wrap32_small by lia.
    replace (_ + _ + _ + (zlen (zval e) + 1 + zlen (zslack e)))
      with (1 + zlen (enc_entries (es1 ++ [e]))) by lia.
    rewrite (app_cons_assoc es1 e es2), IH;
      [reflexivity|rewrite <- app_cons_assoc; exact Hsz|simpl in Hf; lia].
Qed.

(** X12. [zipmapBlobLen] is the number of bytes of the zipmap, the end
    marker included. *)
Theorem zipmapBlobLen_spec (n : Z) (es : list zentry) :
  zlen (blob n es) < 2^32 ->
  zipmapBlobLen (blob n es) = Ret (zlen (blob n es)).
Proof.
  intros Hsz. unfold zipmapBlobLen, zipmapLookupRaw.
  pose proof (zipmapLookupRaw_loop_nokey n es [] (length (blob n es)) None) as H.
  cbn [app] in H. change (zlen (enc_entries [])) with 0 in H. rewrite Z.add_0_r in H.
  rewrite H; [|exact Hsz|].
  - cbn [obind fst snd]. pose proof (zlen_nonneg (enc_entries es)).
    rewrite zlen_blob in *.
    rewrite (wrap32_small (zlen (enc_entries es) + 2 - 1)) by lia.
    rewrite wrap32_small by lia. f_equal. lia.
  - pose proof (enc_entries_length es). pose proof (zlen_blob n es). unfold zlen in *. lia.
Qed.

Lemma zipmapBlobLen_spec_witness : zipmapBlobLen (blob 2 zm_example) = Ret 24.
Proof. apply (zipmapBlobLen_spec 2 zm_example). vm_compute. reflexivity. Defined.

(** X13. A length written by [zipmapEncodeLength] is read back by
    [zipmapDecodeLength]; it takes one byte below [ZIPMAP_BIGLEN] and five
    bytes otherwise, and the other bytes of the zipmap stay as they are. *)
Theorem zipmapDecodeLength_zipmapEncodeLength (pre mid post : list Z) (l : Z) :
  0 <= l < 2^32 ->
  zlen mid = ZIPMAP_LEN_BYTES l ->
  exists new,
    zipmapEncodeLength (pre ++ mid ++ post) (zlen pre) l
    = Ret (pre ++ new ++ post, ZIPMAP_LEN_BYTES l)
    /\ zlen new = ZIPMAP_LEN_BYTES l
    /\ zipmapDecodeLength (pre ++ new ++ post) (zlen pre) = Ret l.
Proof.
  intros Hl Hm. exists (enc_len l). rewrite <- enc_len_length in *.
  split; [apply (encode_in _ pre mid post); [reflexivity|reflexivity|exact Hm|exact Hl]|].
  split; [reflexivity|]. apply decode_at; [exact Hl|reflexivity].
Qed.

Lemma zipmapDecodeLength_zipmapEncodeLength_witness :
  exists new,
    zipmapEncodeLength ([7] ++ [0; 0; 0; 0; 0] ++ [255]) (zlen [7]) 70000
    = Ret ([7] ++ new ++ [255], ZIPMAP_LEN_BYTES 70000)
    /\ zlen new = ZIPMAP_LEN_BYTES 70000
    /\ zipmapDecodeLength ([7] ++ new ++ [255]) (zlen [7]) = Ret 70000.
Proof.
  apply (zipmapDecodeLength_zipmapEncodeLength [7] [0; 0; 0; 0; 0] [255] 70000).
  - lia.
  - reflexivity.
Defined.

End ZipmapOps.
